(* ===== verification/_CoqProject ===== *)
-Q . S2P
Prelude.v
Header.v
Frame.v
Config.v
Command.v
Rtt.v
ChunkList.v
FlowControl.v
Shared.v
Heap.v
Channel.v
TaggedStream.v
StreamHandle.v
Parking.v
StreamSpec.v
StreamWrite.v
Link.v
FrameIo.v
FrameIoSpec.v
FrameRoundTrip.v
Generators.v
Loopback.v
Connection.v
ConnInvariant.v
ConnSteps.v
ConnHandlers.v
Wakeups.v
ConnLoop.v
LinkRefine.v
Joined.v
Forward.v
Transport.v
PeerStore.v
Closing.v
ClosingSpec.v
ConnectionState.v
Text.v
Harness.v
ConnStateSpec.v
FramedSocket.v
Fifo.v
UnitTests.v
System.v
Servers.v
PeerSteps.v
PeerFrames.v
Parting.v
PeerMethods.v
Peers.v
Example.v
StreamProps.v
ConnProps.v
SystemProps.v
LinkProps.v
ForwardProps.v
PeersProps.v
ClosingProps.v
Stranded.v
