(* ===== verification/Prelude.v ===== *)
(** * A verification development for the Yamux multiplexer

    ** The program

    [yamux/src] multiplexes byte streams over one reliable connection. A [Connection] owns the
    socket; it reads frames from it, keeps the record of every stream in a map, and queues frames
    for it. The owner of a [Stream] handle reads and writes through the same record, and sends
    frames to the connection over a bounded channel. The two sides share, per stream, a mutex with
    the state, the windows, the bytes not yet read and the wakers of the tasks that are parked, and
    per connection the round-trip time and the counter of window bytes granted beyond the default.

    ** The files, from the bottom up

    - This file: outcomes ([Ret], [Panic], [OutOfFuel]), the state monad [M] and its program logic
      [wp], loops with fuel, machine integers, bytes, sums over finite maps.
    - [Header], [Frame]: [frame/header.rs], [frame.rs], the error types. The phantom message types
      and the traits that say which flags they may carry are types and classes here too.
    - [Config], [Command]: [lib.rs]; the commands, actions and modes of [connection.rs].
    - [Rtt], [ChunkList], [FlowControl]: [connection/rtt.rs], [chunks.rs],
      [connection/stream/flow_control.rs].
    - [Shared], [Heap]: [State] and [Shared] of [connection/stream.rs], and the memory of
      [Arc<Mutex<Shared>>] cells with their reference counts, the shared counter, the [Rtt], the
      clock, and the list of the wakers that have been woken.
    - [Channel]: what the code uses of [mpsc], of [SelectAll] and of the framed socket, as classes.
      [TaggedStream]: [tagged_stream.rs].
    - [StreamHandle]: the operations of [Stream]; [StreamSpec], [StreamWrite] prove them,
      [StreamProps] states the properties. [Parking]: what is documented of senders that wait for
      room, why the halves of a stream do not take each other's wake-up, and the unit test of
      [connection/stream.rs].
    - [Link]: the contract between the two ends of a stream, a machine of two records and two queues
      of frames, with its invariant. The ends write, read, close, reset and drop their handles.
    - [FrameIo]: [frame/io.rs], the two state machines of [Io]; [FrameIoSpec] has the reference
      parser ([parse_frame], [parses]) and the proofs, [FrameRoundTrip] the properties.
    - [Connection]: [Active] of [connection.rs], one definition per method, with [Active::poll] cut
      into the four parts of its body. [ConnInvariant] has the invariant [conn_ok], [ConnSteps] the
      steps that handlers share, [ConnHandlers] the handlers, [LinkRefine] the proofs that handles and
      handlers run the machine of [Link], [Wakeups] the wake-ups, [ConnLoop] the loop, dropped handles
      and opening streams, [Forward] what a poll makes of the commands it takes; [ConnProps] and
      [ForwardProps] state the properties.
    - [Closing]: [connection/closing.rs], [connection/cleanup.rs], [Active::close],
      [Active::cleanup]; [ClosingSpec] proves them, and [ClosingProps] states what closing sends.
    - [ConnectionState]: [Connection] and [ConnectionState]; [ConnStateSpec] proves them.
    - [Text]: identifiers of connections, [Display], [Debug], sources and conversions of errors.
    - [Generators]: [quickcheck-ext] and the [Arbitrary] instances of the crate and of its test
      harness; what they generate, and the unit tests as theorems about all of it. [Loopback]: the
      property test of [frame/io.rs], over a cursor.
    - [Harness]: the futures of [test-harness/src/lib.rs] that drive connections, with the [async]
      blocks they run on streams; [UnitTests]: the test of [closing.rs], and the harness at work.
      [Servers]: its other servers, and how it connects two peers over TCP.
    - [FramedSocket]: [Fuse] over [Io] as the framed socket of the connection; its laws are
      proved from those of the byte socket, so that nothing is assumed of the framing layer.
    - [Fifo]: a channel and a [SelectAll] that satisfy the laws of the interfaces.
    - [System]: a connection together with all its handles. [sys_step] is any operation of any
      handle or of the connection, in any order; [sys_ok] is the invariant of all interleavings.
    - [Joined]: two connections over a pair of byte streams, seen from outside: of each side the ends
      of its streams with the frames that wait in their channels, the frames it has written and read,
      and its pings. The invariant [joined] makes every stream a state of the machine of [Link].
      [Transport] says what two peers rely on in channels and sockets, [PeerStore] how the streams of
      a side are stored in its memory, map and channels. [PeerSteps], [PeerFrames]: each part of
      [Active::poll], and opening a stream, keep a side in step with its view. [Parting]: what remains
      of a side whose connection closes, fails or is dropped; [PeerMethods]: the methods of
      [Connection] keep a side joined, whatever they end in. [Peers]: a client and a server with the
      programs that hold their handles, [peer_step] being any operation of either, or one dropping
      its connection.
    - [Example]: a connection that runs, for the witnesses. [SystemProps] states the properties of
      connection and system, [LinkProps] those of the two ends of a stream, [PeersProps] those of a
      client and a server. [Stranded]: a run of two connections that leaves a writer behind.

    ** How state and operations correspond

    A method [fn f(&mut self, ..) -> T] is a computation [M S T] on the state it reaches: a chunk
    list or flow controller is passed as a value, a handle works on the handle and the world, the
    active connection on [Active] and the world. The world is the memory and the channels. Results
    and polls are values ([Ok], [Err], [Ready], [Pending]); [assert!], [debug_assert!], [expect],
    [unreachable!], an arithmetic overflow, an index out of range and an access to a record that has
    been freed are [Panic]. Integers are integers of [Z] with the range of their Rust type
    written out where it matters; [usize] has any width the crate's static assertions allow. The
    readings of the clock are those of an arbitrary function. A mutex is held for a whole operation
    or handler, which is therefore one step of the system.

    ** The theorems

    - Codec and framing: the header format round-trips both ways and its errors are exact; the
      reader refines the reference parser however the bytes are cut, the writer puts exactly the
      accepted frames on the wire, and so frames round-trip between any two sockets.
    - Stream handles: every branch of reading, writing and closing, with the exact bytes, credit,
      flags and commands; the buffer is a queue of bytes; window updates and auto-tuning are exact.
    - The active connection: every handler of a frame on every branch, opening a stream, a dropped
      handle; no wake-up is lost; no frame can make it panic; commands reach the wire once, in order,
      under the identifier of their stream, and beyond them only what the connection itself has to say.
    - The connection: its methods are total, only move forward, never see the poisoned state; an
      error closes and wakes everything in the same call; closing sends what was pending, every command
      that is left in a channel, and one [GoAway], and nothing else.
    - The system: in every reachable interleaving nothing panics, every limit holds, and the connection
      goes through its states in one direction.
    - Two ends: handles and handlers refine one machine, in which, whatever the order of actions and
      deliveries, resets and dropped handles included, two peers never break each other's rules, a
      stream is two reliable byte pipes, and flow control does not deadlock while the reader keeps its
      handle; a reader that is parked has left the writer credit; the halves of a stream wait apart.
    - Two connections, over sockets to which no write fails and with room for one more stream whenever they
      are polled: in every interleaving of a client, a server and their programs, what is taken
      from a stream is a beginning of what has been written to it at the other side, also when
      connections close, fail or are dropped under handles that go on; none ever complains with a
      [GoAway]. A connection that closes in order loses nothing: what its programs have written
      arrives before the [GoAway], and can be read after the other connection has ended too. A read
      that reports the end to an active reader has seen all that was written, by a side that is active
      or has closed in order. As long as both connections are active every stream is a run of the
      machine of [Link], whose queues are what is in the wires, pending frames and channels, and no side
      has more credit than the other has room for. One way to strand a writer is exhibited, by a run:
      its remote has closed the stream and drops the handle.
    - Tests: the property tests hold of everything their generators make, shuffling permutes, the
      client of the integration tests accounts for its messages, and a server that drops every stream
      keeps its connection well-formed.

    ** Fuel

    [Active::poll], [Closing::poll], [Cleanup::poll] and the methods of [Connection] take the
    number of iterations as an argument. Their theorems have two parts, in the record [runs]:
    whatever the fuel, there is no panic and the post-condition holds of what is returned; and some
    fuel suffices, if the socket and the channels hold finitely much ([FiniteWork], with a measure
    that each iteration lowers). A socket that delivers frames forever does keep [Active::poll] in
    its loop. The loops of [Io] and of reading from a chunk list compute their own fuel from the
    bytes that are due, and it is proved that it never runs out.

    ** What is assumed, and what is left out

    - The byte socket ([AsyncIoLaws]): a call that returns [n] has moved the first [n] bytes of its
      buffer, and no other call has moved any; what happens when a socket claims more is
      [poisoned_sink]. The channels ([MpscLaws], [SelectAllLaws]): when all commands that are sent
      are well formed, so are those that are received, and [SelectAll] yields items of its members.
      A sender that says it is ready takes the next command ([ReadySenders]). Iterating a hash map
      gives its entries in some order ([MapOrder]). The laws have instances, and every theorem that
      uses them has a witness.
    - The clock ([instant_ok]): an [Instant] is at most 2^63 seconds after the origin, and a reading
      leaves room for ten seconds, so that adding the ping interval, which is checked, and doubling a
      round-trip time stay in range. Readings need not be monotone.
    - [usize_wide]: the theorems about received data take [usize] to be wide enough for twice the
      largest window. This excludes targets of 32 bits, where the byte count of a buffer could
      overflow once a window has grown to nearly 4 GiB.
    - For [commands_reach_the_wire]: channels are queues that have ended only when they are empty
      ([FifoLaws]), and [SelectAll] stops at the first item ([SelectAllTrace]).
    - Some theorems speak of sockets to which no write fails ([writable]), and say so: after a failed
      write the connection may replace a frame, as [poll_send] shows, which ignores the error.
    - For two connections: which channel a sender belongs to and how many senders a channel has, a
      receiver ending only when there are none ([ChannelLaws]); a closed channel keeps what it holds
      and takes no more ([ClosedChannels]); the members of a [SelectAll], which stay until they have
      ended ([SelectAllMembers]); that it waits or ends only when its receivers hold nothing, which
      is how futures wake it ([DrainLaws]); the bytes of the frames that a socket has delivered
      ([FrameSocketReads], proved of the framed socket). The theorems speak of runs ([met]) over sockets
      that are [writable], in which an active connection has room for one more stream when it is polled
      ([roomy]; a full connection answers a new stream with a [GoAway]), and has read no bytes but those
      that the other has been given to send, in order.
    - The test code: what quickcheck draws ([QuickcheckLaws]), a cursor over a vector ([CursorLaws]),
      what a [FuturesUnordered] holds ([FuturesUnorderedLaws]), how a full channel parks a sender
      ([Parking]), the combinators that servers are made of ([StreamExtLaws]) and the sockets of
      tokio ([Tokio]).
    - Left out: the calls of the logging macros; what dropping the receivers of third-party channels
      does beyond closing them; interleavings within an operation, between two of its critical
      sections; the driver of quickcheck, and the integration tests and benchmarks.

    ** Plan

    Next: two connections one of which is full; steps at the granularity of single critical sections; lost
    wake-ups for commands and for dropped handles. *)
From Stdlib Require Import ZArith Lia Strings.Byte.
From stdpp Require Import base option list gmap numbers.

#[global] Open Scope Z_scope.

(** ** Outcomes *)

(** What running a piece of Rust code gives: a value, a panic (a failed [assert!], [expect] or
    [unreachable!], an arithmetic overflow of the checked build, a slice index out of range), or,
    for a loop that is run with a bounded number of iterations, the bound being used up. *)
Inductive outcome (A : Type) : Type :=
| Ret (a : A)
| Panic
| OutOfFuel.
Arguments Ret {A} _.
Arguments Panic {A}.
Arguments OutOfFuel {A}.

#[export] Instance outcome_ret : MRet outcome := @Ret.
#[export] Instance outcome_bind : MBind outcome := fun A B f m =>
  match m with
  | Ret a => f a
  | Panic => Panic
  | OutOfFuel => OutOfFuel
  end.

(** Compute the binds of outcomes that are known. *)
Ltac outcome_simpl := unfold mbind, mret, outcome_bind, outcome_ret in *; simplify_eq/=.

(** [assert!(b)]. *)
Definition rust_assert (b : bool) : outcome unit := if b then Ret tt else Panic.

(** [Option::expect] and [Option::unwrap]. *)
Definition expect {A} (o : option A) : outcome A :=
  match o with Some a => Ret a | None => Panic end.

(** [std::result::Result] and [std::task::Poll]. *)
Inductive result (T E : Type) : Type :=
| Ok (t : T)
| Err (e : E).
Arguments Ok {T E} _.
Arguments Err {T E} _.

Inductive poll (A : Type) : Type :=
| Ready (a : A)
| Pending.
Arguments Ready {A} _.
Arguments Pending {A}.

#[export] Instance result_eq_dec {T E} `{EqDecision T, EqDecision E} : EqDecision (result T E).
Proof. solve_decision. Defined.
#[export] Instance poll_eq_dec {A} `{EqDecision A} : EqDecision (poll A).
Proof. solve_decision. Defined.
#[export] Instance outcome_eq_dec {A} `{EqDecision A} : EqDecision (outcome A).
Proof. solve_decision. Defined.

Definition poll_is_ready {A} (p : poll A) : bool :=
  match p with Ready _ => true | Pending => false end.

(** [Option::ok_or]. *)
Definition ok_or {A E} (o : option A) (e : E) : result A E :=
  match o with Some a => Ok a | None => Err e end.

(** ** The state monad with panics *)

(** A computation that reads and writes a state of type [S] and may panic. *)
Definition M (S A : Type) : Type := S -> outcome (A * S).

#[export] Instance M_ret {S} : MRet (M S) := fun A a s => Ret (a, s).
#[export] Instance M_bind {S} : MBind (M S) := fun A B f m s =>
  match m s with
  | Ret (a, s') => f a s'
  | Panic => Panic
  | OutOfFuel => OutOfFuel
  end.

Definition gets {S A} (f : S -> A) : M S A := fun s => Ret (f s, s).
Definition modify {S} (f : S -> S) : M S unit := fun s => Ret (tt, f s).
Definition lift {S A} (o : outcome A) : M S A := fun s =>
  match o with Ret a => Ret (a, s) | Panic => Panic | OutOfFuel => OutOfFuel end.

(** Run a computation on a part of the state. *)
Definition zoom {S T A} (get : S -> T) (set : T -> S -> S) (m : M T A) : M S A := fun s =>
  match m (get s) with
  | Ret (a, t) => Ret (a, set t s)
  | Panic => Panic
  | OutOfFuel => OutOfFuel
  end.

(** The weakest precondition of a computation that must not panic and must not run out of
    fuel. *)
Definition wp {S A} (m : M S A) (Q : A -> S -> Prop) (s : S) : Prop :=
  match m s with
  | Ret (a, s') => Q a s'
  | _ => False
  end.

(** The same for computations without state. *)
Definition returns {A} (o : outcome A) (Q : A -> Prop) : Prop :=
  match o with Ret a => Q a | _ => False end.

Section wp_rules.
Context {S : Type}.

Lemma wp_ret {A} (a : A) (Q : A -> S -> Prop) s : Q a s -> wp (mret a) Q s.
Proof. done. Qed.

Lemma wp_bind {A B} (m : M S A) (f : A -> M S B) (Q : B -> S -> Prop) s :
  wp m (fun a s' => wp (f a) Q s') s -> wp (m ≫= f) Q s.
Proof. unfold wp, mbind, M_bind. by destruct (m s) as [[a s']| |]. Qed.

Lemma wp_bind_inv {A B} (m : M S A) (f : A -> M S B) (Q : B -> S -> Prop) s :
  wp (m ≫= f) Q s -> wp m (fun a s' => wp (f a) Q s') s.
Proof. unfold wp, mbind, M_bind. by destruct (m s) as [[a s']| |]. Qed.

(** Grouping a sequence the other way. *)
Lemma wp_bind_inv2 {A B C} (m : M S A) (f : A -> M S B) (g : B -> M S C) (Q : C -> S -> Prop) s :
  wp ((m ≫= f) ≫= g) Q s -> wp (m ≫= fun a => f a ≫= g) Q s.
Proof. unfold wp, mbind, M_bind. by destruct (m s) as [[a s']| |]. Qed.

Lemma wp_gets {A} (f : S -> A) (Q : A -> S -> Prop) s : Q (f s) s -> wp (gets f) Q s.
Proof. done. Qed.

Lemma wp_modify (f : S -> S) (Q : unit -> S -> Prop) s : Q tt (f s) -> wp (modify f) Q s.
Proof. done. Qed.

Lemma wp_lift {A} (o : outcome A) (Q : A -> S -> Prop) s :
  returns o (fun a => Q a s) -> wp (lift o) Q s.
Proof. by destruct o. Qed.

Lemma wp_zoom {T A} (get : S -> T) (set : T -> S -> S) (m : M T A) (Q : A -> S -> Prop) s :
  wp m (fun a t => Q a (set t s)) (get s) -> wp (zoom get set m) Q s.
Proof. unfold wp, zoom. by destruct (m (get s)) as [[a t]| |]. Qed.

Lemma wp_mono {A} (m : M S A) (P Q : A -> S -> Prop) s :
  wp m P s -> (forall a s', P a s' -> Q a s') -> wp m Q s.
Proof. unfold wp. destruct (m s) as [[a s']| |]; eauto. Qed.

Lemma wp_and {A} (m : M S A) (P Q : A -> S -> Prop) s :
  wp m P s -> wp m Q s -> wp m (fun a s' => P a s' /\ Q a s') s.
Proof. unfold wp. destruct (m s) as [[a s']| |]; eauto. Qed.

(** What a computation returns is what it returns. *)
Lemma wp_eq {A} (m : M S A) (Q : A -> S -> Prop) s :
  wp m Q s -> wp m (fun a s' => Q a s' /\ m s = Ret (a, s')) s.
Proof. unfold wp. by destruct (m s) as [[a s']| |]. Qed.

(** A computation with a weakest precondition does return. *)
Lemma wp_returns {A} (m : M S A) (Q : A -> S -> Prop) s :
  wp m Q s -> exists a s', m s = Ret (a, s') /\ Q a s'.
Proof. unfold wp. destruct (m s) as [[a s']| |]; [eauto | done | done]. Qed.
End wp_rules.

Lemma returns_bind {A B} (m : outcome A) (f : A -> outcome B) (Q : B -> Prop) :
  returns m (fun a => returns (f a) Q) -> returns (m ≫= f) Q.
Proof. by destruct m. Qed.

Lemma returns_mono {A} (m : outcome A) (P Q : A -> Prop) :
  returns m P -> (forall a, P a -> Q a) -> returns m Q.
Proof. destruct m; simpl; eauto. Qed.

Lemma returns_inv {A} (m : outcome A) (Q : A -> Prop) :
  returns m Q -> exists a, m = Ret a /\ Q a.
Proof. destruct m; simpl; [eauto | done | done]. Qed.

(** ** Loops *)

(** [loop { .. }], for at most [fuel] iterations; an iteration that gives [None] goes on. *)
Fixpoint loop {S A} (iter : M S (option A)) (fuel : nat) : M S A :=
  match fuel with
  | O => lift OutOfFuel
  | Datatypes.S fuel =>
      r ← iter;
      match r with
      | Some a => mret a
      | None => loop iter fuel
      end
  end.

(** A computation that does not panic, and returns what satisfies [Q] if its fuel suffices. *)
Definition safe {S A} (m : M S A) (Q : A -> S -> Prop) (s : S) : Prop :=
  match m s with
  | Ret (a, s') => Q a s'
  | Panic => False
  | OutOfFuel => True
  end.

Section loop_rules.
Context {S A : Type}.
Implicit Type iter : M S (option A).

(** More fuel does not change how a loop ends. *)
Lemma loop_stable iter f f' s :
  loop iter f s <> OutOfFuel -> (f <= f')%nat -> loop iter f' s = loop iter f s.
Proof.
  revert f' s. induction f as [|f IH]; intros f' s Hl Hf; [done |].
  destruct f' as [|f']; [lia |]. simpl in *. unfold mbind, M_bind in *.
  destruct (iter s) as [[[a|] s']| |]; [done | apply IH; [done | lia] | done | done].
Qed.

Lemma loop_mono iter f f' s x : loop iter f s = Ret x -> (f <= f')%nat -> loop iter f' s = Ret x.
Proof. intros Hl Hf. rewrite (loop_stable iter f f' s); [done | by rewrite Hl | done]. Qed.

Lemma loop_safe iter (I : S -> Prop) (Q : A -> S -> Prop) f s :
  (forall s, I s -> wp iter (fun r s' => match r with Some a => Q a s' | None => I s' end) s) ->
  I s -> safe (loop iter f) Q s.
Proof.
  intros Hi. revert s. induction f as [|f IH]; intros s Hs; [done |]. unfold safe in *. simpl.
  unfold mbind, M_bind. specialize (Hi s Hs) as Hw. unfold wp in Hw.
  destruct (iter s) as [[[a|] s']| |]; [done | by apply IH | done | done].
Qed.

(** A loop whose iterations lower a measure returns when its fuel exceeds the measure. *)
Lemma loop_ok iter (I : S -> Prop) (mu : S -> nat) (Q : A -> S -> Prop) f s :
  (forall s, I s -> wp iter (fun r s' =>
     match r with Some a => Q a s' | None => I s' /\ (mu s' < mu s)%nat end) s) ->
  I s -> (mu s < f)%nat -> wp (loop iter f) Q s.
Proof.
  intros Hi. revert s. induction f as [|f IH]; intros s Hs Hf; [lia |]. simpl. apply wp_bind.
  eapply wp_mono; [by apply Hi |]. intros [a|] s' Hr; [done |]. destruct Hr as [Hs' Hlt].
  apply IH; [done | lia].
Qed.
End loop_rules.

(** ** Partial correctness *)

(** Whatever a computation returns satisfies [Q]; it may panic. *)
Definition post {S A} (m : M S A) (Q : A -> S -> Prop) (s : S) : Prop :=
  match m s with Ret (a, s') => Q a s' | _ => True end.

Lemma post_ret {S A} (a : A) (Q : A -> S -> Prop) s : Q a s -> post (mret a) Q s.
Proof. done. Qed.

Lemma post_bind {S A B} (m : M S A) (f : A -> M S B) (Q : B -> S -> Prop) s :
  post m (fun a s' => post (f a) Q s') s -> post (m ≫= f) Q s.
Proof. unfold post, mbind, M_bind. by destruct (m s) as [[a s']| |]. Qed.

Lemma post_mono {S A} (m : M S A) (P Q : A -> S -> Prop) s :
  post m P s -> (forall a s', P a s' -> Q a s') -> post m Q s.
Proof. unfold post. destruct (m s) as [[a s']| |]; eauto. Qed.

(** A loop that returns begins with an iteration. *)
Lemma loop_first {S A} (iter : M S (option A)) fuel s a s' :
  loop iter fuel s = Ret (a, s') ->
  exists o s1, iter s = Ret (o, s1) /\
    match o with Some b => b = a /\ s1 = s' | None => exists f, loop iter f s1 = Ret (a, s') end.
Proof.
  destruct fuel as [|fuel]; [done |]. simpl. unfold mbind, M_bind.
  destruct (iter s) as [[[b|] s1]| |]; [| | done..]; intros He; do 2 eexists; (split; [reflexivity |]).
  - by injection He as <- <-.
  - by exists fuel.
Qed.

(** Together with what is known of a computation that returns. *)
Lemma post_wp {S A} (m : M S A) (P Q : A -> S -> Prop) s : wp m P s -> post m Q s -> post m (fun a s' => P a s' /\ Q a s') s.
Proof. unfold wp, post. by destruct (m s) as [[a s']| |]. Qed.

Lemma wp_post {S A} (m : M S A) (Q : A -> S -> Prop) s : wp m Q s -> post m Q s.
Proof. unfold wp, post. by destruct (m s) as [[a s']| |]. Qed.

Lemma post_lift {S A} (o : outcome A) (Q : A -> S -> Prop) s : (forall a, o = Ret a -> Q a s) -> post (lift o) Q s.
Proof. unfold post, lift. destruct o; auto. Qed.

Lemma post_zoom {S T A} (get : S -> T) (set : T -> S -> S) (m : M T A) (Q : A -> S -> Prop) s :
  (forall a t, Q a (set t s)) -> post (zoom get set m) Q s.
Proof. intros HQ. unfold post, zoom. by destruct (m (get s)) as [[a t]| |]. Qed.

Lemma post_loop {S A} (iter : M S (option A)) (I : S -> Prop) (Q : A -> S -> Prop) fuel s :
  (forall s, I s -> post iter (fun r s' => match r with Some a => Q a s' | None => I s' end) s) ->
  I s -> post (loop iter fuel) Q s.
Proof.
  intros Hi. revert s. induction fuel as [|fuel IH]; intros s Hs; simpl; [done |].
  apply post_bind. eapply post_mono; [by apply Hi |]. intros [a|] s' Hr; [done | by apply IH].
Qed.

(** A computation that keeps an invariant of its state, and one all of whose results satisfy [Q]. *)
Definition preserves {S A} (I : S -> Prop) (m : M S A) : Prop := forall s, I s -> post m (fun _ => I) s.
Definition yields {S A} (Q : A -> Prop) (m : M S A) : Prop := forall s, post m (fun a _ => Q a) s.

Section preserves.
Context {S : Type} (I : S -> Prop).

Lemma preserves_ret {A} (a : A) : preserves I (mret a).
Proof. intros s Hs. exact Hs. Qed.
Lemma preserves_bind {A B} (m : M S A) (f : A -> M S B) :
  preserves I m -> (forall a, preserves I (f a)) -> preserves I (m ≫= f).
Proof. intros Hm Hf s Hs. apply post_bind. eapply post_mono; [by apply Hm |]. intros a s'. apply Hf. Qed.
Lemma preserves_lift {A} (o : outcome A) : preserves I (lift o).
Proof. intros s Hs. by apply post_lift. Qed.
Lemma preserves_gets {A} (f : S -> A) : preserves I (gets f).
Proof. intros s Hs. exact Hs. Qed.
Lemma preserves_modify (f : S -> S) : (forall s, I s -> I (f s)) -> preserves I (modify f).
Proof. intros Hf s Hs. by apply Hf. Qed.
Lemma preserves_zoom {T A} (get : S -> T) (set : T -> S -> S) (m : M T A) :
  (forall t s, I s -> I (set t s)) -> preserves I (zoom get set m).
Proof. intros Hset s Hs. apply post_zoom. intros a t. by apply Hset. Qed.

Lemma yields_ret {A} (Q : A -> Prop) (a : A) : Q a -> yields Q (mret a : M S A).
Proof. intros HQ s. exact HQ. Qed.
Lemma yields_bind {A B} (Q : B -> Prop) (m : M S A) (f : A -> M S B) : (forall a, yields Q (f a)) -> yields Q (m ≫= f).
Proof. intros Hf s. apply post_bind. unfold post. destruct (m s) as [[a s']| |]; [apply Hf | done..]. Qed.
Lemma yields_bind_of {A B} (P : A -> Prop) (Q : B -> Prop) (m : M S A) (f : A -> M S B) :
  yields P m -> (forall a, P a -> yields Q (f a)) -> yields Q (m ≫= f).
Proof. intros Hm Hf s. apply post_bind. eapply post_mono; [apply Hm |]. intros a s' Ha. by apply Hf. Qed.
End preserves.

(** Take a computation apart along its structure, with [go] for its calls. *)
Ltac walk go :=
  repeat first
    [ progress go
    | apply preserves_ret | apply preserves_lift | apply preserves_gets
    | apply yields_bind; intros ?
    | apply preserves_bind; [| intros ?]
    | match goal with
      | |- preserves _ (match ?e with _ => _ end) => destruct e
      | |- preserves _ (if ?e then _ else _) => destruct e
      | |- yields _ (match ?e with _ => _ end) => destruct e
      | |- yields _ (if ?e then _ else _) => destruct e
      end ].

(** ** Computations that take fuel *)

(** [m fuel] does not panic, whatever the fuel, and gives what satisfies [Q] when it gives anything;
    and, if [total], it gives the same result for all fuel that is large enough. *)
Record runs {A} (total : Prop) (m : nat -> outcome A) (Q : A -> Prop) : Prop := {
  runs_safe : forall fuel, match m fuel with Ret a => Q a | Panic => False | OutOfFuel => True end;
  runs_total : total -> exists fuel0 a, forall fuel, (fuel0 <= fuel)%nat -> m fuel = Ret a;
}.

Section runs_rules.
Context {total : Prop}.

Lemma runs_ret {A} (a : A) (Q : A -> Prop) : Q a -> runs total (fun _ => Ret a) Q.
Proof. intros HQ. split; [done |]. intros _. by exists O, a. Qed.

Lemma runs_mono {A} (m : nat -> outcome A) (P Q : A -> Prop) :
  runs total m P -> (forall a, P a -> Q a) -> runs total m Q.
Proof. intros [Hs Ht] HPQ. split; [| done]. intros fuel. specialize (Hs fuel). destruct (m fuel); eauto. Qed.

Lemma runs_bind {A B} (m : nat -> outcome A) (k : A -> nat -> outcome B) (P : A -> Prop) (Q : B -> Prop) :
  runs total m P -> (forall a, P a -> runs total (k a) Q) ->
  runs total (fun fuel => m fuel ≫= fun a => k a fuel) Q.
Proof.
  intros [Hs Ht] Hk. split.
  - intros fuel. specialize (Hs fuel). destruct (m fuel) as [a| |]; simpl; [| done | done].
    apply (Hk a Hs).
  - intros t. destruct (Ht t) as (f0 & a & Hm).
    assert (Ha : P a) by (specialize (Hs f0); by rewrite Hm in Hs).
    destruct (runs_total _ _ _ (Hk a Ha) t) as (f1 & b & Hb). exists (f0 + f1)%nat, b. intros f Hf.
    rewrite Hm by lia. simpl. apply Hb. lia.
Qed.

(** What needs no fuel. *)
Lemma runs_returns {A} (o : outcome A) (Q : A -> Prop) : returns o Q -> runs total (fun _ => o) Q.
Proof. intros (a & -> & HQ)%returns_inv. by apply runs_ret. Qed.

Lemma runs_returns_bind {A B} (o : outcome A) (k : A -> nat -> outcome B) (P : A -> Prop) (Q : B -> Prop) :
  returns o P -> (forall a, P a -> runs total (k a) Q) -> runs total (fun fuel => o ≫= fun a => k a fuel) Q.
Proof. intros Ho Hk. eapply (runs_bind (fun _ => o)); [by apply runs_returns | done]. Qed.

(** A loop without fuel in its iterations. *)
Lemma runs_loop {S A} (iter : M S (option A)) (Q : A * S -> Prop) s :
  (forall fuel, safe (loop iter fuel) (fun a s' => Q (a, s')) s) ->
  (total -> exists fuel, wp (loop iter fuel) (fun a s' => Q (a, s')) s) ->
  runs total (fun fuel => loop iter fuel s) Q.
Proof.
  intros Hs Ht. split.
  - intros fuel. specialize (Hs fuel). unfold safe in Hs. by destruct (loop iter fuel s) as [[]| |].
  - intros t. destruct (Ht t) as [f0 (a & s' & He & _)%wp_returns].
    exists f0, (a, s'). intros f Hf. by eapply loop_mono.
Qed.

(** A loop that ends gives the same result whenever it ends. *)
Lemma runs_loop_agree {S A} (iter : M S (option A)) fuel s x :
  loop iter fuel s = Ret x -> runs total (fun fuel => loop iter fuel s) (fun y => y = x).
Proof.
  intros Hl. split; [| intros _; exists fuel, x; intros f; by apply loop_mono].
  intros f.
  assert (Hd : loop iter f s = OutOfFuel \/ loop iter f s <> OutOfFuel)
    by (destruct (loop iter f s); [by right.. | by left]).
  destruct Hd as [-> | Hne]; [done |].
  assert (He : loop iter f s = loop iter fuel s); [| by rewrite He, Hl].
  destruct (Nat.le_ge_cases f fuel) as [Hf | Hf].
  - symmetry. by apply loop_stable.
  - apply loop_stable; [by rewrite Hl | done].
Qed.

(** A loop whose iterations take fuel as well, and lower a measure. *)
Lemma runs_loop_iter {S A} (iter : nat -> M S (option A)) (I : S -> Prop) (mu : S -> nat)
    (Q : A * S -> Prop) s :
  (forall s, I s -> runs total (fun fuel => iter fuel s) (fun '(r, s') =>
     match r with Some a => Q (a, s') | None => I s' /\ (mu s' < mu s)%nat end)) ->
  I s -> runs total (fun fuel => loop (iter fuel) fuel s) Q.
Proof.
  intros Hi Hs. split.
  - intros fuel.
    cut (forall n, match loop (iter fuel) n s with Ret a => Q a | Panic => False | OutOfFuel => True end).
    { intros H. apply H. }
    intros n. revert s Hs. induction n as [|n IH]; intros s Hs; simpl; [done |]. unfold mbind, M_bind.
    pose proof (runs_safe _ _ _ (Hi s Hs) fuel) as H. simpl in H.
    destruct (iter fuel s) as [[[a|] s']| |]; [done | apply IH, H | done | done].
  - intros t.
    cut (exists f0 x, forall f n, (f0 <= f)%nat -> (f0 <= n)%nat -> loop (iter f) n s = Ret x).
    { intros (f0 & x & H). exists f0, x. intros f Hf. by apply H. }
    remember (mu s) as k eqn:Hk. revert s Hs Hk. induction k as [k IH] using lt_wf_ind.
    intros s Hs ->. destruct (runs_total _ _ _ (Hi s Hs) t) as (f0 & [r s'] & Hf0).
    pose proof (runs_safe _ _ _ (Hi s Hs) f0) as H. simpl in H, Hf0. rewrite Hf0 in H by done.
    destruct r as [a|].
    + exists (1 + f0)%nat, (a, s'). intros f [|n] Hf Hn; [lia |]. simpl. unfold mbind, M_bind.
      by rewrite Hf0 by lia.
    + destruct H as [Hs' Hlt]. destruct (IH _ Hlt s' Hs' eq_refl) as (f1 & x & Hx).
      exists (1 + f0 + f1)%nat, x. intros f [|n] Hf Hn; [lia |]. simpl. unfold mbind, M_bind.
      rewrite Hf0 by lia. apply Hx; lia.
Qed.
End runs_rules.

(** One step of symbolic execution of a computation in the monad. *)
Ltac wp_step :=
  lazymatch goal with
  | |- wp (mret _) _ _ => apply wp_ret
  | |- wp (_ ≫= _) _ _ => apply wp_bind
  | |- wp (gets _) _ _ => apply wp_gets
  | |- wp (modify _) _ _ => apply wp_modify
  | |- wp (lift _) _ _ => apply wp_lift
  | |- wp (zoom _ _ _) _ _ => apply wp_zoom
  | |- returns (_ ≫= _) _ => apply returns_bind
  | |- returns (Ret _) _ => red
  | |- wp (match ?x with _ => _ end) _ _ => destruct x eqn:?
  end.
Ltac wp_steps := repeat (wp_step; cbn beta).

(** ** Machine integers *)

(** Unsigned integers are values of [Z]; the arithmetic of the checked build is written out:
    [+], [-] and [*] panic outside the range of their type. *)
Definition u8_max : Z := 2 ^ 8 - 1.
Definition u16_max : Z := 2 ^ 16 - 1.
Definition u32_max : Z := 2 ^ 32 - 1.
Definition u64_max : Z := 2 ^ 64 - 1.

(** The width of [usize]: any width that the static assertions of the crate allow. *)
Class Arch := {
  usize_bits : Z;
  usize_covers_u32 : 32 <= usize_bits;
  usize_fits_u64 : usize_bits <= 64;
}.

Definition arch64 : Arch.
Proof. refine {| usize_bits := 64 |}; lia. Defined.
Definition arch32 : Arch.
Proof. refine {| usize_bits := 32 |}; lia. Defined.

Definition usize_max `{Arch} : Z := 2 ^ usize_bits - 1.

Definition checked_add (max a b : Z) : option Z := if a + b <=? max then Some (a + b) else None.
Definition checked_sub (a b : Z) : option Z := if b <=? a then Some (a - b) else None.
Definition saturating_sub (a b : Z) : Z := Z.max 0 (a - b).
Definition saturating_mul (max a b : Z) : Z := Z.min max (a * b).
(** [a + b], [a - b] and [a * b]. *)
Definition add_ (max a b : Z) : outcome Z := expect (checked_add max a b).
Definition sub_ (a b : Z) : outcome Z := expect (checked_sub a b).
Definition mul_ (max a b : Z) : outcome Z := if a * b <=? max then Ret (a * b) else Panic.
(** [TryFrom] to a type with the maximum [max], and the truncating cast [as]. *)
Definition try_from (max a : Z) : option Z := if a <=? max then Some a else None.
Definition as_u32 (a : Z) : Z := a mod 2 ^ 32.
Definition as_usize `{Arch} (a : Z) : Z := a mod 2 ^ usize_bits.

Lemma usize_max_u32 `{Arch} : u32_max <= usize_max.
Proof.
  unfold u32_max, usize_max. pose proof usize_covers_u32.
  assert (2 ^ 32 <= 2 ^ usize_bits) by (apply Z.pow_le_mono_r; lia). lia.
Qed.

Lemma usize_max_u64 `{Arch} : usize_max <= u64_max.
Proof.
  unfold u64_max, usize_max. pose proof usize_covers_u32. pose proof usize_fits_u64.
  assert (2 ^ usize_bits <= 2 ^ 64) by (apply Z.pow_le_mono_r; lia). lia.
Qed.

Lemma as_u32_small a : 0 <= a <= u32_max -> as_u32 a = a.
Proof. intros. unfold as_u32, u32_max in *. apply Z.mod_small. lia. Qed.

Lemma as_usize_small `{Arch} a : 0 <= a <= usize_max -> as_usize a = a.
Proof. intros. unfold as_usize, usize_max in *. apply Z.mod_small. lia. Qed.

Lemma add_ret max a b : a + b <= max -> add_ max a b = Ret (a + b).
Proof. intros. unfold add_, checked_add. destruct (Z.leb_spec (a + b) max); [done | lia]. Qed.

Lemma sub_ret a b : b <= a -> sub_ a b = Ret (a - b).
Proof. intros. unfold sub_, checked_sub. destruct (Z.leb_spec b a); [done | lia]. Qed.

Lemma mul_ret max a b : a * b <= max -> mul_ max a b = Ret (a * b).
Proof. intros. unfold mul_. destruct (Z.leb_spec (a * b) max); [done | lia]. Qed.

Lemma checked_add_some max a b c :
  checked_add max a b = Some c <-> c = a + b /\ a + b <= max.
Proof. unfold checked_add. destruct (Z.leb_spec (a + b) max); split; intros; simplify_eq; try lia; intuition (congruence || lia). Qed.

Lemma checked_add_none max a b : checked_add max a b = None <-> max < a + b.
Proof. unfold checked_add. destruct (Z.leb_spec (a + b) max); split; intros; simplify_eq; try lia; intuition (congruence || lia). Qed.

Lemma checked_sub_some a b c : checked_sub a b = Some c <-> c = a - b /\ b <= a.
Proof. unfold checked_sub. destruct (Z.leb_spec b a); split; intros; simplify_eq; try lia; intuition (congruence || lia). Qed.

Lemma checked_sub_none a b : checked_sub a b = None <-> a < b.
Proof. unfold checked_sub. destruct (Z.leb_spec b a); split; intros; simplify_eq; try lia; intuition (congruence || lia). Qed.

Lemma rust_assert_ret b : b = true -> rust_assert b = Ret tt.
Proof. by intros ->. Qed.

(** ** Bytes *)

#[export] Instance byte_eq_decision : EqDecision byte := Byte.byte_eq_dec.

Definition byte_to_Z (b : byte) : Z := Z.of_N (Byte.to_N b).
Definition byte_of_Z (z : Z) : byte := default x00 (Byte.of_N (Z.to_N (z mod 256))).

Lemma byte_to_Z_range b : 0 <= byte_to_Z b < 256.
Proof. unfold byte_to_Z. pose proof (Byte.to_N_bounded b). lia. Qed.

Lemma byte_to_of_Z z : byte_to_Z (byte_of_Z z) = z mod 256.
Proof.
  unfold byte_to_Z, byte_of_Z.
  pose proof (Z.mod_pos_bound z 256 ltac:(lia)).
  destruct (Byte.of_N (Z.to_N (z mod 256))) as [b|] eqn:E; simpl.
  - apply Byte.to_of_N in E. rewrite E. lia.
  - apply Byte.of_N_None_iff in E. lia.
Qed.

Lemma byte_of_to_Z b : byte_of_Z (byte_to_Z b) = b.
Proof.
  unfold byte_of_Z. pose proof (byte_to_Z_range b). rewrite Z.mod_small by lia.
  unfold byte_to_Z. rewrite N2Z.id, Byte.of_to_N. done.
Qed.

(** [to_be_bytes] and [from_be_bytes], for a value of [n] bytes. *)
Fixpoint to_be_bytes (n : nat) (z : Z) : list byte :=
  match n with
  | O => []
  | S n => byte_of_Z (z / 256 ^ Z.of_nat n) :: to_be_bytes n z
  end.

Definition from_be_bytes (bs : list byte) : Z := foldl (fun acc b => acc * 256 + byte_to_Z b) 0 bs.

Lemma length_to_be_bytes n z : length (to_be_bytes n z) = n.
Proof. induction n; simpl; auto. Qed.

Lemma from_be_bytes_acc bs acc :
  foldl (fun acc b => acc * 256 + byte_to_Z b) acc bs
  = acc * 256 ^ Z.of_nat (length bs) + from_be_bytes bs.
Proof.
  unfold from_be_bytes. revert acc. induction bs as [|b bs IH]; intros acc; simpl foldl.
  - simpl. lia.
  - rewrite IH, (IH (0 * 256 + byte_to_Z b)). simpl length.
    rewrite Nat2Z.inj_succ, Z.pow_succ_r by lia. ring.
Qed.

Lemma from_be_bytes_cons b bs :
  from_be_bytes (b :: bs) = byte_to_Z b * 256 ^ Z.of_nat (length bs) + from_be_bytes bs.
Proof. unfold from_be_bytes at 1. simpl foldl. rewrite from_be_bytes_acc. ring. Qed.

Lemma from_be_bytes_range bs : 0 <= from_be_bytes bs < 256 ^ Z.of_nat (length bs).
Proof.
  induction bs as [|b bs IH]; [done |].
  rewrite from_be_bytes_cons. simpl length. rewrite Nat2Z.inj_succ, Z.pow_succ_r by lia.
  pose proof (byte_to_Z_range b). nia.
Qed.

Lemma from_to_be_bytes n z : from_be_bytes (to_be_bytes n z) = z mod 256 ^ Z.of_nat n.
Proof.
  induction n as [|n IH]; [by rewrite Z.mod_1_r |].
  simpl to_be_bytes. rewrite from_be_bytes_cons, IH, length_to_be_bytes, byte_to_of_Z.
  rewrite Nat2Z.inj_succ, Z.pow_succ_r, (Z.mul_comm 256) by lia.
  assert (0 < 256 ^ Z.of_nat n) by (apply Z.pow_pos_nonneg; lia).
  rewrite Z.rem_mul_r by lia. ring.
Qed.

Lemma from_to_be_bytes_small n z :
  0 <= z < 256 ^ Z.of_nat n -> from_be_bytes (to_be_bytes n z) = z.
Proof. intros. rewrite from_to_be_bytes. by apply Z.mod_small. Qed.

Lemma to_be_bytes_add n z k : to_be_bytes n (z + k * 256 ^ Z.of_nat n) = to_be_bytes n z.
Proof.
  revert z k. induction n as [|n IH]; intros z k; [done |].
  simpl. rewrite Nat2Z.inj_succ, Z.pow_succ_r by lia.
  assert (0 < 256 ^ Z.of_nat n) by (apply Z.pow_pos_nonneg; lia).
  f_equal.
  - replace (z + k * (256 * 256 ^ Z.of_nat n)) with (z + (k * 256) * 256 ^ Z.of_nat n) by ring.
    rewrite Z.div_add by lia. unfold byte_of_Z. by rewrite Z_mod_plus_full.
  - replace (z + k * (256 * 256 ^ Z.of_nat n)) with (z + (k * 256) * 256 ^ Z.of_nat n) by ring.
    apply IH.
Qed.

Lemma to_from_be_bytes bs : to_be_bytes (length bs) (from_be_bytes bs) = bs.
Proof.
  induction bs as [|b bs IH]; [done |].
  simpl length. simpl to_be_bytes. rewrite from_be_bytes_cons.
  pose proof (from_be_bytes_range bs).
  f_equal.
  - rewrite Z.div_add_l, Z.div_small, Z.add_0_r by lia. apply byte_of_to_Z.
  - rewrite (Z.add_comm (_ * _)), to_be_bytes_add. apply IH.
Qed.

(** ** Lists *)

(** The length of a slice as the [usize] the code sees. *)
Definition zlen {A} (l : list A) : Z := Z.of_nat (length l).

Lemma zlen_nonneg {A} (l : list A) : 0 <= zlen l.
Proof. unfold zlen. lia. Qed.
Lemma zlen_nil {A} : zlen (@nil A) = 0.
Proof. done. Qed.
Lemma zlen_cons {A} (x : A) l : zlen (x :: l) = 1 + zlen l.
Proof. unfold zlen. simpl. lia. Qed.
Lemma zlen_app {A} (l k : list A) : zlen (l ++ k) = zlen l + zlen k.
Proof. unfold zlen. rewrite length_app. lia. Qed.
Lemma zlen_take {A} n (l : list A) : zlen (take n l) = Z.min (Z.of_nat n) (zlen l).
Proof. unfold zlen. rewrite length_take. lia. Qed.
Lemma zlen_drop {A} n (l : list A) : zlen (drop n l) = Z.max 0 (zlen l - Z.of_nat n).
Proof. unfold zlen. rewrite length_drop. lia. Qed.

Create Rewrite HintDb zlen.
#[export] Hint Rewrite @zlen_nil @zlen_cons @zlen_app @zlen_take @zlen_drop : zlen.

Ltac zlen_lia :=
  autorewrite with zlen in *;
  repeat match goal with
  | |- context [zlen ?l] =>
      lazymatch goal with H : 0 <= zlen l |- _ => fail | _ => pose proof (zlen_nonneg l) end
  | _ : context [zlen ?l] |- _ =>
      lazymatch goal with H : 0 <= zlen l |- _ => fail | _ => pose proof (zlen_nonneg l) end
  end; lia.

(** [buf[n..n + src.len()].copy_from_slice(src)]: panics out of range. *)
Definition copy_from_slice (buf : list byte) (n : Z) (src : list byte) : outcome (list byte) :=
  if n + zlen src <=? zlen buf
  then Ret (take (Z.to_nat n) buf ++ src ++ drop (Z.to_nat (n + zlen src)) buf) else Panic.

Lemma copy_from_slice_ret buf n src :
  n + zlen src <= zlen buf ->
  copy_from_slice buf n src
  = Ret (take (Z.to_nat n) buf ++ src ++ drop (Z.to_nat (n + zlen src)) buf).
Proof. intros. unfold copy_from_slice. destruct (Z.leb_spec (n + zlen src) (zlen buf)); [done | lia]. Qed.

(** Copying behind what has been filled already. *)
Lemma copy_from_slice_app (pre tl src : list byte) :
  zlen src <= zlen tl ->
  copy_from_slice (pre ++ tl) (zlen pre) src = Ret (pre ++ src ++ drop (Z.to_nat (zlen src)) tl).
Proof.
  intros Hs. rewrite copy_from_slice_ret by zlen_lia. unfold zlen in *. f_equal.
  rewrite take_app_le, take_ge by lia. rewrite drop_app_ge by lia.
  do 3 f_equal. lia.
Qed.

(** ** Sums over finite maps *)

Section map_sum.
Context {K A : Type} `{Countable K} (f : A -> Z).

(** The sum of [f] over the values of a map. *)
Definition map_sum (m : gmap K A) : Z := map_fold (fun _ a s => f a + s) 0 m.

Lemma map_sum_empty : map_sum ∅ = 0.
Proof. apply map_fold_empty. Qed.

Lemma map_sum_insert i a (m : gmap K A) :
  m !! i = None -> map_sum (<[i := a]> m) = f a + map_sum m.
Proof. intros. unfold map_sum. rewrite map_fold_insert_L; [done | intros; lia | done]. Qed.

Lemma map_sum_delete i a (m : gmap K A) :
  m !! i = Some a -> map_sum (delete i m) = map_sum m - f a.
Proof.
  intros Hi. rewrite <- (insert_delete_id m i a Hi) at 2.
  rewrite map_sum_insert by apply lookup_delete_eq. lia.
Qed.

Lemma map_sum_update i a b (m : gmap K A) :
  m !! i = Some a -> map_sum (<[i := b]> m) = map_sum m - f a + f b.
Proof.
  intros Hi. rewrite <- insert_delete_eq.
  rewrite map_sum_insert by apply lookup_delete_eq. rewrite (map_sum_delete i a) by done. lia.
Qed.

Lemma map_sum_nonneg (m : gmap K A) :
  (forall i a, m !! i = Some a -> 0 <= f a) -> 0 <= map_sum m.
Proof.
  induction m as [|i a m Hi IH] using map_ind; intros Hf; [by rewrite map_sum_empty |].
  rewrite map_sum_insert by done.
  assert (0 <= f a) by (apply (Hf i a); apply lookup_insert_eq).
  assert (0 <= map_sum m); [| lia]. apply IH. intros j b Hj. apply (Hf j b).
  rewrite lookup_insert_ne; [done | congruence].
Qed.

Lemma map_sum_lookup_le i a (m : gmap K A) :
  (forall i a, m !! i = Some a -> 0 <= f a) -> m !! i = Some a -> f a <= map_sum m.
Proof.
  intros Hf Hi. assert (0 <= map_sum (delete i m)).
  { apply map_sum_nonneg. intros j b [? ?]%lookup_delete_Some. eauto. }
  rewrite (map_sum_delete i a) in H0 by done. lia.
Qed.
End map_sum.
