(* ===== verification/Header.v ===== *)
(** * Frame headers: [frame/header.rs]

    The header record with its phantom message type, the flag setters guarded by the marker
    traits, stream identifiers, and the 12 byte wire format with its decoder and decode errors. *)
From Stdlib Require Import ZArith Lia Strings.Byte.
From stdpp Require Import base option list numbers.
From S2P Require Import Prelude.

(** A tag is the runtime representation of a message type. *)
Inductive Tag : Set :=
| TagData
| TagWindowUpdate
| TagPing
| TagGoAway.

#[export] Instance Tag_eq_dec : EqDecision Tag.
Proof. solve_decision. Defined.

(** [hdr.tag as u8]. *)
Definition tag_as_u8 (t : Tag) : Z :=
  match t with TagData => 0 | TagWindowUpdate => 1 | TagPing => 2 | TagGoAway => 3 end.

(** The message types: empty enums that only index headers and frames. *)
Inductive Data : Set := .
Inductive WindowUpdate : Set := .
Inductive Ping : Set := .
Inductive GoAway : Set := .

(** [Either<A, B>] as a message type. *)
Definition Either (A B : Set) : Set := (A + B)%type.

(** The marker traits: which message types have which flag. *)
Class HasSyn (T : Set) : Set := has_syn {}.
#[export] Instance HasSyn_Data : HasSyn Data := has_syn _.
#[export] Instance HasSyn_WindowUpdate : HasSyn WindowUpdate := has_syn _.
#[export] Instance HasSyn_Ping : HasSyn Ping := has_syn _.
#[export] Instance HasSyn_Either {A B} `{HasSyn A, HasSyn B} : HasSyn (Either A B) := has_syn _.

Class HasAck (T : Set) : Set := has_ack {}.
#[export] Instance HasAck_Data : HasAck Data := has_ack _.
#[export] Instance HasAck_WindowUpdate : HasAck WindowUpdate := has_ack _.
#[export] Instance HasAck_Ping : HasAck Ping := has_ack _.
#[export] Instance HasAck_Either {A B} `{HasAck A, HasAck B} : HasAck (Either A B) := has_ack _.

Class HasFin (T : Set) : Set := has_fin {}.
#[export] Instance HasFin_Data : HasFin Data := has_fin _.
#[export] Instance HasFin_WindowUpdate : HasFin WindowUpdate := has_fin _.

Class HasRst (T : Set) : Set := has_rst {}.
#[export] Instance HasRst_Data : HasRst Data := has_rst _.
#[export] Instance HasRst_WindowUpdate : HasRst WindowUpdate := has_rst _.

(** The message frame header. [Version(u8)], [Flags(u16)], [StreamId(u32)] and [Len(u32)] are
    their numbers. *)
Record Header (T : Set) : Set := mkHeader {
  version : Z;
  tag : Tag;
  flags : Z;
  stream_id : Z;
  len : Z;
}.
Arguments mkHeader {T} _ _ _ _ _.
Arguments version {T} _.
Arguments tag {T} _.
Arguments flags {T} _.
Arguments stream_id {T} _.
Arguments len {T} _.

#[export] Instance Header_eq_dec {T} : EqDecision (Header T).
Proof. solve_decision. Defined.

(** What the field types [u8], [u16] and [u32] guarantee. *)
Definition header_typed {T} (h : Header T) : Prop :=
  0 <= version h <= u8_max /\ 0 <= flags h <= u16_max /\
  0 <= stream_id h <= u32_max /\ 0 <= len h <= u32_max.

(** Arbitrary type cast. *)
Definition cast {T} (U : Set) (h : Header T) : Header U :=
  mkHeader (version h) (tag h) (flags h) (stream_id h) (len h).

Definition header_right {T} (U : Set) (h : Header T) : Header (Either U T) := cast _ h.
Definition header_left {T} (U : Set) (h : Header T) : Header (Either T U) := cast _ h.
(** [From<Header<A>> for Header<()>]. *)
Definition header_erase {T} (h : Header T) : Header unit := cast unit h.

(** The casts back, with their [debug_assert_eq!]. *)
Definition header_into_data (h : Header unit) : outcome (Header Data) :=
  rust_assert (bool_decide (tag h = TagData)) ≫= fun _ => mret (cast Data h).
Definition header_into_window_update (h : Header unit) : outcome (Header WindowUpdate) :=
  rust_assert (bool_decide (tag h = TagWindowUpdate)) ≫= fun _ => mret (cast WindowUpdate h).
Definition header_into_ping (h : Header unit) : outcome (Header Ping) :=
  rust_assert (bool_decide (tag h = TagPing)) ≫= fun _ => mret (cast Ping h).

(** Possible flags set on a message. *)
Definition SYN : Z := 1.
Definition ACK : Z := 2.
Definition FIN : Z := 4.
Definition RST : Z := 8.

(** [Flags::contains]. *)
Definition flags_contains (self other : Z) : bool := Z.land self other =? other.

(** [self.flags.0 |= f]. *)
Definition or_flag {T} (f : Z) (h : Header T) : Header T :=
  mkHeader (version h) (tag h) (Z.lor (flags h) f) (stream_id h) (len h).

Definition header_syn {T} `{HasSyn T} (h : Header T) : Header T := or_flag SYN h.
Definition header_ack {T} `{HasAck T} (h : Header T) : Header T := or_flag ACK h.
Definition header_fin {T} `{HasFin T} (h : Header T) : Header T := or_flag FIN h.
Definition header_rst {T} `{HasRst T} (h : Header T) : Header T := or_flag RST h.

(** The constructors. *)
Definition header_data (id length : Z) : Header Data := mkHeader 0 TagData 0 id length.
Definition header_window_update (id credit : Z) : Header WindowUpdate :=
  mkHeader 0 TagWindowUpdate 0 id credit.
Definition header_ping (id : Z) : Header Ping := mkHeader 0 TagPing 0 0 id.
Definition header_go_away (code : Z) : Header GoAway := mkHeader 0 TagGoAway 0 0 code.
Definition header_term : Header GoAway := header_go_away 0.
Definition header_protocol_error : Header GoAway := header_go_away 1.
Definition header_internal_error : Header GoAway := header_go_away 2.

(** The credit a window update grants, the id of a ping. *)
Definition header_credit (h : Header WindowUpdate) : Z := len h.
Definition header_ping_id (h : Header Ping) : Z := len h.

(** Stream identifiers. *)
Definition CONNECTION_ID : Z := 0.
Definition is_server (id : Z) : bool := id mod 2 =? 0.
Definition is_client (id : Z) : bool := negb (is_server id).
Definition is_session (id : Z) : bool := id =? CONNECTION_ID.

(** The serialised header size in bytes. *)
Definition HEADER_SIZE : Z := 12.

(** Encode a header: a zeroed buffer written at fixed places. *)
Definition encode {T} (hdr : Header T) : list byte :=
  let buf := replicate (Z.to_nat HEADER_SIZE) x00 in
  let buf := <[0%nat := byte_of_Z (version hdr)]> buf in
  let buf := <[1%nat := byte_of_Z (tag_as_u8 (tag hdr))]> buf in
  let buf := list_inserts 2 (to_be_bytes 2 (flags hdr)) buf in
  let buf := list_inserts 4 (to_be_bytes 4 (stream_id hdr)) buf in
  list_inserts 8 (to_be_bytes 4 (len hdr)) buf.

(** Possible errors while decoding a message frame header. *)
Inductive HeaderDecodeError : Set :=
| HeaderVersion (v : Z)
| HeaderType (t : Z).

#[export] Instance HeaderDecodeError_eq_dec : EqDecision HeaderDecodeError.
Proof. solve_decision. Defined.

(** [buf[i]] of an array whose length is known statically. *)
Definition at_ (buf : list byte) (i : nat) : byte := nth i buf x00.

(** Decode a header from an array of 12 bytes. *)
Definition decode (buf : list byte) : result (Header unit) HeaderDecodeError :=
  if negb (byte_to_Z (at_ buf 0) =? 0) then Err (HeaderVersion (byte_to_Z (at_ buf 0)))
  else
    let tag_ :=
      match byte_to_Z (at_ buf 1) with
      | 0 => Ok TagData
      | 1 => Ok TagWindowUpdate
      | 2 => Ok TagPing
      | 3 => Ok TagGoAway
      | t => Err (HeaderType t)
      end in
    match tag_ with
    | Err e => Err e
    | Ok t =>
        Ok (mkHeader (byte_to_Z (at_ buf 0)) t
              (from_be_bytes [at_ buf 2; at_ buf 3])
              (from_be_bytes [at_ buf 4; at_ buf 5; at_ buf 6; at_ buf 7])
              (from_be_bytes [at_ buf 8; at_ buf 9; at_ buf 10; at_ buf 11]))
    end.

(** ** The wire format *)

(** The encoder writes the five fields one after the other, big endian. *)
Lemma encode_layout {T} (h : Header T) :
  encode h = byte_of_Z (version h) :: byte_of_Z (tag_as_u8 (tag h))
               :: to_be_bytes 2 (flags h) ++ to_be_bytes 4 (stream_id h) ++ to_be_bytes 4 (len h).
Proof. reflexivity. Qed.

Lemma length_encode {T} (h : Header T) : length (encode h) = 12%nat.
Proof. reflexivity. Qed.

Lemma zlen_encode {T} (h : Header T) : zlen (encode h) = HEADER_SIZE.
Proof. reflexivity. Qed.

Lemma encode_cast {T} (U : Set) (h : Header T) : encode (cast U h) = encode h.
Proof. reflexivity. Qed.

Lemma buffer_12 (buf : list byte) :
  length buf = 12%nat -> exists b0 b1 f0 f1 s0 s1 s2 s3 l0 l1 l2 l3,
    buf = [b0; b1; f0; f1; s0; s1; s2; s3; l0; l1; l2; l3].
Proof.
  intros H. do 12 (destruct buf as [|? buf]; [discriminate |]).
  destruct buf; [| discriminate]. repeat eexists.
Qed.

Lemma tag_byte t : byte_to_Z (byte_of_Z (tag_as_u8 t)) = tag_as_u8 t.
Proof. by destruct t. Qed.

(** Reading back what the encoder wrote at the fixed places. *)
Lemma decode_fields (v t : byte) (fl si le : list byte) :
  length fl = 2%nat -> length si = 4%nat -> length le = 4%nat ->
  decode (v :: t :: fl ++ si ++ le) =
    if negb (byte_to_Z v =? 0) then Err (HeaderVersion (byte_to_Z v))
    else match byte_to_Z t with
         | 0 => Ok (mkHeader (byte_to_Z v) TagData
                      (from_be_bytes fl) (from_be_bytes si) (from_be_bytes le))
         | 1 => Ok (mkHeader (byte_to_Z v) TagWindowUpdate
                      (from_be_bytes fl) (from_be_bytes si) (from_be_bytes le))
         | 2 => Ok (mkHeader (byte_to_Z v) TagPing
                      (from_be_bytes fl) (from_be_bytes si) (from_be_bytes le))
         | 3 => Ok (mkHeader (byte_to_Z v) TagGoAway
                      (from_be_bytes fl) (from_be_bytes si) (from_be_bytes le))
         | t => Err (HeaderType t)
         end.
Proof.
  intros Hf Hs Hl.
  do 2 (destruct fl as [|? fl]; [discriminate |]); destruct fl; [| discriminate].
  do 4 (destruct si as [|? si]; [discriminate |]); destruct si; [| discriminate].
  do 4 (destruct le as [|? le]; [discriminate |]); destruct le; [| discriminate].
  cbn [app]. unfold decode, at_, nth. destruct (negb _); [done |].
  by destruct (byte_to_Z t) as [|[[]|[]|]|].
Qed.

Lemma decode_encode_eq {T} (h : Header T) :
  header_typed h -> version h = 0 -> decode (encode h) = Ok (header_erase h).
Proof.
  intros (Hv & Hf & Hs & Hl) H0. rewrite encode_layout.
  rewrite decode_fields by apply length_to_be_bytes.
  rewrite H0, tag_byte. unfold u16_max, u32_max in *.
  rewrite !from_to_be_bytes_small by (simpl; lia).
  unfold header_erase, cast. rewrite H0. by destruct (tag h).
Qed.

(** C34: decoding an encoded header of the supported version gives the header back, whatever its
    message type, flags, stream and length, as long as they are values of their Rust types. *)
Theorem decode_encode {T} (h : Header T) :
  header_typed h -> version h = 0 -> decode (encode h) = Ok (header_erase h).
Proof. apply decode_encode_eq. Qed.

Lemma decode_encode_witness :
  decode (encode (header_fin (header_data 77 65536)))
  = Ok (mkHeader 0 TagData 4 77 65536).
Proof.
  apply (decode_encode (header_fin (header_data 77 65536)));
    [unfold header_typed; vm_compute; intuition discriminate | reflexivity].
Defined.

Lemma decode_canonical (buf : list byte) (h : Header unit) :
  length buf = 12%nat -> decode buf = Ok h ->
  encode h = buf /\ header_typed h /\ version h = 0.
Proof.
  intros Hlen Hd.
  destruct (buffer_12 buf Hlen) as (v & t & f0 & f1 & s0 & s1 & s2 & s3 & l0 & l1 & l2 & l3 & ->).
  change [v; t; f0; f1; s0; s1; s2; s3; l0; l1; l2; l3]
    with (v :: t :: [f0; f1] ++ [s0; s1; s2; s3] ++ [l0; l1; l2; l3]) in Hd |- *.
  rewrite decode_fields in Hd by done.
  destruct (byte_to_Z v =? 0) eqn:Hv; [| discriminate]. cbn [negb] in Hd.
  apply Z.eqb_eq in Hv. rewrite Hv in Hd.
  assert (Hb : exists tg, byte_to_Z t = tag_as_u8 tg /\
            h = mkHeader 0 tg (from_be_bytes [f0; f1]) (from_be_bytes [s0; s1; s2; s3])
                  (from_be_bytes [l0; l1; l2; l3])).
  { destruct (byte_to_Z t) as [|[[]|[]|]|]; simplify_eq;
      [exists TagData | exists TagGoAway | exists TagPing | exists TagWindowUpdate]; done. }
  destruct Hb as (tg & Ht & ->).
  rewrite encode_layout. cbn [version tag flags stream_id len].
  rewrite <- Ht, <- Hv, !byte_of_to_Z.
  pose proof (to_from_be_bytes [f0; f1]) as E1.
  pose proof (to_from_be_bytes [s0; s1; s2; s3]) as E2.
  pose proof (to_from_be_bytes [l0; l1; l2; l3]) as E3. cbn [length] in E1, E2, E3.
  rewrite E1, E2, E3. split; [done |]. split; [| done].
  assert (0 <= from_be_bytes [f0; f1] < 2 ^ 16) by apply from_be_bytes_range.
  assert (0 <= from_be_bytes [s0; s1; s2; s3] < 2 ^ 32) by apply from_be_bytes_range.
  assert (0 <= from_be_bytes [l0; l1; l2; l3] < 2 ^ 32) by apply from_be_bytes_range.
  unfold header_typed, u8_max, u16_max, u32_max. cbn [version flags stream_id len].
  pose proof (byte_to_Z_range v). lia.
Qed.

(** The format is canonical: a buffer that decodes is the encoding of what it decodes to, and
    the decoded fields fit their types. *)
Theorem encode_decode (buf : list byte) (h : Header unit) :
  length buf = 12%nat -> decode buf = Ok h ->
  encode h = buf /\ header_typed h /\ version h = 0.
Proof. apply decode_canonical. Qed.

Lemma encode_decode_witness :
  encode (mkHeader 0 TagPing 3 0 66051 : Header unit)
    = [x00; x02; x00; x03; x00; x00; x00; x00; x00; x01; x02; x03]
  /\ header_typed (mkHeader 0 TagPing 3 0 66051 : Header unit)
  /\ version (mkHeader 0 TagPing 3 0 66051 : Header unit) = 0.
Proof. apply encode_decode; reflexivity. Defined.

(** The decoder fails exactly on a version byte other than 0 and then on a type byte above 3,
    and reports that byte. *)
Theorem decode_errors (buf : list byte) :
  (forall v, decode buf = Err (HeaderVersion v) <-> v = byte_to_Z (at_ buf 0) /\ v <> 0) /\
  (forall t, decode buf = Err (HeaderType t) <->
     byte_to_Z (at_ buf 0) = 0 /\ t = byte_to_Z (at_ buf 1) /\ 3 < t).
Proof.
  unfold decode. pose proof (byte_to_Z_range (at_ buf 1)) as Hr.
  destruct (Z.eqb_spec (byte_to_Z (at_ buf 0)) 0) as [Hv | Hv]; cbn [negb].
  - assert (Hc : byte_to_Z (at_ buf 1) = 0 \/ byte_to_Z (at_ buf 1) = 1 \/
      byte_to_Z (at_ buf 1) = 2 \/ byte_to_Z (at_ buf 1) = 3 \/ 3 < byte_to_Z (at_ buf 1)) by lia.
    destruct Hc as [-> | [-> | [-> | [-> | Hc]]]].
    1-4: split; intros; split; intros; simplify_eq; intuition (discriminate || lia).
    destruct (byte_to_Z (at_ buf 1)) as [|[[p|p|]|[p|p|]|]|] eqn:E; try lia;
      (split; intros; split; intros; simplify_eq; intuition (discriminate || congruence || lia)).
  - split; intros; split; intros; simplify_eq; intuition congruence.
Qed.

(** ** Flags and stream identifiers *)

Lemma flags_contains_or f g : flags_contains (Z.lor f g) g = true.
Proof.
  unfold flags_contains. apply Z.eqb_eq. apply Z.bits_inj'. intros n _.
  rewrite Z.land_spec, Z.lor_spec. destruct (Z.testbit f n), (Z.testbit g n); done.
Qed.

(** Setting a flag leaves every disjoint flag as it was. *)
Lemma flags_contains_or_disjoint f g k :
  Z.land g k = 0 -> flags_contains (Z.lor f g) k = flags_contains f k.
Proof.
  intros H. unfold flags_contains.
  by rewrite Z.land_lor_distr_l, H, Z.lor_0_r.
Qed.

Lemma or_flag_typed {T} f (h : Header T) :
  header_typed h -> 0 <= f <= u16_max -> header_typed (or_flag f h).
Proof.
  unfold header_typed, or_flag, u16_max. cbn [version flags stream_id len].
  intros (Hv & Hf & Hs & Hl) Hr. split; [done |]. split; [| done].
  split; [apply Z.lor_nonneg; lia |].
  assert (Z.lor (flags h) f < 2 ^ 16); [| lia].
  destruct (Z.eq_dec (Z.lor (flags h) f) 0) as [-> | Hn]; [lia |].
  assert (0 < Z.lor (flags h) f) by (assert (0 <= Z.lor (flags h) f) by (apply Z.lor_nonneg; lia); lia).
  apply Z.log2_lt_pow2; [done |]. rewrite Z.log2_lor by lia.
  apply Z.max_lub_lt;
    [destruct (Z.eq_dec (flags h) 0) as [-> | ?] | destruct (Z.eq_dec f 0) as [-> | ?]];
    try (simpl; lia); apply Z.log2_lt_pow2; lia.
Qed.

Lemma is_client_server id : is_client id = negb (is_server id).
Proof. done. Qed.

Lemma is_server_add_2 id : is_server (id + 2) = is_server id.
Proof. unfold is_server. by replace (id + 2) with (id + 1 * 2) by lia; rewrite Z_mod_plus_full. Qed.

Lemma is_client_add_2 id : is_client (id + 2) = is_client id.
Proof. unfold is_client. by rewrite is_server_add_2. Qed.

(** ** The phantom types *)

(** The tags that a header of a message type can have. *)
Class MessageType (T : Set) : Set := tags : list Tag.
#[global] Arguments tags T {_}.
#[export] Instance message_data : MessageType Data := [TagData].
#[export] Instance message_window_update : MessageType WindowUpdate := [TagWindowUpdate].
#[export] Instance message_ping : MessageType Ping := [TagPing].
#[export] Instance message_go_away : MessageType GoAway := [TagGoAway].
#[export] Instance message_either {A B} `{MessageType A, MessageType B} : MessageType (Either A B) := tags A ++ tags B.
#[export] Instance message_any : MessageType unit := [TagData; TagWindowUpdate; TagPing; TagGoAway].

(** The headers that the functions of the module can make, with their types: the constructors on
    values of their Rust types, the setters of the flags that a type has, the casts, and the decoder. *)
Inductive made : forall T `{MessageType T}, Header T -> Prop :=
| made_data id n : 0 <= id <= u32_max -> 0 <= n <= u32_max -> made Data (header_data id n)
| made_window_update id n : 0 <= id <= u32_max -> 0 <= n <= u32_max -> made WindowUpdate (header_window_update id n)
| made_ping n : 0 <= n <= u32_max -> made Ping (header_ping n)
| made_go_away n : 0 <= n <= u32_max -> made GoAway (header_go_away n)
| made_syn T `{MessageType T, HasSyn T} h : made T h -> made T (header_syn h)
| made_ack T `{MessageType T, HasAck T} h : made T h -> made T (header_ack h)
| made_fin T `{MessageType T, HasFin T} h : made T h -> made T (header_fin h)
| made_rst T `{MessageType T, HasRst T} h : made T h -> made T (header_rst h)
| made_left T U `{MessageType T, MessageType U} h : made T h -> made (Either T U) (header_left U h)
| made_right T U `{MessageType T, MessageType U} h : made T h -> made (Either U T) (header_right U h)
| made_erased T `{MessageType T} h : made T h -> made unit (header_erase h)
| made_into_data h d : made unit h -> header_into_data h = Ret d -> made Data d
| made_into_window_update h d : made unit h -> header_into_window_update h = Ret d -> made WindowUpdate d
| made_into_ping h d : made unit h -> header_into_ping h = Ret d -> made Ping d
| made_decoded buf h : length buf = 12%nat -> decode buf = Ok h -> made unit h.

Lemma tags_any t : t ∈ tags unit.
Proof. apply list_elem_of_In. destruct t; simpl; auto. Qed.

(** A cast back gives the header back, or its assertion fails. *)
Lemma cast_back {U : Set} (t : Tag) (h : Header unit) :
  (rust_assert (bool_decide (tag h = t)) ≫= fun _ => mret (cast U h))
  = if decide (tag h = t) then Ret (cast U h) else Panic.
Proof. destruct (decide (tag h = t)); [by rewrite bool_decide_eq_true_2 | by rewrite bool_decide_eq_false_2]. Qed.

Lemma made_typed T `{MessageType T} (h : Header T) :
  made T h -> header_typed h /\ version h = 0 /\ tag h ∈ tags T.
Proof.
  assert (Hflag : forall f, f = SYN \/ f = ACK \/ f = FIN \/ f = RST -> 0 <= f <= u16_max)
    by (intros f; unfold SYN, ACK, FIN, RST, u16_max; lia).
  induction 1 as [| | | | T ? ? h _ IH | T ? ? h _ IH | T ? ? h _ IH | T ? ? h _ IH | T U ? ? h _ IH | T U ? ? h _ IH
    | T ? h _ IH | h d _ IH Hd | h d _ IH Hd | h d _ IH Hd | buf h Hb Hd];
    try (destruct IH as (Ht & Hv & Hin));
    try (split; [apply or_flag_typed; auto | done]);
    try (unfold header_typed, u8_max, u16_max in *; simpl; split_and!; try (done || lia); by left).
  - split; [done |]. split; [done |]. apply elem_of_app. by left.
  - split; [done |]. split; [done |]. apply elem_of_app. by right.
  - split; [done |]. split; [done |]. apply tags_any.
  - unfold header_into_data in Hd. rewrite cast_back in Hd. case_decide as E; [| done]. injection Hd as <-.
    split; [done |]. split; [done |]. simpl. rewrite E. by left.
  - unfold header_into_window_update in Hd. rewrite cast_back in Hd. case_decide as E; [| done]. injection Hd as <-.
    split; [done |]. split; [done |]. simpl. rewrite E. by left.
  - unfold header_into_ping in Hd. rewrite cast_back in Hd. case_decide as E; [| done]. injection Hd as <-.
    split; [done |]. split; [done |]. simpl. rewrite E. by left.
  - destruct (decode_canonical _ _ Hb Hd) as (_ & Ht & Hv). split_and!; [done | done | apply tags_any].
Qed.

(** C35: the phantom types are sound. Whatever header the module makes, from constructors, flag
    setters, casts and decoded bytes in any combination, its fields fit their Rust types, its version
    is 0, and its tag is one that its message type allows. Therefore it survives the wire, and the
    casts back from [Header<()>] succeed on exactly the headers that were of the type, and give them
    back unchanged; on others their assertion fails. *)
Theorem message_types_sound T `{MessageType T} (h : Header T) :
  made T h ->
  header_typed h /\ version h = 0 /\ tag h ∈ tags T /\ decode (encode h) = Ok (header_erase h) /\
  header_into_data (header_erase h) = (if decide (tag h = TagData) then Ret (cast Data h) else Panic) /\
  header_into_window_update (header_erase h)
    = (if decide (tag h = TagWindowUpdate) then Ret (cast WindowUpdate h) else Panic) /\
  header_into_ping (header_erase h) = (if decide (tag h = TagPing) then Ret (cast Ping h) else Panic).
Proof.
  intros Hm. destruct (made_typed T h Hm) as (Ht & Hv & Hin). split_and!; try done.
  - by apply decode_encode_eq.
  - apply (cast_back (U := Data) TagData).
  - apply (cast_back (U := WindowUpdate) TagWindowUpdate).
  - apply (cast_back (U := Ping) TagPing).
Qed.

Lemma message_types_sound_witness :
  header_into_window_update (header_erase (header_left Ping (header_syn (header_window_update 1 2))))
  = Ret (header_syn (header_window_update 1 2)).
Proof.
  apply (message_types_sound (Either WindowUpdate Ping) (header_left Ping (header_syn (header_window_update 1 2)))).
  apply made_left, made_syn, made_window_update; vm_compute; split; discriminate.
Defined.
