(* ===== verification/Frame.v ===== *)
(** * Frames and errors: [frame.rs], [error.rs], [FrameDecodeError] of [frame/io.rs]

    A frame is a header with a body; its constructors, its casts between message types, and the
    error types of the crate with their conversions. *)
From Stdlib Require Import ZArith Lia Strings.Byte.
From stdpp Require Import base option list numbers.
From S2P Require Import Prelude.
From S2P Require Import Header.

(** A Yamux message frame consisting of header and body. *)
Record Frame (T : Set) : Set := mkFrame {
  header : Header T;
  body : list byte;
}.
Arguments mkFrame {T} _ _.
Arguments header {T} _.
Arguments body {T} _.

#[export] Instance Frame_eq_dec {T} : EqDecision (Frame T).
Proof. solve_decision. Defined.

Definition frame_new {T} (h : Header T) : Frame T := mkFrame h [].
Definition frame_right {T} (U : Set) (f : Frame T) : Frame (Either U T) :=
  mkFrame (header_right U (header f)) (body f).
Definition frame_left {T} (U : Set) (f : Frame T) : Frame (Either T U) :=
  mkFrame (header_left U (header f)) (body f).
(** [From<Frame<A>> for Frame<()>]. *)
Definition frame_erase {T} (f : Frame T) : Frame unit := mkFrame (header_erase (header f)) (body f).

Definition frame_into_data (f : Frame unit) : outcome (Frame Data) :=
  h ← header_into_data (header f); mret (mkFrame h (body f)).
Definition frame_into_window_update (f : Frame unit) : outcome (Frame WindowUpdate) :=
  h ← header_into_window_update (header f); mret (mkFrame h (body f)).
Definition frame_into_ping (f : Frame unit) : outcome (Frame Ping) :=
  h ← header_into_ping (header f); mret (mkFrame h (body f)).

(** [Frame::<Data>::data]; the error is [TryFromIntError]. *)
Definition frame_data (id : Z) (b : list byte) : option (Frame Data) :=
  l ← try_from u32_max (zlen b); Some (mkFrame (header_data id l) b).

Definition frame_close_stream (id : Z) (ack : bool) : Frame Data :=
  let h := header_fin (header_data id 0) in
  frame_new (if ack then header_ack h else h).

(** [body_len]: the length, cast to [u32]. *)
Definition frame_body_len (f : Frame Data) : Z := as_u32 (zlen (body f)).

Definition frame_window_update (id credit : Z) : Frame WindowUpdate :=
  mkFrame (header_window_update id credit) [].

Definition frame_ping (id : Z) : Frame Ping := mkFrame (header_syn (header_ping id)) [].
Definition frame_ping_id (f : Frame Ping) : Z := header_ping_id (header f).

Definition frame_term : Frame GoAway := mkFrame header_term [].
Definition frame_protocol_error : Frame GoAway := mkFrame header_protocol_error [].
Definition frame_internal_error : Frame GoAway := mkFrame header_internal_error [].

(** ** Errors *)

(** [std::io::Error], by the kinds the crate makes itself; [IoOther] is an error of the socket,
    with a code that stands for its contents. *)
Inductive IoError : Set :=
| WriteZero
| UnexpectedEof
| InvalidWriteCount
| PoisonedSink
| IoOther (code : Z).

#[export] Instance IoError_eq_dec : EqDecision IoError.
Proof. solve_decision. Defined.

Inductive FrameDecodeError : Set :=
| DecodeIo (e : IoError)
| DecodeHeader (e : HeaderDecodeError)
| FrameTooLarge (n : Z).

#[export] Instance FrameDecodeError_eq_dec : EqDecision FrameDecodeError.
Proof. solve_decision. Defined.

Inductive ConnectionError : Set :=
| ErrIo (e : IoError)
| ErrDecode (e : FrameDecodeError)
| NoMoreStreamIds
| ErrClosed
| TooManyStreams
| InvalidWindowUpdate.

#[export] Instance ConnectionError_eq_dec : EqDecision ConnectionError.
Proof. solve_decision. Defined.

(** ** Frames on the wire *)

(** The bytes of a frame. *)
Definition frame_wire {T} (f : Frame T) : list byte := encode (header f) ++ body f.

(** What every frame of the crate satisfies: its fields fit their types, the version is 0, a data
    frame's length field is the length of its body and other frames have no body. *)
Definition frame_wf {T} (f : Frame T) : Prop :=
  header_typed (header f) /\ version (header f) = 0 /\
  (if decide (tag (header f) = TagData) then len (header f) = zlen (body f) else body f = []).

Lemma frame_wire_erase {T} (f : Frame T) : frame_wire (frame_erase f) = frame_wire f.
Proof. reflexivity. Qed.

Lemma frame_wf_erase {T} (f : Frame T) : frame_wf (frame_erase f) <-> frame_wf f.
Proof. reflexivity. Qed.

Lemma frame_into_data_ret (f : Frame unit) :
  tag (header f) = TagData -> frame_into_data f = Ret (mkFrame (cast Data (header f)) (body f)).
Proof. intros H. unfold frame_into_data, header_into_data. by rewrite bool_decide_eq_true_2. Qed.

Lemma frame_into_window_update_ret (f : Frame unit) :
  tag (header f) = TagWindowUpdate ->
  frame_into_window_update f = Ret (mkFrame (cast WindowUpdate (header f)) (body f)).
Proof.
  intros H. unfold frame_into_window_update, header_into_window_update.
  by rewrite bool_decide_eq_true_2.
Qed.

Lemma frame_into_ping_ret (f : Frame unit) :
  tag (header f) = TagPing -> frame_into_ping f = Ret (mkFrame (cast Ping (header f)) (body f)).
Proof. intros H. unfold frame_into_ping, header_into_ping. by rewrite bool_decide_eq_true_2. Qed.

Lemma frame_data_some id b :
  zlen b <= u32_max -> frame_data id b = Some (mkFrame (header_data id (zlen b)) b).
Proof. intros H. unfold frame_data, try_from. destruct (Z.leb_spec (zlen b) u32_max); [done | lia]. Qed.

Lemma frame_data_wf id b f :
  0 <= id <= u32_max -> frame_data id b = Some f ->
  frame_wf f /\ body f = b /\ stream_id (header f) = id /\ flags (header f) = 0.
Proof.
  unfold frame_data, try_from. intros Hid H.
  destruct (Z.leb_spec (zlen b) u32_max) as [Hl |]; simplify_eq/=.
  split; [| done]. pose proof (zlen_nonneg b).
  unfold frame_wf, header_typed, u8_max, u16_max. simpl. intuition lia.
Qed.

Lemma frame_close_stream_wf id ack :
  0 <= id <= u32_max -> frame_wf (frame_close_stream id ack).
Proof.
  intros Hid. unfold frame_close_stream, frame_wf, header_typed, u8_max, u16_max, u32_max in *.
  destruct ack; simpl; repeat split; try lia; by vm_compute.
Qed.

Lemma frame_window_update_wf id credit :
  0 <= id <= u32_max -> 0 <= credit <= u32_max -> frame_wf (frame_window_update id credit).
Proof.
  intros. unfold frame_window_update, frame_wf, header_typed, u8_max, u16_max. simpl.
  intuition lia.
Qed.

Lemma frame_ping_wf id : 0 <= id <= u32_max -> frame_wf (frame_ping id).
Proof.
  intros. unfold frame_ping, frame_wf, header_typed, u8_max, u16_max, u32_max in *. simpl.
  repeat split; try lia; by vm_compute.
Qed.

Lemma frame_go_away_wf code :
  0 <= code <= u32_max -> frame_wf (mkFrame (header_go_away code) []).
Proof.
  intros. unfold frame_wf, header_typed, u8_max, u16_max, u32_max in *. simpl. intuition lia.
Qed.

#[export] Hint Resolve frame_close_stream_wf frame_window_update_wf frame_ping_wf
  frame_go_away_wf : core.
