(* ===== verification/Config.v ===== *)
(** * Configuration and constants: [lib.rs]

    The constants of the crate, the configuration record and its setters with their assertions. *)
From Stdlib Require Import ZArith Lia.
From stdpp Require Import base option list numbers.
From S2P Require Import Prelude.

Definition KIB : Z := 1024.
Definition MIB : Z := KIB * 1024.
Definition GIB : Z := MIB * 1024.
(** As per the yamux specification. *)
Definition DEFAULT_CREDIT : Z := 256 * KIB.
(** The maximum number of streams opened without an acknowledgement from the other peer. *)
Definition MAX_ACK_BACKLOG : Z := 256.
Definition DEFAULT_SPLIT_SEND_SIZE : Z := 16 * KIB.

Record Config : Set := mkConfig {
  max_connection_receive_window : option Z;
  max_num_streams : Z;
  read_after_close : bool;
  split_send_size : Z;
}.

Section config.
Context `{Arch}.

Definition config_default : Config := mkConfig (Some GIB) 512 true DEFAULT_SPLIT_SEND_SIZE.

(** The condition both setters assert, computed in [usize]. *)
Definition config_check (self : Config) : outcome unit :=
  p ← mul_ usize_max (max_num_streams self) DEFAULT_CREDIT;
  rust_assert (p <=? default usize_max (max_connection_receive_window self)).

Definition set_max_connection_receive_window (n : option Z) (self : Config) : outcome Config :=
  let self := mkConfig n (max_num_streams self) (read_after_close self) (split_send_size self) in
  config_check self ≫= fun _ => mret self.

Definition set_max_num_streams (n : Z) (self : Config) : outcome Config :=
  let self := mkConfig (max_connection_receive_window self) n (read_after_close self)
                (split_send_size self) in
  config_check self ≫= fun _ => mret self.

Definition set_read_after_close (b : bool) (self : Config) : Config :=
  mkConfig (max_connection_receive_window self) (max_num_streams self) b (split_send_size self).

Definition set_split_send_size (n : Z) (self : Config) : Config :=
  mkConfig (max_connection_receive_window self) (max_num_streams self) (read_after_close self) n.

(** The part of the connection limit that no stream is guaranteed: what all streams together may
    grow beyond [DEFAULT_CREDIT]. *)
Definition config_budget (c : Config) : Z :=
  default usize_max (max_connection_receive_window c) - max_num_streams c * DEFAULT_CREDIT.

(** The invariant of a configuration: its fields fit their types, and the limit leaves every
    stream its default window. *)
Definition config_ok (c : Config) : Prop :=
  (forall n, max_connection_receive_window c = Some n -> 0 <= n <= usize_max) /\
  0 <= max_num_streams c <= usize_max /\
  0 <= split_send_size c <= usize_max /\
  0 <= config_budget c.

Lemma config_limit_range c :
  config_ok c -> 0 <= default usize_max (max_connection_receive_window c) <= usize_max.
Proof.
  intros (Hn & _). pose proof usize_max_u32 as Hu. unfold u32_max in Hu.
  destruct (max_connection_receive_window c) as [n|]; simpl; [by apply Hn | lia].
Qed.

Lemma config_streams_mul c :
  config_ok c ->
  mul_ usize_max (max_num_streams c) DEFAULT_CREDIT = Ret (max_num_streams c * DEFAULT_CREDIT).
Proof.
  intros Hc. pose proof (config_limit_range c Hc). destruct Hc as (_ & _ & _ & Hb).
  unfold config_budget in Hb. apply mul_ret. lia.
Qed.

Lemma config_check_ret c :
  config_check c = Ret tt <->
  max_num_streams c * DEFAULT_CREDIT <= usize_max /\ 0 <= config_budget c.
Proof.
  unfold config_check, mul_, config_budget.
  destruct (Z.leb_spec (max_num_streams c * DEFAULT_CREDIT) usize_max) as [Hm |]; simpl.
  - unfold rust_assert. case_match eqn:E; [apply Z.leb_le in E | apply Z.leb_gt in E];
      split; intros; try done; intuition (done || lia).
  - split; [done | lia].
Qed.

(** The configurations a caller can build: the default, changed by setters that did not panic,
    with arguments of the type [usize]. *)
Inductive config_built : Config -> Prop :=
| built_default : config_built config_default
| built_window c n c' : config_built c -> (forall m, n = Some m -> 0 <= m <= usize_max) ->
    set_max_connection_receive_window n c = Ret c' -> config_built c'
| built_streams c n c' : config_built c -> 0 <= n <= usize_max ->
    set_max_num_streams n c = Ret c' -> config_built c'
| built_read c b : config_built c -> config_built (set_read_after_close b c)
| built_split c n : config_built c -> 0 <= n <= usize_max ->
    config_built (set_split_send_size n c).

Lemma config_default_ok : config_ok config_default.
Proof.
  pose proof usize_max_u32 as Hu. unfold u32_max in Hu.
  unfold config_ok, config_budget, config_default. simpl.
  unfold DEFAULT_SPLIT_SEND_SIZE, GIB, MIB, DEFAULT_CREDIT, KIB.
  split; [intros n [= <-]; lia | lia].
Qed.

Lemma config_check_bind c (r : Config) :
  config_check c ≫= (fun _ => mret c) = Ret r -> r = c /\ 0 <= config_budget c.
Proof.
  destruct (config_check c) as [[]| |] eqn:E; intros; outcome_simpl.
  apply config_check_ret in E. intuition.
Qed.

(** Every configuration that can be built satisfies the invariant the flow controllers rely
    on: the connection limit covers the default window of the maximal number of streams. *)
Lemma config_built_ok c : config_built c -> config_ok c.
Proof.
  induction 1 as [| c n c' _ IH Hn Hs | c n c' _ IH Hn Hs | c b _ IH | c n _ IH Hn].
  - apply config_default_ok.
  - apply config_check_bind in Hs as [-> Hb]. destruct IH as (_ & ? & ? & _).
    unfold config_ok. simpl. auto.
  - apply config_check_bind in Hs as [-> Hb]. destruct IH as (? & _ & ? & _).
    unfold config_ok. simpl. auto.
  - exact IH.
  - destruct IH as (? & ? & _ & ?). unfold config_ok. simpl. auto.
Qed.

Lemma config_check_panic c :
  config_check c = Panic <->
  ~ (max_num_streams c * DEFAULT_CREDIT <= usize_max /\
     max_num_streams c * DEFAULT_CREDIT <= default usize_max (max_connection_receive_window c)).
Proof.
  unfold config_check, mul_, mbind, outcome_bind, rust_assert.
  destruct (Z.leb_spec (max_num_streams c * DEFAULT_CREDIT) usize_max); [| split; [lia | done]].
  destruct (Z.leb_spec (max_num_streams c * DEFAULT_CREDIT)
    (default usize_max (max_connection_receive_window c)));
    split; (done || lia).
Qed.

Lemma config_check_bind_panic c (r : Config) :
  (config_check c ≫= fun _ => mret r) = Panic <-> config_check c = Panic.
Proof. by destruct (config_check c) as [[]| |]. Qed.

(** A setter panics exactly when the limit it would leave is smaller than the default window
    of all streams together, or when that product does not fit [usize]. *)
Theorem config_setter_panics c :
  (forall n, set_max_num_streams n c = Panic <->
     ~ (n * DEFAULT_CREDIT <= usize_max /\
        n * DEFAULT_CREDIT <= default usize_max (max_connection_receive_window c))) /\
  (forall o, set_max_connection_receive_window o c = Panic <->
     ~ (max_num_streams c * DEFAULT_CREDIT <= usize_max /\
        max_num_streams c * DEFAULT_CREDIT <= default usize_max o)).
Proof.
  split; intros x; unfold set_max_num_streams, set_max_connection_receive_window;
    rewrite config_check_bind_panic, config_check_panic; reflexivity.
Qed.
End config.

Definition config_witness : Config := mkConfig (Some (4 * DEFAULT_CREDIT)) 3 false 100.

Example config_witness_ok : @config_ok arch64 config_witness.
Proof.
  apply (@config_built_ok arch64).
  apply (@built_split arch64 (mkConfig (Some (4 * DEFAULT_CREDIT)) 3 false DEFAULT_SPLIT_SEND_SIZE) 100);
    [| vm_compute; intuition discriminate].
  apply (@built_read arch64 (mkConfig (Some (4 * DEFAULT_CREDIT)) 3 true DEFAULT_SPLIT_SEND_SIZE) false).
  apply (@built_window arch64 (mkConfig (Some GIB) 3 true DEFAULT_SPLIT_SEND_SIZE)
           (Some (4 * DEFAULT_CREDIT))); [| intros m [= <-]; vm_compute; intuition discriminate | reflexivity].
  apply (@built_streams arch64 (@config_default) 3);
    [apply built_default | vm_compute; intuition discriminate | reflexivity].
Defined.
