(* ===== verification/Command.v ===== *)
(** * What streams and connection say to each other: types of [connection.rs]

    The commands a stream handle sends to its connection, the actions that handling an inbound
    frame asks for, the mode of a connection, and the clock readings and wakers of the executor. *)
From Stdlib Require Import ZArith Lia Strings.Byte.
From stdpp Require Import base option list numbers.
From S2P Require Import Prelude.
From S2P Require Import Header.
From S2P Require Import Frame.

(** How the connection is used. *)
Inductive Mode : Set := Client | Server.

#[export] Instance Mode_eq_dec : EqDecision Mode.
Proof. solve_decision. Defined.

(** [Stream] to [Connection] commands. *)
Inductive StreamCommand : Set :=
| SendFrame (f : Frame (Either Data WindowUpdate))
| CloseStream (ack : bool).

#[export] Instance StreamCommand_eq_dec : EqDecision StreamCommand.
Proof. solve_decision. Defined.

(** The commands that stream handles send. *)
Definition cmd_ok (c : StreamCommand) : Prop :=
  match c with SendFrame f => frame_wf f | CloseStream _ => True end.

(** Possible actions as a result of incoming frame handling. *)
Inductive Action (Stream : Type) : Type :=
| ActionNone
| ActionNew (s : Stream)
| ActionPing (f : Frame Ping)
| ActionTerminate (f : Frame GoAway).
Arguments ActionNone {Stream}.
Arguments ActionNew {Stream} _.
Arguments ActionPing {Stream} _.
Arguments ActionTerminate {Stream} _.

(** A [Waker], named by a number; [Instant]s and [Duration]s are nanoseconds. *)
Definition Waker : Set := positive.
Definition Instant : Set := Z.
Definition Duration : Set := Z.

(** [Instant::elapsed] at the reading [now]: it saturates at zero. *)
Definition elapsed (now since : Instant) : Duration := Z.max 0 (now - since).

(** [u64::MAX] seconds and 999999999 nanoseconds. *)
Definition duration_max : Duration := u64_max * 1000000000 + 999999999.
Definition duration_secs (s : Z) : Duration := s * 1000000000.

(** The last [Instant], whose seconds are an [i64]; twice the time between two of them is a [Duration].
    What a reading of the clock can be: ten seconds later is an [Instant] too. *)
Definition instant_max : Instant := duration_max / 2.
Definition instant_ok (t : Instant) : Prop := 0 <= t /\ t + duration_secs 10 <= instant_max.

Lemma elapsed_range now since : instant_ok now -> 0 <= since -> 0 <= elapsed now since <= instant_max.
Proof. unfold instant_ok, elapsed, duration_secs, Instant, Duration in *. lia. Qed.

Lemma twice_instant_max d : d <= instant_max -> d * 2 <= duration_max.
Proof. unfold instant_max. intros. pose proof (Z.mul_div_le duration_max 2 ltac:(lia)). lia. Qed.
