(* ===== verification/Rtt.v ===== *)
(** * Round-trip time measurement: [connection/rtt.rs]

    The ping state machine of a connection. The two [Arc]s of an [Rtt] are shared by the connection
    and every flow controller, so that there is one value of [Rtt] per connection. *)
From Stdlib Require Import ZArith Lia Strings.Byte.
From stdpp Require Import base option list numbers.
From S2P Require Import Prelude.
From S2P Require Import Header.
From S2P Require Import Frame.
From S2P Require Import Command.

Inductive RttState : Set :=
| AwaitingPong (sent_at : Instant) (id : Z)
| Waiting (next : Instant).

#[export] Instance RttState_eq_dec : EqDecision RttState.
Proof. unfold Instant. solve_decision. Defined.

(** The contents of [RttInner] and the atomic counter [next_id]. *)
Record Rtt : Set := mkRtt {
  rtt_state : RttState;
  rtt_rtt : option Duration;
  rtt_next_id : Z;
}.

Definition PING_INTERVAL : Duration := duration_secs 10.

Definition rtt_new (now : Instant) : Rtt := mkRtt (Waiting now) None 0.

(** [next_ping]; [now] is the reading of the clock that is compared, [sent_at] the one stored. The
    atomic [fetch_add] wraps. *)
Definition next_ping (now sent_at : Instant) (r : Rtt) : option (Frame Ping) * Rtt :=
  let send :=
    let id := rtt_next_id r in
    (Some (frame_ping id),
     mkRtt (AwaitingPong sent_at id) (rtt_rtt r) ((id + 1) mod 2 ^ 32)) in
  match rtt_state r with
  | AwaitingPong _ _ => (None, r)
  | Waiting next => if now <? next then (None, r) else send
  end.

(** [handle_pong]; the clock is read by [elapsed] and for the next deadline, and the sum of an
    [Instant] and a [Duration] panics if it is not an [Instant]. *)
Definition handle_pong {S} (received_id : Z) (now now' : Instant) (r : Rtt) : outcome (Action S * Rtt) :=
  match rtt_state r with
  | Waiting _ => Ret (ActionTerminate frame_protocol_error, r)
  | AwaitingPong sent_at expected_id =>
      if negb (received_id =? expected_id)
      then Ret (ActionTerminate frame_protocol_error, r)
      else
        next ← add_ instant_max now' PING_INTERVAL;
        Ret (ActionNone, mkRtt (Waiting next) (Some (elapsed now sent_at)) (rtt_next_id r))
  end.

(** [Rtt::get]. *)
Definition rtt_get (r : Rtt) : option Duration := rtt_rtt r.

(** ** Properties *)

(** The counter fits [u32], an outstanding ping carries the number before the counter, and a
    measurement can be doubled. *)
Definition rtt_ok (r : Rtt) : Prop :=
  0 <= rtt_next_id r <= u32_max /\
  (forall t id, rtt_state r = AwaitingPong t id ->
     0 <= t /\ 0 <= id <= u32_max /\ rtt_next_id r = (id + 1) mod 2 ^ 32) /\
  (forall d, rtt_rtt r = Some d -> 0 <= d <= instant_max).

Lemma rtt_new_ok now : rtt_ok (rtt_new now).
Proof. unfold rtt_ok, rtt_new, u32_max. simpl. split_and!; (lia || done). Qed.

Lemma next_ping_ok now sent_at r :
  rtt_ok r -> 0 <= sent_at -> rtt_ok (next_ping now sent_at r).2.
Proof.
  intros Hok Hsent. pose proof Hok as (Hn & Hi & Hd). unfold next_ping.
  destruct (rtt_state r) as [t0 id0|next] eqn:E; [exact Hok |].
  destruct (now <? next); [exact Hok |].
  unfold rtt_ok, u32_max in *. simpl.
  pose proof (Z.mod_pos_bound (rtt_next_id r + 1) (2 ^ 32) ltac:(lia)).
  split_and!; [lia | lia | | done]. intros t id [= <- <-]. lia.
Qed.

Lemma next_ping_frame now sent_at r f r' :
  rtt_ok r -> next_ping now sent_at r = (Some f, r') -> frame_wf f.
Proof.
  intros (Hn & _). unfold next_ping.
  destruct (rtt_state r) as [|next]; [by intros [=] |]. destruct (now <? next); intros [= <- <-].
  by apply frame_ping_wf.
Qed.

Lemma next_ping_rtt now sent_at r : rtt_rtt (next_ping now sent_at r).2 = rtt_rtt r.
Proof. unfold next_ping. destruct (rtt_state r) as [|next]; [done |]. by destruct (now <? next). Qed.

(** A pong panics at no reading of the clock, and never forgets a measurement. *)
Lemma handle_pong_ok {S} id now now' r :
  rtt_ok r -> instant_ok now -> instant_ok now' ->
  exists act r', handle_pong (S := S) id now now' r = Ret (act, r') /\ rtt_ok r' /\
    (is_Some (rtt_rtt r) -> is_Some (rtt_rtt r')).
Proof.
  intros Hok Hnow [_ Hnow']. pose proof Hok as (Hn & Hi & Hd). unfold handle_pong.
  destruct (rtt_state r) as [t0 id0|next] eqn:E; [| by do 2 eexists].
  destruct (id =? id0); [| by do 2 eexists]. simpl. rewrite add_ret by exact Hnow'. do 2 eexists. split; [done |].
  split; [| done]. unfold rtt_ok. simpl. split_and!; [lia | lia | done |]. intros d [= <-].
  apply elapsed_range; [done |]. by apply (Hi t0 id0).
Qed.

(** A pong is accepted exactly when a ping with its number is outstanding; it then stores the
    time since the ping was sent and schedules the next ping. Any other pong changes nothing and
    asks for the connection to be terminated with a protocol error. *)
Lemma handle_pong_spec {S} (received : Z) now now' r :
  now' + PING_INTERVAL <= instant_max ->
  match rtt_state r with
  | AwaitingPong sent_at id =>
      (received = id ->
         handle_pong (S := S) received now now' r
         = Ret (ActionNone, mkRtt (Waiting (now' + PING_INTERVAL)) (Some (elapsed now sent_at))
                              (rtt_next_id r))) /\
      (received <> id ->
         handle_pong (S := S) received now now' r = Ret (ActionTerminate frame_protocol_error, r))
  | Waiting _ => handle_pong (S := S) received now now' r
                 = Ret (ActionTerminate frame_protocol_error, r)
  end.
Proof.
  intros Hnow. unfold handle_pong. destruct (rtt_state r) as [t id | next]; [| done].
  destruct (Z.eqb_spec received id); split; try done. intros _. simpl. by rewrite add_ret.
Qed.

(** *** Runs *)

(** What happens to the shared [Rtt]: the connection asks for pings and receives pongs, at any
    readings of the clock. The events record the pings sent and the pongs accepted. *)
Inductive rtt_event : Set := Sent (id : Z) | Accepted (id : Z).

Inductive rtt_step : Rtt -> list rtt_event -> Rtt -> Prop :=
| step_no_ping now sent_at r r' : next_ping now sent_at r = (None, r') -> rtt_step r [] r'
| step_ping now sent_at r f r' : next_ping now sent_at r = (Some f, r') ->
    rtt_step r [Sent (frame_ping_id f)] r'
| step_pong id now now' r r' : handle_pong (S := unit) id now now' r = Ret (ActionNone, r') ->
    rtt_step r [Accepted id] r'
| step_bad id now now' r f r' : handle_pong (S := unit) id now now' r = Ret (ActionTerminate f, r') ->
    rtt_step r [] r'.

Inductive rtt_run (now : Instant) : list rtt_event -> Rtt -> Prop :=
| run_new : rtt_run now [] (rtt_new now)
| run_step tr r evs r' : rtt_run now tr r -> rtt_step r evs r' -> rtt_run now (tr ++ evs) r'.

(** The pings of the first [n] round trips. *)
Fixpoint round_trips (n : nat) : list rtt_event :=
  match n with
  | O => []
  | S n => round_trips n ++ [Sent (Z.of_nat n mod 2 ^ 32); Accepted (Z.of_nat n mod 2 ^ 32)]
  end.

Lemma run_shape now tr r :
  rtt_run now tr r ->
  exists n, rtt_next_id r = Z.of_nat n mod 2 ^ 32 /\
    ((exists next, rtt_state r = Waiting next) /\ tr = round_trips n \/
     exists m t, n = S m /\ rtt_state r = AwaitingPong t (Z.of_nat m mod 2 ^ 32) /\
       tr = round_trips m ++ [Sent (Z.of_nat m mod 2 ^ 32)]).
Proof.
  induction 1 as [| tr r evs r' _ (n & Hn & IH) Hs].
  { exists O. split; [done |]. left. split; [by eexists | done]. }
  assert (Hsucc : (rtt_next_id r + 1) mod 2 ^ 32 = Z.of_nat (S n) mod 2 ^ 32)
    by (rewrite Hn, Nat2Z.inj_succ, Z.add_mod_idemp_l by lia; f_equal; lia).
  destruct Hs as [now1 sent r r' E | now1 sent r f r' E | id now1 now2 r r' E | id now1 now2 r f r' E];
    unfold next_ping, handle_pong in E.
  - rewrite app_nil_r. assert (r' = r) as -> by
      (destruct (rtt_state r) as [|next]; [| destruct (now1 <? next)]; by simplify_eq).
    by exists n.
  - destruct (rtt_state r) as [|next] eqn:Est; [by simplify_eq |].
    destruct (now1 <? next); simplify_eq. exists (S n). simpl rtt_next_id. split; [done |].
    right. exists n, sent. simpl. rewrite Hn.
    destruct IH as [[_ ->] | (? & ? & _ & [=] & _)]. done.
  - destruct (rtt_state r) as [t eid|] eqn:Est; [| by simplify_eq].
    destruct (Z.eqb_spec id eid) as [->|]; simpl in E; [| by simplify_eq].
    destruct (add_ _ _ _); simplify_eq/=. destruct IH as [[[? [=]] _] | (m & t' & -> & [= -> ->] & ->)].
    exists (S m). split; [done |]. left. split; [by eexists |].
    simpl. by rewrite <- app_assoc.
  - rewrite app_nil_r. assert (r' = r) as -> by
      (destruct (rtt_state r) as [? eid|]; [destruct (id =? eid) |]; simpl in E; [destruct (add_ _ _ _) | |]; by simplify_eq/=).
    by exists n.
Qed.

(** In every run the pings and accepted pongs alternate: the events are complete round trips
    with consecutive numbers from 0 (modulo 2^32), followed by at most one unanswered ping. *)
Theorem ping_pong_alternate now tr r :
  rtt_run now tr r ->
  exists n, tr = round_trips n \/ tr = round_trips n ++ [Sent (Z.of_nat n mod 2 ^ 32)].
Proof. intros Hr. destruct (run_shape _ _ _ Hr) as (n & _ & [[_ ->] | (m & t & _ & _ & ->)]); eauto. Qed.

Lemma ping_pong_alternate_witness :
  exists n, [Sent 0; Accepted 0; Sent 1] = round_trips n
         \/ [Sent 0; Accepted 0; Sent 1] = round_trips n ++ [Sent (Z.of_nat n mod 2 ^ 32)].
Proof.
  apply (ping_pong_alternate 5 _ (mkRtt (AwaitingPong 10000000012 1) (Some 3) 2)).
  apply (run_step _ [Sent 0; Accepted 0] (mkRtt (Waiting 10000000011) (Some 3) 1)).
  - apply (run_step _ [Sent 0] (mkRtt (AwaitingPong 7 0) None 1)).
    + apply (run_step _ [] (rtt_new 5)); [apply run_new |].
      by apply (step_ping 6 7 _ (frame_ping 0)).
    + by apply (step_pong 0 10 11).
  - by apply (step_ping 10000000011 10000000012 _ (frame_ping 1)).
Defined.
