(* ===== verification/ChunkList.v ===== *)
(** * Chunk lists: [chunks.rs]

    The receive buffer of a stream: a queue of byte vectors of which the first one may be read in
    part. The implementation keeps a running total and a cursor; the specification is the list of
    the bytes that are still to be read, a queue. *)
From Stdlib Require Import ZArith Lia Strings.Byte.
From stdpp Require Import base option list numbers.
From S2P Require Import Prelude.

(** A [Chunk] wraps an [io::Cursor<Vec<u8>>]: a vector and a position. *)
Record Chunk : Set := mkChunk {
  chunk_vec : list byte;
  chunk_position : Z;
}.

(** A sequence of chunks with the running total of their lengths. *)
Record Chunks : Set := mkChunks {
  chunks_seq : list Chunk;
  chunks_total : Z;
}.

Section chunks.
Context `{Arch}.

(** ** Operations of a chunk *)

(** [offset]: the [u64] position cast to [usize]. *)
Definition chunk_offset (c : Chunk) : Z := as_usize (chunk_position c).

Definition chunk_len (c : Chunk) : outcome Z := sub_ (zlen (chunk_vec c)) (chunk_offset c).

Definition chunk_is_empty (c : Chunk) : outcome bool := l ← chunk_len c; mret (l =? 0).

Definition chunk_advance (amount : Z) (c : Chunk) : outcome Chunk :=
  let pos := checked_add usize_max (chunk_offset c) amount in
  let max := zlen (chunk_vec c) in
  rust_assert (match pos with Some p => p <=? max | None => false end) ≫= fun _ =>
  p ← add_ u64_max (chunk_position c) amount;
  mret (mkChunk (chunk_vec c) p).

Definition chunk_into_vec (c : Chunk) : list byte := chunk_vec c.

(** [AsRef<[u8]>]: slicing from a position behind the end panics. *)
Definition chunk_as_ref (c : Chunk) : outcome (list byte) :=
  if chunk_offset c <=? zlen (chunk_vec c)
  then Ret (drop (Z.to_nat (chunk_offset c)) (chunk_vec c)) else Panic.

(** ** Operations of the list *)

Definition chunks_new : Chunks := mkChunks [] 0.

Definition chunks_len (cs : Chunks) : outcome Z :=
  sub_ (chunks_total cs) (match chunks_seq cs with c :: _ => chunk_offset c | [] => 0 end).

Definition chunks_push (x : list byte) (cs : Chunks) : outcome Chunks :=
  n ← add_ usize_max (chunks_total cs) (zlen x);
  mret (mkChunks (if bool_decide (x = []) then chunks_seq cs
                  else chunks_seq cs ++ [mkChunk x 0]) n).

Definition chunks_pop (cs : Chunks) : outcome (option Chunk * Chunks) :=
  match chunks_seq cs with
  | [] => n ← sub_ (chunks_total cs) 0; mret (None, mkChunks [] n)
  | c :: seq =>
      l ← chunk_len c;
      k ← add_ usize_max l (chunk_offset c);
      n ← sub_ (chunks_total cs) k;
      mret (Some c, mkChunks seq n)
  end.

(** [front_mut]: the first chunk, and how the list looks once it has been changed. *)
Definition chunks_front_mut (cs : Chunks) : option (Chunk * (Chunk -> Chunks)) :=
  match chunks_seq cs with
  | [] => None
  | c :: seq => Some (c, fun c' => mkChunks (c' :: seq) (chunks_total cs))
  end.

(** ** Specification *)

(** The bytes a chunk, and a list of chunks, still has to give. *)
Definition chunk_rest (c : Chunk) : list byte :=
  drop (Z.to_nat (chunk_position c)) (chunk_vec c).
Definition chunks_rest (cs : Chunks) : list byte := concat (map chunk_rest (chunks_seq cs)).

Definition chunks_vecs (seq : list Chunk) : Z := foldr (fun c n => zlen (chunk_vec c) + n) 0 seq.

Definition chunk_ok (c : Chunk) : Prop :=
  0 <= chunk_position c <= zlen (chunk_vec c) /\ 0 < zlen (chunk_vec c) <= u32_max.

(** The total counts whole vectors, and only the first chunk has been read from. *)
Definition chunks_ok (cs : Chunks) : Prop :=
  Forall chunk_ok (chunks_seq cs) /\
  Forall (fun c => chunk_position c = 0) (tail (chunks_seq cs)) /\
  chunks_total cs = chunks_vecs (chunks_seq cs) /\
  chunks_total cs <= usize_max.

(** *** Chunks *)

Lemma chunk_offset_ok c : chunk_ok c -> chunk_offset c = chunk_position c.
Proof. intros [? ?]. apply as_usize_small. pose proof usize_max_u32. lia. Qed.

Lemma chunk_len_ok c : chunk_ok c -> chunk_len c = Ret (zlen (chunk_rest c)).
Proof.
  intros Hc. unfold chunk_len. rewrite chunk_offset_ok by done. destruct Hc as [Hp Hv].
  rewrite sub_ret by lia. unfold chunk_rest. f_equal. zlen_lia.
Qed.

Lemma chunk_as_ref_ok c : chunk_ok c -> chunk_as_ref c = Ret (chunk_rest c).
Proof.
  intros Hc. unfold chunk_as_ref. rewrite chunk_offset_ok by done. destruct Hc as [Hp Hv].
  destruct (Z.leb_spec (chunk_position c) (zlen (chunk_vec c))); [done | lia].
Qed.

Lemma chunk_advance_ok k c :
  chunk_ok c -> 0 <= k <= zlen (chunk_rest c) ->
  exists c', chunk_advance k c = Ret c' /\ chunk_ok c' /\
    chunk_vec c' = chunk_vec c /\ chunk_rest c' = drop (Z.to_nat k) (chunk_rest c).
Proof.
  intros Hc Hk. unfold chunk_advance. rewrite chunk_offset_ok by done.
  destruct Hc as [Hp Hv]. unfold chunk_rest in *. pose proof usize_max_u32.
  assert (Hs : chunk_position c + k <= zlen (chunk_vec c)) by zlen_lia.
  unfold checked_add. destruct (Z.leb_spec (chunk_position c + k) usize_max); [| lia].
  rewrite rust_assert_ret by (apply Z.leb_le; lia).
  rewrite add_ret by (pose proof usize_max_u64; lia).
  eexists. split; [done |]. unfold chunk_ok. simpl. split; [lia |]. split; [done |].
  rewrite drop_drop. f_equal. lia.
Qed.

(** *** Lists of chunks *)

Lemma chunks_vecs_app s1 s2 : chunks_vecs (s1 ++ s2) = chunks_vecs s1 + chunks_vecs s2.
Proof. induction s1; simpl; lia. Qed.

Lemma chunks_vecs_nonneg s : 0 <= chunks_vecs s.
Proof. induction s as [|c s IH]; simpl; [lia | pose proof (zlen_nonneg (chunk_vec c)); lia]. Qed.

Lemma chunks_rest_unread s :
  Forall (fun c => chunk_position c = 0) s ->
  zlen (concat (map chunk_rest s)) = chunks_vecs s.
Proof.
  induction 1 as [|c s Hc _ IH]; simpl; [done |].
  rewrite zlen_app, IH. unfold chunk_rest. by rewrite Hc.
Qed.

Lemma chunks_new_ok : chunks_ok chunks_new.
Proof. pose proof usize_max_u32. unfold u32_max in *. split_and!; try constructor; simpl; lia. Qed.

(** [len] is the number of bytes that are still to be read. *)
Lemma chunks_len_ok cs : chunks_ok cs -> chunks_len cs = Ret (zlen (chunks_rest cs)).
Proof.
  intros (Hc & Hu & Ht & _). unfold chunks_len, chunks_rest.
  destruct cs as [[|c s] t]; simpl in *; [by subst |].
  inversion Hc; subst. rewrite chunk_offset_ok by done.
  rewrite zlen_app, chunks_rest_unread by done. pose proof (chunks_vecs_nonneg s).
  match goal with H : chunk_ok c |- _ => destruct H end.
  rewrite sub_ret by lia. f_equal. unfold chunk_rest. zlen_lia.
Qed.

Lemma chunks_push_ok cs x :
  chunks_ok cs -> zlen x <= u32_max -> chunks_total cs + zlen x <= usize_max ->
  exists cs', chunks_push x cs = Ret cs' /\ chunks_ok cs' /\
    chunks_rest cs' = chunks_rest cs ++ x /\ chunks_total cs' = chunks_total cs + zlen x.
Proof.
  intros (Hc & Hu & Ht & Hm) Hx Hs. unfold chunks_push. rewrite add_ret by done.
  eexists. split; [done |]. case_bool_decide as Hn; simpl.
  - subst x. rewrite zlen_nil in *. unfold chunks_ok, chunks_rest. simpl.
    rewrite app_nil_r. repeat split; (done || lia).
  - assert (0 < zlen x) by (destruct x; [done | zlen_lia]).
    unfold chunks_ok, chunks_rest. simpl. rewrite map_app, concat_app, chunks_vecs_app. simpl.
    rewrite !app_nil_r. repeat split; try (done || lia).
    + apply Forall_app. split; [done |]. constructor; [| done]. unfold chunk_ok. simpl. lia.
    + destruct (chunks_seq cs); simpl in *; [done |]. apply Forall_app. by split; [| constructor].
Qed.

Lemma chunks_pop_nil t : 0 <= t -> chunks_pop (mkChunks [] t) = Ret (None, mkChunks [] t).
Proof. intros. unfold chunks_pop. simpl. rewrite sub_ret by lia. by rewrite Z.sub_0_r. Qed.

Lemma chunks_pop_cons c s t :
  chunks_ok (mkChunks (c :: s) t) ->
  chunks_pop (mkChunks (c :: s) t) = Ret (Some c, mkChunks s (chunks_vecs s)) /\
  chunks_ok (mkChunks s (chunks_vecs s)) /\ chunk_ok c.
Proof.
  intros (Hc & Hu & Ht & Hm). simpl in *. inversion Hc as [|? ? Hcc Hs]; subst.
  pose proof (zlen_nonneg (chunk_vec c)).
  split; [| split; [| done]].
  - unfold chunks_pop. simpl. rewrite chunk_len_ok by done.
    rewrite chunk_offset_ok by done. destruct Hcc as [Hp Hv]. simpl.
    assert (Hr : zlen (chunk_rest c) + chunk_position c = zlen (chunk_vec c))
      by (unfold chunk_rest; zlen_lia).
    pose proof usize_max_u32. rewrite add_ret by lia. simpl.
    rewrite sub_ret by (pose proof (chunks_vecs_nonneg s); lia).
    simpl. do 3 f_equal. lia.
  - repeat split; simpl; try done; [| lia].
    destruct s; [constructor | by inversion Hu].
Qed.

(** On a well-formed list, [pop] panics on no branch; it gives the first chunk, whose unread
    bytes are a prefix of the unread bytes of the list, and leaves the others. *)
Lemma chunks_pop_ok cs :
  chunks_ok cs ->
  exists o cs', chunks_pop cs = Ret (o, cs') /\ chunks_ok cs' /\
    match o with
    | Some c => chunks_rest cs = chunk_rest c ++ chunks_rest cs' /\ chunk_ok c
    | None => chunks_rest cs = [] /\ cs' = cs
    end.
Proof.
  destruct cs as [[|c s] t]; intros Hok.
  - destruct Hok as (? & ? & Ht & ?) eqn:E. simpl in Ht. subst t.
    exists None, chunks_new. rewrite chunks_pop_nil by done. by repeat split.
  - destruct (chunks_pop_cons c s t Hok) as (-> & ? & ?). by eexists _, _.
Qed.

(** Changing the first chunk in place, as reading from it does. *)
Lemma chunks_front_ok c c' s t :
  chunks_ok (mkChunks (c :: s) t) -> chunk_ok c' -> chunk_vec c' = chunk_vec c ->
  chunks_ok (mkChunks (c' :: s) t).
Proof.
  intros (Hc & Hu & Ht & Hm) Hc' Hv. inversion Hc; subst.
  unfold chunks_ok. simpl in *. rewrite Hv. split_and!; [by constructor | done | lia | lia].
Qed.

(** ** The list of chunks as a queue of bytes *)

(** What the crate does to the list: append a body, take the first chunk, read [k] bytes of it. *)
Inductive ChunkOp : Set :=
| OpPush (x : list byte)
| OpPop
| OpRead (k : Z).

(** One operation, with the bytes it gives to the reader. *)
Definition chunk_op (op : ChunkOp) (cs : Chunks) : outcome (list byte * Chunks) :=
  match op with
  | OpPush x => cs ← chunks_push x cs; mret ([], cs)
  | OpPop =>
      '(o, cs) ← chunks_pop cs;
      match o with
      | Some c => bs ← chunk_as_ref c; mret (bs, cs)
      | None => mret ([], cs)
      end
  | OpRead k =>
      match chunks_front_mut cs with
      | None => mret ([], cs)
      | Some (c, put_front) =>
          l ← chunk_len c;
          bs ← chunk_as_ref c;
          c ← chunk_advance (Z.min k l) c;
          mret (take (Z.to_nat (Z.min k l)) bs, put_front c)
      end
  end.

Fixpoint chunk_ops (ops : list ChunkOp) (cs : Chunks) : outcome (list byte * Chunks) :=
  match ops with
  | [] => mret ([], cs)
  | op :: ops =>
      '(out, cs) ← chunk_op op cs;
      '(outs, cs) ← chunk_ops ops cs;
      mret (out ++ outs, cs)
  end.

Definition op_bytes (op : ChunkOp) : list byte := match op with OpPush x => x | _ => [] end.

Definition op_ok (op : ChunkOp) : Prop :=
  match op with OpPush x => zlen x <= u32_max | OpPop => True | OpRead k => 0 <= k end.

Lemma chunk_op_ok op cs :
  chunks_ok cs -> op_ok op -> chunks_total cs + zlen (op_bytes op) <= usize_max ->
  exists out cs', chunk_op op cs = Ret (out, cs') /\ chunks_ok cs' /\
    out ++ chunks_rest cs' = chunks_rest cs ++ op_bytes op /\
    chunks_total cs' <= chunks_total cs + zlen (op_bytes op).
Proof.
  intros Hok Hop Ht. destruct op as [x | | k]; simpl in *; rewrite ?zlen_nil, ?app_nil_r in *.
  - destruct (chunks_push_ok cs x Hok Hop Ht) as (cs' & -> & ? & ? & ?). simpl.
    exists [], cs'. split_and!; (done || lia).
  - destruct cs as [[|c s] t].
    + destruct Hok as (? & ? & Hz & ?). simpl in Hz. subst t.
      exists [], chunks_new. rewrite chunks_pop_nil by done. simpl. repeat split; (done || lia).
    + destruct (chunks_pop_cons c s t Hok) as (-> & Hok' & Hc). simpl.
      rewrite chunk_as_ref_ok by done. simpl. exists (chunk_rest c), (mkChunks s (chunks_vecs s)).
      destruct Hok as (_ & _ & Hz & _). simpl in Hz. pose proof (zlen_nonneg (chunk_vec c)).
      split_and!; simpl; (done || lia).
  - destruct cs as [[|c s] t]; simpl.
    { exists [], (mkChunks [] t). split_and!; simpl; (done || apply Hok || lia). }
    assert (Hc : chunk_ok c) by (destruct Hok as (Hf & _); by inversion Hf).
    rewrite chunk_len_ok, chunk_as_ref_ok by done. simpl. pose proof (zlen_nonneg (chunk_rest c)).
    destruct (chunk_advance_ok (Z.min k (zlen (chunk_rest c))) c Hc ltac:(lia))
      as (c' & -> & Hc' & Hv & Hr). simpl.
    eexists _, _. split; [done |]. split; [by eapply chunks_front_ok |]. split; [| simpl; lia].
    unfold chunks_rest. simpl. rewrite Hr, app_assoc. by rewrite take_drop.
Qed.

Lemma chunk_ops_ok ops cs :
  chunks_ok cs -> Forall op_ok ops ->
  chunks_total cs + zlen (concat (map op_bytes ops)) <= usize_max ->
  exists out cs', chunk_ops ops cs = Ret (out, cs') /\ chunks_ok cs' /\
    out ++ chunks_rest cs' = chunks_rest cs ++ concat (map op_bytes ops).
Proof.
  revert cs. induction ops as [|op ops IH]; intros cs Hok Hops Ht; simpl in *.
  { exists [], cs. by rewrite app_nil_r. }
  inversion Hops as [| ? ? Hop Hops']; subst. rewrite zlen_app in Ht.
  destruct (chunk_op_ok op cs Hok Hop) as (out & cs1 & He & Hok1 & Hr1 & Ht1); [zlen_lia |].
  destruct (IH cs1 Hok1 Hops' ltac:(lia)) as (outs & cs2 & He2 & Hok2 & Hr2).
  exists (out ++ outs), cs2. rewrite He. simpl. rewrite He2. split; [done |]. split; [done |].
  by rewrite <- app_assoc, Hr2, app_assoc, Hr1, app_assoc.
Qed.

(** C32: the receive buffer is a queue of bytes. Whatever is appended, popped and partially read,
    in any order, no operation panics, the bytes given to the reader followed by the bytes left
    are the bytes that were appended, in order, and [len] counts exactly the bytes left. *)
Theorem chunks_fifo ops :
  Forall op_ok ops -> zlen (concat (map op_bytes ops)) <= usize_max ->
  exists out cs, chunk_ops ops chunks_new = Ret (out, cs) /\
    out ++ chunks_rest cs = concat (map op_bytes ops) /\
    chunks_len cs = Ret (zlen (concat (map op_bytes ops)) - zlen out).
Proof.
  intros Hops Ht. destruct (chunk_ops_ok ops chunks_new chunks_new_ok Hops Ht)
    as (out & cs & He & Hok & Hr).
  exists out, cs. split; [done |]. split; [done |]. rewrite chunks_len_ok by done. f_equal.
  simpl in Hr. rewrite <- Hr, zlen_app. lia.
Qed.
End chunks.

Definition chunks_example : list ChunkOp :=
  [OpPush [x01; x02; x03]; OpRead 2; OpPush []; OpPush [x04; x05]; OpPop; OpRead 1].

Lemma chunks_fifo_witness :
  exists out cs, @chunk_ops arch32 chunks_example chunks_new = Ret (out, cs) /\
    out ++ chunks_rest cs = [x01; x02; x03; x04; x05].
Proof.
  destruct (@chunks_fifo arch32 chunks_example) as (out & cs & He & Hr & _).
  - repeat constructor; vm_compute; discriminate.
  - vm_compute. discriminate.
  - exists out, cs. exact (conj He Hr).
Defined.
