(* ===== verification/FlowControl.v ===== *)
(** * Flow control: [connection/stream/flow_control.rs]

    The window bookkeeping of one stream. The round-trip time and the counter
    [accumulated_max_stream_windows] live behind [Arc]s that all streams of a connection share;
    they are arguments, and the counter is also a result. *)
From Stdlib Require Import ZArith Lia.
From stdpp Require Import base option list numbers.
From S2P Require Import Prelude.
From S2P Require Import Config.
From S2P Require Import Frame.
From S2P Require Import Command.

Record FlowController : Set := mkFlowController {
  fc_config : Config;
  fc_last_window_update : Instant;
  fc_receive_window : Z;
  fc_max_receive_window : Z;
  fc_send_window : Z;
}.

Section flow_control.
Context `{Arch}.

Definition fc_new (receive_window send_window : Z) (config : Config) (now : Instant)
    : FlowController :=
  mkFlowController config now receive_window DEFAULT_CREDIT send_window.

(** [assert_invariants] of the checked build. *)
Definition assert_invariants (rtt : option Duration) (acc buffer_len : Z) (fc : FlowController)
    : outcome unit :=
  let config := fc_config fc in
  rust_assert (buffer_len <=? fc_max_receive_window fc) ≫= fun _ =>
  rust_assert (fc_receive_window fc <=? fc_max_receive_window fc) ≫= fun _ =>
  d ← sub_ (fc_max_receive_window fc) DEFAULT_CREDIT;
  p ← mul_ usize_max (max_num_streams config) DEFAULT_CREDIT;
  b ← sub_ (default usize_max (max_connection_receive_window config)) p;
  rust_assert (d <=? b) ≫= fun _ =>
  rust_assert (d <=? acc) ≫= fun _ =>
  match rtt with
  | None => rust_assert (fc_max_receive_window fc =? DEFAULT_CREDIT)
  | Some _ => mret tt
  end.

(** The bytes received and no longer buffered; a buffer length above [u32::MAX] counts as
    [u32::MAX]. *)
Definition window_to_grant (max_receive_window receive_window buffer_len : Z) : outcome Z :=
  bytes_received ← sub_ max_receive_window receive_window;
  mret (saturating_sub bytes_received (default u32_max (try_from u32_max buffer_len))).

(** The doubled maximum, cut to what the connection limit still allows. *)
Definition grow_window (acc : Z) (fc : FlowController) : outcome Z :=
  let config := fc_config fc in
  let new_max := saturating_mul u32_max (fc_max_receive_window fc) 2 in
  p ← mul_ usize_max (max_num_streams config) DEFAULT_CREDIT;
  a ← sub_ (default usize_max (max_connection_receive_window config)) p;
  b ← sub_ a acc;
  connection_limit ← add_ usize_max (fc_max_receive_window fc) b;
  mret (Z.min new_max (default u32_max (try_from u32_max connection_limit))).

(** [next_window_update]: [now] is the reading of [elapsed], [now'] the new time stamp. *)
Definition next_window_update (rtt : option Duration) (now now' : Instant)
    (acc buffer_len : Z) (fc : FlowController) : outcome (option Z * FlowController * Z) :=
  assert_invariants rtt acc buffer_len fc ≫= fun _ =>
  next ← window_to_grant (fc_max_receive_window fc) (fc_receive_window fc) buffer_len;
  if next <? fc_max_receive_window fc / 2 then mret (None, fc, acc) else
  tune ← match rtt with
         | Some r => d ← mul_ duration_max r 2; mret (elapsed now (fc_last_window_update fc) <? d)
         | None => mret false
         end;
  '(new_max, acc', next') ←
    (if tune : bool then
       new_max ← grow_window acc fc;
       d ← sub_ new_max (fc_max_receive_window fc);
       acc' ← add_ usize_max acc d;
       n ← window_to_grant new_max (fc_receive_window fc) buffer_len;
       mret (new_max, acc', n)
     else mret (fc_max_receive_window fc, acc, next));
  receive_window ← add_ u32_max (fc_receive_window fc) next';
  let fc' := mkFlowController (fc_config fc) now' receive_window new_max (fc_send_window fc) in
  assert_invariants rtt acc' buffer_len fc' ≫= fun _ =>
  mret (Some next', fc', acc').

Definition consume_send_window (i : Z) (fc : FlowController)
    : result FlowController ConnectionError :=
  match checked_sub (fc_send_window fc) i with
  | Some w => Ok (mkFlowController (fc_config fc) (fc_last_window_update fc)
                    (fc_receive_window fc) (fc_max_receive_window fc) w)
  | None => Err InvalidWindowUpdate
  end.

Definition increase_send_window_by (i : Z) (fc : FlowController)
    : result FlowController ConnectionError :=
  match checked_add u32_max (fc_send_window fc) i with
  | Some w => Ok (mkFlowController (fc_config fc) (fc_last_window_update fc)
                    (fc_receive_window fc) (fc_max_receive_window fc) w)
  | None => Err InvalidWindowUpdate
  end.

Definition consume_receive_window (i : Z) (fc : FlowController)
    : result FlowController ConnectionError :=
  match checked_sub (fc_receive_window fc) i with
  | Some w => Ok (mkFlowController (fc_config fc) (fc_last_window_update fc)
                    w (fc_max_receive_window fc) (fc_send_window fc))
  | None => Err InvalidWindowUpdate
  end.

(** [Drop for FlowController]: gives back what the stream had claimed. *)
Definition fc_drop (acc : Z) (fc : FlowController) : outcome Z :=
  d ← sub_ (fc_max_receive_window fc) DEFAULT_CREDIT;
  rust_assert (d <=? acc) ≫= fun _ => sub_ acc d.

(** ** The invariant *)

(** What holds of a flow controller whose stream has [buffer_len] unread bytes: the credit
    that the remote still has and the unread bytes fit the maximal window. *)
Definition fc_ok (rtt : option Duration) (buffer_len : Z) (fc : FlowController) : Prop :=
  0 <= fc_receive_window fc /\ 0 <= buffer_len /\
  fc_receive_window fc + buffer_len <= fc_max_receive_window fc /\
  DEFAULT_CREDIT <= fc_max_receive_window fc <= u32_max /\
  0 <= fc_send_window fc <= u32_max /\
  (rtt = None -> fc_max_receive_window fc = DEFAULT_CREDIT).

(** What the stream has claimed beyond the default window, and what may be claimed in all. *)
Definition fc_claim (fc : FlowController) : Z := fc_max_receive_window fc - DEFAULT_CREDIT.

(** The counter covers the claim of this stream and respects the connection limit. At least one
    stream is allowed, or there would be no flow controller. *)
Definition acc_ok (acc : Z) (fc : FlowController) : Prop :=
  config_ok (fc_config fc) /\ 1 <= max_num_streams (fc_config fc) /\
  fc_claim fc <= acc <= config_budget (fc_config fc).

Definition rtt_sane (rtt : option Duration) : Prop :=
  forall d, rtt = Some d -> 0 <= d <= instant_max.

(** What the assertions ask for; that the unread bytes are not counted twice is not among it. *)
Lemma assert_invariants_ret rtt acc buffer_len fc :
  config_ok (fc_config fc) -> buffer_len <= fc_max_receive_window fc ->
  fc_receive_window fc <= fc_max_receive_window fc -> DEFAULT_CREDIT <= fc_max_receive_window fc ->
  fc_claim fc <= acc <= config_budget (fc_config fc) ->
  (rtt = None -> fc_max_receive_window fc = DEFAULT_CREDIT) ->
  assert_invariants rtt acc buffer_len fc = Ret tt.
Proof.
  intros Hc Hb Hr Hm Ha Hn. unfold assert_invariants.
  rewrite (rust_assert_ret (buffer_len <=? _)) by (apply Z.leb_le; lia). simpl.
  rewrite (rust_assert_ret (fc_receive_window fc <=? _)) by (apply Z.leb_le; lia). simpl.
  rewrite sub_ret by lia. simpl. rewrite config_streams_mul by done. simpl.
  unfold fc_claim, config_budget in Ha. rewrite sub_ret by (unfold DEFAULT_CREDIT in *; lia). simpl.
  rewrite (rust_assert_ret (_ <=? default _ _ - _)) by (apply Z.leb_le; lia). simpl.
  rewrite (rust_assert_ret (_ <=? acc)) by (apply Z.leb_le; lia). simpl.
  destruct rtt; [done |]. apply rust_assert_ret. apply Z.eqb_eq. auto.
Qed.

Lemma assert_invariants_ok rtt acc buffer_len fc :
  fc_ok rtt buffer_len fc -> acc_ok acc fc -> assert_invariants rtt acc buffer_len fc = Ret tt.
Proof. intros (Hr & Hb & Hs & Hm & _ & Hn) (Hc & _ & Ha). apply assert_invariants_ret; (done || lia). Qed.

Lemma window_to_grant_ok m r b :
  0 <= r -> 0 <= b -> r + b <= m -> m <= u32_max -> window_to_grant m r b = Ret (m - r - b).
Proof.
  intros. unfold window_to_grant. rewrite sub_ret by lia. simpl.
  unfold try_from, saturating_sub. destruct (Z.leb_spec b u32_max); [| lia]. simpl.
  unfold mret, outcome_ret. f_equal. lia.
Qed.

(** The reference for the growth of the maximum: twice the window, within [u32] and within what
    the connection has left. *)
Definition grown (acc : Z) (fc : FlowController) : Z :=
  Z.min (Z.min u32_max (2 * fc_max_receive_window fc))
        (fc_max_receive_window fc + (config_budget (fc_config fc) - acc)).

Lemma grow_window_ok acc fc :
  acc_ok acc fc -> DEFAULT_CREDIT <= fc_max_receive_window fc <= u32_max ->
  grow_window acc fc = Ret (grown acc fc).
Proof.
  intros (Hc & Hn & Ha) Hm. pose proof (config_limit_range _ Hc) as Hl.
  unfold grow_window, grown, saturating_mul. rewrite config_streams_mul by done. simpl.
  unfold fc_claim, config_budget in *. unfold DEFAULT_CREDIT, KIB in *.
  rewrite sub_ret by lia. simpl. rewrite sub_ret by lia. simpl. rewrite add_ret by lia. simpl.
  unfold try_from, mret, outcome_ret.
  destruct (Z.leb_spec (fc_max_receive_window fc +
    (default usize_max (max_connection_receive_window (fc_config fc)) -
       max_num_streams (fc_config fc) * (256 * 1024) - acc)) u32_max); simpl; f_equal; lia.
Qed.

(** Whether the window is doubled: a round-trip time is known and less than two round trips have
    passed since the last update. *)
Definition tunes (rtt : option Duration) (now : Instant) (fc : FlowController) : bool :=
  match rtt with Some r => elapsed now (fc_last_window_update fc) <? r * 2 | None => false end.

(** The maximal window after an update. *)
Definition next_max (rtt : option Duration) (now : Instant) (acc : Z) (fc : FlowController) : Z :=
  if tunes rtt now fc then grown acc fc else fc_max_receive_window fc.

Lemma next_max_range rtt now acc fc :
  acc_ok acc fc -> DEFAULT_CREDIT <= fc_max_receive_window fc <= u32_max ->
  fc_max_receive_window fc <= next_max rtt now acc fc <= u32_max /\
  next_max rtt now acc fc <= 2 * fc_max_receive_window fc /\
  acc + (next_max rtt now acc fc - fc_max_receive_window fc) <= config_budget (fc_config fc).
Proof.
  intros (_ & _ & Ha) Hm. unfold next_max, grown, DEFAULT_CREDIT, KIB in *.
  destruct (tunes rtt now fc); lia.
Qed.

Lemma tune_ok rtt now fc :
  rtt_sane rtt ->
  (match rtt with
   | Some r => d ← mul_ duration_max r 2; mret (elapsed now (fc_last_window_update fc) <? d)
   | None => mret false
   end) = Ret (tunes rtt now fc).
Proof.
  intros Hs. destruct rtt as [r|]; [| done]. specialize (Hs r eq_refl).
  rewrite mul_ret by (apply twice_instant_max; lia). done.
Qed.

(** The controller after an update to the maximum [m]. *)
Definition fc_updated (m buffer_len : Z) (now' : Instant) (fc : FlowController) : FlowController :=
  mkFlowController (fc_config fc) now' (m - buffer_len) m (fc_send_window fc).

Lemma fc_updated_ok rtt now now' acc buffer_len fc :
  fc_ok rtt buffer_len fc -> acc_ok acc fc ->
  let m := next_max rtt now acc fc in
  fc_ok rtt buffer_len (fc_updated m buffer_len now' fc) /\
  acc_ok (acc + (m - fc_max_receive_window fc)) (fc_updated m buffer_len now' fc).
Proof.
  intros (Hr & Hb & Hs & Hm & Hsw & Hn) Ha m.
  pose proof (next_max_range rtt now acc fc Ha Hm) as (H1 & H2 & H3). fold m in H1, H2, H3.
  destruct Ha as (Hc & Hns & Ha). unfold fc_ok, acc_ok, fc_claim in *. simpl.
  split; [| split_and!; (done || lia)].
  split_and!; try lia. intros ->. unfold m, next_max. simpl. auto.
Qed.

(** One update, on every branch. *)
Lemma next_window_update_ok rtt now now' acc buffer_len fc :
  fc_ok rtt buffer_len fc -> acc_ok acc fc -> rtt_sane rtt ->
  let used := fc_max_receive_window fc - fc_receive_window fc - buffer_len in
  let m := next_max rtt now acc fc in
  let acc' := acc + (m - fc_max_receive_window fc) in
  if used <? fc_max_receive_window fc / 2
  then next_window_update rtt now now' acc buffer_len fc = Ret (None, fc, acc)
  else next_window_update rtt now now' acc buffer_len fc
       = Ret (Some (m - fc_receive_window fc - buffer_len), fc_updated m buffer_len now' fc, acc') /\
       fc_ok rtt buffer_len (fc_updated m buffer_len now' fc) /\
       acc_ok acc' (fc_updated m buffer_len now' fc).
Proof.
  intros Hf Ha Hs used m acc'.
  assert (Hnew := fc_updated_ok rtt now now' acc buffer_len fc Hf Ha).
  fold m in Hnew. fold acc' in Hnew.
  unfold next_window_update. rewrite assert_invariants_ok by done. simpl.
  pose proof Hf as (Hr & Hb & Hsum & Hm & Hsw & Hn).
  rewrite window_to_grant_ok by lia. simpl. fold used.
  destruct (Z.ltb_spec used (fc_max_receive_window fc / 2)); [done |]. split; [| done].
  rewrite tune_ok by done. simpl.
  pose proof (next_max_range rtt now acc fc Ha Hm) as (H1 & H2 & H3). fold m in H1, H2, H3.
  assert (Hmid :
    (if tunes rtt now fc then
       new_max ← grow_window acc fc;
       d ← sub_ new_max (fc_max_receive_window fc);
       acc' ← add_ usize_max acc d;
       n ← window_to_grant new_max (fc_receive_window fc) buffer_len;
       mret (new_max, acc', n)
     else mret (fc_max_receive_window fc, acc, used))
    = Ret (m, acc', m - fc_receive_window fc - buffer_len)).
  { unfold m, acc', next_max in *. destruct (tunes rtt now fc).
    - rewrite grow_window_ok by done. simpl. rewrite sub_ret by lia. simpl.
      destruct Ha as (Hc & _ & _). pose proof (config_limit_range _ Hc).
      destruct Hc as (_ & ? & _ & _). unfold config_budget, DEFAULT_CREDIT, KIB in *.
      rewrite add_ret by lia. simpl. by rewrite window_to_grant_ok by lia.
    - unfold mret, outcome_ret. repeat f_equal; lia. }
  rewrite Hmid. simpl. rewrite add_ret by lia. simpl.
  replace (fc_receive_window fc + (m - fc_receive_window fc - buffer_len)) with (m - buffer_len)
    by lia.
  fold (fc_updated m buffer_len now' fc). by rewrite assert_invariants_ok by apply Hnew.
Qed.

(** C28: on a controller that satisfies the invariant, the update panics on no branch: no
    arithmetic overflows and no assertion fails. Below half of the window it changes nothing and
    grants nothing. Otherwise it grants exactly what makes the remote's credit and the unread
    bytes add up to the maximal window, which is the old one, or, when the window is tuned, the
    doubled one cut to the connection limit, and the counter grows by the same amount. The
    invariant is kept. *)
Theorem next_window_update_spec rtt now now' acc buffer_len fc :
  fc_ok rtt buffer_len fc -> acc_ok acc fc -> rtt_sane rtt ->
  let used := fc_max_receive_window fc - fc_receive_window fc - buffer_len in
  let m := next_max rtt now acc fc in
  let acc' := acc + (m - fc_max_receive_window fc) in
  if used <? fc_max_receive_window fc / 2
  then next_window_update rtt now now' acc buffer_len fc = Ret (None, fc, acc)
  else next_window_update rtt now now' acc buffer_len fc
       = Ret (Some (m - fc_receive_window fc - buffer_len), fc_updated m buffer_len now' fc, acc') /\
       fc_ok rtt buffer_len (fc_updated m buffer_len now' fc) /\
       acc_ok acc' (fc_updated m buffer_len now' fc).
Proof. apply next_window_update_ok. Qed.

Definition with_receive_window (w : Z) (fc : FlowController) : FlowController :=
  mkFlowController (fc_config fc) (fc_last_window_update fc) w (fc_max_receive_window fc)
    (fc_send_window fc).
Definition with_send_window (w : Z) (fc : FlowController) : FlowController :=
  mkFlowController (fc_config fc) (fc_last_window_update fc) (fc_receive_window fc)
    (fc_max_receive_window fc) w.

(** Credit is exact and never wraps. Consuming more than a window holds, and adding more
    than [u32] holds, is an [InvalidWindowUpdate]; everything else moves the window by exactly
    the amount and touches nothing else. *)
Theorem window_arithmetic fc i :
  0 <= i ->
  consume_receive_window i fc
    = (if i <=? fc_receive_window fc
       then Ok (with_receive_window (fc_receive_window fc - i) fc) else Err InvalidWindowUpdate) /\
  consume_send_window i fc
    = (if i <=? fc_send_window fc
       then Ok (with_send_window (fc_send_window fc - i) fc) else Err InvalidWindowUpdate) /\
  increase_send_window_by i fc
    = (if fc_send_window fc + i <=? u32_max
       then Ok (with_send_window (fc_send_window fc + i) fc) else Err InvalidWindowUpdate).
Proof.
  intros Hi. unfold consume_receive_window, consume_send_window, increase_send_window_by.
  unfold checked_sub, checked_add.
  split_and!; [destruct (i <=? fc_receive_window fc) | destruct (i <=? fc_send_window fc)
              | destruct (fc_send_window fc + i <=? u32_max)]; done.
Qed.

Lemma consume_receive_window_ok rtt buffer_len i fc fc' :
  fc_ok rtt buffer_len fc -> 0 <= i -> consume_receive_window i fc = Ok fc' ->
  fc_ok rtt (buffer_len + i) fc' /\ fc_claim fc' = fc_claim fc /\ fc_config fc' = fc_config fc /\
  i <= u32_max.
Proof.
  intros (Hr & Hb & Hs & Hm & Hsw & Hn) Hi. unfold consume_receive_window.
  destruct (checked_sub _ _) as [w|] eqn:E; [intros [= <-] | done].
  apply checked_sub_some in E as [-> ?].
  unfold fc_ok, fc_claim. simpl. split_and!; (done || lia).
Qed.

Lemma consume_send_window_ok rtt buffer_len i fc fc' :
  fc_ok rtt buffer_len fc -> 0 <= i -> consume_send_window i fc = Ok fc' ->
  fc_ok rtt buffer_len fc' /\ fc_claim fc' = fc_claim fc /\ fc_config fc' = fc_config fc /\
  fc_send_window fc' = fc_send_window fc - i.
Proof.
  intros (Hr & Hb & Hs & Hm & Hsw & Hn) Hi. unfold consume_send_window.
  destruct (checked_sub _ _) as [w|] eqn:E; [intros [= <-] | done].
  apply checked_sub_some in E as [-> ?].
  unfold fc_ok, fc_claim. simpl. split_and!; (done || lia).
Qed.

Lemma increase_send_window_ok rtt buffer_len i fc fc' :
  fc_ok rtt buffer_len fc -> 0 <= i -> increase_send_window_by i fc = Ok fc' ->
  fc_ok rtt buffer_len fc' /\ fc_claim fc' = fc_claim fc /\ fc_config fc' = fc_config fc /\
  fc_send_window fc' = fc_send_window fc + i.
Proof.
  intros (Hr & Hb & Hs & Hm & Hsw & Hn) Hi. unfold increase_send_window_by.
  destruct (checked_add _ _ _) as [w|] eqn:E; [intros [= <-] | done].
  apply checked_add_some in E as [-> ?].
  unfold fc_ok, fc_claim. simpl. split_and!; (done || lia).
Qed.

Lemma fc_drop_ok acc fc :
  DEFAULT_CREDIT <= fc_max_receive_window fc -> fc_claim fc <= acc ->
  fc_drop acc fc = Ret (acc - fc_claim fc).
Proof.
  intros Hm Ha. unfold fc_drop, fc_claim in *. rewrite sub_ret by lia. simpl.
  rewrite rust_assert_ret by (apply Z.leb_le; lia). simpl. by rewrite sub_ret by lia.
Qed.

Lemma fc_new_ok rtt w c now :
  0 <= w <= u32_max -> fc_ok rtt 0 (fc_new DEFAULT_CREDIT w c now) /\
  fc_claim (fc_new DEFAULT_CREDIT w c now) = 0.
Proof. intros. unfold fc_ok, fc_claim, fc_new, u32_max, DEFAULT_CREDIT, KIB in *. simpl. lia. Qed.

(** A window that was measured stays valid when the measurement changes. *)
Lemma fc_ok_rtt rtt rtt' b fc :
  fc_ok rtt b fc -> (is_Some rtt -> is_Some rtt') -> fc_ok rtt' b fc.
Proof.
  intros (?&?&?&?&?& Hn) Hi. unfold fc_ok. split_and!; try (done || lia).
  intros ->. apply Hn. destruct rtt; [| done]. destruct (Hi ltac:(eauto)). done.
Qed.

Lemma fc_ok_buffer rtt b b' fc : fc_ok rtt b fc -> 0 <= b' <= b -> fc_ok rtt b' fc.
Proof. intros (?&?&?&?&?&?) ?. unfold fc_ok. split_and!; (done || lia). Qed.
End flow_control.

(** A stream that has used its default window within two round trips, on a connection with 100000
    bytes left to give. *)
Definition fc_example : FlowController :=
  mkFlowController (mkConfig (Some (2 * DEFAULT_CREDIT + 100000)) 2 true 1) 50 10000 DEFAULT_CREDIT 7.

Lemma next_window_update_witness :
  @next_window_update arch64 (Some 100) 60 61 0 2144 fc_example
  = Ret (Some 350000, @fc_updated 362144 2144 61 fc_example, 100000).
Proof.
  refine (proj1 (@next_window_update_spec arch64 (Some 100) 60 61 0 2144 fc_example _ _ _)).
  - unfold fc_ok. vm_compute. intuition discriminate.
  - unfold acc_ok, config_ok.
    split_and!; [intros n [= <-] | ..]; vm_compute; intuition discriminate.
  - intros d [= <-]. vm_compute. intuition discriminate.
Defined.

Lemma window_arithmetic_witness :
  consume_send_window 8 fc_example = Err InvalidWindowUpdate.
Proof. exact (proj1 (proj2 (window_arithmetic fc_example 8 ltac:(lia)))). Defined.
