(* ===== verification/Shared.v ===== *)
(** * The shared half of a stream: [State] and [Shared] of [connection/stream.rs]

    The life cycle of a stream and the record that the stream handle and the connection share
    behind an [Arc<Mutex<_>>]. *)
From Stdlib Require Import ZArith Lia Strings.Byte.
From stdpp Require Import base option list numbers.
From S2P Require Import Prelude.
From S2P Require Import Config.
From S2P Require Import Frame.
From S2P Require Import Command.
From S2P Require Import ChunkList.
From S2P Require Import FlowControl.

(** The state of a Yamux stream. *)
Inductive State : Set :=
| Open (acknowledged : bool)
| SendClosed
| RecvClosed
| Closed.

#[export] Instance State_eq_dec : EqDecision State.
Proof. solve_decision. Defined.

Definition can_read (s : State) : bool :=
  match s with RecvClosed | Closed => false | _ => true end.
Definition can_write (s : State) : bool :=
  match s with SendClosed | Closed => false | _ => true end.

(** The table of [Shared::update_state]. *)
Definition state_update (current next : State) : State :=
  match current, next with
  | Closed, _ => current
  | Open _, _ => next
  | RecvClosed, Closed => Closed
  | RecvClosed, Open _ => current
  | RecvClosed, RecvClosed => current
  | RecvClosed, SendClosed => Closed
  | SendClosed, Closed => Closed
  | SendClosed, Open _ => current
  | SendClosed, RecvClosed => Closed
  | SendClosed, SendClosed => current
  end.

Record Shared : Set := mkShared {
  sh_state : State;
  sh_flow_controller : FlowController;
  sh_buffer : Chunks;
  sh_reader : option Waker;
  sh_writer : option Waker;
}.

Definition set_state (s : State) (sh : Shared) : Shared :=
  mkShared s (sh_flow_controller sh) (sh_buffer sh) (sh_reader sh) (sh_writer sh).
Definition set_flow_controller (fc : FlowController) (sh : Shared) : Shared :=
  mkShared (sh_state sh) fc (sh_buffer sh) (sh_reader sh) (sh_writer sh).
Definition set_buffer (b : Chunks) (sh : Shared) : Shared :=
  mkShared (sh_state sh) (sh_flow_controller sh) b (sh_reader sh) (sh_writer sh).
Definition set_reader (w : option Waker) (sh : Shared) : Shared :=
  mkShared (sh_state sh) (sh_flow_controller sh) (sh_buffer sh) w (sh_writer sh).
Definition set_writer (w : option Waker) (sh : Shared) : Shared :=
  mkShared (sh_state sh) (sh_flow_controller sh) (sh_buffer sh) (sh_reader sh) w.

Definition shared_new (receive_window send_window : Z) (config : Config) (now : Instant) : Shared :=
  mkShared (Open false) (fc_new receive_window send_window config now) chunks_new None None.

(** [update_state]: the state before the update, and the record after it. *)
Definition update_state (next : State) (sh : Shared) : State * Shared :=
  (sh_state sh, set_state (state_update (sh_state sh) next) sh).

Definition is_pending_ack (sh : Shared) : bool :=
  match sh_state sh with Open false => true | _ => false end.

Definition send_window (sh : Shared) : Z := fc_send_window (sh_flow_controller sh).

(** The delegations to the flow controller. *)
Definition on_flow_controller (f : FlowController -> result FlowController ConnectionError)
    (sh : Shared) : result Shared ConnectionError :=
  match f (sh_flow_controller sh) with
  | Ok fc => Ok (set_flow_controller fc sh)
  | Err e => Err e
  end.
Definition shared_consume_send_window (i : Z) := on_flow_controller (consume_send_window i).
Definition shared_increase_send_window_by (i : Z) := on_flow_controller (increase_send_window_by i).
Definition shared_consume_receive_window (i : Z) := on_flow_controller (consume_receive_window i).

(** ** The life cycle *)

(** What each state still allows: reading, writing, and waiting for an acknowledgement. A state
    only ever loses permissions. *)
Definition state_le (s s' : State) : Prop :=
  (can_read s' = true -> can_read s = true) /\ (can_write s' = true -> can_write s = true).

#[export] Instance state_le_preorder : PreOrder state_le.
Proof. split; unfold state_le; [done | intros s1 s2 s3 [] []; auto]. Qed.

(** The half-close semantics the table implements: closing one half removes exactly that
    permission, closing removes both, an acknowledgement removes none. *)
Theorem state_update_spec s next :
  can_read (state_update s next) = can_read s && can_read next /\
  can_write (state_update s next) = can_write s && can_write next.
Proof. by destruct s, next. Qed.

Lemma state_update_le s next : state_le s (state_update s next).
Proof.
  pose proof (state_update_spec s next) as [H1 H2].
  split; [rewrite H1 | rewrite H2]; by intros [??]%andb_prop.
Qed.

Lemma state_update_closed s : state_update s Closed = Closed.
Proof. by destruct s. Qed.

(** A closed stream stays closed, and only an acknowledgement of an open stream keeps it open. *)
Lemma state_update_from_closed next : state_update Closed next = Closed.
Proof. done. Qed.

Lemma state_update_pending s next :
  state_update s next = Open false -> next = Open false /\ exists b, s = Open b.
Proof. destruct s as [b| | |], next as [b'| | |]; simpl; intros [=]; subst; eauto. Qed.

(** Updates in any order and any number: the permissions that are left are those of the first state
    that every update allows. *)
Definition state_updates (s : State) (nexts : list State) : State := foldl state_update s nexts.

(** The state table is a half-close automaton. After any sequence of updates a stream can be
    read (written) exactly when it could before and no update closed that direction; in particular
    the result does not depend on the order in which the two peers close, and [Closed] is final. *)
Theorem state_updates_spec s nexts :
  can_read (state_updates s nexts) = can_read s && forallb can_read nexts /\
  can_write (state_updates s nexts) = can_write s && forallb can_write nexts /\
  (Closed ∈ nexts \/ s = Closed -> state_updates s nexts = Closed).
Proof.
  revert s. induction nexts as [|n nexts IH]; intros s; simpl.
  - rewrite !andb_true_r. split_and!; [done | done |]. intros [H | H]; [| done].
    by apply elem_of_nil in H.
  - destruct (IH (state_update s n)) as (H1 & H2 & H3). rewrite H1, H2.
    pose proof (state_update_spec s n) as [-> ->]. rewrite !andb_assoc. split_and!; [done | done |].
    intros H. apply H3. destruct H as [[Hn|]%elem_of_cons | ->]; [| by left |].
    + right. subst n. apply state_update_closed.
    + right. apply state_update_from_closed.
Qed.

Lemma state_updates_witness : state_updates (Open true) [RecvClosed; Open true; SendClosed; Open false; Closed] = Closed.
Proof.
  apply (state_updates_spec (Open true) [RecvClosed; Open true; SendClosed; Open false; Closed]).
  left. vm_compute. do 4 right. left.
Defined.

(** ** The invariant of the shared record *)

Section shared.
Context `{Arch}.

(** The buffer is well formed and the flow controller accounts for its unread bytes. *)
Definition shared_ok (rtt : option Duration) (sh : Shared) : Prop :=
  chunks_ok (sh_buffer sh) /\
  fc_ok rtt (zlen (chunks_rest (sh_buffer sh))) (sh_flow_controller sh).

Definition shared_claim (sh : Shared) : Z := fc_claim (sh_flow_controller sh).

Lemma shared_new_ok rtt w c now :
  0 <= w <= u32_max -> shared_ok rtt (shared_new DEFAULT_CREDIT w c now) /\
  shared_claim (shared_new DEFAULT_CREDIT w c now) = 0.
Proof.
  intros Hw. destruct (fc_new_ok rtt w c now Hw). split; [| done]. split; [apply chunks_new_ok |].
  done.
Qed.

Lemma shared_ok_rtt rtt rtt' sh :
  shared_ok rtt sh -> (is_Some rtt -> is_Some rtt') -> shared_ok rtt' sh.
Proof. intros [? ?] ?. split; [done |]. by eapply fc_ok_rtt. Qed.

(** Credit consumed by an inbound body, which is then pushed to the buffer. *)
Lemma shared_receive_ok rtt sh fc b :
  u32_max + u32_max <= usize_max ->
  shared_ok rtt sh -> consume_receive_window (zlen b) (sh_flow_controller sh) = Ok fc ->
  exists cs, chunks_push b (sh_buffer sh) = Ret cs /\
    forall s r w, shared_ok rtt (mkShared s fc cs r w) /\
      chunks_rest cs = chunks_rest (sh_buffer sh) ++ b /\ fc_claim fc = shared_claim sh /\
      fc_config fc = fc_config (sh_flow_controller sh).
Proof.
  intros Hus [Hb Hf] Hc. pose proof (zlen_nonneg b) as Hnb.
  destruct (consume_receive_window_ok _ _ _ _ _ Hf Hnb Hc) as (Hf' & Hcl & Hcf & Hbl).
  assert (Ht : chunks_total (sh_buffer sh) + zlen b <= usize_max).
  { destruct Hf as (_ & _ & Hs & Hm & _), Hf' as (Hr & _ & Hs' & Hm' & _).
    destruct Hb as (Hck & Hu & -> & _). unfold chunks_rest in *.
    destruct (chunks_seq (sh_buffer sh)) as [|c s]; simpl in *.
    - autorewrite with zlen in *. lia.
    - inversion Hck as [|? ? [_ Hv] _]; subst. rewrite zlen_app, chunks_rest_unread in Hs' by done.
      pose proof (zlen_nonneg (chunk_rest c)). lia. }
  destruct (chunks_push_ok _ b Hb Hbl Ht) as (cs & Hp & Hok & Hr & _).
  exists cs. split; [done |]. intros. unfold shared_ok. simpl. rewrite Hr, zlen_app. done.
Qed.
End shared.
