(* ===== verification/Heap.v ===== *)
(** * The memory that stream handles and connection share

    The [Arc]s of the crate, written out: every stream has one [Arc<Mutex<Shared>>], named by a
    location, with its strong count; the counter [accumulated_max_stream_windows] and the [Rtt] are
    shared by the whole connection. Taking a lock and releasing it is one access. Every reading of
    [Instant::now()] takes the next value of an arbitrary clock, and every [Waker::wake()] is
    recorded. *)
From Stdlib Require Import ZArith Lia Strings.Byte.
From stdpp Require Import base option list gmap numbers.
From S2P Require Import Prelude.
From S2P Require Import Config.
From S2P Require Import Frame.
From S2P Require Import Command.
From S2P Require Import Rtt.
From S2P Require Import ChunkList.
From S2P Require Import FlowControl.
From S2P Require Import Shared.

(** A location of the heap: an [Arc<Mutex<Shared>>]. *)
Abbreviation loc := positive (only parsing).

Record Cell : Set := mkCell {
  strong : nat;
  contents : Shared;
}.

Record Mem : Set := mkMem {
  cells : gmap positive Cell;
  acc : Z;
  rtt : Rtt;
  clock : nat -> Instant;
  ticks : nat;
  woken : list Waker;
}.

Definition set_cells (c : gmap positive Cell) (m : Mem) : Mem :=
  mkMem c (acc m) (rtt m) (clock m) (ticks m) (woken m).
Definition set_acc (a : Z) (m : Mem) : Mem :=
  mkMem (cells m) a (rtt m) (clock m) (ticks m) (woken m).
Definition set_rtt (r : Rtt) (m : Mem) : Mem :=
  mkMem (cells m) (acc m) r (clock m) (ticks m) (woken m).
Definition set_ticks (t : nat) (m : Mem) : Mem :=
  mkMem (cells m) (acc m) (rtt m) (clock m) t (woken m).
Definition set_woken (w : list Waker) (m : Mem) : Mem :=
  mkMem (cells m) (acc m) (rtt m) (clock m) (ticks m) w.

(** [Instant::now()]. *)
Definition read_clock : M Mem Instant := fun m =>
  Ret (clock m (ticks m), set_ticks (S (ticks m)) m).

(** [if let Some(w) = slot.take() { w.wake() }], for the waker that was in the slot. *)
Definition wake (w : option Waker) : M Mem unit :=
  match w with
  | Some w => modify (fun m => set_woken (woken m ++ [w]) m)
  | None => mret tt
  end.

(** Reading and writing the record behind a live [Arc]. *)
Definition lock (l : loc) : M Mem Shared := fun m =>
  match cells m !! l with Some c => Ret (contents c, m) | None => Panic end.

Definition store (l : loc) (sh : Shared) : M Mem unit := fun m =>
  match cells m !! l with
  | Some c => Ret (tt, set_cells (<[l := mkCell (strong c) sh]> (cells m)) m)
  | None => Panic
  end.

(** [Arc::new(Mutex::new(sh))]. *)
Definition arc_new (sh : Shared) : M Mem loc := fun m =>
  let l := fresh (dom (cells m)) in
  Ret (l, set_cells (<[l := mkCell 1 sh]> (cells m)) m).

(** [Arc::clone]. *)
Definition arc_clone (l : loc) : M Mem loc := fun m =>
  match cells m !! l with
  | Some c => Ret (l, set_cells (<[l := mkCell (S (strong c)) (contents c)]> (cells m)) m)
  | None => Panic
  end.

Section heap.
Context `{Arch}.

(** Dropping an [Arc]; the last one drops the record and with it the flow controller. *)
Definition arc_drop (l : loc) : M Mem unit := fun m =>
  match cells m !! l with
  | Some (mkCell (S (S n)) sh) => Ret (tt, set_cells (<[l := mkCell (S n) sh]> (cells m)) m)
  | Some (mkCell _ sh) =>
      a ← fc_drop (acc m) (sh_flow_controller sh);
      Ret (tt, set_acc a (set_cells (delete l (cells m)) m))
  | None => Panic
  end.

(** [shared.lock().update_state(..)]. *)
Definition lock_update_state (l : loc) (next : State) : M Mem State :=
  sh ← lock l;
  let '(old, sh') := update_state next sh in
  store l sh' ≫= fun _ => mret old.

(** [if let Some(w) = shared.reader.take() { w.wake() }], and the same for the writer. *)
Definition wake_reader (l : loc) : M Mem unit :=
  sh ← lock l; store l (set_reader None sh) ≫= fun _ => wake (sh_reader sh).
Definition wake_writer (l : loc) : M Mem unit :=
  sh ← lock l; store l (set_writer None sh) ≫= fun _ => wake (sh_writer sh).

(** [Shared::next_window_update], which locks the shared counter and reads the [Rtt]. *)
Definition shared_next_window_update (l : loc) : M Mem (option Z) :=
  sh ← lock l;
  n ← lift (chunks_len (sh_buffer sh));
  r ← gets (fun m => rtt_get (rtt m));
  a ← gets acc;
  now ← read_clock;
  now' ← read_clock;
  '(credit, fc, a') ← lift (next_window_update r now now' a n (sh_flow_controller sh));
  modify (set_acc a') ≫= fun _ =>
  store l (set_flow_controller fc sh) ≫= fun _ =>
  mret credit.

(** ** The memory invariant *)

Definition cell_claim (c : Cell) : Z := shared_claim (contents c).

Definition cell_ok (cfg : Config) (r : option Duration) (c : Cell) : Prop :=
  shared_ok r (contents c) /\ fc_config (sh_flow_controller (contents c)) = cfg /\
  (0 < strong c)%nat /\ 1 <= max_num_streams cfg.

(** Every live record is well formed, and the shared counter is the sum of what the live streams
    have claimed beyond the default window, within the connection limit. *)
Record mem_ok (cfg : Config) (m : Mem) : Prop := {
  mo_config : config_ok cfg;
  mo_cells : forall l c, cells m !! l = Some c -> cell_ok cfg (rtt_get (rtt m)) c;
  mo_acc : acc m = map_sum cell_claim (cells m);
  mo_budget : acc m <= config_budget cfg;
  mo_rtt : rtt_ok (rtt m);
  mo_clock : forall i, instant_ok (clock m i);
}.

(** How an access that creates and drops no [Arc] may change the memory: strong counts stay, a
    stream never regains a permission and never again waits for an acknowledgement, and cells
    outside [P] are untouched. *)
Record mem_rel (P : loc -> Prop) (m m' : Mem) : Prop := {
  mr_strong : forall l, strong <$> cells m' !! l = strong <$> cells m !! l;
  mr_state : forall l c c', cells m !! l = Some c -> cells m' !! l = Some c' ->
    state_le (sh_state (contents c)) (sh_state (contents c'));
  mr_pending : forall l c c', cells m !! l = Some c -> cells m' !! l = Some c' ->
    is_pending_ack (contents c') = true -> is_pending_ack (contents c) = true;
  mr_other : forall l, ~ P l -> cells m' !! l = cells m !! l;
  mr_clock : clock m' = clock m;
  mr_woken : exists ws, woken m' = woken m ++ ws;
}.

Lemma mem_rel_refl P m : mem_rel P m m.
Proof.
  split; try done; try (intros; simplify_eq; done).
  exists []. by rewrite app_nil_r.
Qed.

Lemma mem_rel_lookup P m m' l c :
  mem_rel P m m' -> cells m !! l = Some c ->
  exists c', cells m' !! l = Some c' /\ strong c' = strong c.
Proof.
  intros Hr Hl. pose proof (mr_strong _ _ _ Hr l) as Hs. rewrite Hl in Hs. simpl in Hs.
  destruct (cells m' !! l); simplify_eq/=. eauto.
Qed.

Lemma mem_rel_trans P m1 m2 m3 : mem_rel P m1 m2 -> mem_rel P m2 m3 -> mem_rel P m1 m3.
Proof.
  intros H1 H2. split.
  - intros l. by rewrite (mr_strong _ _ _ H2), (mr_strong _ _ _ H1).
  - intros l c c' Hc Hc'. destruct (mem_rel_lookup _ _ _ _ _ H1 Hc) as (c2 & Hc2 & _).
    etrans; [by eapply (mr_state _ _ _ H1) | by eapply (mr_state _ _ _ H2)].
  - intros l c c' Hc Hc' Hp. destruct (mem_rel_lookup _ _ _ _ _ H1 Hc) as (c2 & Hc2 & _).
    eapply (mr_pending _ _ _ H1); [done.. |]. by eapply (mr_pending _ _ _ H2).
  - intros l Hl. by rewrite (mr_other _ _ _ H2), (mr_other _ _ _ H1).
  - by rewrite (mr_clock _ _ _ H2), (mr_clock _ _ _ H1).
  - destruct (mr_woken _ _ _ H1) as [w1 E1], (mr_woken _ _ _ H2) as [w2 E2].
    exists (w1 ++ w2). by rewrite E2, E1, app_assoc.
Qed.

Lemma mem_rel_mono (P Q : loc -> Prop) m m' :
  mem_rel P m m' -> (forall l, P l -> Q l) -> mem_rel Q m m'.
Proof. intros [] HPQ. split; auto. Qed.

#[export] Instance mem_rel_preorder P : PreOrder (mem_rel P).
Proof. split; [intros m; apply mem_rel_refl | intros m1 m2 m3; apply mem_rel_trans]. Qed.

(** ** Accesses to a live record *)

(** The memory with another record at [l]. *)
Definition put (l : loc) (sh : Shared) (m : Mem) : Mem :=
  set_cells (alter (fun c => mkCell (strong c) sh) l (cells m)) m.

#[global] Arguments put : simpl never.

Definition wake_mem (w : option Waker) (m : Mem) : Mem :=
  match w with Some w => set_woken (woken m ++ [w]) m | None => m end.

Lemma put_put l s1 s2 m : put l s2 (put l s1 m) = put l s2 m.
Proof. unfold put, set_cells. simpl. f_equal. apply map_eq. intros l'.
  rewrite !lookup_alter. repeat case_decide; try done. subst.
  by destruct (cells m !! l'). Qed.

Lemma put_wake l s w m : put l s (wake_mem w m) = wake_mem w (put l s m).
Proof. by destruct w. Qed.

Lemma cells_wake w m : cells (wake_mem w m) = cells m.
Proof. by destruct w. Qed.

Lemma cells_put_eq l sh m c :
  cells m !! l = Some c -> cells (put l sh m) !! l = Some (mkCell (strong c) sh).
Proof. intros Hl. unfold put. simpl. by rewrite lookup_alter_eq, Hl. Qed.

Lemma cells_put_ne l l' sh m : l <> l' -> cells (put l sh m) !! l' = cells m !! l'.
Proof. intros Hl. unfold put. simpl. by rewrite lookup_alter_ne. Qed.

Lemma cells_put_insert l sh m c :
  cells m !! l = Some c -> cells (put l sh m) = <[l := mkCell (strong c) sh]> (cells m).
Proof.
  intros Hl. apply map_eq. intros l'. destruct (decide (l = l')) as [<- |].
  - by rewrite (cells_put_eq _ _ _ _ Hl), lookup_insert_eq.
  - by rewrite cells_put_ne, lookup_insert_ne.
Qed.

Lemma lock_eval l m c : cells m !! l = Some c -> lock l m = Ret (contents c, m).
Proof. intros Hl. unfold lock. by rewrite Hl. Qed.

Lemma store_eval l sh m c : cells m !! l = Some c -> store l sh m = Ret (tt, put l sh m).
Proof.
  intros Hl. unfold store. rewrite Hl. unfold put. do 3 f_equal.
  symmetry. exact (cells_put_insert _ _ _ _ Hl).
Qed.

Lemma wake_eval w m : wake w m = Ret (tt, wake_mem w m).
Proof. by destruct w. Qed.

Lemma lock_update_state_eval l next m c :
  cells m !! l = Some c ->
  lock_update_state l next m
  = Ret (sh_state (contents c),
         put l (set_state (state_update (sh_state (contents c)) next) (contents c)) m).
Proof.
  intros Hl. unfold lock_update_state, mbind, M_bind. rewrite (lock_eval _ _ _ Hl). simpl.
  by rewrite (store_eval _ _ _ _ Hl).
Qed.

Lemma wake_reader_eval l m c :
  cells m !! l = Some c ->
  wake_reader l m
  = Ret (tt, wake_mem (sh_reader (contents c)) (put l (set_reader None (contents c)) m)).
Proof.
  intros Hl. unfold wake_reader, mbind, M_bind. rewrite (lock_eval _ _ _ Hl).
  by rewrite (store_eval _ _ _ _ Hl), wake_eval.
Qed.

Lemma wake_writer_eval l m c :
  cells m !! l = Some c ->
  wake_writer l m
  = Ret (tt, wake_mem (sh_writer (contents c)) (put l (set_writer None (contents c)) m)).
Proof.
  intros Hl. unfold wake_writer, mbind, M_bind. rewrite (lock_eval _ _ _ Hl).
  by rewrite (store_eval _ _ _ _ Hl), wake_eval.
Qed.

(** ** Keeping the invariant *)

(** Replacing the record at [l], and moving the counter by the change of its claim. *)
Lemma mem_ok_update cfg m l c sh a t w :
  mem_ok cfg m -> cells m !! l = Some c ->
  shared_ok (rtt_get (rtt m)) sh ->
  fc_config (sh_flow_controller sh) = fc_config (sh_flow_controller (contents c)) ->
  a = acc m - cell_claim c + shared_claim sh -> a <= config_budget cfg ->
  mem_ok cfg (mkMem (cells (put l sh m)) a (rtt m) (clock m) t w).
Proof.
  intros Hm Hl Hs Hc Ha Hb. rewrite (cells_put_insert _ _ _ _ Hl).
  pose proof (mo_cells _ _ Hm l c Hl) as (_ & Hcfg & Hst & Hn).
  split; simpl; try apply Hm; [| | done].
  - intros l' c' [[<- <-] | [_ Hc']]%lookup_insert_Some; [| by apply (mo_cells _ _ Hm l')].
    unfold cell_ok. simpl. rewrite Hc. done.
  - rewrite (map_sum_update _ l c) by done. rewrite <- (mo_acc _ _ Hm). done.
Qed.

Lemma mem_ok_put cfg m l c sh :
  mem_ok cfg m -> cells m !! l = Some c ->
  shared_ok (rtt_get (rtt m)) sh ->
  fc_config (sh_flow_controller sh) = fc_config (sh_flow_controller (contents c)) ->
  shared_claim sh = cell_claim c ->
  mem_ok cfg (put l sh m).
Proof.
  intros Hm Hl Hs Hc Hcl. pose proof (mo_budget _ _ Hm).
  apply (mem_ok_update cfg m l c sh (acc m) (ticks m) (woken m)); (done || lia).
Qed.

(** Changes that leave buffer and windows alone. *)
Lemma mem_ok_put_meta cfg m l c sh :
  mem_ok cfg m -> cells m !! l = Some c ->
  sh_flow_controller sh = sh_flow_controller (contents c) ->
  sh_buffer sh = sh_buffer (contents c) ->
  mem_ok cfg (put l sh m).
Proof.
  intros Hm Hl Hf Hb. pose proof (mo_cells _ _ Hm l c Hl) as ([Hb' Hf'] & _).
  apply (mem_ok_put cfg m l c); unfold shared_ok, cell_claim, shared_claim; rewrite ?Hf, ?Hb; done.
Qed.

Lemma mem_ok_wake cfg w m : mem_ok cfg m -> mem_ok cfg (wake_mem w m).
Proof. intros []. destruct w; by split. Qed.

Lemma mem_ok_ticks cfg t m : mem_ok cfg m -> mem_ok cfg (set_ticks t m).
Proof. intros []. by split. Qed.

Lemma mem_ok_set_rtt cfg r m :
  mem_ok cfg m -> rtt_ok r -> (is_Some (rtt_rtt (rtt m)) -> is_Some (rtt_rtt r)) ->
  mem_ok cfg (set_rtt r m).
Proof.
  intros [] Hr Hi. split; simpl; try done.
  intros l c Hc. destruct (mo_cells0 l c Hc) as (Hs & ? & ?). split; [| done].
  eapply shared_ok_rtt; [exact Hs | exact Hi].
Qed.

Lemma mem_rel_put m l c sh :
  cells m !! l = Some c ->
  state_le (sh_state (contents c)) (sh_state sh) ->
  (is_pending_ack sh = true -> is_pending_ack (contents c) = true) ->
  mem_rel (eq l) m (put l sh m).
Proof.
  intros Hl Hle Hp. split; try done.
  - intros l'. destruct (decide (l = l')) as [<- | Hne].
    + by rewrite (cells_put_eq _ _ _ _ Hl), Hl.
    + by rewrite cells_put_ne.
  - intros l' c1 c2 H1 H2. destruct (decide (l = l')) as [<- | Hne].
    + rewrite (cells_put_eq _ _ _ _ Hl) in H2. by simplify_eq/=.
    + rewrite cells_put_ne in H2 by done. by simplify_eq.
  - intros l' c1 c2 H1 H2. destruct (decide (l = l')) as [<- | Hne].
    + rewrite (cells_put_eq _ _ _ _ Hl) in H2. by simplify_eq/=.
    + rewrite cells_put_ne in H2 by done. by simplify_eq.
  - intros l' Hl'. by rewrite cells_put_ne.
  - exists []. by rewrite app_nil_r.
Qed.

(** Writing the same state back. *)
Lemma mem_rel_put_same m l c sh :
  cells m !! l = Some c -> sh_state sh = sh_state (contents c) -> mem_rel (eq l) m (put l sh m).
Proof.
  intros Hl Hs. apply (mem_rel_put m l c); [done | by rewrite Hs |].
  unfold is_pending_ack. by rewrite Hs.
Qed.

Lemma mem_rel_update_state m l c sh next :
  cells m !! l = Some c -> sh_state sh = state_update (sh_state (contents c)) next ->
  next <> Open false -> mem_rel (eq l) m (put l sh m).
Proof.
  intros Hl Hs Hn. apply (mem_rel_put m l c); [done | rewrite Hs; apply state_update_le |].
  unfold is_pending_ack. rewrite Hs.
  destruct (state_update _ next) as [[]| | |] eqn:E; try done.
  by apply state_update_pending in E as [].
Qed.

Lemma mem_rel_wake P w m : mem_rel P m (wake_mem w m).
Proof.
  pose proof (mem_rel_refl P m) as [???? Hc Hw]. destruct w as [w|]; [| by apply mem_rel_refl].
  split; try done. simpl. by exists [w].
Qed.

Lemma mem_rel_cells P m m' :
  cells m' = cells m -> clock m' = clock m -> woken m' = woken m -> mem_rel P m m'.
Proof.
  intros Hc Hk Hw. pose proof (mem_rel_refl P m) as [].
  split; rewrite ?Hc, ?Hk, ?Hw; done.
Qed.

Lemma rtt_ok_sane r : rtt_ok r -> rtt_sane (rtt_get r).
Proof. intros (_ & _ & Hd). exact Hd. Qed.

(** What has been read of the window and not yet been granted again. *)
Definition window_used (sh : Shared) : Z :=
  fc_max_receive_window (sh_flow_controller sh) - fc_receive_window (sh_flow_controller sh)
    - zlen (chunks_rest (sh_buffer sh)).

(** The update of the windows of one stream: it panics on no branch and keeps the invariant. *)
Lemma shared_next_window_update_eval cfg l m c :
  mem_ok cfg m -> cells m !! l = Some c ->
  exists credit fc a,
    shared_next_window_update l m
    = Ret (credit, put l (set_flow_controller fc (contents c))
                     (set_acc a (set_ticks (S (S (ticks m))) m))) /\
    mem_ok cfg (put l (set_flow_controller fc (contents c))
                  (set_acc a (set_ticks (S (S (ticks m))) m))) /\
    (forall k, credit = Some k -> 0 <= k <= u32_max) /\
    match credit with
    | None => fc = sh_flow_controller (contents c) /\ a = acc m /\
        window_used (contents c) < fc_max_receive_window fc / 2
    | Some k => fc_max_receive_window (sh_flow_controller (contents c)) / 2 <= window_used (contents c) /\
                fc_max_receive_window (sh_flow_controller (contents c)) <= fc_max_receive_window fc <= u32_max /\
                fc_send_window fc = fc_send_window (sh_flow_controller (contents c)) /\
                fc_receive_window fc = fc_receive_window (sh_flow_controller (contents c)) + k /\
                fc_receive_window fc + zlen (chunks_rest (sh_buffer (contents c)))
                  = fc_max_receive_window fc /\
                a - acc m = fc_max_receive_window fc
                              - fc_max_receive_window (sh_flow_controller (contents c))
    end.
Proof.
  intros Hm Hl. pose proof (mo_cells _ _ Hm l c Hl) as ([Hb Hf] & Hcfg & Hst & Hns).
  set (fc0 := sh_flow_controller (contents c)) in *.
  set (b := zlen (chunks_rest (sh_buffer (contents c)))) in *.
  set (now := clock m (ticks m)). set (now' := clock m (S (ticks m))).
  assert (Ha : acc_ok (acc m) fc0).
  { unfold acc_ok. rewrite Hcfg. split; [apply Hm |]. split; [done |]. split; [| apply Hm].
    rewrite (mo_acc _ _ Hm). apply (map_sum_lookup_le cell_claim l c); [| done].
    intros l' c' Hc'. destruct (mo_cells _ _ Hm l' c' Hc') as ([_ (_&_&_&?&_)] & _).
    unfold cell_claim, shared_claim, fc_claim. lia. }
  pose proof (next_window_update_ok _ now now' _ _ _ Hf Ha (rtt_ok_sane _ (mo_rtt _ _ Hm))) as Hs.
  cbv zeta in Hs. unfold shared_next_window_update, mbind, M_bind.
  rewrite (lock_eval _ _ _ Hl). rewrite chunks_len_ok by done. cbn [lift].
  unfold gets, read_clock, set_ticks. cbn [clock ticks cells acc rtt woken].
  fold now now' fc0 b.
  pose proof (next_max_range (rtt_get (rtt m)) now (acc m) fc0 Ha ltac:(apply Hf)) as (N1 & N2 & N3).
  fold b in Hs. assert (Hused : window_used (contents c) = fc_max_receive_window fc0 - fc_receive_window fc0 - b)
    by done. rewrite <- Hused in Hs. destruct (Z.ltb_spec (window_used (contents c)) (fc_max_receive_window fc0 / 2)).
  - rewrite Hs. cbn [lift modify].
    rewrite (store_eval _ _ _ c) by done. eexists _, _, _. split; [done |]. split.
    { apply mem_ok_put_meta with c; try done. destruct Hm; by split. }
    by split_and!.
  - destruct Hs as (Hs & Hf' & Ha'). rewrite Hs. cbn [lift modify].
    rewrite (store_eval _ _ _ c) by done. eexists _, _, _. split; [done |]. split.
    { apply (mem_ok_update cfg m l c); try done.
      - unfold cell_claim, shared_claim, fc_claim. simpl. fold fc0. lia.
      - destruct Ha' as (_ & _ & _ & Ha'). simpl in Ha'. by rewrite Hcfg in Ha'. }
    destruct Hf as (Hr & Hb0 & Hsum & _). split; [intros k [= <-]; lia |].
    simpl. lia.
Qed.

(** ** Reference counts *)

(** [R l] references to the record at [l] exist; a record lives exactly as long as there are
    some. *)
Definition refs_ok (R : loc -> nat) (m : Mem) : Prop :=
  forall l, match cells m !! l with
            | Some c => strong c = R l /\ (0 < R l)%nat
            | None => R l = 0%nat
            end.

(** One reference more to [l]. *)
Definition add_ref (l : loc) (R : loc -> nat) : loc -> nat :=
  fun l' => if decide (l = l') then S (R l') else R l'.

#[export] Instance refs_ok_proper : Proper (pointwise_relation loc eq ==> eq ==> iff) refs_ok.
Proof.
  intros R R' HR m ? <-. unfold refs_ok. split; intros Hr l; specialize (Hr l); specialize (HR l);
    destruct (cells m !! l); rewrite ?HR in *; by rewrite <- ?HR in *.
Qed.

Lemma refs_ok_live R m l : refs_ok R m -> (0 < R l)%nat -> exists c, cells m !! l = Some c.
Proof. intros Hr Hl. specialize (Hr l). destruct (cells m !! l); [eauto | lia]. Qed.

Lemma refs_ok_rel P R m m' : mem_rel P m m' -> refs_ok R m -> refs_ok R m'.
Proof.
  intros Hrel Hr l. specialize (Hr l). pose proof (mr_strong _ _ _ Hrel l) as Hs.
  destruct (cells m !! l), (cells m' !! l); simplify_eq/=; try done.
  destruct Hr as [<- ?]. by split.
Qed.

Lemma refs_ok_cells R m m' : cells m' = cells m -> refs_ok R m -> refs_ok R m'.
Proof. intros Hc Hr l. rewrite Hc. apply Hr. Qed.

Lemma arc_new_ok cfg R m sh :
  mem_ok cfg m -> refs_ok R m -> shared_ok (rtt_get (rtt m)) sh -> shared_claim sh = 0 ->
  fc_config (sh_flow_controller sh) = cfg -> 1 <= max_num_streams cfg ->
  exists l, arc_new sh m = Ret (l, set_cells (<[l := mkCell 1 sh]> (cells m)) m) /\
    cells m !! l = None /\ R l = 0%nat /\
    mem_ok cfg (set_cells (<[l := mkCell 1 sh]> (cells m)) m) /\
    refs_ok (add_ref l R) (set_cells (<[l := mkCell 1 sh]> (cells m)) m).
Proof.
  intros Hm Hr Hs Hcl Hcfg Hn. exists (fresh (dom (cells m))). split; [done |].
  set (l := fresh (dom (cells m))).
  assert (Hl : cells m !! l = None) by (apply not_elem_of_dom, is_fresh).
  assert (HR : R l = 0%nat) by (specialize (Hr l); by rewrite Hl in Hr).
  split_and!; try done.
  - split; simpl; try apply Hm.
    + intros l' c [[<- <-] | [_ Hc]]%lookup_insert_Some; [| by apply (mo_cells _ _ Hm l')].
      unfold cell_ok. simpl. split_and!; (done || lia).
    + rewrite map_sum_insert by done. unfold cell_claim at 1. simpl.
      rewrite Hcl, (mo_acc _ _ Hm). lia.
  - intros l'. simpl. unfold add_ref. destruct (decide (l = l')) as [<- | Hne].
    + rewrite lookup_insert_eq. simpl. lia.
    + rewrite lookup_insert_ne by done. apply Hr.
Qed.

Lemma arc_clone_ok cfg R m l c :
  mem_ok cfg m -> refs_ok R m -> cells m !! l = Some c ->
  arc_clone l m = Ret (l, set_cells (<[l := mkCell (S (strong c)) (contents c)]> (cells m)) m) /\
  mem_ok cfg (set_cells (<[l := mkCell (S (strong c)) (contents c)]> (cells m)) m) /\
  refs_ok (add_ref l R) (set_cells (<[l := mkCell (S (strong c)) (contents c)]> (cells m)) m).
Proof.
  intros Hm Hr Hl. split_and!.
  - unfold arc_clone. by rewrite Hl.
  - split; simpl; try apply Hm.
    + intros l' c' [[<- <-] | [_ Hc]]%lookup_insert_Some; [| by apply (mo_cells _ _ Hm l')].
      destruct (mo_cells _ _ Hm l c Hl) as (? & ? & ? & ?). unfold cell_ok. simpl.
      split_and!; (done || lia).
    + rewrite (map_sum_update _ l c) by done. unfold cell_claim at 2 3. simpl.
      rewrite (mo_acc _ _ Hm). lia.
  - intros l'. simpl. unfold add_ref. specialize (Hr l').
    destruct (decide (l = l')) as [<- | Hne].
    + rewrite lookup_insert_eq. rewrite Hl in Hr. simpl. lia.
    + by rewrite lookup_insert_ne by done.
Qed.

(** What dropping an [Arc] may change. *)
Record mem_drop (l : loc) (m m' : Mem) : Prop := {
  md_other : forall l', l <> l' -> cells m' !! l' = cells m !! l';
  md_self : forall c', cells m' !! l = Some c' ->
    exists c, cells m !! l = Some c /\ contents c' = contents c;
  md_clock : clock m' = clock m;
  md_rtt : rtt m' = rtt m;
  md_woken : woken m' = woken m;
}.

(** Dropping a reference that exists: no overflow, no failed assertion; a record whose last
    reference goes gives its claim back to the connection. *)
Lemma arc_drop_ok cfg R m l :
  mem_ok cfg m -> refs_ok (add_ref l R) m ->
  exists m', arc_drop l m = Ret (tt, m') /\ mem_ok cfg m' /\ refs_ok R m' /\ mem_drop l m m'.
Proof.
  intros Hm Hr. pose proof (Hr l) as Hrl. unfold add_ref in Hrl.
  rewrite decide_True in Hrl by done.
  destruct (cells m !! l) as [[n sh]|] eqn:Hl; [| done]. simpl in Hrl. destruct Hrl as [-> _].
  unfold arc_drop. rewrite Hl.
  assert (Hrest : forall l', l <> l' ->
    match cells m !! l' with
    | Some c => strong c = R l' /\ (0 < R l')%nat | None => R l' = 0%nat end).
  { intros l' Hne. specialize (Hr l'). unfold add_ref in Hr. by rewrite decide_False in Hr. }
  destruct (mo_cells _ _ Hm l _ Hl) as ([Hb Hf] & Hcfg & _ & Hns). simpl in *.
  destruct (R l) as [|n] eqn:HRl.
  - destruct Hf as (_ & _ & _ & Hmax & _).
    assert (Hclaim : shared_claim sh <= acc m).
    { rewrite (mo_acc _ _ Hm). apply (map_sum_lookup_le cell_claim l (mkCell 1 sh)); [| done].
      intros l' c' Hc'. destruct (mo_cells _ _ Hm l' c' Hc') as ([_ (_&_&_&?&_)] & _).
      unfold cell_claim, shared_claim, fc_claim. lia. }
    rewrite fc_drop_ok by (done || lia). simpl. eexists. split; [done |]. split_and!.
    + split; simpl; try apply Hm.
      * intros l' c' [_ Hc']%lookup_delete_Some. by apply (mo_cells _ _ Hm l').
      * rewrite (map_sum_delete _ l _ _ Hl), <- (mo_acc _ _ Hm). done.
      * pose proof (mo_budget _ _ Hm). unfold fc_claim. lia.
    + intros l'. simpl. destruct (decide (l = l')) as [<- | Hne].
      * by rewrite lookup_delete_eq.
      * rewrite lookup_delete_ne by done. by apply Hrest.
    + split; try done; simpl.
      * intros l' Hne. by rewrite lookup_delete_ne.
      * intros c'. by rewrite lookup_delete_eq.
  - eexists. split; [done |]. split_and!.
    + split; simpl; try apply Hm.
      * intros l' c' [[<- <-] | [_ Hc]]%lookup_insert_Some; [| by apply (mo_cells _ _ Hm l')].
        unfold cell_ok. simpl. split_and!; (done || lia).
      * rewrite (map_sum_update _ l _ _ _ Hl). unfold cell_claim at 2 3. simpl.
        rewrite (mo_acc _ _ Hm). lia.
    + intros l'. simpl. destruct (decide (l = l')) as [<- | Hne].
      * rewrite lookup_insert_eq, HRl. simpl. lia.
      * rewrite lookup_insert_ne by done. by apply Hrest.
    + split; try done; simpl.
      * intros l' Hne. by rewrite lookup_insert_ne.
      * intros c'. rewrite lookup_insert_eq. intros [= <-]. eexists. split; [done |]. done.
Qed.

(** The empty memory of a new connection. *)
Definition mem_new (clk : nat -> Instant) : Mem := mkMem ∅ 0 (rtt_new (clk O)) clk 1 [].

Lemma mem_new_ok cfg clk :
  config_ok cfg -> (forall i, instant_ok (clk i)) -> mem_ok cfg (mem_new clk).
Proof.
  intros Hc Hk. split; simpl; first [done | apply Hc | apply rtt_new_ok].
Qed.
End heap.
