(* ===== verification/Channel.v ===== *)
(** * The channels of the futures crate, as an interface

    [futures::channel::mpsc] and [futures::stream::SelectAll] are not part of the repository. The
    development is generic in them: two classes of operations with the signatures the crate uses.
    The state of all channels, with the wakers that are parked in them, is one abstract value. *)
From Stdlib Require Import ZArith.
From stdpp Require Import base option list gmap.
From S2P Require Import Prelude.
From S2P Require Import Frame.
From S2P Require Import Command.
From S2P Require Import Heap.

(** Bounded channels of commands. *)
Class Mpsc : Type := {
  Net : Type;
  Sender : Type;
  Receiver : Type;
  (** [mpsc::channel(buffer)]. *)
  mpsc_channel : Z -> Net -> (Sender * Receiver) * Net;
  (** [Sender::clone]. *)
  sender_clone : Sender -> Net -> Sender * Net;
  (** [Sink] for [Sender]; the error is [SendError]. *)
  sender_poll_ready : Sender -> Waker -> Net -> poll (result unit unit) * Net;
  sender_start_send : Sender -> StreamCommand -> Net -> result unit unit * Net;
  sender_poll_flush : Sender -> Waker -> Net -> poll (result unit unit) * Net;
  sender_is_closed : Sender -> Net -> bool;
  (** [Drop for Sender]. *)
  sender_drop : Sender -> Net -> Net;
  (** [Stream] for [Receiver], and [Receiver::close]. *)
  receiver_poll_next : Receiver -> Waker -> Net -> poll (option StreamCommand) * Net;
  receiver_close : Receiver -> Net -> Net;
}.

(** What a stream handle does to the channels: it asks for room, flushes, and sends well-formed
    commands. *)
Inductive sends `{Mpsc} : Net -> Net -> Prop :=
| sends_refl n : sends n n
| sends_ready s cx n n' : sends (sender_poll_ready s cx n).2 n' -> sends n n'
| sends_flush s cx n n' : sends (sender_poll_flush s cx n).2 n' -> sends n n'
| sends_send s c n n' : cmd_ok c -> sends (sender_start_send s c n).2 n' -> sends n n'.

#[export] Instance sends_preorder `{Mpsc} : PreOrder sends.
Proof.
  split; [intros n; apply sends_refl |]. intros n1 n2 n3 H1 H3. induction H1; eauto using sends.
Qed.

(** The same with the senders that are used, those in [P], and with the commands that the channels have
    taken, in order. *)
Inductive emits `{Mpsc} (P : Sender -> Prop) : Net -> list StreamCommand -> Net -> Prop :=
| emits_nil n : emits P n [] n
| emits_ready s cx n l n' : P s -> emits P (sender_poll_ready s cx n).2 l n' -> emits P n l n'
| emits_flush s cx n l n' : P s -> emits P (sender_poll_flush s cx n).2 l n' -> emits P n l n'
| emits_taken s c n l n' :
    P s -> (sender_start_send s c n).1 = Ok tt -> emits P (sender_start_send s c n).2 l n' -> emits P n (c :: l) n'.

Lemma emits_app `{Mpsc} P n1 l n2 l' n3 : emits P n1 l n2 -> emits P n2 l' n3 -> emits P n1 (l ++ l') n3.
Proof. intros H1 H2. induction H1; simpl; eauto using emits. Qed.

(** A sender that has said it has room takes the next command. *)
Class ReadySenders `{Mpsc} : Prop :=
  ready_send_law : forall s cx n n1 c,
    sender_poll_ready s cx n = (Ready (Ok tt), n1) -> (sender_start_send s c n1).1 = Ok tt.

(** It has refused a command all the same. *)
Definition refused `{Mpsc} (s : Sender) (cx : Waker) (n : Net) : Prop :=
  exists c n1, sender_poll_ready s cx n = (Ready (Ok tt), n1) /\ (sender_start_send s c n1).1 <> Ok tt.

Lemma not_refused `{ReadySenders} s cx n : ~ refused s cx n.
Proof. intros (c & n1 & Hr & Hs). by apply (ready_send_law _ _ _ _ c) in Hr. Qed.

(** [SelectAll] over streams with the state [S]; polling a member changes its state and the
    channels. *)
Class SelectAllOps : Type := {
  SelectAll : Type -> Type;
  select_all_default : forall {S}, SelectAll S;
  select_all_push : forall {S}, S -> SelectAll S -> SelectAll S;
  select_all_poll_next : forall {S N Item},
    (S -> N -> poll (option Item) * S * N) -> SelectAll S -> N ->
    poll (option Item) * SelectAll S * N;
  (** [for s in select_all.iter_mut()]. *)
  select_all_for_each : forall {S N}, (S -> N -> N) -> SelectAll S -> N -> N;
}.

(** What handles and connection share: memory and channels. *)
Record World `{Mpsc} : Type := mkWorld {
  mem : Mem;
  net : Net;
}.
Arguments mkWorld {_} _ _.

Definition set_mem `{Mpsc} (m : Mem) (w : World) : World := mkWorld m (net w).
Definition set_net `{Mpsc} (n : Net) (w : World) : World := mkWorld (mem w) n.

(** Operations on a part of a state that holds a world. *)
Class HasWorld `{Mpsc} (S : Type) : Type := {
  get_world : S -> World;
  put_world : World -> S -> S;
}.

Section has_world.
Context `{Mpsc} {S : Type} `{!HasWorld S}.

Definition on_mem {A} (m : M Mem A) : M S A :=
  zoom (fun s => mem (get_world s)) (fun m s => put_world (set_mem m (get_world s)) s) m.

Definition on_net {A} (f : Net -> A * Net) : M S A := fun s =>
  let '(a, n) := f (net (get_world s)) in Ret (a, put_world (set_net n (get_world s)) s).
End has_world.

#[export] Instance world_has_world `{Mpsc} : HasWorld World := {|
  get_world := fun w => w;
  put_world := fun w _ => w;
|}.

(** The socket of a connection, [Fuse<frame::Io<T>>], as the connection uses it: a sink and a stream
    of frames. An operation may panic when the bytes behind it misbehave. *)
Class FrameSocket : Type := {
  FSock : Type;
  sock_poll_ready : Waker -> M FSock (poll (result unit IoError));
  sock_start_send : Frame unit -> M FSock (result unit IoError);
  sock_poll_flush : Waker -> M FSock (poll (result unit IoError));
  sock_poll_close : Waker -> M FSock (poll (result unit IoError));
  sock_poll_next : Waker -> M FSock (poll (option (result (Frame unit) FrameDecodeError)));
}.

(** The order in which a hash map is drained: some order of its entries. *)
Class MapOrder : Type := {
  map_drain : gmap Z positive -> list (Z * positive);
  map_drain_perm : forall m, map_drain m ≡ₚ map_to_list m;
}.

(** One such order. *)
Definition map_order_default : MapOrder := {| map_drain := map_to_list; map_drain_perm := fun m => reflexivity _ |}.
