(* ===== verification/TaggedStream.v ===== *)
(** * Tagged streams: [tagged_stream.rs]

    A stream that yields its key with every item, and the end of the inner stream as an item. *)
From Stdlib Require Import ZArith.
From stdpp Require Import base option list.
From S2P Require Import Prelude.

Section tagged_stream.
Context {K S N A : Type}.
(** The inner stream: [poll_next] of its state [S], within a state [N] it shares. *)
Variable inner_poll_next : S -> N -> poll (option A) * S * N.

Record TaggedStream : Type := mkTagged {
  ts_key : K;
  ts_inner : S;
  ts_reported_none : bool;
}.

Definition tagged_new (key : K) (inner : S) : TaggedStream := mkTagged key inner false.

Definition tagged_poll_next (t : TaggedStream) (n : N)
    : poll (option (K * option A)) * TaggedStream * N :=
  if ts_reported_none t then (Ready None, t, n) else
  let '(r, inner, n) := inner_poll_next (ts_inner t) n in
  match r with
  | Pending => (Pending, mkTagged (ts_key t) inner (ts_reported_none t), n)
  | Ready (Some item) =>
      (Ready (Some (ts_key t, Some item)), mkTagged (ts_key t) inner (ts_reported_none t), n)
  | Ready None => (Ready (Some (ts_key t, None)), mkTagged (ts_key t) inner true, n)
  end.

(** What polling [k] times in a row yields, and what the inner stream yields. *)
Fixpoint tagged_polls (k : nat) (t : TaggedStream) (n : N) : list (poll (option (K * option A))) :=
  match k with
  | O => []
  | Datatypes.S k => let '(r, t, n) := tagged_poll_next t n in r :: tagged_polls k t n
  end.
Fixpoint inner_polls (k : nat) (s : S) (n : N) : list (poll (option A)) :=
  match k with
  | O => []
  | Datatypes.S k => let '(r, s, n) := inner_poll_next s n in r :: inner_polls k s n
  end.

(** The specification on the yields of the inner stream: every item gets the key, the first end
    becomes one last item, and from then on there is only the end. *)
Fixpoint tag_all (key : K) (l : list (poll (option A))) : list (poll (option (K * option A))) :=
  match l with
  | [] => []
  | Pending :: l => Pending :: tag_all key l
  | Ready (Some a) :: l => Ready (Some (key, Some a)) :: tag_all key l
  | Ready None :: l => Ready (Some (key, None)) :: replicate (length l) (Ready None)
  end.

Lemma tagged_polls_end k t n :
  ts_reported_none t = true -> tagged_polls k t n = replicate k (Ready None).
Proof.
  intros Ht. induction k as [|k IH]; [done |]. simpl. unfold tagged_poll_next. rewrite Ht.
  by rewrite IH.
Qed.

(** A tagged stream that has not ended reports its key with every item of the inner stream,
    reports the end of the inner stream exactly once, with its key, and never polls the inner
    stream again. *)
Theorem tagged_stream_spec k t n :
  ts_reported_none t = false ->
  tagged_polls k t n = tag_all (ts_key t) (inner_polls k (ts_inner t) n).
Proof.
  revert t n. induction k as [|k IH]; intros t n Ht; [done |]. simpl. unfold tagged_poll_next.
  rewrite Ht. destruct (inner_poll_next (ts_inner t) n) as [[[[a|]|] s] n'].
  - simpl. by rewrite IH.
  - simpl. rewrite tagged_polls_end by done. f_equal.
    assert (Hlen : forall k s n, length (inner_polls k s n) = k).
    { clear. induction k as [|k IH]; intros s n; [done |]. simpl.
      destruct (inner_poll_next s n) as [[r s'] n']. simpl. by rewrite IH. }
    by rewrite Hlen.
  - simpl. by rewrite IH.
Qed.
End tagged_stream.

Arguments TaggedStream : clear implicits.

(** An inner stream that yields two items, stalls between them, ends, and would go on. *)
Definition counting_stream (s : nat) (n : unit) : poll (option nat) * nat * unit :=
  (match s with 1 => Pending | 3 => Ready None | _ => Ready (Some s) end%nat, S s, n).

Lemma tagged_stream_witness :
  tagged_polls counting_stream 6 (tagged_new 7%nat 0%nat) tt
  = [Ready (Some (7, Some 0)); Pending; Ready (Some (7, Some 2)); Ready (Some (7, None));
     Ready None; Ready None]%nat.
Proof. exact (tagged_stream_spec counting_stream 6 (tagged_new 7%nat 0%nat) tt eq_refl). Defined.
