(* ===== verification/StreamHandle.v ===== *)
(** * Stream handles: [Stream] of [connection/stream.rs]

    What the user of a stream can do with it: the [AsyncRead], [AsyncWrite] and [Stream]
    implementations, over the shared record and the command channel of the connection. *)
From Stdlib Require Import ZArith Lia Strings.Byte.
From stdpp Require Import base option list gmap numbers.
From S2P Require Import Prelude.
From S2P Require Import Header.
From S2P Require Import Frame.
From S2P Require Import Config.
From S2P Require Import Command.
From S2P Require Import ChunkList.
From S2P Require Import FlowControl.
From S2P Require Import Shared.
From S2P Require Import Heap.
From S2P Require Import Channel.

(** Indicate if a flag still needs to be set on an outbound header. *)
Inductive Flag : Set := FlagNone | FlagSyn | FlagAck.

#[export] Instance Flag_eq_dec : EqDecision Flag.
Proof. solve_decision. Defined.

Section stream.
Context `{Arch, Mpsc}.

(** A multiplexed Yamux stream; the connection id, which is only logged, is left out. *)
Record Stream : Type := mkStream {
  st_id : Z;
  st_config : Config;
  st_sender : Sender;
  st_window_update_sender : Sender;
  st_flag : Flag;
  st_shared : loc;
}.

Definition set_flag (f : Flag) (s : Stream) : Stream :=
  mkStream (st_id s) (st_config s) (st_sender s) (st_window_update_sender s) f (st_shared s).

(** A method of a stream handle works on the handle and the shared world. *)
Definition SW : Type := Stream * World.

#[export] Instance sw_world : HasWorld SW := {|
  get_world := snd;
  put_world := fun w s => (fst s, w);
|}.

Definition self {A} (f : Stream -> A) : M SW A := gets (fun s => f (fst s)).
Definition set_self_flag (f : Flag) : M SW unit := modify (fun s => (set_flag f (fst s), snd s)).

(** [add_flag]: set ACK or SYN if necessary. *)
Definition add_flag (f : Frame (Either Data WindowUpdate)) : M SW (Frame (Either Data WindowUpdate)) :=
  flag ← self st_flag;
  match flag with
  | FlagNone => mret f
  | FlagSyn => set_self_flag FlagNone ≫= fun _ => mret (mkFrame (header_syn (header f)) (body f))
  | FlagAck => set_self_flag FlagNone ≫= fun _ => mret (mkFrame (header_ack (header f)) (body f))
  end.

Definition IoResult (A : Type) : Type := result A IoError.

(** [send_window_update]. *)
Definition send_window_update (cx : Waker) : M SW (poll (IoResult unit)) :=
  l ← self st_shared;
  sh ← on_mem (lock l);
  if negb (can_read (sh_state sh)) then mret (Ready (Ok tt)) else
  sender ← self st_window_update_sender;
  r ← on_net (sender_poll_ready sender cx);
  match r with
  | Pending => mret Pending
  | Ready (Err _) => mret (Ready (Err WriteZero))
  | Ready (Ok _) =>
      credit ← on_mem (shared_next_window_update l);
      match credit with
      | None => mret (Ready (Ok tt))
      | Some credit =>
          id ← self st_id;
          frame ← add_flag (frame_right Data (frame_window_update id credit));
          r ← on_net (sender_start_send sender (SendFrame frame));
          match r with
          | Err _ => mret (Ready (Err WriteZero))
          | Ok _ => mret (Ready (Ok tt))
          end
      end
  end.

(** [Vec::split_off(off)]: what is returned; it panics behind the end. *)
Definition split_off (off : Z) (v : list byte) : outcome (list byte) :=
  if off <=? zlen v then Ret (drop (Z.to_nat off) v) else Panic.

(** [futures::stream::Stream::poll_next]. *)
Definition stream_poll_next (cx : Waker) : M SW (poll (option (IoResult (list byte)))) :=
  config ← self st_config;
  sender ← self st_sender;
  closed ← on_net (fun n => (sender_is_closed sender n, n));
  if negb (read_after_close config) && closed then mret (Ready None) else
  r ← send_window_update cx;
  match r with
  | Ready (Err e) => mret (Ready (Some (Err e)))
  | _ =>
      l ← self st_shared;
      sh ← on_mem (lock l);
      '(o, buffer) ← lift (chunks_pop (sh_buffer sh));
      on_mem (store l (set_buffer buffer sh)) ≫= fun _ =>
      match o with
      | Some bytes =>
          let off := chunk_offset bytes in
          let vec := chunk_into_vec bytes in
          vec ← (if negb (off =? 0) then lift (split_off off vec) else mret vec);
          mret (Ready (Some (Ok vec)))
      | None =>
          if negb (can_read (sh_state sh)) then mret (Ready None) else
          sh ← on_mem (lock l);
          on_mem (store l (set_reader (Some cx) sh)) ≫= fun _ => mret Pending
      end
  end.

(** The loop of [poll_read]: [n] bytes have been copied to [buf]. One iteration per fuel. *)
Fixpoint read_loop (fuel : nat) (n : Z) (buf : list byte) (buffer : Chunks)
    : outcome (Z * list byte * Chunks) :=
  match fuel with
  | O => OutOfFuel
  | S fuel =>
      match chunks_front_mut buffer with
      | None => mret (n, buf, buffer)
      | Some (chunk, put_front) =>
          empty ← chunk_is_empty chunk;
          if empty : bool then
            '(_, buffer) ← chunks_pop buffer;
            read_loop fuel n buf buffer
          else
            clen ← chunk_len chunk;
            room ← sub_ (zlen buf) n;
            let k := Z.min clen room in
            bytes ← chunk_as_ref chunk;
            buf ← copy_from_slice buf n (take (Z.to_nat k) bytes);
            n ← add_ usize_max n k;
            chunk ← chunk_advance k chunk;
            let buffer := put_front chunk in
            if n =? zlen buf then mret (n, buf, buffer) else read_loop fuel n buf buffer
      end
  end.

(** Every chunk takes at most one iteration to read and one to pop, and one finds the end. *)
Definition read_fuel (buffer : Chunks) : nat := S (2 * length (chunks_seq buffer)).

(** [AsyncRead::poll_read]; the second result is the caller's buffer. *)
Definition poll_read (cx : Waker) (buf : list byte) : M SW (poll (IoResult Z) * list byte) :=
  config ← self st_config;
  sender ← self st_sender;
  closed ← on_net (fun n => (sender_is_closed sender n, n));
  if negb (read_after_close config) && closed then mret (Ready (Ok 0), buf) else
  r ← send_window_update cx;
  match r with
  | Ready (Err e) => mret (Ready (Err e), buf)
  | _ =>
      l ← self st_shared;
      sh ← on_mem (lock l);
      '(n, buf, buffer) ← lift (read_loop (read_fuel (sh_buffer sh)) 0 buf (sh_buffer sh));
      on_mem (store l (set_buffer buffer sh)) ≫= fun _ =>
      if 0 <? n then mret (Ready (Ok n), buf) else
      if negb (can_read (sh_state sh)) then mret (Ready (Ok 0), buf) else
      sh ← on_mem (lock l);
      on_mem (store l (set_reader (Some cx) sh)) ≫= fun _ => mret (Pending, buf)
  end.

(** [AsyncWrite::poll_write]. *)
Definition poll_write (cx : Waker) (buf : list byte) : M SW (poll (IoResult Z)) :=
  sender ← self st_sender;
  r ← on_net (sender_poll_ready sender cx);
  match r with
  | Pending => mret Pending
  | Ready (Err _) => mret (Ready (Err WriteZero))
  | Ready (Ok _) =>
      l ← self st_shared;
      sh ← on_mem (lock l);
      if negb (can_write (sh_state sh)) then mret (Ready (Err WriteZero)) else
      if send_window sh =? 0 then
        on_mem (store l (set_writer (Some cx) sh)) ≫= fun _ => mret Pending
      else
      config ← self st_config;
      let k := Z.min (send_window sh) (zlen buf) in
      let k := Z.min k (split_send_size config) in
      sh ← lift (expect (match shared_consume_send_window (as_u32 k) sh with
                         | Ok sh => Some sh | Err _ => None end));
      on_mem (store l sh) ≫= fun _ =>
      let body := take (Z.to_nat k) buf in
      let n := zlen body in
      id ← self st_id;
      frame ← lift (expect (frame_data id body));
      frame ← add_flag (frame_left WindowUpdate frame);
      (if flags_contains (flags (header frame)) ACK
       then on_mem (lock_update_state l (Open true)) ≫= fun _ => mret tt
       else mret tt) ≫= fun _ =>
      r ← on_net (sender_start_send sender (SendFrame frame));
      match r with
      | Err _ => mret (Ready (Err WriteZero))
      | Ok _ => mret (Ready (Ok n))
      end
  end.

(** [AsyncWrite::poll_flush]. *)
Definition stream_poll_flush (cx : Waker) : M SW (poll (IoResult unit)) :=
  sender ← self st_sender;
  r ← on_net (sender_poll_flush sender cx);
  match r with
  | Pending => mret Pending
  | Ready (Err _) => mret (Ready (Err WriteZero))
  | Ready (Ok _) => mret (Ready (Ok tt))
  end.

(** [is_closed], [is_write_closed] and [is_pending_ack] of the handle. *)
Definition stream_is_closed : M SW bool :=
  l ← self st_shared; sh ← on_mem (lock l); mret (bool_decide (sh_state sh = Closed)).
Definition stream_is_write_closed : M SW bool :=
  l ← self st_shared; sh ← on_mem (lock l); mret (bool_decide (sh_state sh = SendClosed)).
Definition stream_is_pending_ack : M SW bool :=
  l ← self st_shared; sh ← on_mem (lock l); mret (is_pending_ack sh).

(** [AsyncWrite::poll_close]. *)
Definition stream_poll_close (cx : Waker) : M SW (poll (IoResult unit)) :=
  closed ← stream_is_closed;
  if closed : bool then mret (Ready (Ok tt)) else
  sender ← self st_sender;
  r ← on_net (sender_poll_ready sender cx);
  match r with
  | Pending => mret Pending
  | Ready (Err _) => mret (Ready (Err WriteZero))
  | Ready (Ok _) =>
      flag ← self st_flag;
      ack ← (if bool_decide (flag = FlagAck)
             then set_self_flag FlagNone ≫= fun _ => mret true else mret false);
      r ← on_net (sender_start_send sender (CloseStream ack));
      match r with
      | Err _ => mret (Ready (Err WriteZero))
      | Ok _ =>
          l ← self st_shared;
          on_mem (lock_update_state l SendClosed) ≫= fun _ => mret (Ready (Ok tt))
      end
  end.

(** [Stream::new_inbound] and [Stream::new_outbound]; the channel end of the reading half is a
    clone of the one of the writing half. *)
Definition stream_new_inbound (id : Z) (config : Config) (send_window : Z) (sender : Sender)
    : M World Stream :=
  window_update_sender ← on_net (sender_clone sender);
  now ← on_mem read_clock;
  l ← on_mem (arc_new (shared_new DEFAULT_CREDIT send_window config now));
  mret (mkStream id config sender window_update_sender FlagAck l).

Definition stream_new_outbound (id : Z) (config : Config) (sender : Sender) : M World Stream :=
  window_update_sender ← on_net (sender_clone sender);
  now ← on_mem read_clock;
  l ← on_mem (arc_new (shared_new DEFAULT_CREDIT DEFAULT_CREDIT config now));
  mret (mkStream id config sender window_update_sender FlagSyn l).

(** Dropping the handle: its two senders, and its reference to the shared record. *)
Definition stream_drop (s : Stream) : M World unit := fun w =>
  let n := sender_drop (st_window_update_sender s) (sender_drop (st_sender s) (net w)) in
  match arc_drop (st_shared s) (mem w) with
  | Ret (_, m) => Ret (tt, mkWorld m n)
  | Panic => Panic
  | OutOfFuel => OutOfFuel
  end.
End stream.
