(* ===== verification/Parking.v ===== *)
(** * Waiting for room: channels that park their senders

    A channel of the futures crate parks a sender that finds no room, together with the task that
    asked, and wakes that task once a command has been taken out. A [Sender] remembers one task only,
    which is why the two halves of a stream send through two of them. This file states what is
    documented of such channels, derives that the halves of a stream do not take each other's wake-up,
    and gives one implementation. *)
From Stdlib Require Import ZArith Lia Strings.Byte.
From stdpp Require Import base option list gmap numbers.
From S2P Require Import Prelude.
From S2P Require Import Header.
From S2P Require Import Frame.
From S2P Require Import Config.
From S2P Require Import Command.
From S2P Require Import Rtt.
From S2P Require Import FlowControl.
From S2P Require Import Shared.
From S2P Require Import Heap.
From S2P Require Import Channel.
From S2P Require Import StreamHandle.

(** [live r c n]: [c] is a sender of the open channel that [r] receives from. [parked c cx n]: it waits
    for room on behalf of the task [cx], behind [place c n] other senders. *)
Class Parking `{Mpsc} : Type := {
  live : Receiver -> Sender -> Net -> Prop;
  parked : Sender -> Waker -> Net -> Prop;
  place : Sender -> Net -> nat;
  net_woken : Net -> list Waker;
  channel_live : forall k n, let '((c, r), n') := mpsc_channel k n in live r c n';
  clone_live : forall r c n, live r c n -> let '(d, n') := sender_clone c n in d <> c /\ live r c n' /\ live r d n';
  ready_live : forall r c d cx n, live r c n -> live r c (sender_poll_ready d cx n).2;
  send_live : forall r c d cmd n, live r c n -> live r c (sender_start_send d cmd n).2;
  flush_live : forall r c d cx n, live r c n -> live r c (sender_poll_flush d cx n).2;
  (** No room: the sender is parked with the task that asked last. *)
  ready_parks : forall r c cx n, live r c n -> let '(p, n') := sender_poll_ready c cx n in
    p = Pending -> parked c cx n';
  (** What other senders do is no concern of a parked one. *)
  ready_parked : forall c d cx k n, d <> c -> parked c cx n -> parked c cx (sender_poll_ready d k n).2;
  send_parked : forall c d cx cmd n, d <> c -> parked c cx n -> parked c cx (sender_start_send d cmd n).2;
  flush_parked : forall c d cx k n, d <> c -> parked c cx n -> parked c cx (sender_poll_flush d k n).2;
  (** While a sender is parked there is a command to take, and taking it wakes the one in front. *)
  next_wakes : forall r c cx k n, live r c n -> parked c cx n ->
    let '(p, n') := receiver_poll_next r k n in
    (exists cmd, p = Ready (Some cmd)) /\
    (cx ∈ net_woken n' \/ (live r c n' /\ parked c cx n' /\ (place c n' < place c n)%nat));
}.

Section parking.
Context `{Arch, Parking}.

(** The net after [k] commands have been taken out of a channel. *)
Fixpoint take_commands (k : nat) (r : Receiver) (cx : Waker) (n : Net) : Net :=
  match k with O => n | S k => take_commands k r cx (receiver_poll_next r cx n).2 end.

Lemma parked_is_woken r c cx k n :
  live r c n -> parked c cx n -> exists i, (i <= place c n)%nat /\ cx ∈ net_woken (take_commands (S i) r k n).
Proof.
  remember (place c n) as m eqn:Hm. revert n Hm.
  induction m as [m IH] using (well_founded_induction lt_wf). intros n -> Hl Hp.
  pose proof (next_wakes r c cx k n Hl Hp) as Hn.
  assert (Hs : forall i, take_commands (S i) r k n = take_commands i r k (receiver_poll_next r k n).2) by done.
  destruct (receiver_poll_next r k n) as [p n']. destruct Hn as [_ [Hw | (Hl' & Hp' & Hlt)]].
  - exists O. split; [lia | by rewrite Hs].
  - destruct (IH _ Hlt n' eq_refl Hl' Hp') as (i & Hi & Hw). exists (S i). split; [lia | by rewrite Hs].
Qed.

(** ** One sender at a time *)

(** What holds of the channels whatever the sender [d] does. *)
Record through (d : Sender) (P : Net -> Prop) : Prop := {
  through_ready : forall cx n, P n -> P (sender_poll_ready d cx n).2;
  through_send : forall cmd n, P n -> P (sender_start_send d cmd n).2;
  through_flush : forall cx n, P n -> P (sender_poll_flush d cx n).2;
}.

(** The handle [s] but for its flag, and [P] of the channels. *)
Definition holds (s : Stream) (P : Net -> Prop) (x : SW) : Prop :=
  st_sender (fst x) = st_sender s /\ st_window_update_sender (fst x) = st_window_update_sender s /\ P (net (snd x)).

(** A method that keeps [holds]. *)
Definition keeps (s : Stream) (P : Net -> Prop) {A} (m : M SW A) : Prop :=
  forall x, holds s P x -> post m (fun _ x' => holds s P x') x.

Section keeps.
Context (s : Stream) (P : Net -> Prop).

Lemma keeps_ret {A} (a : A) : keeps s P (mret a).
Proof. intros x Hx. exact Hx. Qed.
Lemma keeps_bind {A B} (m : M SW A) (f : A -> M SW B) : keeps s P m -> (forall a, keeps s P (f a)) -> keeps s P (m ≫= f).
Proof. intros Hm Hf x Hx. apply post_bind. eapply post_mono; [by apply Hm |]. intros a x'. apply Hf. Qed.
Lemma keeps_lift {A} (o : outcome A) : keeps s P (lift o).
Proof. intros x Hx. by apply post_lift. Qed.
Lemma keeps_mem {A} (m : M Mem A) : keeps s P (on_mem m).
Proof. intros [s' w] Hx. apply post_zoom. intros a m'. exact Hx. Qed.
Lemma keeps_self {A B} (f : Stream -> A) (k : A -> M SW B) :
  (forall x, holds s P x -> keeps s P (k (f (fst x)))) -> keeps s P (self f ≫= k).
Proof. intros Hk x Hx. apply post_bind. unfold post at 1, self, gets. by apply Hk. Qed.
Lemma keeps_flag f : keeps s P (set_self_flag f).
Proof. by intros [s' w] Hx. Qed.
Lemma keeps_closed sender : keeps s P (on_net (fun n => (sender_is_closed sender n, n))).
Proof. by intros [s' w] Hx. Qed.
Lemma keeps_net {A} (f : Net -> A * Net) : (forall n, P n -> P (f n).2) -> keeps s P (on_net f).
Proof.
  intros Hf [s' w] (Hs & Hu & Hn). unfold post, on_net. specialize (Hf _ Hn).
  simpl in *. destruct (f (net w)) as [a n]. by split_and!.
Qed.
End keeps.
End parking.

(** Follow a method to its ends, with [go] for the calls in it. *)
Ltac keep go :=
  repeat first
    [ progress go
    | apply keeps_self; let x := fresh "x" in let Hx := fresh "Hx" in intros x Hx;
      first [rewrite (proj1 Hx) | rewrite (proj1 (proj2 Hx)) | idtac]; clear Hx
    | apply keeps_closed | apply keeps_ret | apply keeps_lift | apply keeps_mem | apply keeps_flag
    | apply keeps_net; intros ? ?
    | apply keeps_bind; [| intros ?]
    | match goal with
      | |- keeps _ _ (match ?e with _ => _ end) => destruct e
      | |- keeps _ _ (if ?e then _ else _) => destruct e
      end ].

Section halves.
Context `{Arch, Parking}.
Context (s : Stream) (P : Net -> Prop).

Lemma keeps_add_flag f : keeps s P (add_flag f).
Proof. unfold add_flag. keep idtac. Qed.

(** The reading half sends through one sender, the writing half through the other. *)
Ltac through Hd :=
  first [by apply keeps_add_flag | by apply (through_ready _ _ Hd) | by apply (through_send _ _ Hd)
        | by apply (through_flush _ _ Hd)].

Lemma send_window_update_keeps cx : through (st_window_update_sender s) P -> keeps s P (send_window_update cx).
Proof. intros Hd. unfold send_window_update. keep ltac:(through Hd). Qed.

Lemma poll_read_keeps cx buf : through (st_window_update_sender s) P -> keeps s P (poll_read cx buf).
Proof. intros Hd. unfold poll_read. keep ltac:(by apply send_window_update_keeps). Qed.

Lemma stream_poll_next_keeps cx : through (st_window_update_sender s) P -> keeps s P (stream_poll_next cx).
Proof. intros Hd. unfold stream_poll_next. keep ltac:(by apply send_window_update_keeps). Qed.

Lemma poll_write_keeps cx buf : through (st_sender s) P -> keeps s P (poll_write cx buf).
Proof. intros Hd. unfold poll_write. keep ltac:(through Hd). Qed.

Lemma stream_poll_flush_keeps cx : through (st_sender s) P -> keeps s P (stream_poll_flush cx).
Proof. intros Hd. unfold stream_poll_flush. keep ltac:(through Hd). Qed.

Lemma stream_poll_close_keeps cx : through (st_sender s) P -> keeps s P (stream_poll_close cx).
Proof. intros Hd. unfold stream_poll_close, stream_is_closed. keep ltac:(through Hd). Qed.
End halves.

(** ** Two halves, two senders *)

Section theorems.
Context `{Arch, Parking}.

(** Both senders of a handle are live and they differ. *)
Definition separate (r : Receiver) (s : Stream) (n : Net) : Prop :=
  live r (st_sender s) n /\ live r (st_window_update_sender s) n /\ st_window_update_sender s <> st_sender s.

Lemma stream_new_separate r id cfg c w (shared : Instant -> Shared) flag :
  live r c (net w) ->
  post (window_update_sender ← on_net (sender_clone c); now ← on_mem read_clock; l ← on_mem (arc_new (shared now));
        mret (mkStream id cfg c window_update_sender flag l)) (fun s w => separate r s (net w)) w.
Proof.
  intros Hl. apply post_bind. unfold post at 1, on_net. simpl. pose proof (clone_live _ _ _ Hl) as Hc.
  destruct (sender_clone c (net w)) as [d n']. destruct Hc as (Hd & Hlc & Hld).
  apply post_bind. apply post_zoom. intros now m. apply post_bind. apply post_zoom. intros l m'.
  apply post_ret. split_and!; done.
Qed.

Lemma poll_write_parks r s w cx buf :
  live r (st_sender s) (net w) -> (sender_poll_ready (st_sender s) cx (net w)).1 = Pending ->
  exists w', poll_write cx buf (s, w) = Ret (Pending, (s, w')) /\ parked (st_sender s) cx (net w').
Proof.
  intros Hl Hp. pose proof (ready_parks r _ cx _ Hl) as Hr.
  unfold poll_write, mbind, M_bind, self, gets, on_net. simpl.
  destruct (sender_poll_ready (st_sender s) cx (net w)) as [p n']. simpl in Hp. subst p. eexists. split; [done |]. by apply Hr.
Qed.

(** What a handle still waits for after a poll of the other half: [c] is one of its senders. *)
Definition still_parked (r : Receiver) (c : Stream -> Sender) (cx : Waker) (x : SW) : Prop :=
  separate r (fst x) (net (snd x)) /\ parked (c (fst x)) cx (net (snd x)).

(** What is live, separate and parked stays so whatever the other sender does. *)
Lemma separate_through r s c d cx :
  d <> c -> through d (fun n => (live r (st_sender s) n /\ live r (st_window_update_sender s) n) /\ parked c cx n).
Proof.
  intros Hd. split; intros ? n [[Hl Hu] Hp]; split_and!;
    first [by apply ready_live | by apply send_live | by apply flush_live
          | by apply ready_parked | by apply send_parked | by apply flush_parked].
Qed.

Lemma still_parked_keeps {A} r s w (c : Stream -> Sender) cx (m : M SW A) :
  (forall s', st_sender s' = st_sender s -> st_window_update_sender s' = st_window_update_sender s -> c s' = c s) ->
  keeps s (fun n => (live r (st_sender s) n /\ live r (st_window_update_sender s) n) /\ parked (c s) cx n) m ->
  still_parked r c cx (s, w) -> post m (fun _ => still_parked r c cx) (s, w).
Proof.
  intros Hc Hk [(Hl & Hu & Hd) Hp]. eapply post_mono; [apply Hk; done |].
  intros a [s' w'] (Hs & Hw & ([Hl' Hu'] & Hp')). unfold still_parked, separate in *. simpl in *.
  rewrite (Hc s' Hs Hw), Hs, Hw. repeat (split; [assumption |]). done.
Qed.

(** C24: the halves of a stream wait apart. A new stream sends through two senders. While the writing
    half waits for room in the channel, the polls of the reading half leave its task registered, and
    it is woken once the connection has taken the commands of those that wait before it and one more;
    and the polls of the writing half leave the task of the reading half registered. *)
Theorem halves_park_separately r :
  (forall id cfg credit c w, live r c (net w) ->
     post (stream_new_outbound id cfg c) (fun s w' => separate r s (net w')) w /\
     post (stream_new_inbound id cfg credit c) (fun s w' => separate r s (net w')) w) /\
  (forall s w wcx rcx buf, separate r s (net w) ->
     ((sender_poll_ready (st_sender s) wcx (net w)).1 = Pending ->
      exists w', poll_write wcx buf (s, w) = Ret (Pending, (s, w')) /\ parked (st_sender s) wcx (net w')) /\
     (parked (st_sender s) wcx (net w) ->
      post (poll_read rcx buf) (fun _ => still_parked r st_sender wcx) (s, w) /\
      post (stream_poll_next rcx) (fun _ => still_parked r st_sender wcx) (s, w) /\
      forall k, exists i, (i <= place (st_sender s) (net w))%nat /\ wcx ∈ net_woken (take_commands (S i) r k (net w))) /\
     (parked (st_window_update_sender s) rcx (net w) ->
      post (poll_write wcx buf) (fun _ => still_parked r st_window_update_sender rcx) (s, w) /\
      post (stream_poll_flush wcx) (fun _ => still_parked r st_window_update_sender rcx) (s, w) /\
      post (stream_poll_close wcx) (fun _ => still_parked r st_window_update_sender rcx) (s, w))).
Proof.
  split.
  - intros id cfg credit c w Hl. by split; apply stream_new_separate.
  - intros s w wcx rcx buf (Hl & Hu & Hd). split_and!; [by eapply poll_write_parks | |]; intros Hp.
    + assert (Hr : through (st_window_update_sender s) _) by (apply (separate_through r s (st_sender s) _ wcx); congruence).
      split_and!; [by eapply still_parked_keeps; [| by apply poll_read_keeps |]
                  | by eapply still_parked_keeps; [| by apply stream_poll_next_keeps |] |].
      intros k. by apply parked_is_woken.
    + assert (Hw : through (st_sender s) _)
        by (apply (separate_through r s (st_window_update_sender s) _ rcx); congruence).
      split_and!; [by eapply still_parked_keeps; [| by apply poll_write_keeps |]
                  | by eapply still_parked_keeps; [| by apply stream_poll_flush_keeps |]
                  | by eapply still_parked_keeps; [| by apply stream_poll_close_keeps |]].
Qed.
End theorems.

(** ** One implementation *)

(** A sender: its channel, and if it is parked the task it has last been asked by. *)
Record ParkSender : Set := mkParkSender {
  ps_chan : positive;
  ps_parked : option (option Waker);
}.

(** A channel: what is in it and how much may be besides one command for each sender, whether it is
    open, how many senders there are and those that are parked, in the order in which they were. *)
Record ParkChan : Set := mkParkChan {
  pc_queue : list StreamCommand;
  pc_buffer : Z;
  pc_open : bool;
  pc_senders : nat;
  pc_parked : list positive;
}.

Record ParkNet : Set := mkParkNet {
  pn_chans : gmap positive ParkChan;
  pn_senders : gmap positive ParkSender;
  pn_next : positive;
  pn_woken : list Waker;
}.

Definition park_set_chan (r : positive) (x : ParkChan) (n : ParkNet) : ParkNet :=
  mkParkNet (<[r := x]> (pn_chans n)) (pn_senders n) (pn_next n) (pn_woken n).
Definition park_set_sender (c : positive) (x : ParkSender) (n : ParkNet) : ParkNet :=
  mkParkNet (pn_chans n) (<[c := x]> (pn_senders n)) (pn_next n) (pn_woken n).

Definition park_channel (k : Z) (n : ParkNet) : (positive * positive) * ParkNet :=
  let r := pn_next n in
  ((r, r), mkParkNet (<[r := mkParkChan [] k true 1 []]> (pn_chans n))
             (<[r := mkParkSender r None]> (pn_senders n)) (Pos.succ r) (pn_woken n)).

(** A sender with the channel it belongs to, which may be gone. *)
Definition park_sender (c : positive) (n : ParkNet) : option (ParkSender * ParkChan) :=
  s ← pn_senders n !! c; ch ← pn_chans n !! ps_chan s; Some (s, ch).

Definition park_clone (c : positive) (n : ParkNet) : positive * ParkNet :=
  let d := pn_next n in
  (d, match park_sender c n with
      | Some (s, ch) =>
          mkParkNet (<[ps_chan s := mkParkChan (pc_queue ch) (pc_buffer ch) (pc_open ch) (S (pc_senders ch)) (pc_parked ch)]> (pn_chans n))
            (<[d := mkParkSender (ps_chan s) None]> (pn_senders n)) (Pos.succ d) (pn_woken n)
      | None => n
      end).

Definition park_poll_ready (c : positive) (cx : Waker) (n : ParkNet) : poll (result unit unit) * ParkNet :=
  match park_sender c n with
  | Some (s, ch) =>
      if negb (pc_open ch) then (Ready (Err tt), n) else
      match ps_parked s with
      | None => (Ready (Ok tt), n)
      | Some _ => (Pending, park_set_sender c (mkParkSender (ps_chan s) (Some (Some cx))) n)
      end
  | None => (Ready (Err tt), n)
  end.

(** The command that exceeds the buffer parks the sender that sends it. *)
Definition park_start_send (c : positive) (cmd : StreamCommand) (n : ParkNet) : result unit unit * ParkNet :=
  match park_sender c n with
  | Some (s, ch) =>
      if negb (pc_open ch) then (Err tt, n) else
      match ps_parked s with
      | Some _ => (Err tt, n)
      | None =>
          let q := pc_queue ch ++ [cmd] in
          if pc_buffer ch <? zlen q then
            (Ok tt, park_set_sender c (mkParkSender (ps_chan s) (Some None))
                      (park_set_chan (ps_chan s) (mkParkChan q (pc_buffer ch) true (pc_senders ch) (pc_parked ch ++ [c])) n))
          else (Ok tt, park_set_chan (ps_chan s) (mkParkChan q (pc_buffer ch) true (pc_senders ch) (pc_parked ch)) n)
      end
  | None => (Err tt, n)
  end.

Definition park_poll_flush (c : positive) (cx : Waker) (n : ParkNet) : poll (result unit unit) * ParkNet :=
  match park_poll_ready c cx n with
  | (Ready (Err _), n) => (Ready (Ok tt), n)
  | r => r
  end.

(** Unpark a sender and wake its task. *)
Definition park_notify (n : ParkNet) (c : positive) : ParkNet :=
  match pn_senders n !! c with
  | Some (mkParkSender r (Some task)) =>
      mkParkNet (pn_chans n) (<[c := mkParkSender r None]> (pn_senders n)) (pn_next n)
        (pn_woken n ++ match task with Some w => [w] | None => [] end)
  | _ => n
  end.

Definition park_poll_next (r : positive) (cx : Waker) (n : ParkNet) : poll (option StreamCommand) * ParkNet :=
  match pn_chans n !! r with
  | Some (mkParkChan (cmd :: q) b o k l) =>
      (Ready (Some cmd),
       match l with
       | [] => park_set_chan r (mkParkChan q b o k []) n
       | c :: l => park_notify (park_set_chan r (mkParkChan q b o k l) n) c
       end)
  | Some (mkParkChan [] b o k l) => (if negb o || (k =? 0)%nat then Ready None else Pending, n)
  | None => (Ready None, n)
  end.

(** Closing wakes everyone that is parked. *)
Definition park_close (r : positive) (n : ParkNet) : ParkNet :=
  match pn_chans n !! r with
  | Some ch => foldl park_notify (park_set_chan r (mkParkChan (pc_queue ch) (pc_buffer ch) false (pc_senders ch) []) n) (pc_parked ch)
  | None => n
  end.

Definition park_drop (c : positive) (n : ParkNet) : ParkNet :=
  match park_sender c n with
  | Some (s, ch) =>
      mkParkNet (<[ps_chan s := mkParkChan (pc_queue ch) (pc_buffer ch) (pc_open ch) (pred (pc_senders ch)) (pc_parked ch)]> (pn_chans n))
        (delete c (pn_senders n)) (pn_next n) (pn_woken n)
  | None => n
  end.

Definition park_is_closed (c : positive) (n : ParkNet) : bool :=
  match park_sender c n with Some (_, ch) => negb (pc_open ch) | None => true end.

#[local] Instance parking_channels : Mpsc := {|
  Net := ParkNet;
  Sender := positive;
  Receiver := positive;
  mpsc_channel := park_channel;
  sender_clone := park_clone;
  sender_poll_ready := park_poll_ready;
  sender_start_send := park_start_send;
  sender_poll_flush := park_poll_flush;
  sender_is_closed := park_is_closed;
  sender_drop := park_drop;
  receiver_poll_next := park_poll_next;
  receiver_close := park_close;
|}.

(** How many senders wait before [c]. *)
Fixpoint position (c : positive) (l : list positive) : nat :=
  match l with
  | [] => O
  | d :: l => if decide (d = c) then O else S (position c l)
  end.

Definition park_place (c : positive) (n : ParkNet) : nat :=
  match park_sender c n with Some (_, ch) => position c (pc_parked ch) | None => O end.

Definition park_parked (c : positive) (cx : Waker) (n : ParkNet) : Prop :=
  exists s, pn_senders n !! c = Some s /\ ps_parked s = Some (Some cx).

(** A live sender: who is parked is in the queue of its channel, and there are no more parked senders
    than commands. *)
Record park_live (r c : positive) (n : ParkNet) : Prop := {
  pl_sender : exists s, pn_senders n !! c = Some s /\ ps_chan s = r /\
    exists ch, pn_chans n !! r = Some ch /\ pc_open ch = true /\
      (length (pc_parked ch) <= length (pc_queue ch))%nat /\
      (ps_parked s = None \/ c ∈ pc_parked ch);
  pl_next : (c < pn_next n)%positive;
}.

Lemma park_sender_live r c n : park_live r c n -> exists s ch, park_sender c n = Some (s, ch) /\ ps_chan s = r /\
  pn_senders n !! c = Some s /\ pn_chans n !! r = Some ch /\ pc_open ch = true.
Proof.
  intros [(s & Hs & Hr & ch & Hc & Ho & _) _]. exists s, ch. unfold park_sender. rewrite Hs. simpl. rewrite Hr, Hc. done.
Qed.

Lemma park_sender_some c n s ch : park_sender c n = Some (s, ch) ->
  pn_senders n !! c = Some s /\ pn_chans n !! ps_chan s = Some ch.
Proof.
  unfold park_sender. destruct (pn_senders n !! c) as [s'|]; simpl; [| done].
  destruct (pn_chans n !! ps_chan s') as [ch'|] eqn:E; simpl; [| done]. by intros [= <- <-].
Qed.

(** A change of the task a parked sender waits for. *)
Lemma park_live_task r c d n s cx : pn_senders n !! d = Some s -> ps_parked s <> None ->
  park_live r c n -> park_live r c (park_set_sender d (mkParkSender (ps_chan s) (Some cx)) n).
Proof.
  intros Hd Hp [(s1 & Hs & Hr & ch & Hc & Ho & Hl & Hi) Hn]. split; [| done]. simpl.
  destruct (decide (d = c)) as [-> | Hne].
  - simplify_eq. rewrite lookup_insert_eq. eexists. split_and!; [done | done |]. exists ch. split_and!; [done.. |].
    right. by destruct Hi.
  - rewrite lookup_insert_ne by done. exists s1. split_and!; [done.. |]. by exists ch.
Qed.

(** A command more, and at most one parked sender more. *)
Lemma park_live_chan r c q n ch l : pn_chans n !! q = Some ch -> pc_open ch = true -> (length l <= 1)%nat ->
  park_live r c n -> forall cmd, park_live r c
    (park_set_chan q (mkParkChan (pc_queue ch ++ [cmd]) (pc_buffer ch) true (pc_senders ch) (pc_parked ch ++ l)) n).
Proof.
  intros Hq Hoq Hll [(s1 & Hs & Hr & ch1 & Hc & Ho & Hl & Hi) Hn] cmd. split; [| done]. simpl.
  exists s1. split_and!; [done.. |]. destruct (decide (q = r)) as [-> | Hne].
  - rewrite lookup_insert_eq. simplify_eq. eexists. split_and!; [done | done | |].
    + simpl. rewrite !length_app. simpl. lia.
    + simpl. destruct Hi as [Hi | Hi]; [by left | right]. apply elem_of_app. by left.
  - rewrite lookup_insert_ne by done. by exists ch1.
Qed.

Lemma park_live_ready r c d cx n : park_live r c n -> park_live r c (park_poll_ready d cx n).2.
Proof.
  intros Hl. unfold park_poll_ready. destruct (park_sender d n) as [[s ch]|] eqn:E; [| done].
  apply park_sender_some in E as [Es _]. destruct (negb _); [done |]. destruct (ps_parked s) eqn:Ep; [| done].
  simpl. apply park_live_task; [done | by rewrite Ep | done].
Qed.

Lemma park_live_send r c d cmd n : park_live r c n -> park_live r c (park_start_send d cmd n).2.
Proof.
  intros Hl. unfold park_start_send. destruct (park_sender d n) as [[s ch]|] eqn:E; [| done].
  apply park_sender_some in E as [Es Ec]. destruct (pc_open ch) eqn:Eo; simpl; [| done].
  destruct (ps_parked s) eqn:Ep; [done |].
  destruct (_ <? _); simpl.
  - pose proof (park_live_chan r c _ n ch [d] Ec Eo ltac:(simpl; lia) Hl cmd) as [(s1 & Hs & Hr & ch1 & Hc & Ho & Hq & Hi) Hn].
    split; [| done]. simpl in *. destruct (decide (d = c)) as [-> | Hne].
    + simplify_eq. rewrite lookup_insert_eq. eexists. split_and!; [done | done |].
      rewrite lookup_insert_eq in Hc. simplify_eq/=. rewrite lookup_insert_eq.
      eexists. split_and!; [done | done | done |]. right. apply elem_of_app. right. by apply list_elem_of_singleton.
    + rewrite lookup_insert_ne by done. exists s1. split_and!; [done.. |]. by exists ch1.
  - pose proof (park_live_chan r c _ n ch [] Ec Eo ltac:(simpl; lia) Hl cmd) as Hx. by rewrite app_nil_r in Hx.
Qed.

Lemma park_flush_ready c cx n : (park_poll_flush c cx n).2 = (park_poll_ready c cx n).2.
Proof. unfold park_poll_flush. by destruct (park_poll_ready c cx n) as [[[]|] n']. Qed.

Lemma park_live_clone r c n : park_live r c n ->
  let '(d, n') := park_clone c n in d <> c /\ park_live r c n' /\ park_live r d n'.
Proof.
  intros Hl. destruct (park_sender_live _ _ _ Hl) as (s & ch & E & Hr & Es & Ec & Eo).
  destruct Hl as [(s1 & Hs & _ & ch1 & Hc & _ & Hq & Hi) Hn]. unfold park_clone. rewrite E. simplify_eq.
  assert (Hd : pn_next n <> c) by (intros <-; lia). split; [done |]. split; (split; simpl; [| lia]).
  - rewrite lookup_insert_ne by done. eexists. split_and!; [done.. |]. rewrite lookup_insert_eq. by eexists.
  - rewrite lookup_insert_eq. eexists. split_and!; [done | done |]. simpl. rewrite lookup_insert_eq. eexists.
    split_and!; [done | done | done |]. by left.
Qed.

Lemma park_parked_ready r c cx n : park_live r c n ->
  let '(p, n') := park_poll_ready c cx n in p = Pending -> park_parked c cx n'.
Proof.
  intros Hl. destruct (park_sender_live _ _ _ Hl) as (s & ch & E & Hr & Es & Ec & Eo).
  unfold park_poll_ready. rewrite E, Eo. simpl. destruct (ps_parked s); [| done]. intros _.
  eexists. split; [apply lookup_insert_eq | done].
Qed.

Lemma park_parked_other_ready c d cx k n : d <> c -> park_parked c cx n -> park_parked c cx (park_poll_ready d k n).2.
Proof.
  intros Hd (s & Hs & Hp). unfold park_poll_ready. destruct (park_sender d n) as [[s1 ch]|]; [| by exists s].
  destruct (negb _); [by exists s |]. destruct (ps_parked s1); [| by exists s]. exists s. simpl. by rewrite lookup_insert_ne.
Qed.

Lemma park_parked_other_send c d cx cmd n : d <> c -> park_parked c cx n -> park_parked c cx (park_start_send d cmd n).2.
Proof.
  intros Hd (s & Hs & Hp). unfold park_start_send. destruct (park_sender d n) as [[s1 ch]|]; [| by exists s].
  destruct (negb _); [by exists s |]. destruct (ps_parked s1); [by exists s |].
  destruct (_ <? _); exists s; simpl; [| done]. by rewrite lookup_insert_ne.
Qed.

Lemma position_cons c d l : d <> c -> position c (d :: l) = S (position c l).
Proof. intros Hd. simpl. by rewrite decide_False. Qed.

(** Unparking another sender. *)
Lemma park_notify_other c d n : d <> c ->
  pn_senders (park_notify n d) !! c = pn_senders n !! c /\ pn_chans (park_notify n d) = pn_chans n /\
  pn_next (park_notify n d) = pn_next n.
Proof.
  intros Hd. unfold park_notify. destruct (pn_senders n !! d) as [[r [t|]]|]; [| done..]. simpl.
  by rewrite lookup_insert_ne.
Qed.

Lemma park_wakes r c cx k n : park_live r c n -> park_parked c cx n ->
  let '(p, n') := park_poll_next r k n in
  (exists cmd, p = Ready (Some cmd)) /\
  (cx ∈ pn_woken n' \/ (park_live r c n' /\ park_parked c cx n' /\ (park_place c n' < park_place c n)%nat)).
Proof.
  intros [(s & Hs & Hr & ch & Hc & Ho & Hl & Hi) Hn] (s1 & Hs1 & Hp). simplify_eq.
  destruct Hi as [Hi | Hi]; [congruence |]. unfold park_place, park_sender. rewrite Hs. simpl. rewrite Hc. simpl.
  unfold park_poll_next. rewrite Hc. destruct ch as [q b o m l]. simpl in *. subst o.
  destruct l as [|d l]; [by apply elem_of_nil in Hi |]. destruct q as [|cmd q]; simpl in Hl; [lia |].
  split; [by eexists |]. destruct (decide (d = c)) as [-> | Hd].
  - left. unfold park_notify. simpl. rewrite Hs. destruct s as [r t]. simpl in *. subst t. simpl.
    apply elem_of_app. right. by apply list_elem_of_singleton.
  - right. set (n1 := park_set_chan _ _ n). destruct (park_notify_other c d n1 Hd) as (Es & Ec & En).
    apply elem_of_cons in Hi as [-> | Hi]; [done |].
    assert (Hc1 : pn_chans n1 !! ps_chan s = Some (mkParkChan q b true m l)) by apply lookup_insert_eq.
    split_and!.
    + split; [| by rewrite En]. rewrite Es, Ec. exists s. split_and!; [done.. |]. eexists. split_and!; [done | done | simpl; lia |].
      by right.
    + exists s. by rewrite Es.
    + rewrite position_cons, Es by done. simpl. rewrite Hs. simpl. rewrite Ec, Hc1. simpl. lia.
Qed.

#[local] Instance parking_parking : Parking.
Proof.
  refine {| live := park_live : Receiver -> Sender -> Net -> Prop; parked := park_parked : Sender -> Waker -> Net -> Prop;
            place := park_place : Sender -> Net -> nat; net_woken := pn_woken : Net -> list Waker |}; simpl.
  - intros k n. split; simpl; [| lia]. rewrite !lookup_insert_eq. eexists. split_and!; [done | done |].
    eexists. split_and!; [done | done | simpl; lia |]. by left.
  - apply park_live_clone.
  - apply park_live_ready.
  - apply park_live_send.
  - intros r c d cx n. rewrite park_flush_ready. apply park_live_ready.
  - apply park_parked_ready.
  - apply park_parked_other_ready.
  - apply park_parked_other_send.
  - intros c d cx k n. rewrite park_flush_ready. apply park_parked_other_ready.
  - apply park_wakes.
Defined.

(** ** The unit test of [stream.rs] *)

Section unit_test.
Context `{Arch, Parking}.

(** Both wakers of the test; the receiver is not polled by a task. *)
Definition write_waker : Waker := 1%positive.
Definition read_waker : Waker := 2%positive.

(** The test: whether the write half has been woken at its end. *)
Definition read_half_does_not_steal_the_write_half_wakeup (cx : Waker) (w : World) : outcome bool :=
  let '((sender, receiver), n) := mpsc_channel 0 (net w) in
  '(stream, w) ← stream_new_outbound 1 config_default sender (set_net n w);
  '(p, s) ← poll_write write_waker [x68; x65; x6c; x6c; x6f] (stream, w);
  rust_assert (poll_is_ready p) ≫= fun _ =>
  '(p, s) ← poll_write write_waker [x77; x6f; x72; x6c; x64] s;
  rust_assert (negb (poll_is_ready p)) ≫= fun _ =>
  '((p, _), s) ← poll_read read_waker (replicate 16 x00) s;
  rust_assert (negb (poll_is_ready p)) ≫= fun _ =>
  let '(command, n) := receiver_poll_next receiver cx (net (snd s)) in
  rust_assert (match command with Ready (Some _) => true | _ => false end) ≫= fun _ =>
  Ret (bool_decide (write_waker ∈ net_woken n)).
End unit_test.

Definition park_net_new : ParkNet := mkParkNet ∅ ∅ 1 [].
#[local] Instance park_arch : Arch := arch64.
Definition park_world : World := mkWorld (mem_new (fun _ => 0)) park_net_new.

Example read_half_test_passes :
  read_half_does_not_steal_the_write_half_wakeup 3%positive park_world = Ret true.
Proof. vm_compute. reflexivity. Qed.

(** A stream whose write half has filled the channel, and the world when it waits for room. *)
Definition park_stream : Stream := mkStream 1 config_default 1%positive 2%positive FlagNone 1%positive.

Definition park_full : World :=
  match stream_new_outbound 1 config_default 1%positive
          (set_net (park_channel 0 park_net_new).2 park_world) with
  | Ret (s, w) =>
      match poll_write write_waker [x68] (s, w) with
      | Ret (_, (_, w)) => set_net (park_poll_ready 1%positive write_waker (net w)).2 w
      | _ => park_world
      end
  | _ => park_world
  end.

Definition park_receiver : Receiver := 1%positive.

Lemma park_full_separate :
  separate park_receiver park_stream (net park_full).
Proof.
  unfold separate. split_and!; [split | split |]; try (vm_compute; reflexivity); [| | done].
  - eexists. split; [vm_compute; reflexivity |]. split; [reflexivity |]. eexists. split; [vm_compute; reflexivity |].
    split_and!; [done | simpl; lia |]. right. set_solver.
  - eexists. split; [vm_compute; reflexivity |]. split; [reflexivity |]. eexists. split; [vm_compute; reflexivity |].
    split_and!; [done | simpl; lia |]. by left.
Qed.

Lemma park_full_parked : park_parked 1%positive write_waker (net park_full).
Proof. eexists. split; vm_compute; reflexivity. Qed.

Lemma halves_park_separately_witness :
  post (poll_read read_waker [x00])
    (fun _ => still_parked park_receiver st_sender write_waker) (park_stream, park_full).
Proof.
  destruct (proj2 (halves_park_separately park_receiver)
    park_stream park_full write_waker read_waker [x00] park_full_separate) as (_ & Hr & _).
  destruct (Hr park_full_parked) as [Hp _]. exact Hp.
Defined.
