(* ===== verification/StreamSpec.v ===== *)
(** * Properties of stream handles

    The reader loop against the queue of unread bytes, and every operation of a handle: what it
    returns, what it changes, and that it keeps the memory invariant without panicking. *)
From Stdlib Require Import ZArith Lia Strings.Byte.
From stdpp Require Import base option list gmap numbers.
From S2P Require Import Prelude.
From S2P Require Import Header.
From S2P Require Import Frame.
From S2P Require Import Config.
From S2P Require Import Command.
From S2P Require Import Rtt.
From S2P Require Import ChunkList.
From S2P Require Import FlowControl.
From S2P Require Import Shared.
From S2P Require Import Heap.
From S2P Require Import Channel.
From S2P Require Import StreamHandle.

Section read_loop.
Context `{Arch}.

(** The iterations the loop still needs. *)
Definition read_need (cs : Chunks) : nat :=
  match chunks_seq cs with
  | [] => 1
  | c :: s => 2 * length s + (if decide (chunk_rest c = []) then 2 else 3)
  end.

Lemma read_need_fuel cs : (read_need cs <= read_fuel cs)%nat.
Proof. unfold read_need, read_fuel. destruct (chunks_seq cs); simpl; [lia |]. case_decide; lia. Qed.

(** One pass over a chunk that is not empty; [pre] has been filled, [tl] has not. *)
Lemma read_loop_chunk fuel pre tl c s t :
  chunks_ok (mkChunks (c :: s) t) -> chunk_rest c <> [] -> zlen (pre ++ tl) <= usize_max ->
  let k := Z.min (zlen (chunk_rest c)) (zlen tl) in
  let pre' := pre ++ take (Z.to_nat k) (chunk_rest c) in
  let tl' := drop (Z.to_nat k) tl in
  zlen pre' = zlen pre + k /\
  exists c', chunks_ok (mkChunks (c' :: s) t) /\
    chunk_rest c' = drop (Z.to_nat k) (chunk_rest c) /\
    read_loop (S fuel) (zlen pre) (pre ++ tl) (mkChunks (c :: s) t)
    = if zlen pre' =? zlen (pre ++ tl)
      then Ret (zlen pre', pre' ++ tl', mkChunks (c' :: s) t)
      else read_loop fuel (zlen pre') (pre' ++ tl') (mkChunks (c' :: s) t).
Proof.
  intros Hok Hne Hu k pre' tl'.
  assert (Hc : chunk_ok c) by (destruct Hok as (Hf & _); by inversion Hf).
  assert (Hpos : 0 < zlen (chunk_rest c)) by (destruct (chunk_rest c); [done | zlen_lia]).
  assert (Hk : zlen (take (Z.to_nat k) (chunk_rest c)) = k) by (unfold k; zlen_lia).
  assert (Hp : zlen pre' = zlen pre + k) by (unfold pre'; rewrite zlen_app, Hk; done).
  pose proof (zlen_nonneg tl). pose proof (zlen_app pre tl) as Hpt.
  split; [done |].
  destruct (chunk_advance_ok k c Hc ltac:(unfold k; lia)) as (c' & Ha & Hc' & Hv & Hr).
  exists c'. split; [by eapply chunks_front_ok |]. split; [done |].
  simpl. unfold chunk_is_empty. rewrite chunk_len_ok by done. simpl.
  destruct (Z.eqb_spec (zlen (chunk_rest c)) 0); [lia |].
  rewrite sub_ret by lia. simpl. replace (zlen (pre ++ tl) - zlen pre) with (zlen tl) by lia.
  fold k. rewrite chunk_as_ref_ok by done. simpl.
  rewrite copy_from_slice_app by (rewrite Hk; unfold k; lia). rewrite Hk. simpl.
  rewrite add_ret by (unfold k; lia). simpl. rewrite Ha. simpl.
  rewrite app_assoc. fold pre' tl'. rewrite <- Hp.
  replace (zlen (pre' ++ tl')) with (zlen (pre ++ tl)).
  { by destruct (zlen pre' =? zlen (pre ++ tl)). }
  rewrite !zlen_app, Hp. unfold tl', k. rewrite zlen_drop. lia.
Qed.

(** The result of the loop on [cs], with [tl] left to fill. *)
Definition reads (fuel : nat) (pre tl : list byte) (cs : Chunks) : Prop :=
  let k := Z.min (zlen (chunks_rest cs)) (zlen tl) in
  exists cs', read_loop fuel (zlen pre) (pre ++ tl) cs
              = Ret (zlen pre + k, pre ++ take (Z.to_nat k) (chunks_rest cs)
                                       ++ drop (Z.to_nat k) tl, cs') /\
    chunks_ok cs' /\ chunks_rest cs' = drop (Z.to_nat k) (chunks_rest cs).

(** An exhausted chunk is popped. *)
Lemma reads_pop fuel pre tl c s t :
  chunks_ok (mkChunks (c :: s) t) -> chunk_rest c = [] ->
  reads fuel pre tl (mkChunks s (chunks_vecs s)) -> reads (S fuel) pre tl (mkChunks (c :: s) t).
Proof.
  intros Hok Hnil (cs' & Hl & Hok' & Hr). destruct (chunks_pop_cons c s t Hok) as (Hp & _ & _).
  assert (Hc : chunk_ok c) by (destruct Hok as (Hf & _); by inversion Hf).
  assert (Hrest : chunks_rest (mkChunks (c :: s) t) = chunks_rest (mkChunks s (chunks_vecs s)))
    by (unfold chunks_rest; simpl; by rewrite Hnil).
  exists cs'. rewrite <- Hrest in Hl, Hr. split; [| by split]. etrans; [| exact Hl]. simpl.
  unfold chunk_is_empty. rewrite chunk_len_ok by done. rewrite Hnil. simpl. by rewrite Hp.
Qed.

(** Bytes [a] at the front are copied, the rest is read from what is left. *)
Lemma reads_front fuel pre tl a rest cs cs' :
  chunks_rest cs = a ++ rest -> chunks_rest cs' = rest -> zlen a <= zlen tl ->
  reads fuel (pre ++ a) (drop (length a) tl) cs' ->
  let k := Z.min (zlen (chunks_rest cs)) (zlen tl) in
  exists cs'', read_loop fuel (zlen (pre ++ a)) ((pre ++ a) ++ drop (length a) tl) cs'
              = Ret (zlen pre + k, pre ++ take (Z.to_nat k) (chunks_rest cs)
                                       ++ drop (Z.to_nat k) tl, cs'') /\
    chunks_ok cs'' /\ chunks_rest cs'' = drop (Z.to_nat k) (chunks_rest cs).
Proof.
  intros Hcs Hcs' Ha (cs'' & Hl & Hok & Hr) k. exists cs''. rewrite Hcs' in Hl, Hr.
  pose proof (zlen_nonneg rest). pose proof (zlen_app a rest) as Hsum.
  assert (Hk : Z.min (zlen rest) (zlen (drop (length a) tl)) = k - zlen a)
    by (unfold k; rewrite Hcs, Hsum, zlen_drop; unfold zlen in *; lia).
  rewrite Hk in Hl, Hr. assert (zlen a <= k) by (unfold k; rewrite Hcs, Hsum; lia).
  assert (Hn : Z.to_nat (k - zlen a) = (Z.to_nat k - length a)%nat) by (unfold zlen in *; lia).
  assert (length a <= Z.to_nat k)%nat by (unfold zlen in *; lia).
  rewrite Hn in Hl, Hr. rewrite Hcs. split_and!; [| done |].
  - rewrite Hl, take_app_ge, drop_drop, <- !app_assoc, zlen_app by done.
    replace (length a + (Z.to_nat k - length a))%nat with (Z.to_nat k) by lia. do 3 f_equal. lia.
  - rewrite drop_app_ge by done. exact Hr.
Qed.

Lemma read_loop_gen fuel pre tl cs :
  chunks_ok cs -> zlen (pre ++ tl) <= usize_max -> (read_need cs <= fuel)%nat -> reads fuel pre tl cs.
Proof.
  revert pre tl cs. induction fuel as [|fuel IH]; intros pre tl cs Hok Hu Hf.
  { unfold read_need in Hf. destruct (chunks_seq cs); [lia |]. case_decide; lia. }
  destruct cs as [[|c s] t].
  { exists (mkChunks [] t). pose proof (zlen_nonneg tl). unfold chunks_rest. simpl. rewrite zlen_nil.
    rewrite Z.min_l by lia. simpl. by rewrite Z.add_0_r. }
  destruct (decide (chunk_rest c = [])) as [Hnil | Hne].
  - apply reads_pop; [done.. |]. destruct (chunks_pop_cons c s t Hok) as (_ & Hok' & _).
    apply IH; [done.. |]. unfold read_need in *. simpl in *. rewrite decide_True in Hf by done.
    destruct s; simpl in *; [lia |]. case_decide; lia.
  - destruct (read_loop_chunk fuel pre tl c s t Hok Hne Hu) as (Hp & c' & Hok' & Hr' & Hl).
    unfold reads. rewrite Hl. clear Hl.
    set (k1 := Z.min (zlen (chunk_rest c)) (zlen tl)) in *. set (rest := concat (map chunk_rest s)).
    assert (Hrest : chunks_rest (mkChunks (c :: s) t) = chunk_rest c ++ rest) by done.
    assert (Hrest' : chunks_rest (mkChunks (c' :: s) t) = drop (Z.to_nat k1) (chunk_rest c) ++ rest)
      by (unfold chunks_rest; simpl; by rewrite Hr').
    pose proof (zlen_nonneg rest). pose proof (zlen_app (chunk_rest c) rest) as Hsum.
    rewrite (zlen_app pre tl). destruct (Z.eqb_spec (zlen (pre ++ take (Z.to_nat k1) (chunk_rest c))) (zlen pre + zlen tl)) as [Hfull | Hmore].
    + (* the buffer is full *)
      rewrite Hrest, Hsum. replace (Z.min (zlen (chunk_rest c) + zlen rest) (zlen tl)) with k1 by lia.
      exists (mkChunks (c' :: s) t). rewrite Hp, Hrest'. split; [| split; [done |]].
      * rewrite take_app_le by (unfold zlen in *; lia). by rewrite <- app_assoc.
      * by rewrite drop_app_le by (unfold zlen in *; lia).
    + (* the chunk is exhausted *)
      assert (k1 = zlen (chunk_rest c)) as Hk1 by lia. rewrite Hk1 in *.
      assert (Hn : Z.to_nat (zlen (chunk_rest c)) = length (chunk_rest c)) by (unfold zlen; lia).
      rewrite Hn in *. rewrite drop_all in Hr', Hrest'. rewrite take_ge in * by lia.
      apply (reads_front fuel pre tl (chunk_rest c) rest); [done.. | lia |].
      apply IH; [done | |].
      { rewrite !zlen_app, zlen_drop in *. unfold zlen in *. lia. }
      unfold read_need in *. simpl in *. rewrite decide_False in Hf by done.
      rewrite decide_True by done. lia.
Qed.

(** The read loop on the caller's whole buffer. *)
Lemma read_loop_ok buf cs :
  chunks_ok cs -> zlen buf <= usize_max ->
  let k := Z.min (zlen (chunks_rest cs)) (zlen buf) in
  exists cs', read_loop (read_fuel cs) 0 buf cs
              = Ret (k, take (Z.to_nat k) (chunks_rest cs) ++ drop (Z.to_nat k) buf, cs') /\
    chunks_ok cs' /\ chunks_rest cs' = drop (Z.to_nat k) (chunks_rest cs).
Proof.
  intros Hok Hu k.
  destruct (read_loop_gen (read_fuel cs) [] buf cs Hok Hu (read_need_fuel cs)) as (cs' & Hl & ?).
  exists cs'. split; [| done]. exact Hl.
Qed.
End read_loop.

Section stream_ops.
Context `{Arch, Mpsc}.

Lemma wp_on_mem {A} (m : M Mem A) (Q : A -> SW -> Prop) s w a m' :
  m (mem w) = Ret (a, m') -> Q a (s, set_mem m' w) -> wp (on_mem m) Q (s, w).
Proof. intros E HQ. unfold wp, on_mem, zoom. simpl. by rewrite E. Qed.

(** A read leaves the world as it is. *)
Lemma wp_on_mem_read {A} (m : M Mem A) (Q : A -> SW -> Prop) s w a :
  m (mem w) = Ret (a, mem w) -> Q a (s, w) -> wp (on_mem m) Q (s, w).
Proof. intros E HQ. destruct w. by eapply wp_on_mem. Qed.

Lemma wp_on_net {A} (f : Net -> A * Net) (Q : A -> SW -> Prop) s w :
  Q (f (net w)).1 (s, set_net (f (net w)).2 w) -> wp (on_net f) Q (s, w).
Proof. intros HQ. unfold wp, on_net. simpl. by destruct (f (net w)). Qed.

Lemma wp_self {A} (f : Stream -> A) (Q : A -> SW -> Prop) s w :
  Q (f s) (s, w) -> wp (self f) Q (s, w).
Proof. done. Qed.

(** The reading operations go on unless sending credit failed. *)
Lemma wp_unless_err {A B E} (r : poll (result A E)) (C : E -> Prop) (P : Prop) (f : E -> M SW B) (m : M SW B)
    (Q : B -> SW -> Prop) sw :
  match r with Ready (Err e) => C e | _ => P end ->
  (forall e, r = Ready (Err e) -> C e -> wp (f e) Q sw) -> (P -> wp m Q sw) ->
  wp (match r with Ready (Err e) => f e | _ => m end) Q sw.
Proof. intros HP Hf Hm. destruct r as [[|e]|]; [by apply Hm | by apply Hf | by apply Hm]. Qed.

(** What a live handle of a connection with the configuration [cfg] looks like. *)
Definition handle_ok (cfg : Config) (s : Stream) (w : World) (sh : Shared) : Prop :=
  mem_ok cfg (mem w) /\ 0 <= st_id s <= u32_max /\ st_config s = cfg /\
  exists k, cells (mem w) !! st_shared s = Some (mkCell k sh).

(** What an operation on the handle [s] may do to handle and world: identity, configuration and
    channel ends of the handle stay, a flag can only be used up, of the memory only the record of
    this stream, the shared counter and the clock change, keeping the invariant, and the channels
    are only sent well-formed commands. *)
Record op_rel (cfg : Config) (s : Stream) (w : World) (s' : Stream) (w' : World) : Prop := {
  or_handle : s' = s \/ s' = set_flag FlagNone s;
  or_mem : mem_ok cfg (mem w');
  or_rel : mem_rel (eq (st_shared s)) (mem w) (mem w');
  or_rtt : rtt (mem w') = rtt (mem w);
  or_net : sends (net w) (net w');
}.

Lemma op_rel_refl cfg s w : mem_ok cfg (mem w) -> op_rel cfg s w s w.
Proof. split; [by left | done | apply mem_rel_refl | done | done]. Qed.

Lemma op_rel_trans cfg s w s1 w1 s2 w2 :
  op_rel cfg s w s1 w1 -> op_rel cfg s1 w1 s2 w2 -> op_rel cfg s w s2 w2.
Proof.
  intros [Hh1 Hm1 Hr1 Ht1 Hn1] [Hh2 Hm2 Hr2 Ht2 Hn2].
  assert (Hl : st_shared s1 = st_shared s) by (by destruct Hh1 as [-> | ->]).
  rewrite Hl in Hr2. split.
  - destruct Hh1 as [-> | ->], Hh2 as [-> | ->]; auto.
  - done.
  - by etrans.
  - by etrans.
  - by etrans.
Qed.

(** A step on the memory, the channels or the flag alone. *)
Lemma op_rel_mem cfg s w m' :
  mem_ok cfg m' -> mem_rel (eq (st_shared s)) (mem w) m' -> rtt m' = rtt (mem w) ->
  op_rel cfg s w s (set_mem m' w).
Proof. split; [by left | done | done | done | done]. Qed.

Lemma op_rel_net cfg s w n :
  mem_ok cfg (mem w) -> sends (net w) n -> op_rel cfg s w s (set_net n w).
Proof. split; [by left | done | apply mem_rel_refl | done | done]. Qed.

(** The same step with other things sent. *)
Lemma op_rel_mem_eq cfg s w s' w' v v' :
  op_rel cfg s w s' w' -> mem v = mem w -> mem v' = mem w' -> sends (net v) (net v') -> op_rel cfg s v s' v'.
Proof. intros [] Hv Hv' Hn. split; rewrite ?Hv, ?Hv'; done. Qed.

Lemma sends_one s c n : cmd_ok c -> sends n (sender_start_send s c n).2.
Proof. intros Hc. eapply sends_send; [done | apply sends_refl]. Qed.

Lemma sends_ask s cx n : sends n (sender_poll_ready s cx n).2.
Proof. eapply sends_ready, sends_refl. Qed.

Lemma op_rel_flag cfg s w : mem_ok cfg (mem w) -> op_rel cfg s w (set_flag FlagNone s) w.
Proof. split; [by right | done | apply mem_rel_refl | done | done]. Qed.

(** The flags a pending flag puts on the next frame. *)
Definition flag_bits (f : Flag) : Z :=
  match f with FlagNone => 0 | FlagSyn => SYN | FlagAck => ACK end.

Definition flagged (f : Flag) (fr : Frame (Either Data WindowUpdate)) : Frame (Either Data WindowUpdate) :=
  mkFrame (or_flag (flag_bits f) (header fr)) (body fr).

Lemma add_flag_eval fr s w :
  flags (header fr) = 0 ->
  add_flag fr (s, w) = Ret (flagged (st_flag s) fr, (set_flag FlagNone s, w)).
Proof.
  intros Hf. destruct s as [id cf se ws fl l], fr as [[v t f i le] b]. simpl in Hf. subst f.
  by destruct fl.
Qed.

Lemma flagged_wf fl fr : frame_wf fr -> frame_wf (flagged fl fr).
Proof.
  intros (Ht & Hv & Hb). split; [| done]. simpl. apply or_flag_typed; [done |].
  by destruct fl.
Qed.

(** The frame that gives credit, with the flag that was pending. *)
Lemma update_frame_wf s credit :
  0 <= st_id s <= u32_max -> 0 <= credit <= u32_max ->
  frame_wf (flagged (st_flag s) (frame_right Data (frame_window_update (st_id s) credit))).
Proof. intros Hid Hc. by apply flagged_wf, frame_window_update_wf. Qed.

Definition update_frame (s : Stream) (k : Z) : Frame (Either Data WindowUpdate) :=
  flagged (st_flag s) (frame_right Data (frame_window_update (st_id s) k)).

(** What a reading operation does about the receive window before it reads, [n] being the channels:
    nothing when less than half of the window has been read since the last update, or when the
    stream cannot be read any more; nothing when the channel has no room; otherwise it tells the
    remote to send what makes its credit and the unread bytes the maximal window, which may have
    grown. *)
Inductive grants (cx : Waker) (n : Net) (s : Stream) (sh : Shared) :
    Stream -> FlowController -> list StreamCommand -> Prop :=
| grants_not_due :
    (can_read (sh_state sh) = true -> window_used sh < fc_max_receive_window (sh_flow_controller sh) / 2) ->
    grants cx n s sh s (sh_flow_controller sh) []
| grants_no_room :
    (sender_poll_ready (st_window_update_sender s) cx n).1 = Pending ->
    grants cx n s sh s (sh_flow_controller sh) []
| grants_credit k fc :
    can_read (sh_state sh) = true ->
    fc_max_receive_window (sh_flow_controller sh) / 2 <= window_used sh ->
    fc_max_receive_window (sh_flow_controller sh) <= fc_max_receive_window fc <= u32_max ->
    fc_send_window fc = fc_send_window (sh_flow_controller sh) ->
    fc_receive_window fc = fc_receive_window (sh_flow_controller sh) + k -> 0 <= k <= u32_max ->
    fc_receive_window fc + zlen (chunks_rest (sh_buffer sh)) = fc_max_receive_window fc ->
    grants cx n s sh (set_flag FlagNone s) fc [SendFrame (update_frame s k)].

(** The two senders of a handle. *)
Definition own_sender (s : Stream) (c : Sender) : Prop := c = st_sender s \/ c = st_window_update_sender s.

(** An operation that has failed because its channel is closed, and has done nothing. *)
Definition stopped (n : Net) (s : Stream) (sh : Shared) (s' : Stream) (fc : FlowController) (n' : Net) : Prop :=
  s' = s /\ fc = sh_flow_controller sh /\ emits (own_sender s) n [] n'.

(** [send_window_update] touches only the windows of its stream: the unread bytes, the state and
    the parked wakers are as before. Only a closed channel makes it fail. *)
Lemma send_window_update_ok cfg s w sh cx :
  handle_ok cfg s w sh ->
  wp (send_window_update cx) (fun r '(s', w') =>
    op_rel cfg s w s' w' /\
    exists fc, handle_ok cfg s' w' (set_flow_controller fc sh) /\
    match r with
    | Ready (Err e) => e = WriteZero /\
        (stopped (net w) s sh s' fc (net w') \/ refused (st_window_update_sender s) cx (net w))
    | _ => exists cmds, emits (own_sender s) (net w) cmds (net w') /\ grants cx (net w) s sh s' fc cmds
    end) (s, w).
Proof.
  intros Hh. pose proof Hh as (Hm & Hid & Hcf & k & Hl). unfold send_window_update.
  assert (Hself : forall n, handle_ok cfg s (set_net n w) (set_flow_controller (sh_flow_controller sh) sh))
    by (by destruct sh).
  wp_step. apply wp_self. wp_step.
  eapply wp_on_mem_read; [by apply lock_eval |]. simpl.
  destruct (can_read (sh_state sh)) eqn:Hcr; simpl.
  2: { split; [by apply op_rel_refl |]. eexists. split; [destruct w; apply Hself |]. exists [].
       split; [apply emits_nil |]. apply grants_not_due. by rewrite Hcr. }
  wp_step. apply wp_self. wp_step. apply wp_on_net. simpl.
  pose proof (sends_ask (st_window_update_sender s) cx (net w)) as Hn1.
  assert (Hem : forall l n, emits (own_sender s) (sender_poll_ready (st_window_update_sender s) cx (net w)).2 l n ->
    emits (own_sender s) (net w) l n) by (intros l n; apply emits_ready; by right).
  destruct (sender_poll_ready _ _ _) as [r n1] eqn:Hask. simpl in Hn1, Hem. destruct r as [[[]|[]]|]; simpl.
  2: { split; [by apply op_rel_net |]. eexists. split; [apply Hself |]. split; [done |]. left.
       split_and!; [done | done | apply Hem, emits_nil]. }
  2: { split; [by apply op_rel_net |]. eexists. split; [apply Hself |]. exists [].
       split; [apply Hem, emits_nil |]. apply grants_no_room. by rewrite Hask. }
  destruct (shared_next_window_update_eval cfg _ _ _ Hm Hl) as (credit & fc & a & He & Hm' & Hk & Hsp).
  set (m' := put _ _ _) in *.
  assert (Hop : op_rel cfg s w s (mkWorld m' n1)).
  { split; [by left | done | | done | done]. simpl. unfold m'.
    etrans; [| eapply mem_rel_put_same; [exact Hl | done]]. by apply mem_rel_cells. }
  assert (Hho : forall s' n, (s' = s \/ s' = set_flag FlagNone s) ->
    handle_ok cfg s' (mkWorld m' n) (set_flow_controller fc sh)).
  { intros s' n Hs'. split; [done |]. destruct Hs' as [-> | ->]; (split; [done |]; split; [done |]);
      exists k; by apply (cells_put_eq _ _ _ (mkCell k sh)). }
  wp_step. eapply wp_on_mem; [exact He |].
  destruct credit as [credit |].
  2: { destruct Hsp as (-> & _ & Hu). split; [done |]. eexists. split; [apply Hho; by left |]. exists [].
       split; [apply Hem, emits_nil | by apply grants_not_due]. }
  wp_step. apply wp_self. wp_step. unfold wp at 1. rewrite add_flag_eval by done.
  fold (update_frame s credit). wp_step. apply wp_on_net. simpl.
  pose proof (sends_one (st_window_update_sender s) (SendFrame (update_frame s credit)) n1
    (update_frame_wf s credit Hid (Hk _ eq_refl))) as Hn2.
  pose proof (emits_taken (own_sender s) (st_window_update_sender s) (SendFrame (update_frame s credit)) n1 []) as Hem2.
  assert (Href : (sender_start_send (st_window_update_sender s) (SendFrame (update_frame s credit)) n1).1 <> Ok tt ->
    refused (st_window_update_sender s) cx (net w)) by (intros Hne; do 2 eexists; split; [exact Hask | exact Hne]).
  assert (Hop2 : forall n2, sends n1 n2 -> op_rel cfg s w (set_flag FlagNone s) (mkWorld m' n2)).
  { intros n2 Hs2. eapply op_rel_trans; [exact Hop |].
    eapply op_rel_trans; [by apply (op_rel_flag cfg) | by apply (op_rel_net cfg _ (mkWorld m' n1))]. }
  destruct (sender_start_send _ _ _) as [[[]|[]] n2]; simpl in *;
    (split; [by apply Hop2 |]; exists fc; split; [apply Hho; by right |]); [| split; [done | right; by apply Href]].
  exists [SendFrame (update_frame s credit)].
  split; [apply Hem; apply Hem2; [by right | done | apply emits_nil] |].
  destruct Hsp as (U1 & U2 & U3 & U4 & U5 & _). by apply grants_credit; [| | | | | apply Hk |].
Qed.

Lemma handle_ok_shared cfg s w sh :
  handle_ok cfg s w sh -> shared_ok (rtt_get (rtt (mem w))) sh.
Proof. intros (Hm & _ & _ & k & Hl). exact (proj1 (mo_cells _ _ Hm _ _ Hl)). Qed.

(** Writing back a record that only differs in what the invariant allows. *)
Lemma handle_store cfg s w sh sh' :
  handle_ok cfg s w sh -> shared_ok (rtt_get (rtt (mem w))) sh' ->
  fc_config (sh_flow_controller sh') = fc_config (sh_flow_controller sh) ->
  shared_claim sh' = shared_claim sh -> sh_state sh' = sh_state sh ->
  store (st_shared s) sh' (mem w) = Ret (tt, put (st_shared s) sh' (mem w)) /\
  op_rel cfg s w s (set_mem (put (st_shared s) sh' (mem w)) w) /\
  handle_ok cfg s (set_mem (put (st_shared s) sh' (mem w)) w) sh'.
Proof.
  intros (Hm & Hid & Hcf & k & Hl) Hs Hc Hcl Hst.
  assert (Hm' : mem_ok cfg (put (st_shared s) sh' (mem w)))
    by (by eapply (mem_ok_put cfg _ _ (mkCell k sh))).
  split; [by eapply store_eval |]. split.
  - apply op_rel_mem; [done | | done]. by eapply mem_rel_put_same.
  - split; [done |]. split; [done |]. split; [done |]. exists k.
    by apply (cells_put_eq _ _ _ (mkCell k sh)).
Qed.

(** Taking bytes out of the buffer keeps the invariant. *)
Lemma shared_ok_consume r sh cs :
  shared_ok r sh -> chunks_ok cs -> zlen (chunks_rest cs) <= zlen (chunks_rest (sh_buffer sh)) ->
  shared_ok r (set_buffer cs sh).
Proof.
  intros [Hb Hf] Hc Hl. split; [done |]. simpl.
  eapply fc_ok_buffer; [exact Hf |]. pose proof (zlen_nonneg (chunks_rest cs)). lia.
Qed.

(** The end of [poll_read] and [poll_next]: end of stream, or park the reader. *)
Lemma park_reader_ok {A} cfg s w sh cx (eof pending : A) (Q : A -> SW -> Prop) :
  handle_ok cfg s w sh ->
  (can_read (sh_state sh) = false -> Q eof (s, w)) ->
  (can_read (sh_state sh) = true ->
     forall w', op_rel cfg s w s w' -> handle_ok cfg s w' (set_reader (Some cx) sh) -> net w' = net w ->
       Q pending (s, w')) ->
  wp (if negb (can_read (sh_state sh)) then mret eof else
      sh ← on_mem (lock (st_shared s));
      on_mem (store (st_shared s) (set_reader (Some cx) sh)) ≫= fun _ => mret pending) Q (s, w).
Proof.
  intros Hh Heof Hpend. destruct (can_read (sh_state sh)); simpl; [| by apply Heof].
  pose proof Hh as (Hm & _ & _ & k & Hl).
  wp_step. eapply wp_on_mem_read; [by apply lock_eval |]. simpl.
  destruct (handle_store cfg s w sh (set_reader (Some cx) sh) Hh) as (He & Hop & Hh');
    [apply (handle_ok_shared _ _ _ _ Hh) | done.. |].
  wp_step. eapply wp_on_mem; [exact He |]. apply wp_ret. by apply Hpend.
Qed.

(** The unread bytes of the stream of a handle. *)
Definition unread (sh : Shared) : list byte := chunks_rest (sh_buffer sh).

(** What a read does to handle and world, whatever it returns. *)
Definition read_rel (cfg : Config) (s : Stream) (w : World) (sh : Shared) (s' : Stream) (w' : World)
    (sh' : Shared) : Prop :=
  op_rel cfg s w s' w' /\ handle_ok cfg s' w' sh' /\
  sh_state sh' = sh_state sh /\ sh_writer sh' = sh_writer sh.

(** The windows and the channels after a read. *)
Definition granted (cx : Waker) (w : World) (s : Stream) (sh : Shared) (s' : Stream) (w' : World) (sh' : Shared) : Prop :=
  exists cmds, emits (own_sender s) (net w) cmds (net w') /\ grants cx (net w) s sh s' (sh_flow_controller sh') cmds.

(** Reading into a buffer, on every branch. *)
Lemma poll_read_ok cfg s w sh cx buf :
  handle_ok cfg s w sh -> zlen buf <= usize_max ->
  wp (poll_read cx buf) (fun '(r, buf') '(s', w') => exists sh',
    read_rel cfg s w sh s' w' sh' /\
    let k := Z.min (zlen (unread sh)) (zlen buf) in
    match r with
    | Ready (Ok n) =>
        (n = k /\ buf' = take (Z.to_nat k) (unread sh) ++ drop (Z.to_nat k) buf /\
         unread sh' = drop (Z.to_nat k) (unread sh) /\ granted cx w s sh s' w' sh' /\
         (n = 0 -> can_read (sh_state sh) = false)) \/
        (n = 0 /\ buf' = buf /\ sh' = sh /\ s' = s /\ w' = w /\ read_after_close cfg = false /\
         sender_is_closed (st_sender s) (net w) = true)
    | Ready (Err e) => e = WriteZero /\ buf' = buf /\ unread sh' = unread sh /\
        (stopped (net w) s sh s' (sh_flow_controller sh') (net w') \/ refused (st_window_update_sender s) cx (net w))
    | Pending => k = 0 /\ buf' = buf /\ unread sh' = unread sh /\ granted cx w s sh s' w' sh' /\
                 can_read (sh_state sh) = true /\ sh_reader sh' = Some cx
    end) (s, w).
Proof.
  intros Hh Hbuf. pose proof Hh as (Hm & Hid & Hcf & _). unfold poll_read.
  wp_step. apply wp_self. wp_step. apply wp_self. wp_step. apply wp_on_net. simpl.
  rewrite Hcf. destruct w as [m0 n0]. simpl.
  destruct (negb (read_after_close cfg) && sender_is_closed (st_sender s) n0) eqn:Hcl.
  { apply wp_ret. apply andb_true_iff in Hcl as [?%negb_true_iff ?].
    exists sh. split; [| by right].
    split; [by apply op_rel_refl | by split_and!]. }
  clear Hcl. wp_step. eapply wp_mono; [by eapply send_window_update_ok |].
  intros r [s1 w1] (Hop & fc & Hh1 & Hgr).
  set (sh1 := set_flow_controller fc sh) in *. apply (wp_unless_err _ _ _ _ _ _ _ Hgr).
  { intros e -> [-> Hf]. apply wp_ret. exists sh1. split; [by split_and! | by split_and!]. }
  clear Hgr. intros (cmds & Hem & Hgr).
  wp_step. apply wp_self. wp_step. pose proof Hh1 as (_ & _ & _ & k1 & Hl1).
  eapply wp_on_mem_read; [by apply lock_eval |].
  pose proof (handle_ok_shared _ _ _ _ Hh1) as Hs1.
  destruct (read_loop_ok buf (sh_buffer sh1) (proj1 Hs1) Hbuf) as (cs & Hrl & Hcs & Hrest).
  wp_step. apply wp_lift. simpl in Hrl |- *. rewrite Hrl. simpl.
  pose proof (zlen_nonneg (unread sh)). pose proof (zlen_nonneg buf).
  destruct (handle_store cfg s1 w1 sh1 (set_buffer cs sh1) Hh1) as (He & Hop2 & Hh2); [| done.. |].
  { apply shared_ok_consume; [done.. |]. rewrite Hrest, zlen_drop.
    pose proof (zlen_nonneg (chunks_rest (sh_buffer sh1))). lia. }
  wp_step. eapply wp_on_mem; [exact He |].
  pose proof (op_rel_trans _ _ _ _ _ _ _ Hop Hop2) as Hop3. unfold unread in *.
  destruct (Z.ltb_spec 0 (Z.min (zlen (chunks_rest (sh_buffer sh))) (zlen buf))).
  { apply wp_ret. exists (set_buffer cs sh1). split; [by split_and! |].
    left. split_and!; (done || lia || by exists cmds). }
  assert (Hk0 : Z.min (zlen (chunks_rest (sh_buffer sh))) (zlen buf) = 0) by lia.
  simpl in Hrest. rewrite Hk0 in *. simpl in Hrest |- *.
  change (sh_state sh) with (sh_state (set_buffer cs sh1)).
  apply (park_reader_ok cfg); [exact Hh2 | |].
  - intros Hcr. exists (set_buffer cs sh1). split; [by split_and! |]. left. split_and!; done || by exists cmds.
  - intros Hcr w2 Hop4 Hh4 Hn. exists (set_reader (Some cx) (set_buffer cs sh1)).
    split; [split; [by eapply op_rel_trans | by split_and!] |].
    split_and!; try done. exists cmds. by rewrite Hn.
Qed.

(** What [poll_next] gives for the chunk it popped: its unread bytes. *)
Lemma chunk_packet_ok c :
  chunk_ok c ->
  (if negb (chunk_offset c =? 0) then split_off (chunk_offset c) (chunk_into_vec c)
   else Ret (chunk_into_vec c)) = Ret (chunk_rest c).
Proof.
  intros Hc. rewrite chunk_offset_ok by done. destruct Hc as [Hp _]. unfold chunk_rest, split_off.
  destruct (Z.eqb_spec (chunk_position c) 0) as [-> |]; [done |]. simpl.
  unfold chunk_into_vec. destruct (Z.leb_spec (chunk_position c) (zlen (chunk_vec c))); [done | lia].
Qed.

(** Reading a packet, on every branch. *)
Lemma stream_poll_next_ok cfg s w sh cx :
  handle_ok cfg s w sh ->
  wp (stream_poll_next cx) (fun r '(s', w') => exists sh',
    read_rel cfg s w sh s' w' sh' /\
    match r with
    | Ready (Some (Ok packet)) => unread sh = packet ++ unread sh' /\ granted cx w s sh s' w' sh'
    | Ready (Some (Err e)) => e = WriteZero /\ unread sh' = unread sh /\
        (stopped (net w) s sh s' (sh_flow_controller sh') (net w') \/ refused (st_window_update_sender s) cx (net w))
    | Ready None =>
        (unread sh = [] /\ unread sh' = [] /\ can_read (sh_state sh) = false /\ granted cx w s sh s' w' sh') \/
        (sh' = sh /\ s' = s /\ w' = w /\ read_after_close cfg = false /\ sender_is_closed (st_sender s) (net w) = true)
    | Pending => unread sh = [] /\ unread sh' = [] /\ can_read (sh_state sh) = true /\
                 granted cx w s sh s' w' sh' /\ sh_reader sh' = Some cx
    end) (s, w).
Proof.
  intros Hh. pose proof Hh as (Hm & Hid & Hcf & _). unfold stream_poll_next.
  wp_step. apply wp_self. wp_step. apply wp_self. wp_step. apply wp_on_net. simpl.
  rewrite Hcf. destruct w as [m0 n0]. simpl.
  destruct (negb (read_after_close cfg) && sender_is_closed (st_sender s) n0) eqn:Hcl.
  { apply wp_ret. apply andb_true_iff in Hcl as [?%negb_true_iff ?]. exists sh. split; [| by right].
    split; [by apply op_rel_refl | by split_and!]. }
  clear Hcl. wp_step. eapply wp_mono; [by eapply send_window_update_ok |].
  intros r [s1 w1] (Hop & fc & Hh1 & Hgr).
  set (sh1 := set_flow_controller fc sh) in *. apply (wp_unless_err _ _ _ _ _ _ _ Hgr).
  { intros e -> [-> Hf]. apply wp_ret. exists sh1. split; [by split_and! | by split_and!]. }
  clear Hgr. intros (cmds & Hem & Hgr).
  wp_step. apply wp_self. wp_step. pose proof Hh1 as (_ & _ & _ & k1 & Hl1).
  eapply wp_on_mem_read; [by apply lock_eval |].
  pose proof (handle_ok_shared _ _ _ _ Hh1) as Hs1.
  destruct (chunks_pop_ok (sh_buffer sh1) (proj1 Hs1)) as (o & cs & Hpop & Hcs & Ho).
  change (contents (mkCell k1 sh1)) with sh1. wp_step. apply wp_lift. rewrite Hpop. simpl.
  destruct (handle_store cfg s1 w1 sh1 (set_buffer cs sh1) Hh1) as (He & Hop2 & Hh2); [| done.. |].
  { apply shared_ok_consume; [done.. |]. destruct o as [c|]; [destruct Ho as [-> _] | destruct Ho as [_ ->]; done].
    rewrite zlen_app. pose proof (zlen_nonneg (chunk_rest c)). lia. }
  wp_step. eapply wp_on_mem; [exact He |].
  pose proof (op_rel_trans _ _ _ _ _ _ _ Hop Hop2) as Hop3.
  change (sh_buffer sh1) with (sh_buffer sh) in Ho. unfold unread.
  destruct o as [c|].
  { destruct Ho as [Ho Hc]. pose proof (chunk_packet_ok c Hc) as Hp. wp_step.
    eapply (wp_mono _ (fun vec sw => vec = chunk_rest c /\ sw = (s1, set_mem (put _ _ _) w1))).
    { destruct (negb _); [apply wp_lift; by rewrite Hp | injection Hp as <-; by apply wp_ret]. }
    intros vec sw [-> ->]. apply wp_ret. exists (set_buffer cs sh1). split; [by split_and! |]. split; [done | by exists cmds]. }
  destruct Ho as [Ho ->]. change (sh_state sh) with (sh_state (set_buffer (sh_buffer sh) sh1)).
  apply (park_reader_ok cfg); [exact Hh2 | |].
  - intros Hcr. exists (set_buffer (sh_buffer sh) sh1). split; [by split_and! |]. left.
    split_and!; done || by exists cmds.
  - intros Hcr w2 Hop4 Hh4 Hn. exists (set_reader (Some cx) (set_buffer (sh_buffer sh) sh1)).
    split; [split; [by eapply op_rel_trans | by split_and!] |].
    split_and!; try done. exists cmds. by rewrite Hn.
Qed.
End stream_ops.
