(* ===== verification/StreamWrite.v ===== *)
(** * Properties of the writing half of stream handles

    What [poll_write], [poll_flush], [poll_close] and dropping the handle send to the connection,
    how they change the shared record, and that none of them panics. *)
From Stdlib Require Import ZArith Lia Strings.Byte.
From stdpp Require Import base option list gmap numbers.
From S2P Require Import Prelude.
From S2P Require Import Header.
From S2P Require Import Frame.
From S2P Require Import Config.
From S2P Require Import Command.
From S2P Require Import Rtt.
From S2P Require Import ChunkList.
From S2P Require Import FlowControl.
From S2P Require Import Shared.
From S2P Require Import Heap.
From S2P Require Import Channel.
From S2P Require Import StreamHandle.
From S2P Require Import StreamSpec.

Section stream_write.
Context `{Arch, Mpsc}.

(** The bytes [poll_write] takes: no more than the credit, the buffer and the configured
    size of a frame. *)
Definition write_amount (cfg : Config) (sh : Shared) (buf : list byte) : Z :=
  Z.min (Z.min (send_window sh) (zlen buf)) (split_send_size cfg).

Definition data_frame (s : Stream) (body : list byte) : Frame (Either Data WindowUpdate) :=
  flagged (st_flag s) (frame_left WindowUpdate (mkFrame (header_data (st_id s) (zlen body)) body)).

(** The shared record once [k] bytes have been taken: the credit is spent, and the first frame of
    an inbound stream, which carries the ACK, acknowledges the stream. *)
Definition written (s : Stream) (k : Z) (sh : Shared) : Shared :=
  let sh' := set_flow_controller (with_send_window (send_window sh - k) (sh_flow_controller sh)) sh in
  match st_flag s with
  | FlagAck => set_state (state_update (sh_state sh') (Open true)) sh'
  | _ => sh'
  end.

Lemma data_frame_wf s body :
  0 <= st_id s <= u32_max -> zlen body <= u32_max -> frame_wf (data_frame s body).
Proof.
  intros Hid Hb. apply flagged_wf. pose proof (zlen_nonneg body).
  unfold frame_wf, header_typed, u8_max, u16_max. simpl. intuition lia.
Qed.

Lemma data_frame_ack s body :
  flags_contains (flags (header (data_frame s body))) ACK = bool_decide (st_flag s = FlagAck).
Proof. unfold data_frame, flagged. simpl. by destruct (st_flag s). Qed.

Lemma put_self l c m : cells m !! l = Some c -> put l (contents c) m = m.
Proof.
  intros Hl. destruct m. unfold put, set_cells. simpl in *. f_equal. apply map_eq. intros l'.
  rewrite lookup_alter. case_decide; [subst; rewrite Hl; by destruct c | done].
Qed.

(** Spending credit, and the acknowledgement, in one step. *)
Lemma handle_written cfg s w sh k :
  handle_ok cfg s w sh -> 0 <= k <= send_window sh ->
  shared_consume_send_window k sh
    = Ok (set_flow_controller (with_send_window (send_window sh - k) (sh_flow_controller sh)) sh) /\
  op_rel cfg s w (set_flag FlagNone s) (set_mem (put (st_shared s) (written s k sh) (mem w)) w) /\
  handle_ok cfg (set_flag FlagNone s)
    (set_mem (put (st_shared s) (written s k sh) (mem w)) w) (written s k sh).
Proof.
  intros (Hm & Hid & Hcf & n & Hl) Hk. set (fc := sh_flow_controller sh) in *.
  assert (Hc : consume_send_window k fc = Ok (with_send_window (send_window sh - k) fc)).
  { unfold consume_send_window, checked_sub. fold fc. unfold send_window in *. fold fc in Hk |- *.
    destruct (Z.leb_spec k (fc_send_window fc)); [done | lia]. }
  split. { unfold shared_consume_send_window, on_flow_controller. fold fc. by rewrite Hc. }
  destruct (mo_cells _ _ Hm _ _ Hl) as ([Hb Hf] & _). simpl in Hb, Hf. fold fc in Hf.
  destruct (consume_send_window_ok _ _ _ _ _ Hf (proj1 Hk) Hc) as (Hf' & Hcl & Hcfg & _).
  assert (Hfl : sh_flow_controller (written s k sh) = with_send_window (send_window sh - k) fc)
    by (unfold written; by destruct (st_flag s)).
  assert (Hbu : sh_buffer (written s k sh) = sh_buffer sh)
    by (unfold written; by destruct (st_flag s)).
  assert (Hm' : mem_ok cfg (put (st_shared s) (written s k sh) (mem w))).
  { apply (mem_ok_put cfg _ _ (mkCell n sh)); try done; unfold shared_ok, cell_claim, shared_claim;
      simpl; rewrite Hfl, ?Hbu; done. }
  split.
  - split; [by right | done | | done | done].
    destruct (decide (st_flag s = FlagAck)) as [Ha | Hna].
    + apply (mem_rel_update_state _ _ _ _ (Open true) Hl); [| done].
      unfold written. by rewrite Ha.
    + apply (mem_rel_put_same _ _ _ _ Hl). unfold written. by destruct (st_flag s).
  - split; [done |]. split; [done |]. split; [done |]. exists n.
    by apply (cells_put_eq _ _ _ (mkCell n sh)).
Qed.

(** Writing, on every branch. *)
Lemma poll_write_ok cfg s w sh cx buf :
  handle_ok cfg s w sh -> 0 <= split_send_size cfg ->
  wp (poll_write cx buf) (fun r '(s', w') =>
    let '(ready, n1) := sender_poll_ready (st_sender s) cx (net w) in
    match ready with
    | Pending => r = Pending /\ s' = s /\ w' = set_net n1 w
    | Ready (Err _) => r = Ready (Err WriteZero) /\ s' = s /\ w' = set_net n1 w
    | Ready (Ok _) =>
        if negb (can_write (sh_state sh)) then
          r = Ready (Err WriteZero) /\ s' = s /\ w' = set_net n1 w
        else if send_window sh =? 0 then
          r = Pending /\ s' = s /\
          w' = mkWorld (put (st_shared s) (set_writer (Some cx) sh) (mem w)) n1 /\
          op_rel cfg s w s' w'
        else
          let k := write_amount cfg sh buf in
          let f := data_frame s (take (Z.to_nat k) buf) in
          let '(sent, n2) := sender_start_send (st_sender s) (SendFrame f) n1 in
          r = Ready (match sent with Ok _ => Ok k | Err _ => Err WriteZero end) /\
          s' = set_flag FlagNone s /\
          w' = mkWorld (put (st_shared s) (written s k sh) (mem w)) n2 /\
          frame_wf f /\ 0 <= k <= zlen buf /\ op_rel cfg s w s' w'
    end) (s, w).
Proof.
  intros Hh Hsp. pose proof Hh as (Hm & Hid & Hcf & c & Hl). unfold poll_write.
  wp_step. apply wp_self. wp_step. apply wp_on_net. simpl. pose proof (sends_ask (st_sender s) cx (net w)) as Hn1.
  destruct (sender_poll_ready _ _ _) as [[[[]|[]]|] n1]; simpl; [| by apply wp_ret..].
  wp_step. apply wp_self. wp_step. eapply wp_on_mem_read; [by apply lock_eval |]. simpl.
  destruct (can_write (sh_state sh)); simpl; [| by apply wp_ret].
  destruct (Z.eqb_spec (send_window sh) 0) as [Hz | Hz].
  { destruct (handle_store cfg s (set_net n1 w) sh (set_writer (Some cx) sh) Hh) as (He & Hop & _);
      [exact (handle_ok_shared _ _ _ _ Hh) | done.. |].
    wp_step. eapply wp_on_mem; [exact He |]. apply wp_ret. split_and!; try done.
    by eapply op_rel_mem_eq. }
  wp_step. apply wp_self. wp_step. apply wp_lift. rewrite Hcf. fold (write_amount cfg sh buf).
  set (k := write_amount cfg sh buf). pose proof (zlen_nonneg buf).
  destruct (handle_ok_shared _ _ _ _ Hh) as [_ (_ & _ & _ & _ & Hsw & _)].
  fold (send_window sh) in Hsw. assert (Hk : 0 <= k <= send_window sh) by (unfold k, write_amount; lia).
  assert (Hkb : k <= zlen buf) by (unfold k, write_amount; lia).
  destruct (handle_written cfg s w sh k Hh Hk) as (Hc & Hop & _).
  rewrite as_u32_small, Hc by lia. simpl.
  wp_step. eapply wp_on_mem; [by eapply store_eval |].
  wp_step. apply wp_self. wp_step. apply wp_lift.
  assert (Hlen : zlen (take (Z.to_nat k) buf) = k) by zlen_lia.
  rewrite frame_data_some by lia. simpl. wp_step. unfold wp at 1. rewrite add_flag_eval by done.
  fold (data_frame s (take (Z.to_nat k) buf)).
  rewrite data_frame_ack. wp_step.
  eapply (wp_mono _ (fun _ sw => sw = (set_flag FlagNone s,
            mkWorld (put (st_shared s) (written s k sh) (mem w)) n1))).
  { unfold written. case_bool_decide as Ha.
    - rewrite Ha. wp_step. eapply wp_on_mem.
      { eapply lock_update_state_eval. by apply (cells_put_eq _ _ _ (mkCell c sh)). }
      apply wp_ret. simpl. by rewrite put_put.
    - apply wp_ret. by destruct (st_flag s). }
  intros [] [s2 w2] [= -> ->]. wp_step. apply wp_on_net. simpl.
  assert (Hw : frame_wf (data_frame s (take (Z.to_nat k) buf))) by (apply data_frame_wf; lia).
  pose proof (sends_one (st_sender s) (SendFrame (data_frame s (take (Z.to_nat k) buf))) n1 Hw) as Hn2.
  destruct (sender_start_send _ _ _) as [[[]|[]] n2]; apply wp_ret; rewrite ?Hlen; split_and!;
    try (done || lia); (eapply op_rel_mem_eq; [exact Hop | done | done | by etrans]).
Qed.

(** [poll_flush] is the flush of the channel; it touches no memory. *)
Lemma stream_poll_flush_eval s w cx :
  stream_poll_flush cx (s, w) =
  let '(r, n) := sender_poll_flush (st_sender s) cx (net w) in
  Ret (match r with
       | Pending => Pending
       | Ready (Err _) => Ready (Err WriteZero)
       | Ready (Ok _) => Ready (Ok tt)
       end, (s, set_net n w)).
Proof.
  unfold stream_poll_flush, mbind, M_bind, self, gets, on_net. simpl.
  by destruct (sender_poll_flush _ _ _) as [[[|]|] n].
Qed.

(** Closing, on every branch. *)
Lemma stream_poll_close_ok cfg s w sh cx :
  handle_ok cfg s w sh ->
  wp (stream_poll_close cx) (fun r '(s', w') =>
    if decide (sh_state sh = Closed) then r = Ready (Ok tt) /\ s' = s /\ w' = w else
    let '(ready, n1) := sender_poll_ready (st_sender s) cx (net w) in
    match ready with
    | Pending => r = Pending /\ s' = s /\ w' = set_net n1 w
    | Ready (Err _) => r = Ready (Err WriteZero) /\ s' = s /\ w' = set_net n1 w
    | Ready (Ok _) =>
        let '(sent, n2) := sender_start_send (st_sender s)
                             (CloseStream (bool_decide (st_flag s = FlagAck))) n1 in
        s' = set_flag (if decide (st_flag s = FlagAck) then FlagNone else st_flag s) s /\
        op_rel cfg s w s' w' /\
        match sent with
        | Err _ => r = Ready (Err WriteZero) /\ w' = set_net n2 w
        | Ok _ => r = Ready (Ok tt) /\
            handle_ok cfg s' w' (set_state (state_update (sh_state sh) SendClosed) sh) /\
            net w' = n2
        end
    end) (s, w).
Proof.
  intros Hh. pose proof Hh as (Hm & Hid & Hcf & c & Hl). unfold stream_poll_close, stream_is_closed.
  wp_step. wp_step. apply wp_self. wp_step. eapply wp_on_mem_read; [by apply lock_eval |].
  apply wp_ret. simpl.
  destruct (decide (sh_state sh = Closed)) as [Hcl | Hcl].
  { rewrite bool_decide_eq_true_2 by done. by apply wp_ret. }
  rewrite bool_decide_eq_false_2 by done.
  wp_step. apply wp_self. wp_step. apply wp_on_net. pose proof (sends_ask (st_sender s) cx (net w)) as Hn1.
  destruct (sender_poll_ready _ _ _) as [[[[]|[]]|] n1]; simpl; [| by apply wp_ret..].
  wp_step. apply wp_self. wp_step.
  set (s1 := set_flag (if decide (st_flag s = FlagAck) then FlagNone else st_flag s) s).
  assert (Hs1 : s1 = s \/ s1 = set_flag FlagNone s).
  { unfold s1. case_decide; [by right | left; by destruct s]. }
  assert (Hsame : st_sender s1 = st_sender s /\ st_shared s1 = st_shared s)
    by (by destruct Hs1 as [-> | ->]).
  assert (Hok1 : handle_ok cfg s1 w sh).
  { split; [done |]. destruct Hs1 as [-> | ->]; (split; [done |]); (split; [done | by exists c]). }
  assert (Hop1 : op_rel cfg s w s1 w) by (split; [done | done | by apply mem_rel_refl | done | done]).
  eapply (wp_mono _ (fun a sw => a = bool_decide (st_flag s = FlagAck) /\ sw = (s1, set_net n1 w))).
  { unfold s1. case_bool_decide as Ha; [rewrite decide_True by done | rewrite decide_False by done].
    - by apply wp_ret.
    - apply wp_ret. split; [done |]. by destruct s. }
  intros a [s2 w2] (-> & [= -> ->]). wp_step. apply wp_on_net. simpl.
  pose proof (sends_one (st_sender s) (CloseStream (bool_decide (st_flag s = FlagAck))) n1 I) as Hn2.
  assert (Hn : forall n, sends n1 n -> sends (net w) n) by (intros n Hs; by etrans).
  destruct (sender_start_send _ _ _) as [[[]|[]] n2]; simpl.
  2: { apply wp_ret. split_and!; try done. eapply op_rel_mem_eq; [exact Hop1 | done | done | by apply Hn]. }
  wp_step. apply wp_self. wp_step. destruct Hsame as [_ Hsh]. rewrite Hsh.
  set (sh' := set_state (state_update (sh_state sh) SendClosed) sh).
  assert (Hm' : mem_ok cfg (put (st_shared s) sh' (mem w))) by (by eapply mem_ok_put_meta).
  eapply wp_on_mem; [by eapply lock_update_state_eval |]. apply wp_ret. simpl. split_and!; try done.
  - eapply op_rel_trans; [exact Hop1 |]. split; [by left | done | | done | by apply Hn]. simpl.
    by apply (mem_rel_update_state _ _ _ _ SendClosed Hl).
  - destruct Hok1 as (_ & Hid1 & Hcf1 & _). split_and!; try (done || apply Hid1). exists c.
    rewrite Hsh. by apply (cells_put_eq _ _ _ (mkCell c sh)).
Qed.

(** Dropping a handle gives up its two senders and one reference, and nothing else. *)
Lemma stream_drop_ok cfg R s w :
  mem_ok cfg (mem w) -> refs_ok (add_ref (st_shared s) R) (mem w) ->
  exists m', stream_drop s w
    = Ret (tt, mkWorld m' (sender_drop (st_window_update_sender s) (sender_drop (st_sender s) (net w)))) /\
    mem_ok cfg m' /\ refs_ok R m' /\ mem_drop (st_shared s) (mem w) m'.
Proof.
  intros Hm Hr. destruct (arc_drop_ok cfg R (mem w) (st_shared s) Hm Hr) as (m' & He & Hm' & Hr' & Hd).
  exists m'. unfold stream_drop. by rewrite He.
Qed.
End stream_write.
