(* ===== verification/Link.v ===== *)
(** * One stream between two ends: the contract of flow control

    An abstract machine for a single stream and its two ends. It keeps of each end the shared record
    and what the program has written and read, and of the connection between them the frames that
    are under way, in order. Its steps are what the operations of handles and connections do to
    these; that they do nothing else is proved in [LinkRefine]. The machine covers the life of the
    stream, resets and dropped handles included, as long as both connections are active. *)
From Stdlib Require Import ZArith Lia Strings.Byte.
From stdpp Require Import base option list relations numbers.
From S2P Require Import Prelude.
From S2P Require Import Header.
From S2P Require Import Frame.
From S2P Require Import Config.
From S2P Require Import Command.
From S2P Require Import ChunkList.
From S2P Require Import FlowControl.
From S2P Require Import Shared.
From S2P Require Import Channel.
From S2P Require Import StreamHandle.
From S2P Require Import StreamSpec.

(** ** Messages *)

(** The frames the operations of a handle ask for. *)
Definition data_msg (id : Z) (fl : Flag) (b : list byte) : Frame unit :=
  frame_erase (flagged fl (frame_left WindowUpdate (mkFrame (header_data id (zlen b)) b))).
Definition credit_msg (id : Z) (fl : Flag) (k : Z) : Frame unit :=
  frame_erase (flagged fl (frame_right Data (frame_window_update id k))).
Definition close_msg (id : Z) (ack : bool) : Frame unit := frame_erase (frame_close_stream id ack).

(** What a frame carries. *)
Definition msg_data (f : Frame unit) : list byte := if decide (tag (header f) = TagData) then body f else [].
Definition msg_credit (f : Frame unit) : Z := if decide (tag (header f) = TagWindowUpdate) then len (header f) else 0.
Definition has_flag (b : Z) (f : Frame unit) : bool := flags_contains (flags (header f)) b.

(** The last frame of a writer: a FIN or a reset. *)
Definition ends (f : Frame unit) : bool := has_flag FIN f || has_flag RST f.

(** The frame owed for a stream that was dropped in the state [s]. *)
Definition drop_frame (id : Z) (s : State) : option (Frame unit) :=
  match s with
  | Open _ => Some (frame_erase (frame_new (header_rst (header_data id 0))))
  | RecvClosed => Some (frame_erase (frame_new (header_fin (header_data id 0))))
  | SendClosed | Closed => None
  end.

(** The bytes and the credit under way. *)
Definition data_under_way (fs : list (Frame unit)) : list byte := concat (map msg_data fs).
Definition credit_under_way (fs : list (Frame unit)) : Z := foldr (fun f n => msg_credit f + n) 0 fs.

Lemma data_under_way_app fs gs : data_under_way (fs ++ gs) = data_under_way fs ++ data_under_way gs.
Proof. unfold data_under_way. by rewrite map_app, concat_app. Qed.

Lemma credit_under_way_app fs gs : credit_under_way (fs ++ gs) = credit_under_way fs + credit_under_way gs.
Proof. unfold credit_under_way. induction fs as [|f fs IH]; simpl; [lia |]. rewrite IH. lia. Qed.

(** ** The two ends *)

(** Whether the connection knows the stream: not before the first SYN, no longer when both halves are
    closed or the remote has reset it, and no longer when the handle has been dropped here. *)
Inductive status : Set := Unborn | Known | Gone | Dropped.

Definition forgotten (s : status) : bool := match s with Gone | Dropped => true | _ => false end.

#[export] Instance status_eq_dec : EqDecision status.
Proof. solve_decision. Defined.

Record End : Set := mkEnd {
  en_sh : Shared;
  en_status : status;
  en_flag : Flag;
  en_wrote : list byte;
  en_took : list byte;
}.

Definition recv_window (sh : Shared) : Z := fc_receive_window (sh_flow_controller sh).
Definition max_window (sh : Shared) : Z := fc_max_receive_window (sh_flow_controller sh).

(** What the reader of the one direction and the writer of the other see of a record. *)
Definition same_windows (sh sh' : Shared) : Prop :=
  send_window sh' = send_window sh /\ recv_window sh' = recv_window sh /\ max_window sh' = max_window sh.

(** An acknowledgement may be noted, which closes nothing. *)
Definition same_halves (sh sh' : Shared) : Prop :=
  sh_state sh' = sh_state sh \/ sh_state sh' = state_update (sh_state sh) (Open true).

(** What the program at one end can do through its handle, and the frame it sends by that. *)
Inductive acts (id : Z) (x : End) : option (Frame unit) -> End -> Prop :=
| act_write b sh' :
    can_write (sh_state (en_sh x)) = true -> zlen b <= send_window (en_sh x) ->
    send_window sh' = send_window (en_sh x) - zlen b ->
    recv_window sh' = recv_window (en_sh x) -> max_window sh' = max_window (en_sh x) ->
    unread sh' = unread (en_sh x) -> same_halves (en_sh x) sh' ->
    acts id x (Some (data_msg id (en_flag x) b)) (mkEnd sh' (en_status x) FlagNone (en_wrote x ++ b) (en_took x))
| act_close sh' :
    same_windows (en_sh x) sh' -> unread sh' = unread (en_sh x) ->
    sh_state (en_sh x) <> Closed -> sh_state sh' = state_update (sh_state (en_sh x)) SendClosed ->
    acts id x (Some (close_msg id (bool_decide (en_flag x = FlagAck))))
      (mkEnd sh' (en_status x) (if decide (en_flag x = FlagAck) then FlagNone else en_flag x) (en_wrote x) (en_took x))
| act_grant k sh' :
    can_read (sh_state (en_sh x)) = true ->
    max_window (en_sh x) / 2 <= max_window (en_sh x) - recv_window (en_sh x) - zlen (unread (en_sh x)) ->
    send_window sh' = send_window (en_sh x) -> unread sh' = unread (en_sh x) ->
    max_window (en_sh x) <= max_window sh' <= u32_max ->
    0 <= k -> recv_window sh' = recv_window (en_sh x) + k ->
    recv_window sh' + zlen (unread sh') = max_window sh' -> same_halves (en_sh x) sh' ->
    acts id x (Some (credit_msg id (en_flag x) k)) (mkEnd sh' (en_status x) FlagNone (en_wrote x) (en_took x))
| act_read b sh' :
    same_windows (en_sh x) sh' -> unread (en_sh x) = b ++ unread sh' -> same_halves (en_sh x) sh' ->
    acts id x None (mkEnd sh' (en_status x) (en_flag x) (en_wrote x) (en_took x ++ b)).

(** What the connection does when it finds the handle dropped, and the frame it owes. *)
Inductive drops (id : Z) (x : End) : option (Frame unit) -> End -> Prop :=
| drops_known sh' :
    en_status x = Known -> same_windows (en_sh x) sh' -> unread sh' = unread (en_sh x) -> sh_state sh' = Closed ->
    drops id x (drop_frame id (sh_state (en_sh x))) (mkEnd sh' Dropped (en_flag x) (en_wrote x) (en_took x)).

(** What a frame of the peer, not a reset, does to the record of a stream that is known. *)
Definition hears (f : Frame unit) (sh sh' : Shared) : Prop :=
  let st := if has_flag ACK f then state_update (sh_state sh) (Open true) else sh_state sh in
  sh_state sh' = (if has_flag FIN f then state_update st RecvClosed else st) /\
  max_window sh' = max_window sh /\
  send_window sh' = send_window sh + msg_credit f /\
  recv_window sh' = recv_window sh - zlen (msg_data f) /\
  unread sh' = unread sh ++ msg_data f.

(** What makes the connection answer a frame with a protocol error: a SYN for a stream that exists
    already, more data than the window, or more credit than 32 bits hold. (A SYN for a stream that is
    gone would open another stream.) *)
Definition violates (f : Frame unit) (x : End) : Prop :=
  (en_status x <> Unborn /\ has_flag SYN f = true) \/
  recv_window (en_sh x) < zlen (msg_data f) \/ u32_max < send_window (en_sh x) + msg_credit f.

(** A frame without SYN is ignored before the stream is known, and every frame afterwards. *)
Definition dropped (f : Frame unit) (x : End) : bool :=
  match en_status x with
  | Unborn => negb (has_flag SYN f) || has_flag RST f
  | Known => false
  | Gone | Dropped => true
  end.

Inductive hear (f : Frame unit) (x : End) : End -> Prop :=
| hear_dropped : dropped f x = true -> hear f x x
| hear_known sh' :
    dropped f x = false -> has_flag RST f = false -> ~ violates f x -> hears f (en_sh x) sh' ->
    hear f x (mkEnd sh' (if has_flag FIN f && bool_decide (sh_state sh' = Closed) then Gone else Known)
                (en_flag x) (en_wrote x) (en_took x))
| hear_reset sh' :
    dropped f x = false -> has_flag RST f = true -> same_windows (en_sh x) sh' ->
    unread sh' = unread (en_sh x) -> sh_state sh' = Closed ->
    hear f x (mkEnd sh' Gone (en_flag x) (en_wrote x) (en_took x)).

(** ** The machine *)

(** [lk_out] is under way from the end [lk_here] to the end [lk_there], [lk_in] the other way. *)
Record Link : Set := mkLink {
  lk_here : End;
  lk_there : End;
  lk_out : list (Frame unit);
  lk_in : list (Frame unit);
}.

(** The link seen from the other end. *)
Definition turned (k : Link) : Link := mkLink (lk_there k) (lk_here k) (lk_in k) (lk_out k).

Inductive half_step (id : Z) : Link -> Link -> Prop :=
| step_acts x o x' y out inn :
    en_status x <> Unborn -> acts id x o x' ->
    half_step id (mkLink x y out inn) (mkLink x' y (out ++ option_list o) inn)
| step_drops x o x' y out inn :
    drops id x o x' ->
    half_step id (mkLink x y out inn) (mkLink x' y (out ++ option_list o) inn)
| step_hear f x y y' out inn :
    hear f y y' -> half_step id (mkLink x y (f :: out) inn) (mkLink x y' out inn).

Inductive link_step (id : Z) (k k' : Link) : Prop :=
| step_here : half_step id k k' -> link_step id k k'
| step_there : half_step id (turned k) (turned k') -> link_step id k k'.

(** A stream that has been opened here, and that the other end is to learn of: both records are new,
    with the default windows. *)
Definition fresh (sh : Shared) : Prop :=
  sh_state sh = Open false /\ unread sh = [] /\ send_window sh = DEFAULT_CREDIT /\
  recv_window sh = DEFAULT_CREDIT /\ max_window sh = DEFAULT_CREDIT.

Definition link_new (k : Link) : Prop :=
  exists sh sh', fresh sh /\ fresh sh' /\
    k = mkLink (mkEnd sh Known FlagSyn [] []) (mkEnd sh' Unborn FlagAck [] []) [] [].

(** ** The messages *)

Lemma data_msg_facts id fl b :
  msg_data (data_msg id fl b) = b /\ msg_credit (data_msg id fl b) = 0 /\
  ends (data_msg id fl b) = false /\ has_flag RST (data_msg id fl b) = false /\
  has_flag SYN (data_msg id fl b) = bool_decide (fl = FlagSyn).
Proof. by destruct fl. Qed.

Lemma credit_msg_facts id fl k :
  msg_data (credit_msg id fl k) = [] /\ msg_credit (credit_msg id fl k) = k /\
  ends (credit_msg id fl k) = false /\ has_flag RST (credit_msg id fl k) = false /\
  has_flag SYN (credit_msg id fl k) = bool_decide (fl = FlagSyn).
Proof. by destruct fl. Qed.

Lemma close_msg_facts id ack :
  msg_data (close_msg id ack) = [] /\ msg_credit (close_msg id ack) = 0 /\
  ends (close_msg id ack) = true /\ has_flag RST (close_msg id ack) = false /\ has_flag SYN (close_msg id ack) = false.
Proof. by destruct ack. Qed.

(** A stream that could still be written to is ended for the remote, by a frame that carries nothing. *)
Lemma drop_frame_facts id st :
  Forall (fun f => msg_data f = [] /\ msg_credit f = 0 /\ ends f = true /\ has_flag SYN f = false)
    (option_list (drop_frame id st)).
Proof. destruct st; simpl; first [apply Forall_nil_2 | by apply Forall_singleton]. Qed.

Lemma same_halves_reads sh sh' :
  same_halves sh sh' ->
  can_read (sh_state sh') = can_read (sh_state sh) /\ can_write (sh_state sh') = can_write (sh_state sh).
Proof.
  intros [-> | ->]; [done |]. pose proof (state_update_spec (sh_state sh) (Open true)) as [-> ->].
  by rewrite !andb_true_r.
Qed.

(** A FIN takes the right to read, and leaves the right to write. *)
Lemma hears_halves f sh sh' :
  hears f sh sh' ->
  can_read (sh_state sh') = can_read (sh_state sh) && negb (has_flag FIN f) /\
  can_write (sh_state sh') = can_write (sh_state sh).
Proof.
  intros (-> & _). set (st := if has_flag ACK f then _ else _).
  assert (Hst : can_read st = can_read (sh_state sh) /\ can_write st = can_write (sh_state sh)).
  { unfold st. destruct (has_flag ACK f); [| done]. by apply (same_halves_reads sh (set_state _ sh)); right. }
  destruct Hst as [Hr Hw]. destruct (has_flag FIN f); simpl.
  - pose proof (state_update_spec st RecvClosed) as [-> ->]. rewrite Hr, Hw. simpl. by rewrite andb_true_r.
  - by rewrite andb_true_r.
Qed.

Lemma closed_halves st : can_read st = false -> can_write st = false -> st = Closed.
Proof. by destruct st. Qed.

(** ** The invariant *)

(** Nothing but what the windows allow. *)
Definition window_ok (sh : Shared) : Prop :=
  0 <= send_window sh /\ 0 <= recv_window sh /\
  recv_window sh + zlen (unread sh) <= max_window sh <= u32_max /\ DEFAULT_CREDIT <= max_window sh.

(** No data follows the end. *)
Fixpoint fin_last (fs : list (Frame unit)) : Prop :=
  match fs with
  | [] => True
  | f :: fs => (ends f = true -> data_under_way fs = []) /\ fin_last fs
  end.

Definition none_has (b : Z) (fs : list (Frame unit)) : Prop := Forall (fun f => has_flag b f = false) fs.
Definition none_ends (fs : list (Frame unit)) : Prop := Forall (fun f => ends f = false) fs.

(** Credit is not negative, and a reset carries nothing. *)
Definition plain (f : Frame unit) : Prop :=
  0 <= msg_credit f /\ (has_flag RST f = true -> msg_data f = [] /\ msg_credit f = 0).

(** One direction, from the writer [x] to the reader [y]: what the writer may still send, the data
    and the credit under way are what the reader has room for; all that was written has been read,
    can be read or is under way, in this order, unless the reader has dropped its handle; and nothing
    follows the end. *)
Record dir_ok (x y : End) (out inn : list (Frame unit)) : Prop := {
  do_window : window_ok (en_sh x);
  do_bound : send_window (en_sh x) + zlen (data_under_way out) + credit_under_way inn <= recv_window (en_sh y);
  do_exact : can_write (sh_state (en_sh x)) = true -> en_status y <> Dropped ->
    send_window (en_sh x) + zlen (data_under_way out) + credit_under_way inn = recv_window (en_sh y);
  do_prefix : en_took y ++ unread (en_sh y) `prefix_of` en_wrote x;
  do_bytes : en_status y <> Dropped -> en_wrote x = en_took y ++ unread (en_sh y) ++ data_under_way out;
  do_open : can_write (sh_state (en_sh x)) = true ->
    none_ends out /\ (en_status y <> Dropped -> can_read (sh_state (en_sh y)) = true);
  do_last : fin_last out;
  do_eof : en_status y <> Dropped -> can_read (sh_state (en_sh y)) = false -> data_under_way out = [];
  do_gone : forgotten (en_status x) = true -> sh_state (en_sh x) = Closed;
  do_frames : Forall plain out;
}.

Lemma credit_under_way_nonneg fs : Forall plain fs -> 0 <= credit_under_way fs.
Proof. induction 1 as [| f fs [Hf _]]; simpl; lia. Qed.

Lemma fin_last_snoc fs f :
  fin_last fs -> msg_data f = [] \/ none_ends fs -> fin_last (fs ++ [f]).
Proof.
  intros Hl Hf. induction fs as [|g fs IH]; simpl in *; [done |]. destruct Hl as [Hg Hl]. split.
  - intros Hfin. rewrite data_under_way_app, Hg by done. unfold data_under_way. simpl. rewrite app_nil_r.
    destruct Hf as [-> | Hn]; [done |]. inversion Hn as [|? ? Hgf _]; subst. by rewrite Hgf in Hfin.
  - apply IH; [done |]. destruct Hf as [Hf | Hf]; [by left | right; by inversion Hf].
Qed.

Lemma data_under_way_one f : data_under_way [f] = msg_data f.
Proof. unfold data_under_way. simpl. by rewrite app_nil_r. Qed.

Lemma plain_one f : 0 <= msg_credit f -> has_flag RST f = false -> Forall plain [f].
Proof. intros Hc Hr. apply Forall_singleton. split; [done |]. by rewrite Hr. Qed.

(** The writer does something. *)
Lemma acts_writer id x o x' y out inn :
  acts id x o x' -> dir_ok x y out inn -> dir_ok x' y (out ++ option_list o) inn.
Proof.
  intros Ha [Hw Hb He Hp Hby Ho Hl Hf Hg Hc].
  assert (Hgone : forall sh', can_write (sh_state (en_sh x)) = true \/
    can_read (sh_state (en_sh x)) = true \/ sh_state (en_sh x) <> Closed -> forgotten (en_status x) = true ->
    sh_state sh' = Closed).
  { intros sh' H1 H2. rewrite (Hg H2) in H1. by destruct H1 as [|[|]]. }
  destruct Hw as (W1 & W2 & W3 & W4).
  destruct Ha as [b sh' Hcw Hbl Hs Hr Hm Hu Hst | sh' (Hs & Hr & Hm) Hu Hnc Hst
                 | k sh' Hcr Huse Hs Hu Hm Hk Hr Hfull Hst | b sh' (Hs & Hr & Hm) Hu Hst]; simpl option_list.
  - destruct (data_msg_facts id (en_flag x) b) as (D1 & D2 & D3 & D4 & _).
    destruct (same_halves_reads _ _ Hst) as [_ Hw']. destruct (Ho Hcw) as [Hn Hr'].
    split; simpl; rewrite ?data_under_way_app, ?data_under_way_one, ?D1, ?zlen_app, ?Hs, ?Hw'.
    + unfold window_ok. rewrite Hs, Hr, Hm, Hu. split_and!; lia.
    + lia.
    + intros _ Hy. specialize (He Hcw Hy). lia.
    + by apply prefix_app_r.
    + intros Hy. by rewrite (Hby Hy), <- !app_assoc.
    + intros _. split; [| done]. apply Forall_app. split; [done |]. by apply Forall_singleton.
    + apply fin_last_snoc; auto.
    + intros Hy. by rewrite (Hr' Hy).
    + apply Hgone. auto.
    + apply Forall_app. split; [done |]. apply plain_one; [lia | done].
  - destruct (close_msg_facts id (bool_decide (en_flag x = FlagAck))) as (D1 & D2 & D3 & D4 & _).
    assert (Hw' : can_write (sh_state sh') = false).
    { rewrite Hst. pose proof (state_update_spec (sh_state (en_sh x)) SendClosed) as [_ ->]. by rewrite andb_false_r. }
    split; simpl; rewrite ?data_under_way_app, ?data_under_way_one, ?D1, ?app_nil_r, ?Hs, ?Hw'; try done.
    + unfold window_ok. rewrite Hs, Hr, Hm, Hu. split_and!; lia.
    + apply fin_last_snoc; auto.
    + apply Hgone. auto.
    + apply Forall_app. split; [done |]. apply plain_one; [lia | done].
  - destruct (credit_msg_facts id (en_flag x) k) as (D1 & D2 & D3 & D4 & _).
    destruct (same_halves_reads _ _ Hst) as [_ Hw'].
    split; simpl; rewrite ?data_under_way_app, ?data_under_way_one, ?D1, ?app_nil_r, ?Hs, ?Hw'; try done.
    + unfold window_ok. rewrite Hs, Hr, Hu. rewrite Hr, Hu in Hfull. pose proof (zlen_nonneg (unread (en_sh x))).
      split_and!; lia.
    + intros Hcw. destruct (Ho Hcw). split; [| done]. apply Forall_app. split; [done |]. by apply Forall_singleton.
    + apply fin_last_snoc; auto.
    + apply Hgone. auto.
    + apply Forall_app. split; [done |]. apply plain_one; [lia | done].
  - destruct (same_halves_reads _ _ Hst) as [_ Hw'].
    split; simpl; rewrite ?app_nil_r, ?Hs, ?Hw'; try done.
    + unfold window_ok. rewrite Hs, Hr, Hm. rewrite Hu, zlen_app in W3. pose proof (zlen_nonneg b).
      pose proof (zlen_nonneg (unread sh')). split_and!; lia.
    + intros Hgo. specialize (Hg Hgo). destruct Hst as [-> | ->]; rewrite Hg; done.
Qed.

(** The reader does something. *)
Lemma acts_reader id x y o y' out inn :
  acts id y o y' -> dir_ok x y out inn -> dir_ok x y' out (inn ++ option_list o).
Proof.
  intros Ha [Hw Hb He Hp Hby Ho Hl Hf Hg Hc].
  destruct Ha as [b sh' Hcw Hbl Hs Hr Hm Hu Hst | sh' (Hs & Hr & Hm) Hu Hnc Hst
                 | k sh' Hcr Huse Hs Hu Hm Hk Hr Hfull Hst | b sh' (Hs & Hr & Hm) Hu Hst];
    simpl option_list; try destruct (same_halves_reads _ _ Hst) as [Hr' _].
  - destruct (data_msg_facts id (en_flag y) b) as (_ & D2 & _).
    split; simpl; rewrite ?credit_under_way_app, ?Hr, ?Hu, ?Hr'; simpl; rewrite ?D2, ?Z.add_0_r; done.
  - destruct (close_msg_facts id (bool_decide (en_flag y = FlagAck))) as (_ & D2 & _).
    assert (Hr' : can_read (sh_state sh') = can_read (sh_state (en_sh y))).
    { rewrite Hst. pose proof (state_update_spec (sh_state (en_sh y)) SendClosed) as [-> _]. by rewrite andb_true_r. }
    split; simpl; rewrite ?credit_under_way_app, ?Hr, ?Hu, ?Hr'; simpl; rewrite ?D2, ?Z.add_0_r; done.
  - destruct (credit_msg_facts id (en_flag y) k) as (_ & D2 & _).
    split; simpl; rewrite ?credit_under_way_app, ?Hr, ?Hu, ?Hr'; simpl; rewrite ?D2, ?Z.add_0_r; try done.
    + lia.
    + intros Hcw Hy. specialize (He Hcw Hy). lia.
  - assert (Ht : (en_took y ++ b) ++ unread sh' = en_took y ++ unread (en_sh y)) by (by rewrite Hu, <- app_assoc).
    split; simpl; rewrite ?app_nil_r, ?Hr, ?Hr', ?Ht; try done.
    intros Hy. by rewrite (Hby Hy), Hu, <- !app_assoc.
Qed.

(** A handle is dropped at the writer's end, or at the reader's. *)
Lemma drops_writer id x o x' y out inn :
  drops id x o x' -> dir_ok x y out inn -> dir_ok x' y (out ++ option_list o) inn.
Proof.
  intros [sh' _ (Hs & Hr & Hm) Hu Hst] [Hw Hb He Hp Hby Ho Hl Hf Hg Hc].
  pose proof (drop_frame_facts id (sh_state (en_sh x))) as Hd.
  assert (Hnil : data_under_way (option_list (drop_frame id (sh_state (en_sh x)))) = []).
  { by destruct (sh_state (en_sh x)). }
  split; simpl; rewrite ?data_under_way_app, ?Hnil, ?app_nil_r, ?Hs, ?Hst; try done.
  - unfold window_ok. by rewrite Hs, Hr, Hm, Hu.
  - destruct (drop_frame _ _) as [f|]; simpl; rewrite ?app_nil_r; [| done].
    apply fin_last_snoc; [done |]. left. by apply Forall_singleton in Hd as [? _].
  - apply Forall_app. split; [done |]. eapply Forall_impl; [| exact Hd]. intros f (D1 & D2 & _).
    unfold plain. rewrite D2. split; [lia | done].
Qed.

Lemma drops_reader id x y o y' out inn :
  drops id y o y' -> dir_ok x y out inn -> dir_ok x y' out (inn ++ option_list o).
Proof.
  intros [sh' _ (Hs & Hr & Hm) Hu Hst] [Hw Hb He Hp Hby Ho Hl Hf Hg Hc].
  assert (Hnil : credit_under_way (option_list (drop_frame id (sh_state (en_sh y)))) = 0).
  { by destruct (sh_state (en_sh y)). }
  split; simpl; rewrite ?credit_under_way_app, ?Hnil, ?Z.add_0_r, ?Hr, ?Hu; try done.
  intros Hcw. by destruct (Ho Hcw).
Qed.

(** A frame arrives at the reader. *)
Lemma hear_reader f x y y' out inn :
  hear f y y' -> dir_ok x y (f :: out) inn ->
  (en_status y = Unborn -> dropped f y = true -> msg_data f = []) ->
  (en_status y = Gone -> sh_state (en_sh y) = Closed) -> dir_ok x y' out inn.
Proof.
  intros Hh [Hw Hb He Hp Hby Ho [Hl Hl'] Hf Hg Hc] Hun Hgy.
  assert (Hcons : data_under_way (f :: out) = msg_data f ++ data_under_way out) by done.
  apply Forall_cons_1 in Hc as [[_ Hrst] Hc]. rewrite Hcons in *.
  assert (Hopen : can_write (sh_state (en_sh x)) = true ->
    ends f = false /\ none_ends out /\ (en_status y <> Dropped -> can_read (sh_state (en_sh y)) = true)).
  { intros Hcw. destruct (Ho Hcw) as [Hn Hr]. apply Forall_cons_1 in Hn as [Hn1 Hn2]. by split_and!. }
  destruct Hh as [Hd | sh' Hd Hnr Hv Hhear | sh' Hd Hr (_ & Hrw & _) Hu Hst].
  - assert (Hnil : en_status y <> Dropped -> msg_data f = []).
    { intros Hy. pose proof Hd as Hd'. unfold dropped in Hd'. destruct (en_status y) eqn:E; [by apply Hun | done | | done].
      rewrite Hgy in Hf by done. by destruct (app_eq_nil _ _ (Hf Hy eq_refl)). }
    split; try done.
    + rewrite zlen_app in Hb. pose proof (zlen_nonneg (msg_data f)). lia.
    + intros Hcw Hy. specialize (He Hcw Hy). by rewrite (Hnil Hy) in He.
    + intros Hy. by rewrite (Hby Hy), (Hnil Hy).
    + intros Hcw. by destruct (Hopen Hcw) as (_ & ? & ?).
    + intros Hy Hcr. by destruct (app_eq_nil _ _ (Hf Hy Hcr)).
  - assert (Hy : en_status y <> Dropped) by (intros E; unfold dropped in Hd; by rewrite E in Hd).
    destruct (hears_halves _ _ _ Hhear) as [Hr' _]. destruct Hhear as (_ & _ & _ & Hr & Hu).
    rewrite zlen_app in *.
    assert (Hends : ends f = has_flag FIN f) by (unfold ends; by rewrite Hnr, orb_false_r).
    assert (Hbytes : en_wrote x = en_took y ++ unread sh' ++ data_under_way out) by (by rewrite Hu, (Hby Hy), <- !app_assoc).
    split; simpl; rewrite ?Hr, ?Hr'; try done.
    + lia.
    + intros Hcw _. specialize (He Hcw Hy). lia.
    + rewrite Hbytes, app_assoc. by apply prefix_app_r.
    + intros Hcw. destruct (Hopen Hcw) as (Hfe & ? & Hcr). rewrite (Hcr Hy), <- Hends, Hfe. done.
    + intros _. destruct (can_read (sh_state (en_sh y))) eqn:Hcr; simpl.
      * rewrite <- Hends. destruct (ends f); [auto | done].
      * intros _. by destruct (app_eq_nil _ _ (Hf Hy eq_refl)).
  - assert (Hy : en_status y <> Dropped) by (intros E; unfold dropped in Hd; by rewrite E in Hd).
    destruct (Hrst Hr) as [Hnil _]. rewrite Hnil in *. simpl in *.
    assert (Hends : ends f = true) by (unfold ends; by rewrite Hr, orb_true_r).
    split; simpl; rewrite ?Hrw, ?Hu, ?Hst; try done.
    + intros Hcw _. by apply He.
    + intros _. by apply Hby.
    + intros Hcw. destruct (Hopen Hcw) as (Hfe & _). by rewrite Hfe in Hends.
    + intros _ _. by apply Hl.
Qed.

(** A frame arrives at the writer. *)
Lemma hear_writer f x x' y out inn :
  hear f x x' -> dir_ok x y out (f :: inn) -> plain f ->
  (en_status x = Unborn -> dropped f x = true -> msg_credit f = 0) ->
  dir_ok x' y out inn.
Proof.
  intros Hh [Hw Hb He Hp Hby Ho Hl Hf Hg Hc] [Hk Hrst] Hun. simpl in *.
  destruct Hh as [Hd | sh' Hd Hnr Hv Hhear | sh' Hd Hr (Hs & Hrw & Hm) Hu Hst].
  - split; try done; [lia |]. intros Hcw Hy. specialize (He Hcw Hy). pose proof Hd as Hd'. unfold dropped in Hd'.
    destruct (en_status x) eqn:E; [rewrite Hun in He by done; lia | done | |]; by rewrite Hg in Hcw by done.
  - destruct (hears_halves _ _ _ Hhear) as [_ Hw']. destruct Hhear as (_ & Hm & Hs & Hr & Hu).
    assert (Hv' : zlen (msg_data f) <= recv_window (en_sh x)) by (unfold violates in Hv; lia).
    destruct Hw as (W1 & W2 & W3 & W4).
    split; simpl; rewrite ?Hs, ?Hw'; try done.
    + unfold window_ok. rewrite Hs, Hm, Hr, Hu, zlen_app. split_and!; lia.
    + lia.
    + intros Hcw Hy. specialize (He Hcw Hy). lia.
    + destruct (has_flag FIN f && bool_decide (sh_state sh' = Closed)) eqn:E; [| done].
      intros _. apply andb_prop in E as [_ E]. by apply bool_decide_eq_true in E.
  - destruct (Hrst Hr) as [_ Hz]. rewrite Hz in *.
    split; simpl; rewrite ?Hs, ?Hst; try done. unfold window_ok. by rewrite Hs, Hrw, Hm, Hu.
Qed.

(** What is under way before the stream is known at the other end. As long as the SYN has not been
    used only an end can have been sent, which will be ignored; afterwards the SYN comes first. No
    SYN is sent twice, or the other way. *)
Definition bare_end (f : Frame unit) : Prop :=
  has_flag SYN f = false /\ ends f = true /\ msg_data f = [] /\ msg_credit f = 0.

Definition born_with (x y : End) (out inn : list (Frame unit)) : Prop :=
  match en_status y with
  | Unborn =>
      inn = [] /\ recv_window (en_sh x) = max_window (en_sh x) /\ unread (en_sh x) = [] /\
      ((en_flag x = FlagSyn /\ Forall bare_end out) \/
       (en_flag x <> FlagSyn /\ exists f rest, out = f :: rest /\ has_flag SYN f = true /\
          has_flag RST f = false /\ none_has SYN rest))
  | _ => en_flag x <> FlagSyn /\ none_has SYN out
  end.

Record link_ok (k : Link) : Prop := {
  lo_out : dir_ok (lk_here k) (lk_there k) (lk_out k) (lk_in k);
  lo_in : dir_ok (lk_there k) (lk_here k) (lk_in k) (lk_out k);
  lo_born : born_with (lk_here k) (lk_there k) (lk_out k) (lk_in k);
  lo_here : en_status (lk_here k) <> Unborn;
  lo_flag : en_flag (lk_there k) <> FlagSyn;
  lo_syn : none_has SYN (lk_in k);
}.

Lemma none_has_app b fs gs : none_has b (fs ++ gs) <-> none_has b fs /\ none_has b gs.
Proof. apply Forall_app. Qed.

(** What an action sends has a SYN only if the flag was pending, and uses it up. *)
Lemma acts_syn id x o x' :
  acts id x o x' -> en_status x' = en_status x /\
  (en_flag x <> FlagSyn -> en_flag x' <> FlagSyn /\ none_has SYN (option_list o)).
Proof.
  intros [b sh' | sh' | k sh' | b sh']; simpl; (split; [done |]); intros Hf.
  - split; [done |]. apply Forall_singleton. destruct (data_msg_facts id (en_flag x) b) as (_ & _ & _ & _ & ->).
    by apply bool_decide_eq_false.
  - split; [by case_decide |]. apply Forall_singleton.
    by destruct (close_msg_facts id (bool_decide (en_flag x = FlagAck))) as (_ & _ & _ & _ & ->).
  - split; [done |]. apply Forall_singleton. destruct (credit_msg_facts id (en_flag x) k) as (_ & _ & _ & _ & ->).
    by apply bool_decide_eq_false.
  - split; [done |]. apply Forall_nil_2.
Qed.

Lemma acts_born id x o x' y out inn :
  acts id x o x' -> dir_ok x y out inn -> born_with x y out inn -> born_with x' y (out ++ option_list o) inn.
Proof.
  intros Ha Hd Hb. unfold born_with in *. destruct (acts_syn _ _ _ _ Ha) as [_ Hsyn].
  destruct (en_status y); [| destruct Hb as [Hf Hn]; destruct (Hsyn Hf); by rewrite none_has_app ..].
  destruct Hb as (-> & Hr & Hu & Hb). destruct (do_window _ _ _ _ Hd) as (_ & _ & _ & Hmax).
  assert (Hkeep : (en_flag x <> FlagSyn -> en_flag x' <> FlagSyn /\ none_has SYN (option_list o)) ->
    (exists f rest, out = f :: rest /\ has_flag SYN f = true /\ has_flag RST f = false /\ none_has SYN rest) ->
    en_flag x <> FlagSyn -> exists f rest, out ++ option_list o = f :: rest /\ has_flag SYN f = true /\
      has_flag RST f = false /\ none_has SYN rest).
  { intros Hs (f & rest & -> & Hf & Hr' & Hn) Hx. exists f, (rest ++ option_list o). split_and!; [done.. |].
    apply none_has_app. split; [done | by apply Hs]. }
  destruct Ha as [b sh' Hcw _ _ Hr' Hm' Hu' _ | sh' (_ & Hr' & Hm') Hu' _ _ | k sh' _ Huse
                 | b sh' (_ & Hr' & Hm') Hu' _]; simpl in *.
  - rewrite Hr', Hm', Hu'. split_and!; try done. right. split; [done |].
    destruct Hb as [[Hf Hout] | [Hf Hout]]; [| by apply Hkeep].
    destruct (do_open _ _ _ _ Hd Hcw) as [Hn _]. destruct out as [|f out].
    + exists (data_msg id (en_flag x) b), [].
      destruct (data_msg_facts id (en_flag x) b) as (_ & _ & _ & Hrst & Hsy). rewrite Hsy.
      split_and!; [done | by apply bool_decide_eq_true | done | apply Forall_nil_2].
    + apply Forall_cons_1 in Hn as [Hn _]. apply Forall_cons_1 in Hout as [(_ & Hfin & _) _]. by rewrite Hn in Hfin.
  - rewrite Hr', Hm', Hu'. split_and!; try done.
    destruct Hb as [[Hf Hout] | [Hf Hout]]; [left | right].
    + rewrite Hf. split; [done |]. apply Forall_app. split; [done |]. by apply Forall_singleton.
    + split; [by case_decide | by apply Hkeep].
  - rewrite Hr, Hu, zlen_nil in Huse. pose proof (Z.div_le_lower_bound (max_window (en_sh x)) 2 1).
    unfold DEFAULT_CREDIT, KIB in Hmax. lia.
  - rewrite Hu in Hu'. destruct (app_eq_nil _ _ (eq_sym Hu')) as [-> Hnil].
    rewrite Hr', Hm', Hnil, app_nil_r. split_and!; try done.
Qed.

Lemma drops_born id x o x' y out inn :
  drops id x o x' -> born_with x y out inn -> born_with x' y (out ++ option_list o) inn.
Proof.
  intros [sh' _ (_ & Hr & Hm) Hu _] Hb. unfold born_with in *. simpl.
  pose proof (drop_frame_facts id (sh_state (en_sh x))) as Hd. rewrite Hr, Hm, Hu.
  assert (Hsyn : none_has SYN (option_list (drop_frame id (sh_state (en_sh x))))).
  { eapply Forall_impl; [| exact Hd]. by intros f (_ & _ & _ & ?). }
  destruct (en_status y); [| destruct Hb as [Hf Hn]; by rewrite none_has_app ..].
  destruct Hb as (-> & ? & ? & [[Hf Hout] | [Hf (f & rest & -> & Hs & Hrst & Hn)]]); split_and!; try done; [left | right].
  - split; [done |]. apply Forall_app. split; [done |]. eapply Forall_impl; [| exact Hd].
    by intros f (? & ? & ? & ?).
  - split; [done |]. exists f, (rest ++ option_list (drop_frame id (sh_state (en_sh x)))).
    by rewrite none_has_app.
Qed.

(** A frame that is dropped before the stream is known carries nothing. *)
Lemma dropped_unborn f x y out inn :
  born_with x y (f :: out) inn -> en_status y = Unborn -> dropped f y = true -> msg_data f = [] /\ msg_credit f = 0.
Proof.
  unfold born_with, dropped. intros Hb Hy. rewrite Hy in *. intros Hd.
  destruct Hb as (_ & _ & _ & [[_ Hf] | (_ & g & rest & [= <- <-] & Hs & Hr & _)]).
  - by apply Forall_cons_1 in Hf as [(_ & _ & ? & ?) _].
  - by rewrite Hs, Hr in Hd.
Qed.

Lemma hear_born f x y y' out inn :
  hear f y y' -> born_with x y (f :: out) inn -> born_with x y' out inn /\ en_flag y' = en_flag y.
Proof.
  intros Hh Hb. split; [| by destruct Hh].
  assert (Hborn : dropped f y = false -> en_flag x <> FlagSyn /\ none_has SYN out).
  { unfold born_with, dropped in *. intros Hd.
    destruct (en_status y); [| destruct Hb as [? Hn]; by apply Forall_cons_1 in Hn as [_ ?] | done..].
    destruct Hb as (_ & _ & _ & [[_ Hout] | (? & g & rest & [= <- <-] & _ & _ & ?)]); [| done].
    apply Forall_cons_1 in Hout as [(Hs & _) _]. by rewrite Hs in Hd. }
  destruct Hh as [Hd | sh' Hd _ _ _ | sh' Hd _ _ _ _]; unfold born_with; simpl.
  - unfold born_with, dropped in *. destruct (en_status y); [| destruct Hb as [? Hn]; by apply Forall_cons_1 in Hn as [_ ?] ..].
    destruct Hb as (-> & Hr & Hu & [[Hf Hout] | (_ & g & rest & [= <- <-] & Hs & Hrst & _)]); [| by rewrite Hs, Hrst in Hd].
    split_and!; try done. left. split; [done |]. by apply Forall_cons_1 in Hout as [_ ?].
  - specialize (Hborn Hd). by destruct (has_flag FIN f && bool_decide (sh_state sh' = Closed)).
  - by apply Hborn.
Qed.

(** ** The steps keep the invariant *)

Lemma here_acts_ok id x o x' y out inn :
  acts id x o x' -> link_ok (mkLink x y out inn) -> link_ok (mkLink x' y (out ++ option_list o) inn).
Proof.
  intros Ha [Ho Hi Hb Hh Hf Hs]. simpl in *. destruct (acts_syn _ _ _ _ Ha) as [Hst _]. split; simpl; try done.
  - by eapply acts_writer.
  - by eapply acts_reader.
  - by eapply acts_born.
  - by rewrite Hst.
Qed.

Lemma there_acts_ok id x y o y' out inn :
  acts id y o y' -> en_status y <> Unborn -> link_ok (mkLink x y out inn) ->
  link_ok (mkLink x y' out (inn ++ option_list o)).
Proof.
  intros Ha Hy [Ho Hi Hb Hh Hf Hs]. simpl in *. destruct (acts_syn _ _ _ _ Ha) as [Hst Hsyn].
  destruct (Hsyn Hf) as [Hf' Hs']. split; simpl; try done.
  - by eapply acts_reader.
  - by eapply acts_writer.
  - unfold born_with in *. rewrite Hst. by destruct (en_status y).
  - by apply none_has_app.
Qed.

Lemma here_drops_ok id x o x' y out inn :
  drops id x o x' -> link_ok (mkLink x y out inn) -> link_ok (mkLink x' y (out ++ option_list o) inn).
Proof.
  intros Hd [Ho Hi Hb Hh Hf Hs]. simpl in *. split; simpl; try done.
  - by eapply drops_writer.
  - by eapply drops_reader.
  - by eapply drops_born.
  - by destruct Hd.
Qed.

Lemma there_drops_ok id x y o y' out inn :
  drops id y o y' -> link_ok (mkLink x y out inn) -> link_ok (mkLink x y' out (inn ++ option_list o)).
Proof.
  intros Hd [Ho Hi Hb Hh Hf Hs]. simpl in *. split; simpl; try done.
  - by eapply drops_reader.
  - by eapply drops_writer.
  - unfold born_with in *. destruct Hd as [sh' Hk]. rewrite Hk in Hb. done.
  - by destruct Hd.
  - apply none_has_app. split; [done |]. destruct Hd as [sh' _].
    eapply Forall_impl; [| apply drop_frame_facts]. by intros f (_ & _ & _ & ?).
Qed.

Lemma there_hears_ok f x y y' out inn :
  hear f y y' -> link_ok (mkLink x y (f :: out) inn) -> link_ok (mkLink x y' out inn).
Proof.
  intros Hh [Ho Hi Hb Hx Hf Hs]. simpl in *. destruct (hear_born _ _ _ _ _ _ Hh Hb) as [Hb' Hf'].
  pose proof (do_frames _ _ _ _ Ho) as Hc. apply Forall_cons_1 in Hc as [Hc _].
  pose proof (dropped_unborn _ _ _ _ _ Hb) as Hd. split; simpl; try done.
  - eapply hear_reader; [done.. | | ].
    + intros H1 H2. by destruct (Hd H1 H2).
    + intros H1. apply (do_gone _ _ _ _ Hi). by rewrite H1.
  - eapply hear_writer; [done.. |]. intros H1 H2. by destruct (Hd H1 H2).
  - by rewrite Hf'.
Qed.

Lemma here_hears_ok f x x' y out inn :
  hear f x x' -> link_ok (mkLink x y out (f :: inn)) -> link_ok (mkLink x' y out inn).
Proof.
  intros Hh [Ho Hi Hb Hx Hf Hs]. simpl in *.
  pose proof (do_frames _ _ _ _ Hi) as Hc. apply Forall_cons_1 in Hc as [Hc _].
  apply Forall_cons_1 in Hs as [_ Hs]. split; simpl; try done.
  - by eapply hear_writer.
  - eapply hear_reader; [done | done | done |]. intros H1. apply (do_gone _ _ _ _ Ho). by rewrite H1.
  - unfold born_with in *. destruct (en_status y); [by destruct Hb | | |]; by destruct Hh.
  - destruct Hh as [| sh' Hd | sh' Hd]; [done | | done]. simpl. by destruct (has_flag FIN f && _).
Qed.

Lemma link_step_ok id k k' : link_step id k k' -> link_ok k -> link_ok k'.
Proof.
  intros [Hs | Hs] Hok; inversion Hs as [x o x' y out inn Hx Ha E1 E2 | x o x' y out inn Hd E1 E2 | f x y y' out inn Hh E1 E2].
  - subst. by eapply here_acts_ok.
  - subst. by eapply here_drops_ok.
  - subst. by eapply there_hears_ok.
  - destruct k, k'. unfold turned in *. simplify_eq/=. by eapply there_acts_ok.
  - destruct k, k'. unfold turned in *. simplify_eq/=. by eapply there_drops_ok.
  - destruct k, k'. unfold turned in *. simplify_eq/=. by eapply here_hears_ok.
Qed.

Lemma link_new_ok k : link_new k -> link_ok k.
Proof.
  intros (sh & sh' & (S1 & S2 & S3 & S4 & S5) & (T1 & T2 & T3 & T4 & T5) & ->).
  assert (Hw : forall s, unread s = [] -> send_window s = DEFAULT_CREDIT -> recv_window s = DEFAULT_CREDIT ->
    max_window s = DEFAULT_CREDIT -> window_ok s).
  { intros s Hu Hs Hr Hm. unfold window_ok. rewrite Hu. change (zlen []) with 0.
    unfold DEFAULT_CREDIT, KIB, u32_max in *. lia. }
  split; simpl; try done.
  - split; simpl; rewrite ?S1, ?S2, ?S3, ?T1, ?T2, ?T4; try done; [by apply Hw | by split; [constructor |]].
  - split; simpl; rewrite ?S1, ?S2, ?S4, ?T1, ?T2, ?T3; try done; [by apply Hw | by split; [constructor |]].
  - unfold born_with. simpl. rewrite S4, S5, S2. split_and!; try done. left. by split; [| constructor].
  - constructor.
Qed.

(** The states of a stream that has been opened at one end. *)
Definition linked (id : Z) (k : Link) : Prop := exists k0, link_new k0 /\ rtc (link_step id) k0 k.

Lemma linked_ok id k : linked id k -> link_ok k.
Proof.
  intros (k0 & Hn & Hs). apply link_new_ok in Hn. induction Hs as [| k1 k2 k3 H1 _ IH]; [done |].
  apply IH. by eapply link_step_ok.
Qed.

(** The messages of a stream bear its identifier, and only the opener's have a SYN. *)
Definition message (id : Z) (f : Frame unit) : Prop :=
  stream_id (header f) = id /\ (tag (header f) = TagData \/ tag (header f) = TagWindowUpdate) /\
  (has_flag SYN f = true -> has_flag ACK f = false).

Lemma acts_message id x o x' : acts id x o x' -> Forall (message id) (option_list o).
Proof.
  intros [b | | k |]; simpl; [| | | apply Forall_nil_2]; apply Forall_singleton; unfold message.
  - destruct (en_flag x); simpl; auto.
  - destruct (bool_decide _); simpl; auto.
  - destruct (en_flag x); simpl; auto.
Qed.

Lemma drops_message id x o x' : drops id x o x' -> Forall (message id) (option_list o).
Proof.
  intros [sh' _]. destruct (sh_state (en_sh x)); simpl; first [apply Forall_nil_2 | apply Forall_singleton]; unfold message; simpl; auto.
Qed.

Lemma link_step_messages id k k' :
  link_step id k k' -> Forall (message id) (lk_out k ++ lk_in k) -> Forall (message id) (lk_out k' ++ lk_in k').
Proof.
  assert (Hhalf : forall k k', half_step id k k' -> Forall (message id) (lk_out k ++ lk_in k) ->
    Forall (message id) (lk_out k' ++ lk_in k')).
  { intros k1 k2 Hs. destruct Hs as [x o x' y out inn _ Ha | x o x' y out inn Hd | f x y y' out inn _]; simpl; rewrite !Forall_app.
    - intros [? ?]. split_and!; [done | by eapply acts_message | done].
    - intros [? ?]. split_and!; [done | by eapply drops_message | done].
    - intros [_ Hk]%Forall_cons_1. by apply Forall_app. }
  intros [Hs | Hs] Hk; [by eapply Hhalf |]. apply Forall_app in Hk as [H1 H2].
  assert (H3 : Forall (message id) (lk_out (turned k') ++ lk_in (turned k')))
    by (eapply Hhalf; [exact Hs | by apply Forall_app]).
  apply Forall_app in H3 as [? ?]. by apply Forall_app.
Qed.

Lemma linked_messages id k : linked id k -> Forall (message id) (lk_out k) /\ Forall (message id) (lk_in k).
Proof.
  intros (k0 & (sh & sh' & _ & _ & ->) & Hs). apply Forall_app.
  remember (mkLink _ _ _ _) as k0 eqn:E in Hs.
  assert (H0 : Forall (message id) (lk_out k0 ++ lk_in k0)) by (subst; apply Forall_nil_2).
  clear E. induction Hs as [| k1 k2 k3 H1 _ IH]; [done |]. by eapply IH, link_step_messages.
Qed.

(** ** What the contract gives *)

(** No frame at the head of either queue violates what its receiver has granted. *)
Lemma dir_no_violation x y f out inn :
  dir_ok x y (f :: out) inn -> dir_ok y x inn (f :: out) ->
  (en_status y <> Unborn -> has_flag SYN f = false) -> ~ violates f y.
Proof.
  intros Ho Hi Hs Hv.
  destruct (do_window _ _ _ _ Ho) as (X1 & X2 & X3 & _), (do_window _ _ _ _ Hi) as (Y1 & Y2 & Y3 & _).
  pose proof (do_bound _ _ _ _ Ho) as B1. pose proof (do_bound _ _ _ _ Hi) as B2.
  pose proof (credit_under_way_nonneg _ (do_frames _ _ _ _ Ho)) as C1.
  pose proof (credit_under_way_nonneg _ (do_frames _ _ _ _ Hi)) as C2.
  pose proof (do_frames _ _ _ _ Ho) as Hc. apply Forall_cons_1 in Hc as [Hc Hcs].
  apply credit_under_way_nonneg in Hcs. pose proof (zlen_nonneg (data_under_way inn)).
  change (data_under_way (f :: out)) with (msg_data f ++ data_under_way out) in B1. simpl in B2. rewrite zlen_app in B1.
  pose proof (zlen_nonneg (data_under_way out)). pose proof (zlen_nonneg (unread (en_sh x))).
  destruct Hv as [[Hy Hsyn] | [Hv | Hv]]; [by rewrite Hs in Hsyn | lia | lia].
Qed.

Lemma link_no_violation k f fs :
  link_ok k -> (lk_out k = f :: fs -> ~ violates f (lk_there k)) /\ (lk_in k = f :: fs -> ~ violates f (lk_here k)).
Proof.
  intros [Ho Hi Hb Hx Hf Hs]. destruct k as [x y out inn]. simpl in *. split; intros ->.
  - eapply dir_no_violation; [done.. |]. unfold born_with in Hb. intros Hy.
    destruct (en_status y); [done | | |]; destruct Hb as [_ Hn]; by apply Forall_cons_1 in Hn as [? _].
  - eapply dir_no_violation; [done.. |]. intros _. by apply Forall_cons_1 in Hs as [? _].
Qed.

(** A writer without credit waits for data that is under way, for credit that is under way, or for
    a reader whose window is used up. *)
Lemma dir_no_deadlock x y out inn :
  dir_ok x y out inn -> dir_ok y x inn out -> en_status y <> Dropped ->
  can_write (sh_state (en_sh x)) = true -> send_window (en_sh x) = 0 ->
  data_under_way out <> [] \/ 0 < credit_under_way inn \/ recv_window (en_sh y) = 0.
Proof.
  intros Ho Hi Hy Hw Hs. pose proof (do_exact _ _ _ _ Ho Hw Hy) as He. rewrite Hs in He.
  pose proof (credit_under_way_nonneg _ (do_frames _ _ _ _ Hi)).
  destruct (data_under_way out); [change (zlen []) with 0 in He; right; lia | by left].
Qed.

Section update.
Context `{Arch}.

(** A used-up window of which the reader has read half is renewed by the next update. *)
Lemma used_window_renewed rtt now now' acc sh :
  shared_ok rtt sh -> acc_ok acc (sh_flow_controller sh) -> rtt_sane rtt ->
  recv_window sh = 0 -> zlen (unread sh) <= max_window sh / 2 ->
  exists k fc acc', next_window_update rtt now now' acc (zlen (unread sh)) (sh_flow_controller sh) = Ret (Some k, fc, acc') /\
    max_window sh / 2 <= k.
Proof.
  intros [_ Hf] Ha Hr Hz Hu. pose proof (next_window_update_ok rtt now now' acc _ _ Hf Ha Hr) as Hn.
  pose proof Hf as (_ & _ & _ & Hm & _). pose proof (next_max_range rtt now acc _ Ha Hm) as (Hg & _).
  fold (unread sh) in *. unfold recv_window, max_window in *. cbv zeta in Hn. rewrite Hz in Hn.
  pose proof (Z.div_mod (fc_max_receive_window (sh_flow_controller sh)) 2 ltac:(lia)).
  pose proof (Z.mod_pos_bound (fc_max_receive_window (sh_flow_controller sh)) 2 ltac:(lia)).
  destruct (Z.ltb_spec (fc_max_receive_window (sh_flow_controller sh) - 0 - zlen (unread sh))
    (fc_max_receive_window (sh_flow_controller sh) / 2)); [lia |].
  destruct Hn as (Hn & _). do 3 eexists. split; [exact Hn |]. lia.
Qed.
End update.
