(* ===== verification/FrameIo.v ===== *)
(** * Frames over a byte stream: [frame/io.rs]

    [Io] writes frames to, and parses frames from, an asynchronous socket. The socket is not part of
    the repository: it is a parameter with the operations of [AsyncRead] and [AsyncWrite]. *)
From Stdlib Require Import ZArith Lia Strings.Byte.
From stdpp Require Import base option list numbers.
From S2P Require Import Prelude.
From S2P Require Import Header.
From S2P Require Import Frame.
From S2P Require Import Config.
From S2P Require Import Command.

(** [AsyncRead] and [AsyncWrite]. Reading fills the buffer it is given and returns it. *)
Class AsyncIo : Type := {
  Socket : Type;
  io_poll_read : Waker -> list byte -> Socket -> poll (result Z IoError) * list byte * Socket;
  io_poll_write : Waker -> list byte -> Socket -> poll (result Z IoError) * Socket;
  io_poll_flush : Waker -> Socket -> poll (result unit IoError) * Socket;
  io_poll_close : Waker -> Socket -> poll (result unit IoError) * Socket;
}.

(** Maximum Yamux frame body length. *)
Definition MAX_FRAME_BODY_LEN : Z := MIB.

(** The stages of writing a new [Frame]. *)
Inductive WriteState : Set :=
| WriteInit
| WriteHeader (header buffer : list byte) (offset : Z)
| WriteBody (buffer : list byte) (offset : Z)
| WritePoisoned.

(** The stages of reading a new [Frame]. *)
Inductive ReadState : Set :=
| ReadInit
| ReadHeader (offset : Z) (buffer : list byte)
| ReadBody (header : Header unit) (offset : Z) (buffer : list byte).

(** [&v[off..]] and [&v[off..until]]: they panic out of range. *)
Definition slice_from (off : Z) (v : list byte) : outcome (list byte) :=
  if off <=? zlen v then Ret (drop (Z.to_nat off) v) else Panic.
Definition slice (off until : Z) (v : list byte) : outcome (list byte) :=
  if (off <=? until) && (until <=? zlen v)
  then Ret (drop (Z.to_nat off) (take (Z.to_nat until) v)) else Panic.

Section frame_io.
Context `{Arch, AsyncIo}.

Record Io : Type := mkIo {
  io : Socket;
  read_state : ReadState;
  write_state : WriteState;
}.

Definition io_new (s : Socket) : Io := mkIo s ReadInit WriteInit.

Definition set_io (s : Socket) (i : Io) : Io := mkIo s (read_state i) (write_state i).
Definition set_read_state (r : ReadState) (i : Io) : Io := mkIo (io i) r (write_state i).
Definition set_write_state (w : WriteState) (i : Io) : Io := mkIo (io i) (read_state i) w.

(** An operation of the socket. *)
Definition on_io {A} (f : Socket -> A * Socket) : M Io A := fun i =>
  let '(a, s) := f (io i) in Ret (a, set_io s i).

(** The loop of [poll_ready], one iteration per fuel. *)
Fixpoint poll_ready_loop (fuel : nat) (cx : Waker) : M Io (poll (result unit IoError)) :=
  match fuel with
  | O => lift OutOfFuel
  | S fuel =>
      ws ← gets write_state;
      match ws with
      | WriteInit => mret (Ready (Ok tt))
      | WriteHeader header buffer offset =>
          src ← lift (slice_from offset header);
          r ← on_io (io_poll_write cx src);
          match r with
          | Pending => mret Pending
          | Ready (Err e) => mret (Ready (Err e))
          | Ready (Ok n) =>
              if n =? 0 then mret (Ready (Err WriteZero)) else
              offset ← lift (add_ usize_max offset n);
              if zlen header <? offset then
                modify (set_write_state WritePoisoned) ≫= fun _ => mret (Ready (Err InvalidWriteCount))
              else if offset =? zlen header then
                modify (set_write_state (if decide (buffer = []) then WriteInit else WriteBody buffer 0))
                  ≫= fun _ => poll_ready_loop fuel cx
              else
                modify (set_write_state (WriteHeader header buffer offset))
                  ≫= fun _ => poll_ready_loop fuel cx
          end
      | WriteBody buffer offset =>
          src ← lift (slice_from offset buffer);
          r ← on_io (io_poll_write cx src);
          match r with
          | Pending => mret Pending
          | Ready (Err e) => mret (Ready (Err e))
          | Ready (Ok n) =>
              if n =? 0 then mret (Ready (Err WriteZero)) else
              offset ← lift (add_ usize_max offset n);
              if zlen buffer <? offset then
                modify (set_write_state WritePoisoned) ≫= fun _ => mret (Ready (Err InvalidWriteCount))
              else if offset =? zlen buffer then
                modify (set_write_state WriteInit) ≫= fun _ => poll_ready_loop fuel cx
              else
                modify (set_write_state (WriteBody buffer offset))
                  ≫= fun _ => poll_ready_loop fuel cx
          end
      | WritePoisoned => mret (Ready (Err PoisonedSink))
      end
  end.

(** The bytes of the frame being written that the socket has not taken. *)
Definition unsent (ws : WriteState) : list byte :=
  match ws with
  | WriteInit | WritePoisoned => []
  | WriteHeader header buffer offset => drop (Z.to_nat offset) header ++ buffer
  | WriteBody buffer offset => drop (Z.to_nat offset) buffer
  end.

(** Every iteration but the last writes a byte. *)
Definition io_poll_ready (cx : Waker) : M Io (poll (result unit IoError)) := fun i =>
  poll_ready_loop (S (length (unsent (write_state i)))) cx i.

Definition io_start_send (f : Frame unit) : M Io (result unit IoError) :=
  modify (set_write_state (WriteHeader (encode (header f)) (body f) 0)) ≫= fun _ => mret (Ok tt).

Definition io_sink_flush (cx : Waker) : M Io (poll (result unit IoError)) :=
  r ← io_poll_ready cx;
  match r with
  | Pending => mret Pending
  | Ready (Err e) => mret (Ready (Err e))
  | Ready (Ok _) => on_io (io_poll_flush cx)
  end.

Definition io_sink_close (cx : Waker) : M Io (poll (result unit IoError)) :=
  r ← io_poll_ready cx;
  match r with
  | Pending => mret Pending
  | Ready (Err e) => mret (Ready (Err e))
  | Ready (Ok _) => on_io (io_poll_close cx)
  end.

(** One [poll_read] into [&mut buffer[offset..until]]; the second result is the buffer. *)
Definition read_into (cx : Waker) (offset until : Z) (buffer : list byte)
    : M Io (poll (result Z IoError) * list byte) :=
  dst ← lift (slice offset until buffer);
  '(r, dst) ← on_io (fun s => let '(r, d, s) := io_poll_read cx dst s in ((r, d), s));
  mret (r, take (Z.to_nat offset) buffer ++ dst ++ drop (Z.to_nat until) buffer).

(** The loop of [poll_next], one iteration per fuel. *)
Fixpoint poll_next_loop (fuel : nat) (cx : Waker)
    : M Io (poll (option (result (Frame unit) FrameDecodeError))) :=
  match fuel with
  | O => lift OutOfFuel
  | S fuel =>
      rs ← gets read_state;
      match rs with
      | ReadInit =>
          modify (set_read_state (ReadHeader 0 (replicate (Z.to_nat HEADER_SIZE) x00)))
            ≫= fun _ => poll_next_loop fuel cx
      | ReadHeader offset buffer =>
          if offset =? HEADER_SIZE then
            match decode buffer with
            | Err e => mret (Ready (Some (Err (DecodeHeader e))))
            | Ok header =>
                if decide (tag header <> TagData) then
                  modify (set_read_state ReadInit) ≫= fun _ =>
                  mret (Ready (Some (Ok (frame_new header))))
                else
                let body_len := as_usize (len header) in
                if MAX_FRAME_BODY_LEN <? body_len then
                  mret (Ready (Some (Err (FrameTooLarge body_len))))
                else
                modify (set_read_state (ReadBody header 0 (replicate (Z.to_nat body_len) x00)))
                  ≫= fun _ => poll_next_loop fuel cx
            end
          else
          '(r, buffer) ← read_into cx offset HEADER_SIZE buffer;
          match r with
          | Pending => modify (set_read_state (ReadHeader offset buffer)) ≫= fun _ => mret Pending
          | Ready (Err e) =>
              modify (set_read_state (ReadHeader offset buffer)) ≫= fun _ =>
              mret (Ready (Some (Err (DecodeIo e))))
          | Ready (Ok n) =>
              if n =? 0 then
                modify (set_read_state (ReadHeader offset buffer)) ≫= fun _ =>
                if offset =? 0 then mret (Ready None)
                else mret (Ready (Some (Err (DecodeIo UnexpectedEof))))
              else
                offset ← lift (add_ usize_max offset n);
                modify (set_read_state (ReadHeader offset buffer)) ≫= fun _ => poll_next_loop fuel cx
          end
      | ReadBody header offset buffer =>
          let body_len := as_usize (len header) in
          if offset =? body_len then
            modify (set_read_state ReadInit) ≫= fun _ =>
            mret (Ready (Some (Ok (mkFrame header buffer))))
          else
          '(r, buffer) ← read_into cx offset body_len buffer;
          match r with
          | Pending => modify (set_read_state (ReadBody header offset buffer)) ≫= fun _ => mret Pending
          | Ready (Err e) =>
              modify (set_read_state (ReadBody header offset buffer)) ≫= fun _ =>
              mret (Ready (Some (Err (DecodeIo e))))
          | Ready (Ok n) =>
              if n =? 0 then
                modify (set_read_state (ReadBody header offset buffer)) ≫= fun _ =>
                mret (Ready (Some (Err (DecodeIo UnexpectedEof))))
              else
                offset ← lift (add_ usize_max offset n);
                modify (set_read_state (ReadBody header offset buffer))
                  ≫= fun _ => poll_next_loop fuel cx
          end
      end
  end.

(** A byte per iteration, at most a header and the largest body, and three changes of state. *)
Definition io_read_fuel : nat := Z.to_nat (HEADER_SIZE + MAX_FRAME_BODY_LEN + 4).

Lemma io_read_fuel_val : Z.of_nat io_read_fuel = HEADER_SIZE + MAX_FRAME_BODY_LEN + 4.
Proof. unfold io_read_fuel. by rewrite Z2Nat.id. Qed.

Definition io_poll_next (cx : Waker) : M Io (poll (option (result (Frame unit) FrameDecodeError))) :=
  poll_next_loop io_read_fuel cx.
End frame_io.

#[global] Opaque io_read_fuel.
