(* ===== verification/FrameIoSpec.v ===== *)
(** * Properties of the framing layer

    A reference parser of the byte stream, and the proofs that reading agrees with it however the
    bytes arrive, that writing puts exactly the accepted frames on the wire however they are taken,
    and that one end therefore receives what the other end sent. *)
From Stdlib Require Import ZArith Lia Strings.Byte.
From stdpp Require Import base option list numbers.
From S2P Require Import Prelude.
From S2P Require Import Header.
From S2P Require Import Frame.
From S2P Require Import Config.
From S2P Require Import Command.
From S2P Require Import FrameIo.

(** What the documentation of [AsyncRead] and [AsyncWrite] promises, with the bytes read and the
    bytes written so far as the history of a socket: a call that returns [n] has moved the first
    [n] bytes of its buffer, every other call has moved nothing. *)
Class AsyncIoLaws `{AsyncIo} : Type := {
  io_received : Socket -> list byte;
  io_sent : Socket -> list byte;
  io_read_law : forall cx buf s,
    let '(r, buf', s') := io_poll_read cx buf s in
    length buf' = length buf /\ io_sent s' = io_sent s /\
    match r with
    | Ready (Ok n) => 0 <= n <= zlen buf /\ io_received s' = io_received s ++ take (Z.to_nat n) buf'
    | _ => io_received s' = io_received s
    end;
  io_write_law : forall cx buf s,
    let '(r, s') := io_poll_write cx buf s in
    io_received s' = io_received s /\
    match r with
    | Ready (Ok n) => 0 <= n <= zlen buf /\ io_sent s' = io_sent s ++ take (Z.to_nat n) buf
    | _ => io_sent s' = io_sent s
    end;
  io_flush_law : forall cx s,
    io_received (io_poll_flush cx s).2 = io_received s /\ io_sent (io_poll_flush cx s).2 = io_sent s;
  io_close_law : forall cx s,
    io_received (io_poll_close cx s).2 = io_received s /\ io_sent (io_poll_close cx s).2 = io_sent s;
}.

(** ** The reference parser *)

Inductive parsed : Set :=
| Incomplete
| Malformed (e : FrameDecodeError)
| Parsed (f : Frame unit) (rest : list byte).

Definition parse_body (h : Header unit) (bs : list byte) : parsed :=
  if decide (tag h <> TagData) then Parsed (frame_new h) bs
  else if MAX_FRAME_BODY_LEN <? len h then Malformed (FrameTooLarge (len h))
  else if zlen bs <? len h then Incomplete
  else Parsed (mkFrame h (take (Z.to_nat (len h)) bs)) (drop (Z.to_nat (len h)) bs).

(** The first frame of a sequence of bytes. *)
Definition parse_frame (bs : list byte) : parsed :=
  if zlen bs <? HEADER_SIZE then Incomplete
  else match decode (take (Z.to_nat HEADER_SIZE) bs) with
       | Err e => Malformed (DecodeHeader e)
       | Ok h => parse_body h (drop (Z.to_nat HEADER_SIZE) bs)
       end.

(** Frame after frame of a sequence of bytes, and the rest. *)
Inductive parses : list byte -> list (Frame unit) -> list byte -> Prop :=
| parses_stop bs : parses bs [] bs
| parses_frame bs f rest fs r :
    parse_frame bs = Parsed f rest -> parses rest fs r -> parses bs (f :: fs) r.

(** The rest has no complete frame. *)
Definition stuck (bs : list byte) : Prop := forall f rest, parse_frame bs <> Parsed f rest.

(** Frames a peer accepts: the body of a data frame is not too large. *)
Definition frame_sendable {T} (f : Frame T) : Prop :=
  frame_wf f /\ zlen (body f) <= MAX_FRAME_BODY_LEN.

Lemma parse_frame_header h bs :
  header_typed h -> version h = 0 -> parse_frame (encode h ++ bs) = parse_body h bs.
Proof.
  intros Ht Hv. unfold parse_frame. rewrite zlen_app, zlen_encode.
  destruct (Z.ltb_spec (HEADER_SIZE + zlen bs) HEADER_SIZE); [pose proof (zlen_nonneg bs); lia |].
  rewrite take_app_length', drop_app_length' by (by rewrite length_encode).
  rewrite decode_encode_eq by done. by destruct h.
Qed.

Lemma parse_frame_wire (f : Frame unit) bs :
  frame_sendable f -> parse_frame (frame_wire f ++ bs) = Parsed f bs.
Proof.
  intros [(Ht & Hv & Hb) Hl]. unfold frame_wire. rewrite <- app_assoc, parse_frame_header by done.
  unfold parse_body. destruct f as [h b]. simpl in *. destruct (decide (tag h = TagData)) as [Hd | Hd].
  - rewrite decide_False by auto. rewrite Hb, zlen_app. pose proof (zlen_nonneg bs).
    destruct (Z.ltb_spec MAX_FRAME_BODY_LEN (zlen b)); [lia |].
    destruct (Z.ltb_spec (zlen b + zlen bs) (zlen b)); [lia |].
    unfold zlen. rewrite Nat2Z.id. by rewrite take_app_length, drop_app_length.
  - rewrite decide_True by done. by subst b.
Qed.

Lemma parses_det bs fs1 r1 fs2 r2 :
  parses bs fs1 r1 -> stuck r1 -> parses bs fs2 r2 -> stuck r2 -> fs1 = fs2 /\ r1 = r2.
Proof.
  intros H1 Hs1. revert fs2 r2.
  induction H1 as [bs | bs f rest fs r Hp _ IH]; intros fs2 r2 H2 Hs2;
    destruct H2 as [bs' | bs' f' rest' fs' r' Hp' H2]; [done | by apply Hs1 in Hp' | by apply Hs2 in Hp |].
  rewrite Hp in Hp'. injection Hp' as <- <-. by destruct (IH Hs1 _ _ H2 Hs2) as [-> ->].
Qed.

(** More bytes do not change a frame that is complete. *)
Lemma parse_frame_app bs f rest more :
  parse_frame bs = Parsed f rest -> parse_frame (bs ++ more) = Parsed f (rest ++ more).
Proof.
  unfold parse_frame. rewrite zlen_app. pose proof (zlen_nonneg more).
  destruct (Z.ltb_spec (zlen bs) HEADER_SIZE) as [| Hl]; [done |].
  destruct (Z.ltb_spec (zlen bs + zlen more) HEADER_SIZE); [lia |].
  unfold zlen, HEADER_SIZE in *. rewrite take_app_le, drop_app_le by lia.
  destruct (decode _) as [h|]; [| done]. unfold parse_body. case_decide; [by intros [= <- <-] |].
  destruct (MAX_FRAME_BODY_LEN <? len h); [done |]. rewrite zlen_app.
  set (b := drop _ bs). pose proof (zlen_nonneg more).
  destruct (Z.ltb_spec (zlen b) (len h)); [done |].
  destruct (Z.ltb_spec (zlen b + zlen more) (len h)); [lia |].
  intros [= <- <-]. unfold zlen in *. by rewrite take_app_le, drop_app_le by lia.
Qed.

Lemma parse_frame_malformed bs e more :
  parse_frame bs = Malformed e -> parse_frame (bs ++ more) = Malformed e.
Proof.
  unfold parse_frame. rewrite zlen_app. pose proof (zlen_nonneg more).
  destruct (Z.ltb_spec (zlen bs) HEADER_SIZE) as [| Hl]; [done |].
  destruct (Z.ltb_spec (zlen bs + zlen more) HEADER_SIZE); [lia |].
  unfold zlen, HEADER_SIZE in *. rewrite take_app_le, drop_app_le by lia.
  destruct (decode _) as [h|]; [| done]. unfold parse_body. case_decide; [done |].
  destruct (MAX_FRAME_BODY_LEN <? len h); [done |]. by case_match.
Qed.

Lemma parses_app bs fs r bs' fs' r' :
  parses bs fs r -> parses (r ++ bs') fs' r' -> parses (bs ++ bs') (fs ++ fs') r'.
Proof.
  induction 1 as [bs | bs f rest fs r Hp _ IH]; [done |]. intros Hr. simpl.
  eapply parses_frame; [by apply parse_frame_app | by apply IH].
Qed.

Definition wires (fs : list (Frame unit)) : list byte := concat (map frame_wire fs).

Lemma wires_app fs gs : wires (fs ++ gs) = wires fs ++ wires gs.
Proof. unfold wires. by rewrite map_app, concat_app. Qed.

Lemma wires_one f : wires [f] = frame_wire f.
Proof. unfold wires. cbn [map concat]. by rewrite app_nil_r. Qed.

Lemma wires_cons f fs : wires (f :: fs) = frame_wire f ++ wires fs.
Proof. done. Qed.

(** What is parsed from a part of the frames that were written is the first of these frames, and
    the rest is the beginning of what follows them. *)
Lemma parses_prefix bs gs rest more fs :
  parses bs gs rest -> Forall frame_sendable fs -> bs ++ more = wires fs ->
  exists fs', fs = gs ++ fs' /\ rest ++ more = wires fs' /\ (forall e, parse_frame rest <> Malformed e).
Proof.
  intros Hp. revert fs. induction Hp as [bs | bs g rest gs r Hp _ IH]; intros fs Hf Hw.
  - exists fs. split_and!; [done | done |]. intros e He. apply (parse_frame_malformed _ _ more) in He.
    rewrite Hw in He. destruct Hf as [|f fs Hs _]; [done |].
    unfold wires in He. cbn [map concat] in He. rewrite parse_frame_wire in He by done. done.
  - apply (parse_frame_app _ _ _ more) in Hp. rewrite Hw in Hp. destruct Hf as [|f fs Hs Hf]; [done |].
    unfold wires in Hp. cbn [map concat] in Hp. rewrite parse_frame_wire in Hp by done.
    injection Hp as <- Hrest. destruct (IH fs Hf) as (fs' & -> & Hr & Hm); [by symmetry |].
    exists fs'. split_and!; done.
Qed.

Section io_spec.
Context `{Arch} `{Hio : AsyncIo} `{!AsyncIoLaws}.

Lemma slice_from_ret off v :
  0 <= off <= zlen v -> slice_from off v = Ret (drop (Z.to_nat off) v).
Proof. intros. unfold slice_from. destruct (Z.leb_spec off (zlen v)); [done | lia]. Qed.

Lemma slice_ret off n v :
  0 <= off <= n -> n = zlen v -> slice off n v = Ret (drop (Z.to_nat off) v).
Proof.
  intros Ho ->. unfold slice. destruct (Z.leb_spec off (zlen v)); [| lia].
  destruct (Z.leb_spec (zlen v) (zlen v)); [| lia]. simpl.
  rewrite take_ge by (unfold zlen; lia). done.
Qed.

Lemma wp_on_io {A} (f : Socket -> A * Socket) (Q : A -> Io -> Prop) i :
  Q (f (io i)).1 (set_io (f (io i)).2 i) -> wp (on_io f) Q i.
Proof. intros HQ. unfold wp, on_io. by destruct (f (io i)). Qed.

(** ** Writing *)

Definition write_ok (ws : WriteState) : Prop :=
  match ws with
  | WriteInit | WritePoisoned => True
  | WriteHeader h b off => zlen h = HEADER_SIZE /\ 0 <= off < HEADER_SIZE /\ zlen b <= usize_max
  | WriteBody b off => 0 <= off < zlen b /\ zlen b <= usize_max
  end.

(** What writing does: some of the bytes that were due are sent, in order. *)
Definition write_rel (i : Io) (r : poll (result unit IoError)) (i' : Io) : Prop :=
  read_state i' = read_state i /\ io_received (io i') = io_received (io i) /\
  write_ok (write_state i') /\
  (write_state i' = WritePoisoned <-> write_state i = WritePoisoned) /\
  (exists d, io_sent (io i') = io_sent (io i) ++ d /\
             unsent (write_state i) = d ++ unsent (write_state i')) /\
  (r = Ready (Ok tt) -> write_state i' = WriteInit).

(** The step of one iteration: [n] of the [v] bytes from [off] on have been taken. *)
Lemma write_step i i1 i' r (v tl : list byte) off n ws1 :
  0 <= off -> 0 <= n <= zlen v - off ->
  write_state i <> WritePoisoned -> ws1 <> WritePoisoned ->
  unsent (write_state i) = drop (Z.to_nat off) v ++ tl ->
  unsent ws1 = drop (Z.to_nat (off + n)) v ++ tl ->
  write_state i1 = ws1 -> read_state i1 = read_state i ->
  io_received (io i1) = io_received (io i) ->
  io_sent (io i1) = io_sent (io i) ++ take (Z.to_nat n) (drop (Z.to_nat off) v) ->
  write_rel i1 r i' -> write_rel i r i'.
Proof.
  intros Ho Hn Hp Hp1 Hu Hu1 Hw Hrs Hrc Hs (Hrs' & Hrc' & Hok & Hpo & (d & Hd & Hdu) & Hres).
  unfold write_rel. rewrite Hrs', Hrs, Hrc', Hrc. split_and!; try done.
  - rewrite Hpo, Hw. done.
  - exists (take (Z.to_nat n) (drop (Z.to_nat off) v) ++ d).
    rewrite Hd, Hs, <- app_assoc. split; [done |]. rewrite Hu, <- app_assoc, <- Hdu, Hw, Hu1.
    replace (drop (Z.to_nat (off + n)) v) with (drop (Z.to_nat n) (drop (Z.to_nat off) v))
      by (rewrite drop_drop; f_equal; lia).
    by rewrite app_assoc, take_drop.
Qed.

Lemma write_rel_refl i r :
  write_ok (write_state i) -> (r = Ready (Ok tt) -> write_state i = WriteInit) -> write_rel i r i.
Proof. intros. split_and!; try done. exists []. by rewrite app_nil_r. Qed.

(** A call of the socket that has moved nothing. *)
Lemma write_rel_io i s r :
  write_rel i r i -> io_received s = io_received (io i) -> io_sent s = io_sent (io i) ->
  write_rel i r (set_io s i).
Proof. unfold write_rel. simpl. by intros Hr -> ->. Qed.

(** One iteration: what is due is [v] from [off] on, then [tl]; [k] goes on with the new
    offset. *)
Lemma write_iter cx off (v tl : list byte) i k :
  0 <= off < zlen v -> zlen v <= usize_max -> write_state i <> WritePoisoned ->
  write_ok (write_state i) -> unsent (write_state i) = drop (Z.to_nat off) v ++ tl ->
  (forall n s, 0 < n <= zlen v - off ->
     (forall ws1 (m : M Io _), ws1 <> WritePoisoned -> unsent ws1 = drop (Z.to_nat (off + n)) v ++ tl ->
        wp m (write_rel (set_write_state ws1 (set_io s i))) (set_write_state ws1 (set_io s i)) ->
        wp (modify (set_write_state ws1) ≫= fun _ => m) (write_rel i) (set_io s i)) ->
     wp (k (off + n)) (write_rel i) (set_io s i)) ->
  wp (src ← lift (slice_from off v);
      r ← on_io (io_poll_write cx src);
      match r with
      | Pending => mret Pending
      | Ready (Err e) => mret (Ready (Err e))
      | Ready (Ok n) =>
          if n =? 0 then mret (Ready (Err WriteZero)) else
          offset ← lift (add_ usize_max off n);
          if zlen v <? offset then
            modify (set_write_state WritePoisoned) ≫= fun _ => mret (Ready (Err InvalidWriteCount))
          else k offset
      end) (write_rel i) i.
Proof.
  intros Ho Hv Hp Hok Hu Hk. assert (Hl : zlen (drop (Z.to_nat off) v) = zlen v - off) by zlen_lia.
  wp_step. apply wp_lift. rewrite slice_from_ret by lia. simpl. wp_step. apply wp_on_io.
  pose proof (io_write_law cx (drop (Z.to_nat off) v) (io i)) as Hlaw. rewrite Hl in Hlaw.
  destruct (io_poll_write _ _ _) as [[[n|e]|] s]; destruct Hlaw as [Hr Hs].
  - destruct Hs as [Hn Hs]. simpl. destruct (Z.eqb_spec n 0) as [-> | Hn0].
    { apply wp_ret. rewrite take_0, app_nil_r in Hs. by apply write_rel_io; [apply write_rel_refl |..]. }
    wp_step. apply wp_lift. rewrite add_ret by lia. simpl.
    destruct (Z.ltb_spec (zlen v) (off + n)); [lia |]. apply Hk; [lia |].
    intros ws1 m Hp1 Hu1 Hm. wp_step. apply wp_modify. eapply wp_mono; [exact Hm |].
    intros r i' Hrel.
    by apply (write_step i (set_write_state ws1 (set_io s i)) i' r v tl off n ws1); try (done || lia).
  - apply wp_ret. by apply write_rel_io; [apply write_rel_refl |..].
  - apply wp_ret. by apply write_rel_io; [apply write_rel_refl |..].
Qed.

Lemma poll_ready_loop_ok fuel cx i :
  write_ok (write_state i) -> (length (unsent (write_state i)) < fuel)%nat ->
  wp (poll_ready_loop fuel cx) (write_rel i) i.
Proof.
  revert i. induction fuel as [|fuel IH]; intros i Hok Hf; [lia |].
  simpl. wp_step. wp_step. pose proof usize_max_u32 as Hu. unfold u32_max in Hu.
  destruct (write_state i) as [|h b off|b off|] eqn:Hws; simpl in Hf.
  - apply wp_ret. apply write_rel_refl; by rewrite Hws.
  - destruct Hok as (Hh & Ho & Hb). unfold HEADER_SIZE in *.
    rewrite length_app, length_drop in Hf.
    apply (write_iter cx off h b); rewrite ?Hws; try (done || lia).
    intros n s Hn Hgo. unfold zlen in Hh. destruct (Z.eqb_spec (off + n) (zlen h)) as [He | He].
    + rewrite drop_ge in Hgo by (unfold zlen in He; lia). apply Hgo.
      1, 2: by case_decide; subst.
      apply IH; simpl; case_decide; simpl; rewrite ?length_drop; try (done || lia).
      destruct b; [done |]. zlen_lia.
    + apply Hgo; [done | done |]. apply IH; simpl; [unfold HEADER_SIZE, zlen in *; lia |].
      rewrite length_app, length_drop. lia.
  - destruct Hok as (Ho & Hb). rewrite length_drop in Hf.
    apply (write_iter cx off b []); rewrite ?Hws, ?app_nil_r; try (done || lia).
    intros n s Hn Hgo. destruct (Z.eqb_spec (off + n) (zlen b)) as [He | He].
    + rewrite drop_ge in Hgo by (unfold zlen in He; lia). apply Hgo; [done | done |].
      apply IH; simpl; [done |]. unfold zlen in *. lia.
    + rewrite app_nil_r in Hgo. apply Hgo; [done | done |]. apply IH; simpl; [lia |].
      rewrite length_drop. unfold zlen in *. lia.
  - apply wp_ret. by apply write_rel_refl; rewrite ?Hws.
Qed.

Lemma io_poll_ready_ok cx i :
  write_ok (write_state i) -> wp (io_poll_ready cx) (write_rel i) i.
Proof. intros Hok. apply (poll_ready_loop_ok _ cx i Hok). lia. Qed.

(** A call of the socket after the last byte was taken. *)
Lemma write_rel_then i i1 (f : Socket -> poll (result unit IoError) * Socket) :
  write_rel i (Ready (Ok tt)) i1 ->
  io_received (f (io i1)).2 = io_received (io i1) -> io_sent (f (io i1)).2 = io_sent (io i1) ->
  write_rel i (f (io i1)).1 (set_io (f (io i1)).2 i1).
Proof.
  intros (Hrs & Hrc & Hok1 & Hp & Hd & Hi) Hr Hs. unfold write_rel. simpl. rewrite Hr, Hs.
  split_and!; try done. intros _. by apply Hi.
Qed.

Lemma io_sink_flush_ok cx i :
  write_ok (write_state i) -> wp (io_sink_flush cx) (write_rel i) i.
Proof.
  intros Hok. unfold io_sink_flush. wp_step.
  eapply wp_mono; [by apply io_poll_ready_ok |]. intros r i1 Hw.
  destruct r as [[[]|e]|]; [| by apply wp_ret..].
  apply wp_on_io. by apply (write_rel_then i i1); [| apply io_flush_law..].
Qed.

Lemma io_sink_close_ok cx i :
  write_ok (write_state i) -> wp (io_sink_close cx) (write_rel i) i.
Proof.
  intros Hok. unfold io_sink_close. wp_step.
  eapply wp_mono; [by apply io_poll_ready_ok |]. intros r i1 Hw.
  destruct r as [[[]|e]|]; [| by apply wp_ret..].
  apply wp_on_io. by apply (write_rel_then i i1); [| apply io_close_law..].
Qed.

(** What the client of the sink may do, and the frames it has got accepted: a frame is handed over
    only when the sink is ready. *)
Inductive SinkOp : Set :=
| SinkSend (f : Frame unit)
| SinkFlush
| SinkClose.

Definition sink_op (cx : Waker) (op : SinkOp) : M Io (list (Frame unit)) :=
  match op with
  | SinkSend f =>
      r ← io_poll_ready cx;
      match r with
      | Ready (Ok _) => io_start_send f ≫= fun _ => mret [f]
      | _ => mret []
      end
  | SinkFlush => io_sink_flush cx ≫= fun _ => mret []
  | SinkClose => io_sink_close cx ≫= fun _ => mret []
  end.

Fixpoint sink_ops (cx : Waker) (ops : list SinkOp) : M Io (list (Frame unit)) :=
  match ops with
  | [] => mret []
  | op :: ops => fs ← sink_op cx op; gs ← sink_ops cx ops; mret (fs ++ gs)
  end.

Definition sink_op_ok (op : SinkOp) : Prop :=
  match op with SinkSend f => zlen (body f) <= usize_max | _ => True end.

(** All bytes sent or due. *)
Definition on_wire (i : Io) : list byte := io_sent (io i) ++ unsent (write_state i).

Definition sink_rel (i : Io) (fs : list (Frame unit)) (i' : Io) : Prop :=
  write_ok (write_state i') /\ read_state i' = read_state i /\
  io_received (io i') = io_received (io i) /\
  on_wire i' = on_wire i ++ wires fs.

Lemma write_rel_sink i r i' : write_rel i r i' -> sink_rel i [] i'.
Proof.
  intros (Hr & Hrc & Hok & _ & (d & Hd & Hu) & _). split_and!; try done.
  unfold on_wire. simpl. by rewrite Hd, Hu, <- app_assoc, app_nil_r.
Qed.

Lemma sink_op_spec cx op i :
  write_ok (write_state i) -> sink_op_ok op -> wp (sink_op cx op) (sink_rel i) i.
Proof.
  intros Hok Hop. destruct op as [f | |]; simpl; wp_step.
  - eapply wp_mono; [by apply io_poll_ready_ok |]. intros r i1 Hw.
    pose proof (write_rel_sink _ _ _ Hw) as Hs.
    destruct r as [[[]|e]|]; [| by apply wp_ret..].
    unfold io_start_send. repeat wp_step.
    destruct Hs as (_ & Hr & Hrc & Hon). destruct Hw as (_ & _ & _ & _ & _ & Hi).
    unfold on_wire in *. rewrite Hi in Hon by done. split; [| split_and!; try done].
    + by split_and!; [apply zlen_encode |..].
    + unfold wires in *. cbn [unsent map concat] in Hon. rewrite !app_nil_r in Hon. unfold on_wire.
      cbn [map concat unsent write_state set_write_state io]. by rewrite Hon, app_nil_r.
  - eapply wp_mono; [by apply io_sink_flush_ok |]. intros r i1 Hw. apply wp_ret. by eapply write_rel_sink.
  - eapply wp_mono; [by apply io_sink_close_ok |]. intros r i1 Hw. apply wp_ret. by eapply write_rel_sink.
Qed.

Lemma sink_ops_spec cx ops i :
  write_ok (write_state i) -> Forall sink_op_ok ops -> wp (sink_ops cx ops) (sink_rel i) i.
Proof.
  intros Hok Hops. revert i Hok. induction Hops as [|op ops Hop _ IH]; intros i Hok; simpl.
  - apply wp_ret. split_and!; try done. simpl. by rewrite app_nil_r.
  - wp_step. eapply wp_mono; [by apply sink_op_spec |]. intros fs i1 (Hok1 & Hr1 & Hc1 & Ho1).
    wp_step. eapply wp_mono; [by apply IH |]. intros gs i2 (Hok2 & Hr2 & Hc2 & Ho2).
    apply wp_ret. split_and!; try congruence.
    unfold wires. by rewrite Ho2, Ho1, map_app, concat_app, app_assoc.
Qed.

(** ** Reading *)

(** The bytes of the frame being read that have arrived. *)
Definition reading (rs : ReadState) : list byte :=
  match rs with
  | ReadInit => []
  | ReadHeader off buf => take (Z.to_nat off) buf
  | ReadBody h off buf => encode h ++ take (Z.to_nat off) buf
  end.

Definition read_ok (rs : ReadState) : Prop :=
  match rs with
  | ReadInit => True
  | ReadHeader off buf => zlen buf = HEADER_SIZE /\ 0 <= off <= HEADER_SIZE
  | ReadBody h off buf =>
      header_typed h /\ version h = 0 /\ tag h = TagData /\ len h <= MAX_FRAME_BODY_LEN /\
      zlen buf = len h /\ 0 <= off <= len h
  end.

(** The iterations that are left. *)
Definition read_left (rs : ReadState) : Z :=
  match rs with
  | ReadInit => HEADER_SIZE + MAX_FRAME_BODY_LEN + 4
  | ReadHeader off _ => HEADER_SIZE - off + MAX_FRAME_BODY_LEN + 3
  | ReadBody h off _ => len h - off + 1
  end.

Definition ReadResult : Type := poll (option (result (Frame unit) FrameDecodeError)).

(** What a poll that found the bytes [bs], the earlier ones included, has to return. *)
Definition read_res (bs : list byte) (r : ReadResult) (rs' : ReadState) : Prop :=
  match r with
  | Ready (Some (Ok f)) => parse_frame bs = Parsed f [] /\ rs' = ReadInit
  | Ready (Some (Err (DecodeIo _))) => parse_frame bs = Incomplete /\ reading rs' = bs
  | Ready (Some (Err e)) => parse_frame bs = Malformed e /\ reading rs' = bs
  | Ready None => bs = [] /\ reading rs' = []
  | Pending => parse_frame bs = Incomplete /\ reading rs' = bs
  end.

Definition read_io_rel (i : Io) (r : ReadResult) (i' : Io) : Prop :=
  write_state i' = write_state i /\ io_sent (io i') = io_sent (io i) /\
  read_ok (read_state i') /\
  exists d, io_received (io i') = io_received (io i) ++ d /\
            read_res (reading (read_state i) ++ d) r (read_state i').

(** The step of one iteration: [d] has arrived. *)
Lemma read_step i i1 i' r d rs1 :
  read_state i1 = rs1 -> write_state i1 = write_state i -> io_sent (io i1) = io_sent (io i) ->
  io_received (io i1) = io_received (io i) ++ d -> reading rs1 = reading (read_state i) ++ d ->
  read_io_rel i1 r i' -> read_io_rel i r i'.
Proof.
  intros Hrs Hws Hs Hrc Hrd (Hw & Hs' & Hok & (d' & Hrc' & Hres)).
  unfold read_io_rel. rewrite Hw, Hs'. split_and!; try done.
  exists (d ++ d'). rewrite Hrc', Hrc, app_assoc. split; [done |].
  by rewrite Hrs, Hrd in Hres; rewrite app_assoc.
Qed.

(** Stopping with a state that has the same bytes. *)
Lemma read_stop i i1 r :
  write_state i1 = write_state i -> io_sent (io i1) = io_sent (io i) ->
  io_received (io i1) = io_received (io i) -> read_ok (read_state i1) ->
  read_res (reading (read_state i)) r (read_state i1) -> read_io_rel i r i1.
Proof. intros. split_and!; try done. exists []. by rewrite !app_nil_r. Qed.

Lemma reading_incomplete rs :
  read_ok rs -> (match rs with ReadHeader off _ => off < HEADER_SIZE
                 | ReadBody h off _ => off < len h | ReadInit => True end) ->
  parse_frame (reading rs) = Incomplete.
Proof.
  destruct rs as [|off buf|h off buf]; cbn [reading read_ok]; [done | intros (Hb & Ho) Hlt | intros (Ht & Hv & Htg & Hl & Hb & Ho) Hlt].
  - unfold parse_frame. destruct (Z.ltb_spec (zlen (take (Z.to_nat off) buf)) HEADER_SIZE); [done | zlen_lia].
  - rewrite parse_frame_header by done. unfold parse_body. rewrite decide_False by auto.
    destruct (Z.ltb_spec MAX_FRAME_BODY_LEN (len h)); [lia |].
    destruct (Z.ltb_spec (zlen (take (Z.to_nat off) buf)) (len h)); [done | zlen_lia].
Qed.

(** One read of the socket into the part of [buf] from [off] on. *)
Lemma read_into_ok cx off until buf i (Q : _ -> Io -> Prop) :
  0 <= off < until -> until = zlen buf ->
  (forall r s buf', io_sent s = io_sent (io i) -> zlen buf' = zlen buf ->
     take (Z.to_nat off) buf' = take (Z.to_nat off) buf ->
     match r with
     | Ready (Ok n) => 0 <= n <= until - off /\
         io_received s = io_received (io i) ++ take (Z.to_nat n) (drop (Z.to_nat off) buf')
     | _ => io_received s = io_received (io i)
     end -> Q (r, buf') (set_io s i)) ->
  wp (read_into cx off until buf) Q i.
Proof.
  intros Ho Hu HQ. unfold read_into. wp_step. apply wp_lift. rewrite slice_ret by lia. simpl.
  wp_step. apply wp_on_io. pose proof (io_read_law cx (drop (Z.to_nat off) buf) (io i)) as Hlaw.
  destruct (io_poll_read _ _ _) as [[r dst] s]. simpl. destruct Hlaw as (Hl & Hs & Hr). apply wp_ret.
  assert (Hlen : length (take (Z.to_nat off) buf) = Z.to_nat off)
    by (rewrite length_take; unfold zlen in Hu; lia).
  rewrite length_drop in Hl.
  rewrite (drop_ge buf (Z.to_nat until)), app_nil_r by (unfold zlen in Hu; lia).
  apply HQ; [done | | by rewrite take_app_length' |].
  - unfold zlen in *. rewrite length_app, Hlen. lia.
  - rewrite drop_app_length' by done. destruct r as [[n|e]|]; [| done..].
    split; [| by apply Hr]. destruct Hr as [Hn _]. unfold zlen in *. rewrite length_drop in Hn. lia.
Qed.

(** One iteration that reads: [mk] is the state with a new offset and buffer, [pre] what came
    before the buffer, [eof] what to do when nothing is left, [m] how to go on. *)
Lemma read_iter cx off until buf i (mk : Z -> list byte -> ReadState) pre (eof m : M Io ReadResult) :
  0 <= off < until -> until = zlen buf -> until <= u32_max -> read_state i = mk off buf ->
  (forall o b, reading (mk o b) = pre ++ take (Z.to_nat o) b) ->
  (forall o b, zlen b = zlen buf -> 0 <= o <= until -> read_ok (mk o b)) ->
  parse_frame (reading (mk off buf)) = Incomplete ->
  (forall i1, read_io_rel i (Ready (Some (Err (DecodeIo UnexpectedEof)))) i1 ->
     (reading (mk off buf) = [] -> read_io_rel i (Ready None) i1) -> wp eof (read_io_rel i) i1) ->
  (forall i1 n b, 0 < n <= until - off -> zlen b = zlen buf -> read_state i1 = mk (off + n) b ->
     wp m (read_io_rel i1) i1) ->
  wp ('(r, buffer) ← read_into cx off until buf;
      match r with
      | Pending => modify (set_read_state (mk off buffer)) ≫= fun _ => mret Pending
      | Ready (Err e) =>
          modify (set_read_state (mk off buffer)) ≫= fun _ => mret (Ready (Some (Err (DecodeIo e))))
      | Ready (Ok n) =>
          if n =? 0 then modify (set_read_state (mk off buffer)) ≫= fun _ => eof
          else
            offset ← lift (add_ usize_max off n);
            modify (set_read_state (mk offset buffer)) ≫= fun _ => m
      end) (read_io_rel i) i.
Proof.
  intros Ho Hu Hmax Hrs Hmk Hok Hinc Heof Hm. wp_step. apply read_into_ok; [done.. |].
  intros r s b Hs Hlb Htk Hr. simpl. pose proof usize_max_u32.
  assert (Hsame : reading (mk off b) = reading (mk off buf)) by (by rewrite !Hmk, Htk).
  assert (Hstop : forall r', io_received s = io_received (io i) ->
    read_res (reading (mk off buf)) r' (mk off b) ->
    read_io_rel i r' (set_read_state (mk off b) (set_io s i))).
  { intros r' Hrc Hres. apply read_stop; try done; [by apply Hok; [| lia] | by rewrite Hrs]. }
  destruct r as [[n|e]|]; [destruct Hr as [Hn Hrc] | |].
  - destruct (Z.eqb_spec n 0) as [-> | Hn0]; wp_step.
    + rewrite take_0, app_nil_r in Hrc. apply wp_modify. apply Heof; [by apply Hstop |].
      intros Hnil. apply Hstop; [done |]. split; [done |]. by rewrite Hsame.
    + apply wp_lift. rewrite add_ret by lia. simpl. wp_step. apply wp_modify. eapply wp_mono.
      * by apply (Hm _ n b); [lia | |].
      * intros r' i' Hrel.
        apply (read_step i (set_read_state (mk (off + n) b) (set_io s i)) i' r'
                 (take (Z.to_nat n) (drop (Z.to_nat off) b)) _ eq_refl); try done.
        rewrite Hrs, Hmk, <- Htk, <- app_assoc, take_take_drop. simpl. rewrite Hmk.
        by replace (Z.to_nat off + Z.to_nat n)%nat with (Z.to_nat (off + n)) by lia.
  - wp_step. apply wp_modify. apply wp_ret. by apply Hstop.
  - wp_step. apply wp_modify. apply wp_ret. by apply Hstop.
Qed.

(** A complete header: a frame, an error, or the body follows. *)
Lemma decode_step h buf :
  zlen buf = HEADER_SIZE -> decode buf = Ok h ->
  header_typed h /\ version h = 0 /\ encode h = buf /\ as_usize (len h) = len h /\
  0 <= len h <= u32_max /\ parse_frame buf = parse_body h [].
Proof.
  intros Hl Hd. destruct (decode_canonical buf h) as (He & Ht & Hv); [unfold zlen, HEADER_SIZE in Hl; lia | done |].
  pose proof Ht as (_ & _ & _ & Hlen). pose proof usize_max_u32. split_and!; try (done || lia).
  - apply as_usize_small. lia.
  - rewrite <- He, <- (app_nil_r (encode h)). by apply parse_frame_header.
Qed.

Lemma decode_fail e buf :
  zlen buf = HEADER_SIZE -> decode buf = Err e -> parse_frame buf = Malformed (DecodeHeader e).
Proof.
  intros Hl Hd. unfold parse_frame. rewrite Hl, Z.ltb_irrefl.
  rewrite take_ge by (unfold zlen in Hl; lia). by rewrite Hd.
Qed.

(** A change of state that reads nothing. *)
Lemma read_silent i rs (m : M Io ReadResult) :
  reading rs = reading (read_state i) ->
  wp m (read_io_rel (set_read_state rs i)) (set_read_state rs i) ->
  wp (modify (set_read_state rs) ≫= fun _ => m) (read_io_rel i) i.
Proof.
  intros Hrd Hm. wp_step. apply wp_modify. eapply wp_mono; [exact Hm |]. intros r i' Hrel.
  by apply (read_step i (set_read_state rs i) i' r [] rs eq_refl); rewrite ?app_nil_r.
Qed.

(** What happens to a complete header: an error, a frame without a body, or [m] reads the body. *)
Lemma header_complete_ok buf i (m : M Io ReadResult) :
  zlen buf = HEADER_SIZE -> reading (read_state i) = buf -> read_ok (read_state i) ->
  (forall i1, read_ok (read_state i1) -> read_left (read_state i1) <= MAX_FRAME_BODY_LEN + 1 ->
     wp m (read_io_rel i1) i1) ->
  wp (match decode buf with
      | Err e => mret (Ready (Some (Err (DecodeHeader e))))
      | Ok header =>
          if decide (tag header <> TagData) then
            modify (set_read_state ReadInit) ≫= fun _ =>
            mret (Ready (Some (Ok (frame_new header))))
          else if MAX_FRAME_BODY_LEN <? as_usize (len header) then
            mret (Ready (Some (Err (FrameTooLarge (as_usize (len header))))))
          else
            modify (set_read_state (ReadBody header 0 (replicate (Z.to_nat (as_usize (len header))) x00)))
              ≫= fun _ => m
      end) (read_io_rel i) i.
Proof.
  intros Hl Hrd Hok Hm. destruct (decode buf) as [h|e] eqn:Hd; last first.
  { apply wp_ret. apply read_stop; rewrite ?Hrd; try done. split; [by apply decode_fail | exact Hrd]. }
  destruct (decode_step h buf Hl Hd) as (Ht & Hv & He & Hus & Hlen & Hp). unfold parse_body in Hp.
  case_decide as Htag.
  { wp_step. apply wp_modify. apply wp_ret. apply read_stop; try done. by rewrite Hrd. }
  rewrite Hus. destruct (MAX_FRAME_BODY_LEN <? len h) eqn:Hbig.
  { apply wp_ret. apply read_stop; rewrite ?Hrd; done. }
  apply Z.ltb_ge in Hbig. apply read_silent; [cbn [reading]; by rewrite take_0, app_nil_r, Hrd |].
  apply Hm; cbn [read_ok read_left set_read_state read_state]; [| lia].
  unfold zlen. rewrite length_replicate.
  by destruct (decide (tag h = TagData)); split_and!; try (done || lia).
Qed.

Lemma parse_frame_whole h buf :
  header_typed h -> version h = 0 -> tag h = TagData -> len h <= MAX_FRAME_BODY_LEN -> zlen buf = len h ->
  parse_frame (encode h ++ buf) = Parsed (mkFrame h buf) [].
Proof.
  intros Ht Hv Htg Hl Hb. rewrite parse_frame_header by done. unfold parse_body. rewrite decide_False by auto.
  destruct (Z.ltb_spec MAX_FRAME_BODY_LEN (len h)); [lia |]. rewrite Hb, Z.ltb_irrefl.
  unfold zlen in Hb. by rewrite take_ge, drop_ge by lia.
Qed.

Lemma poll_next_loop_ok fuel cx i :
  read_ok (read_state i) -> read_left (read_state i) <= Z.of_nat fuel ->
  wp (poll_next_loop fuel cx) (read_io_rel i) i.
Proof.
  assert (HM : MAX_FRAME_BODY_LEN = 1048576) by done.
  revert i. induction fuel as [|fuel IH]; intros i Hok Hf.
  { destruct (read_state i); simpl in Hok, Hf; unfold HEADER_SIZE in *; lia. }
  pose proof (reading_incomplete _ Hok) as Hinc. cbn [poll_next_loop]. wp_step. wp_step.
  destruct (read_state i) as [|off buf|h off buf] eqn:Hrs; cbn [read_ok read_left] in Hok, Hf.
  - apply read_silent; [by rewrite Hrs |].
    apply IH; [done |]. cbn [set_read_state read_state read_left]. unfold HEADER_SIZE in *. lia.
  - destruct Hok as (Hl & Ho). destruct (Z.eqb_spec off HEADER_SIZE) as [-> | Hne].
    + apply header_complete_ok; rewrite ?Hrs; try done.
      * cbn [reading]. rewrite take_ge; [done | unfold zlen in Hl; lia].
      * intros i1 Hok1 Hleft. apply IH; [done | lia].
    + apply (read_iter cx off HEADER_SIZE buf i ReadHeader []); try (done || lia).
      * intros o b Hb Hob. cbn [read_ok]. by rewrite Hb.
      * apply Hinc. lia.
      * intros i1 He Hn. destruct (Z.eqb_spec off 0) as [-> | Hn0]; apply wp_ret; [by apply Hn | done].
      * intros i1 n b Hn Hb Hrs1. apply IH; rewrite Hrs1; cbn [read_ok read_left];
          unfold HEADER_SIZE in *; lia.
  - destruct Hok as (Ht & Hv & Htg & Hl & Hb & Ho). pose proof usize_max_u32.
    assert (Hus : as_usize (len h) = len h).
    { apply as_usize_small. destruct Ht as (_ & _ & _ & ?). lia. }
    rewrite Hus. destruct (Z.eqb_spec off (len h)) as [-> | Hne].
    + wp_step. apply wp_modify. apply wp_ret. apply read_stop; try done. rewrite Hrs. cbn [reading].
      rewrite take_ge by (unfold zlen in Hb; lia). split; [by apply parse_frame_whole | done].
    + apply (read_iter cx off (len h) buf i (ReadBody h) (encode h)); try (done || lia).
      * apply Ht.
      * intros o b Hob Ho'. cbn [read_ok]. split_and!; (done || lia).
      * apply Hinc. lia.
      * intros i1 n b Hn Hob Hrs1. apply IH; rewrite Hrs1; cbn [read_ok read_left];
          [split_and!; (done || lia) | lia].
Qed.

Lemma io_poll_next_ok cx i :
  read_ok (read_state i) -> wp (io_poll_next cx) (read_io_rel i) i.
Proof.
  intros Hok. apply poll_next_loop_ok; [done |].
  rewrite io_read_fuel_val.
  destruct (read_state i); cbn [read_ok read_left] in *; unfold HEADER_SIZE in *;
    [done | lia |]. destruct Hok as (? & _ & _ & ? & _ & ?). lia.
Qed.

(** Polling [k] times, until the end of the stream or an error: the frames, and what stopped. *)
Fixpoint io_reads (k : nat) (cx : Waker) : M Io (list (Frame unit) * option (option FrameDecodeError)) :=
  match k with
  | O => mret ([], None)
  | S k =>
      r ← io_poll_next cx;
      match r with
      | Pending => io_reads k cx
      | Ready (Some (Ok f)) => '(fs, e) ← io_reads k cx; mret (f :: fs, e)
      | Ready None => mret ([], Some None)
      | Ready (Some (Err e)) => mret ([], Some (Some e))
      end
  end.

(** What can be the matter with the rest when reading has stopped. *)
Definition stop_reason (rest : list byte) (e : option (option FrameDecodeError)) : Prop :=
  match e with
  | None | Some (Some (DecodeIo _)) => parse_frame rest = Incomplete
  | Some None => rest = []
  | Some (Some e) => parse_frame rest = Malformed e
  end.

Lemma stop_reason_stuck rest e : stop_reason rest e -> stuck rest.
Proof.
  intros Hs f r Hp. destruct e as [[[]|]|]; simpl in Hs; try congruence. by subst rest.
Qed.

(** A state between two polls. *)
Definition between (rs : ReadState) : Prop := read_ok rs /\ parse_frame (reading rs) = Incomplete.

Lemma io_reads_ok k cx i :
  between (read_state i) ->
  wp (io_reads k cx) (fun '(fs, e) i' =>
    write_state i' = write_state i /\ io_sent (io i') = io_sent (io i) /\
    exists d, io_received (io i') = io_received (io i) ++ d /\
      parses (reading (read_state i) ++ d) fs (reading (read_state i')) /\
      stop_reason (reading (read_state i')) e) i.
Proof.
  revert i. induction k as [|k IH]; intros i [Hok Hinc]; simpl.
  - apply wp_ret. split_and!; try done. exists []. rewrite !app_nil_r.
    split_and!; [done | constructor | done].
  - wp_step. eapply wp_mono; [by apply io_poll_next_ok |].
    intros r i1 (Hw & Hs & Hok1 & d & Hrc & Hres).
    destruct r as [[[f|e]|]|].
    + destruct Hres as [Hp Hrs]. wp_step. eapply wp_mono; [apply IH; by rewrite Hrs |].
      intros [fs e] i2 (Hw2 & Hs2 & d2 & Hrc2 & Hp2 & He2). apply wp_ret.
      rewrite Hw2, Hs2. split_and!; try done. exists (d ++ d2).
      rewrite Hrc2, Hrc, app_assoc. split_and!; [done | | done].
      rewrite app_assoc. eapply parses_frame; [apply parse_frame_app; exact Hp |].
      rewrite Hrs in Hp2. done.
    + apply wp_ret. split_and!; try done. exists d. split; [done |].
      destruct e; destruct Hres as [Hp Hrd]; rewrite Hrd; by (split; [constructor |]).
    + apply wp_ret. split_and!; try done. exists d. split; [done |].
      destruct Hres as [-> Hrd]. rewrite Hrd. by split; [constructor |].
    + destruct Hres as [Hp Hrd]. eapply wp_mono; [apply IH; split; [done | by rewrite Hrd] |].
      intros [fs e] i2 (Hw2 & Hs2 & d2 & Hrc2 & Hp2 & He2). rewrite Hw2, Hs2. split_and!; try done.
      exists (d ++ d2). rewrite Hrc2, Hrc, app_assoc. split_and!; [done | | done].
      by rewrite app_assoc, <- Hrd.
Qed.
End io_spec.
