(* ===== verification/FrameRoundTrip.v ===== *)
(** * What the framing layer promises

    The theorems about reading, writing and the two ends of a byte stream together, and a scripted
    socket on which they are tried. *)
From Stdlib Require Import ZArith Lia Strings.Byte.
From stdpp Require Import base option list numbers.
From S2P Require Import Prelude.
From S2P Require Import Header.
From S2P Require Import Frame.
From S2P Require Import Config.
From S2P Require Import Command.
From S2P Require Import FrameIo.
From S2P Require Import FrameIoSpec.

Section framing.
Context `{Arch} `{Hio : AsyncIo} `{!AsyncIoLaws}.

(** C15: reading agrees with the reference parser, however the bytes arrive. Polling any number of
    times from a state between two polls never panics and never runs out of iterations; the frames
    delivered are exactly those of the bytes that arrived, the rest is kept for the next polls,
    the end of the stream is reported only on a frame boundary, and a header or size error exactly
    when the bytes are malformed. *)
Theorem io_reads_refines k cx i :
  between (read_state i) ->
  wp (io_reads k cx) (fun '(fs, e) i' =>
    write_state i' = write_state i /\ io_sent (io i') = io_sent (io i) /\
    exists d, io_received (io i') = io_received (io i) ++ d /\
      parses (reading (read_state i) ++ d) fs (reading (read_state i')) /\
      stop_reason (reading (read_state i')) e) i.
Proof. apply io_reads_ok. Qed.

(** C16: writing puts exactly the accepted frames on the wire. Whatever the client of the sink does
    (sending when it is ready, flushing, closing) and however the socket takes the bytes, no call
    panics, and the bytes sent followed by the bytes still due are the encodings of the frames
    that were accepted, in order. *)
Theorem sink_ops_refines cx ops i :
  write_ok (write_state i) -> Forall sink_op_ok ops ->
  wp (sink_ops cx ops) (fun fs i' =>
    io_sent (io i') ++ unsent (write_state i')
    = io_sent (io i) ++ unsent (write_state i) ++ wires fs /\
    read_state i' = read_state i /\ io_received (io i') = io_received (io i)) i.
Proof.
  intros Hok Hops. eapply wp_mono; [by apply sink_ops_spec |]. intros fs i' (_ & Hr & Hrc & Ho).
  split_and!; [| done | done]. unfold on_wire in Ho. by rewrite Ho, <- app_assoc.
Qed.

(** Everything a frame of the crate needs to be understood by the peer, on every operation. *)
Definition sink_op_sendable (op : SinkOp) : Prop :=
  match op with SinkSend f => frame_sendable f | _ => True end.

Lemma sink_ops_accepted cx ops i fs i' :
  sink_ops cx ops i = Ret (fs, i') -> Forall sink_op_sendable ops -> Forall frame_sendable fs.
Proof.
  intros He Hops. revert i fs i' He. induction Hops as [|op ops Hop _ IH]; intros i fs i' He.
  { simpl in He. by injection He as <- <-. }
  simpl in He. unfold mbind, M_bind in He.
  destruct (sink_op cx op i) as [[gs i1]| |] eqn:He1; [| done..].
  destruct (sink_ops cx ops i1) as [[hs i2]| |] eqn:He2; [| done..].
  injection He as <- <-. apply Forall_app. split; [| by eapply IH].
  destruct op as [f | |]; simpl in He1; unfold mbind, M_bind in He1.
  - destruct (io_poll_ready cx i) as [[[[[]|]|] i3]| |]; simpl in He1; try done;
      injection He1 as <- <-; [by apply Forall_singleton | apply Forall_nil_2..].
  - destruct (io_sink_flush cx i) as [[r i3]| |]; simpl in He1; try done; injection He1 as <- <-; apply Forall_nil_2.
  - destruct (io_sink_close cx i) as [[r i3]| |]; simpl in He1; try done; injection He1 as <- <-; apply Forall_nil_2.
Qed.

(** What is being written, and how much of it has been. *)
Definition write_place (ws : WriteState) : option (list byte * Z) :=
  match ws with
  | WriteHeader h _ off => Some (h, off)
  | WriteBody b off => Some (b, off)
  | _ => None
  end.

(** C38: a socket that claims to have taken more than it was given poisons the sink: the call fails with
    an error of its own, and from then on [poll_ready], [poll_flush] and [poll_close] fail, and touch
    neither the socket nor any state. Only [start_send] gets a sink out of this, and it always succeeds:
    it replaces whatever was being written, the poisoned state or a frame of which a part has been sent,
    by the new frame, and does not ask the socket. *)
Theorem poisoned_sink cx i :
  (forall v off n s,
     write_place (write_state i) = Some (v, off) -> 0 <= off <= zlen v ->
     io_poll_write cx (drop (Z.to_nat off) v) (io i) = (Ready (Ok n), s) ->
     zlen v < off + n <= usize_max ->
     io_poll_ready cx i = Ret (Ready (Err InvalidWriteCount), set_write_state WritePoisoned (set_io s i))) /\
  (write_state i = WritePoisoned ->
     io_poll_ready cx i = Ret (Ready (Err PoisonedSink), i) /\
     io_sink_flush cx i = Ret (Ready (Err PoisonedSink), i) /\
     io_sink_close cx i = Ret (Ready (Err PoisonedSink), i)) /\
  (forall f, io_start_send f i = Ret (Ok tt, set_write_state (WriteHeader (encode (header f)) (body f) 0) i)).
Proof.
  split_and!; [| | done].
  - intros v off n s Hv Hoff Hw Hn. unfold io_poll_ready.
    destruct i as [t rs [|h b o|b o|]]; simplify_eq/=; unfold mbind, M_bind, gets, lift; simpl;
      rewrite slice_from_ret by done; unfold on_io; simpl; rewrite Hw; simpl;
      (destruct (Z.eqb_spec n 0); [lia |]); rewrite add_ret by lia; simpl;
      (destruct (Z.ltb_spec (zlen v) (off + n)); [done | lia]).
  - intros Hp. assert (Hr : io_poll_ready cx i = Ret (Ready (Err PoisonedSink), i))
      by (unfold io_poll_ready; rewrite Hp; simpl; unfold mbind, M_bind, gets; by rewrite Hp).
    split_and!; [done | |]; unfold io_sink_flush, io_sink_close, mbind, M_bind; by rewrite Hr.
Qed.
End framing.

(** ** Two ends *)

(** C36: reading is independent of how the bytes are cut. Two fresh readers over any two sockets that
    have received the same bytes have delivered the same frames. *)
Theorem io_chunking_irrelevant `{Arch} (A1 A2 : AsyncIo) (L1 : @AsyncIoLaws A1) (L2 : @AsyncIoLaws A2)
    (s1 : @Socket A1) (s2 : @Socket A2) k1 k2 cx1 cx2 fs1 fs2 e1 e2 i1 i2 :
  io_received s1 = [] -> io_received s2 = [] ->
  io_reads k1 cx1 (io_new s1) = Ret ((fs1, e1), i1) ->
  io_reads k2 cx2 (io_new s2) = Ret ((fs2, e2), i2) ->
  io_received (io i1) = io_received (io i2) ->
  fs1 = fs2 /\ reading (read_state i1) = reading (read_state i2).
Proof.
  intros Hs1 Hs2 He1 He2 Hrc.
  assert (Hb : between ReadInit) by (by split).
  pose proof (@io_reads_ok _ A1 L1 k1 cx1 (io_new s1) Hb) as H1.
  pose proof (@io_reads_ok _ A2 L2 k2 cx2 (io_new s2) Hb) as H2.
  unfold wp in H1, H2. rewrite He1 in H1. rewrite He2 in H2. simpl in H1, H2.
  destruct H1 as (_ & _ & d1 & Hd1 & Hp1 & Hst1), H2 as (_ & _ & d2 & Hd2 & Hp2 & Hst2).
  rewrite Hs1 in Hd1. rewrite Hs2 in Hd2. simpl in Hd1, Hd2. rewrite <- Hd1 in Hp1.
  rewrite <- Hd2, <- Hrc in Hp2.
  apply (parses_det _ _ _ _ _ Hp1 (stop_reason_stuck _ _ Hst1) Hp2 (stop_reason_stuck _ _ Hst2)).
Qed.

(** C14: what one end sends, the other end receives. A fresh writer is given any operations, in which
    every frame to send is well formed and has a body of at most 1 MiB, and a fresh reader over any
    other socket has received some prefix of the bytes sent: the frames it delivered are a prefix of the
    frames the writer accepted, it never sees a malformed frame, and if it has received all bytes and
    nothing is left over, it has delivered all frames. (The writer accepts larger bodies too, which the
    reader refuses.) *)
Theorem frames_round_trip `{Arch} (A1 A2 : AsyncIo) (L1 : @AsyncIoLaws A1) (L2 : @AsyncIoLaws A2)
    (s : @Socket A1) (t : @Socket A2) cx ops fs i k cx' gs e j :
  io_sent s = [] -> io_received t = [] -> Forall sink_op_sendable ops ->
  sink_ops cx ops (io_new s) = Ret (fs, i) ->
  io_reads k cx' (io_new t) = Ret ((gs, e), j) ->
  io_received (io j) `prefix_of` io_sent (io i) ->
  gs `prefix_of` fs /\
  (forall err, e = Some (Some err) -> exists ioe, err = DecodeIo ioe) /\
  (io_received (io j) = wires fs -> gs = fs).
Proof.
  intros Hs Ht Hops Hw Hr [more Hpre].
  assert (Hall : Forall frame_sendable fs) by (exact (sink_ops_accepted _ _ _ _ _ Hw Hops)).
  assert (Hok : Forall sink_op_ok ops).
  { eapply Forall_impl; [| exact Hops]. intros [f | |]; try done. intros [_ Hl]. simpl in *.
    pose proof usize_max_u32. unfold u32_max, MAX_FRAME_BODY_LEN, MIB, KIB in *. lia. }
  pose proof (@sink_ops_spec _ A1 L1 cx ops (io_new s) I Hok) as H1. unfold wp in H1. rewrite Hw in H1.
  pose proof (@io_reads_ok _ A2 L2 k cx' (io_new t) (conj I eq_refl)) as H2. unfold wp in H2.
  rewrite Hr in H2. destruct H1 as (_ & _ & _ & Ho), H2 as (_ & _ & d & Hd & Hp & Hst).
  unfold on_wire in Ho. simpl in Ho, Hd, Hp. rewrite Hs in Ho. rewrite Ht in Hd. simpl in Ho, Hd.
  rewrite <- Hd in Hp. rewrite Hpre, <- app_assoc in Ho.
  destruct (parses_prefix _ _ _ _ _ Hp Hall Ho) as (fs' & -> & Hrest & Hmal). split_and!.
  - by exists fs'.
  - intros err ->. destruct err as [ioe | he | n]; [by exists ioe | exfalso..]; exact (Hmal _ Hst).
  - intros Hfull. destruct (parses_prefix _ _ _ [] _ Hp Hall) as (fs'' & Hfs & Hr2 & _);
      [by rewrite app_nil_r |].
    apply app_inv_head in Hfs as <-. rewrite app_nil_r in Hr2. destruct fs' as [|f fs']; [by rewrite app_nil_r |].
    exfalso. apply stop_reason_stuck in Hst. apply (Hst f (wires fs')). rewrite Hr2.
    unfold wires. cbn [map concat]. apply parse_frame_wire. apply Forall_app in Hall as [_ Hall].
    by inversion Hall.
Qed.

(** ** A scripted socket *)

(** What arrives, in pieces, an empty one for a moment with nothing to read, and after them the end;
    what has been read; how many bytes a write takes besides the first; what has been written. *)
Record ScriptSocket : Set := mkScript {
  incoming : list (list byte);
  arrived : list byte;
  takes : nat;
  departed : list byte;
}.

Definition script_read (buf : list byte) (s : ScriptSocket)
    : poll (result Z IoError) * list byte * ScriptSocket :=
  match incoming s with
  | [] => (Ready (Ok 0), buf, s)
  | [] :: q => (Pending, buf, mkScript q (arrived s) (takes s) (departed s))
  | c :: q =>
      let n := Nat.min (length buf) (length c) in
      (Ready (Ok (Z.of_nat n)), take n c ++ drop n buf,
       mkScript (if decide (drop n c = []) then q else drop n c :: q)
         (arrived s ++ take n c) (takes s) (departed s))
  end.

Definition script_write (buf : list byte) (s : ScriptSocket) : poll (result Z IoError) * ScriptSocket :=
  let n := Nat.min (length buf) (S (takes s)) in
  (Ready (Ok (Z.of_nat n)), mkScript (incoming s) (arrived s) (takes s) (departed s ++ take n buf)).

#[export] Instance script_io : AsyncIo := {|
  Socket := ScriptSocket;
  io_poll_read := fun _ => script_read;
  io_poll_write := fun _ => script_write;
  io_poll_flush := fun _ s => (Ready (Ok tt), s);
  io_poll_close := fun _ s => (Ready (Ok tt), s);
|}.

#[export] Instance script_laws : AsyncIoLaws.
Proof.
  refine {| io_received := arrived : Socket -> _; io_sent := departed : Socket -> _ |};
    [| | by intros cx s..].
  - intros cx buf s. simpl. unfold script_read. destruct (incoming s) as [|c q]; simpl.
    { rewrite take_0, app_nil_r. pose proof (zlen_nonneg buf). split_and!; (done || lia). }
    destruct c as [|b c]; [done |]. set (n := Nat.min (length buf) (length (b :: c))). simpl.
    assert (Hn : length (take n (b :: c)) = n) by (rewrite length_take; lia).
    split_and!; [| done | lia | unfold zlen; lia |].
    + rewrite length_app, Hn, length_drop. lia.
    + by rewrite Nat2Z.id, take_app_length'.
  - intros cx buf s. simpl. unfold script_write. simpl. rewrite Nat2Z.id. split_and!; try done; [lia |].
    unfold zlen. lia.
Defined.

(** Three frames, sent in steps of five bytes and received in odd pieces. *)
Definition script_frames : list (Frame unit) :=
  [frame_erase (frame_window_update 1 77);
   mkFrame (header_erase (header_syn (header_data 3 4))) [x01; x02; x03; x04];
   frame_erase (frame_ping 9)].

Definition script_out : @Socket script_io := mkScript [] [] 4 [].
Definition script_in : @Socket script_io :=
  mkScript [take 7 (wires script_frames); []; take 20 (drop 7 (wires script_frames));
            drop 27 (wires script_frames)] [] 0 [].

Definition script_ops : list SinkOp :=
  match map SinkSend script_frames with
  | op1 :: ops => SinkFlush :: op1 :: SinkFlush :: ops ++ [SinkFlush]
  | [] => []
  end.

(** The states the two ends reach. *)
Definition script_read_end : @Io script_io :=
  @mkIo script_io (mkScript [] (wires script_frames) 0 [])
    (ReadHeader 0 (replicate (Z.to_nat HEADER_SIZE) x00)) WriteInit.
Definition script_write_end : @Io script_io :=
  @mkIo script_io (mkScript [] [] 4 (wires script_frames)) ReadInit WriteInit.

Lemma script_read_run :
  @io_reads arch64 script_io 9 1%positive (io_new script_in) = Ret ((script_frames, Some None), script_read_end).
Proof. vm_compute. reflexivity. Qed.

Lemma script_write_run :
  @sink_ops arch64 script_io 1%positive script_ops (io_new script_out) = Ret (script_frames, script_write_end).
Proof. vm_compute. reflexivity. Qed.

Lemma script_sendable : Forall sink_op_sendable script_ops.
Proof.
  repeat apply Forall_cons_2; try exact I; try apply Forall_nil_2;
    (split; [| vm_compute; discriminate]);
    unfold frame_wf, header_typed; vm_compute; intuition discriminate.
Qed.

Lemma io_reads_refines_witness :
  wp (@io_reads arch64 script_io 9 1%positive) (fun '(fs, e) i' =>
    exists d, io_received (io i') = d /\ parses d fs (reading (read_state i')) /\
              stop_reason (reading (read_state i')) e) (io_new script_in).
Proof.
  eapply wp_mono.
  - apply (@io_reads_refines arch64 script_io script_laws 9 1%positive (io_new script_in)).
    split; [exact I | reflexivity].
  - intros [fs e] i' (_ & _ & d & Hd & Hp & Hs). exists d. exact (conj Hd (conj Hp Hs)).
Defined.

Lemma sink_ops_refines_witness :
  io_sent (io script_write_end) ++ unsent (write_state script_write_end) = wires script_frames.
Proof.
  assert (Hw : wp (@sink_ops arch64 script_io 1%positive script_ops)
    (fun fs i' => io_sent (io i') ++ unsent (write_state i') = wires fs) (io_new script_out)).
  { eapply wp_mono.
    - apply (@sink_ops_refines arch64 script_io script_laws 1%positive script_ops (io_new script_out));
        [exact I |]. repeat apply Forall_cons_2; try exact I; try apply Forall_nil_2; vm_compute; discriminate.
    - intros fs i' (Ho & _). exact Ho. }
  unfold wp in Hw. rewrite script_write_run in Hw. exact Hw.
Defined.

(** A socket that claims to have taken one byte more than it was given. *)
#[local] Instance boasting_io : AsyncIo := {|
  Socket := unit;
  io_poll_read := fun _ buf s => (Pending, buf, s);
  io_poll_write := fun _ buf s => (Ready (Ok (zlen buf + 1)), s);
  io_poll_flush := fun _ s => (Ready (Ok tt), s);
  io_poll_close := fun _ s => (Ready (Ok tt), s);
|}.

Definition boasting_end : Io := mkIo tt ReadInit (WriteBody [x01; x02; x03] 1).

Lemma poisoned_sink_witness :
  @io_poll_ready arch64 boasting_io 1%positive boasting_end
    = Ret (Ready (Err InvalidWriteCount), set_write_state WritePoisoned boasting_end) /\
  @io_sink_flush arch64 boasting_io 1%positive (set_write_state WritePoisoned boasting_end)
    = Ret (Ready (Err PoisonedSink), set_write_state WritePoisoned boasting_end).
Proof.
  split.
  - apply (proj1 (@poisoned_sink arch64 boasting_io 1%positive boasting_end) [x01; x02; x03] 1 3 tt);
      vm_compute; intuition discriminate.
  - apply (proj1 (proj2 (@poisoned_sink arch64 boasting_io 1%positive (set_write_state WritePoisoned boasting_end))) eq_refl).
Defined.

(** The same bytes in one piece. *)
Definition script_in_one : @Socket script_io := mkScript [wires script_frames] [] 0 [].

Lemma script_read_one_run :
  @io_reads arch64 script_io 4 1%positive (io_new script_in_one)
  = Ret ((script_frames, Some None), script_read_end).
Proof. vm_compute. reflexivity. Qed.

Lemma io_chunking_irrelevant_witness :
  script_frames = script_frames /\
  reading (read_state script_read_end) = reading (read_state script_read_end).
Proof.
  exact (@io_chunking_irrelevant arch64 script_io script_io script_laws script_laws script_in script_in_one
    9 4 1%positive 1%positive _ _ _ _ _ _ eq_refl eq_refl script_read_run script_read_one_run eq_refl).
Defined.

Lemma frames_round_trip_witness :
  script_frames `prefix_of` script_frames /\
  (forall err, Some None = Some (Some err) -> exists ioe, err = DecodeIo ioe) /\
  (io_received (io script_read_end) = wires script_frames -> script_frames = script_frames).
Proof.
  refine (@frames_round_trip arch64 script_io script_io script_laws script_laws script_out script_in
    1%positive script_ops _ _ 9 1%positive _ _ _ eq_refl eq_refl script_sendable
    script_write_run script_read_run _).
  exists []. vm_compute. reflexivity.
Defined.
