(* ===== verification/Generators.v ===== *)
(** * Random test data: [quickcheck-ext], the [Arbitrary] instances, the property tests

    The extension of quickcheck in [quickcheck-ext/src/lib.rs]; the generators of configurations,
    round-trip times, flow controllers, headers and frames that the unit tests of the crate use, and
    those of the test harness; and the properties the unit tests check. The generator [Gen] and the
    instances for primitive types are code of quickcheck: a class, with what they promise as laws. *)
From Stdlib Require Import ZArith Lia Strings.Byte.
From stdpp Require Import base option list numbers.
From S2P Require Import Prelude.
From S2P Require Import Header.
From S2P Require Import Frame.
From S2P Require Import Config.
From S2P Require Import Command.
From S2P Require Import Rtt.
From S2P Require Import FlowControl.
From S2P Require Import FrameIo.
From S2P Require Import FrameIoSpec.

(** ** Quickcheck *)

(** [Gen], [Arbitrary] for primitive types, [Gen::choose], and [fill_bytes] of the rand crate. *)
Class Quickcheck : Type := {
  Gen : Type;
  arb_bool : Gen -> bool * Gen;
  arb_u8 : Gen -> byte * Gen;
  arb_u16 : Gen -> Z * Gen;
  arb_u32 : Gen -> Z * Gen;
  arb_u64 : Gen -> Z * Gen;
  arb_usize : Gen -> Z * Gen;
  arb_bytes : Gen -> list byte * Gen;
  arb_duration : Gen -> Duration * Gen;
  gen_choose : forall {A}, list A -> Gen -> option A * Gen;
  fill_bytes : nat -> Gen -> list byte * Gen;
}.

(** An arbitrary number is one of its type, an arbitrary duration is one that can be doubled, a
    choice from a list that is not empty is one of its elements. *)
Class QuickcheckLaws `{Arch, Quickcheck} : Prop := {
  arb_u16_range : forall g, 0 <= (arb_u16 g).1 <= u16_max;
  arb_u32_range : forall g, 0 <= (arb_u32 g).1 <= u32_max;
  arb_u64_range : forall g, 0 <= (arb_u64 g).1 <= u64_max;
  arb_usize_range : forall g, 0 <= (arb_usize g).1 <= usize_max;
  arb_duration_range : forall g, 0 <= (arb_duration g).1 <= instant_max;
  gen_choose_in : forall A (l : list A) g, l <> [] -> exists x, (gen_choose l g).1 = Some x /\ x ∈ l;
  fill_bytes_length : forall n g, length (fill_bytes n g).1 = n;
}.

Section generators.
Context `{Arch, Quickcheck}.

(** A generator of quickcheck as a computation. *)
Definition draw {A} (f : Gen -> A * Gen) : M Gen A := fun g => Ret (f g).

(** ** The extension *)

(** [gen_range] of the type with the generator [arb] and the maximum [max]. *)
Definition gen_range (arb : Gen -> Z * Gen) (max start end_ : Z) : M Gen Z :=
  x ← draw arb;
  d ← lift (sub_ end_ start);
  r ← lift (if d =? 0 then Panic else Ret (x mod d));
  lift (add_ max r start).

Definition gen_index (ubound : Z) : M Gen Z :=
  if ubound <=? u32_max then gen_range arb_u32 u32_max 0 (as_u32 ubound) else gen_range arb_usize usize_max 0 ubound.

(** [<[T]>::swap]. *)
Definition swap {A} (i j : nat) (l : list A) : outcome (list A) :=
  match l !! i, l !! j with
  | Some x, Some y => Ret (<[i := y]> (<[j := x]> l))
  | _, _ => Panic
  end.

(** [shuffle]: the loop over [(1..len).rev()], from the index [i] down. *)
Fixpoint shuffle_from {A} (i : nat) (arr : list A) : M Gen (list A) :=
  match i with
  | O => mret arr
  | S i' =>
      j ← gen_index (Z.of_nat i + 1);
      arr ← lift (swap i (Z.to_nat j) arr);
      shuffle_from i' arr
  end.
Definition shuffle {A} (arr : list A) : M Gen (list A) := shuffle_from (length arr - 1) arr.

Definition choose_multiple {A} (arr : list A) (amount : nat) : M Gen (list A) :=
  v ← shuffle arr; mret (take amount v).

(** ** The generators of the unit tests *)

(** [Arbitrary for Config]. *)
Definition config_arbitrary : M Gen Config :=
  max_num_streams ← gen_range arb_usize usize_max 0 u16_max;
  limited ← draw arb_bool;
  window ← (if limited : bool then
              p ← lift (mul_ usize_max DEFAULT_CREDIT max_num_streams);
              n ← gen_range arb_usize usize_max p usize_max; mret (Some n)
            else mret None);
  read_after_close ← draw arb_bool;
  split_send_size ← gen_range arb_usize usize_max DEFAULT_SPLIT_SEND_SIZE usize_max;
  mret (mkConfig window max_num_streams read_after_close split_send_size).

(** [Arbitrary for RttState], [RttInner] and [Rtt]; [now] is the reading of the clock. *)
Definition rtt_state_arbitrary (now : Instant) : M Gen RttState :=
  awaiting ← draw arb_bool;
  if awaiting : bool then id ← draw arb_u32; mret (AwaitingPong now id) else mret (Waiting now).

Definition rtt_arbitrary (now : Instant) : M Gen Rtt :=
  state ← rtt_state_arbitrary now;
  measured ← draw arb_bool;
  d ← (if measured : bool then d ← draw arb_duration; mret (Some d) else mret None);
  mret (mkRtt state d 0).

(** The [Input] of the unit test of flow control: the controller, with what its [Arc]s hold, and a
    buffer length. *)
Record Input : Set := mkInput {
  in_controller : FlowController;
  in_rtt : Rtt;
  in_accumulated : Z;
  in_buffer_len : Z;
}.

Definition saturating_add (max a b : Z) : Z := Z.min max (a + b).

Definition input_arbitrary (now now' : Instant) : M Gen Input :=
  config ← config_arbitrary;
  rtt ← rtt_arbitrary now;
  p ← lift (mul_ usize_max (max_num_streams config) DEFAULT_CREDIT);
  max_connection_minus_default ← lift (sub_ (default usize_max (max_connection_receive_window config)) p);
  max_receive_window ←
    (match rtt_get rtt with
     | None => mret DEFAULT_CREDIT
     | Some _ =>
         gen_range arb_u32 u32_max DEFAULT_CREDIT
           (saturating_add u32_max
              (default u32_max (try_from u32_max (saturating_add usize_max DEFAULT_CREDIT max_connection_minus_default))) 1)
     end);
  receive_window ← gen_range arb_u32 u32_max 0 max_receive_window;
  buffer_len ← gen_range arb_usize usize_max 0 max_receive_window;
  lower ← lift (sub_ max_receive_window DEFAULT_CREDIT);
  accumulated ← gen_range arb_usize usize_max lower (saturating_add usize_max max_connection_minus_default 1);
  ago ← gen_range arb_u64 u64_max 0 (60 * 60 * 24);
  send_window ← gen_range arb_u32 u32_max 0 u32_max;
  mret (mkInput (mkFlowController config (now' - duration_secs ago) receive_window max_receive_window send_window)
          rtt accumulated buffer_len).

(** [Arbitrary for Header<()>] and for [Frame<()>]. *)
Definition header_arbitrary : M Gen (Header unit) :=
  o ← draw (gen_choose [TagData; TagWindowUpdate; TagPing; TagGoAway]);
  tag ← lift (expect o);
  flags ← draw arb_u16;
  stream_id ← draw arb_u32;
  length ← draw arb_u32;
  mret (mkHeader 0 tag flags stream_id length).

Definition set_len (n : Z) (h : Header unit) : Header unit :=
  mkHeader (version h) (tag h) (flags h) (stream_id h) n.

Definition frame_arbitrary : M Gen (Frame unit) :=
  header ← header_arbitrary;
  if decide (tag header = TagData) then
    let header := set_len (len header mod 4096) header in
    b ← draw (fill_bytes (Z.to_nat (len header)));
    mret (mkFrame header b)
  else mret (mkFrame header []).

(** ** The generators of the test harness *)

(** [Arbitrary for TcpBufferSizes], [Msg] and [TestConfig]. *)
Definition tcp_buffer_sizes_arbitrary : M Gen (Z * Z) :=
  small ← draw arb_bool;
  let send := if small : bool then 16 * 1024 else 32 * 1024 in
  twice ← draw arb_bool;
  recv ← lift (if twice : bool then mul_ u32_max send 2 else mul_ u32_max send 4);
  mret (send, recv).

Definition msg_arbitrary : M Gen (list byte) :=
  msg ← draw arb_bytes;
  if decide (msg = []) then b ← draw arb_u8; mret (msg ++ [b]) else mret msg.

(** [shrink] of a message, given the smaller vectors that quickcheck proposes. *)
Definition msg_shrink (vs : list (list byte)) : list (list byte) := filter (fun v => v <> []) vs.

Definition test_config_arbitrary : M Gen Config :=
  let max_num_streams := 512 in
  read ← draw arb_bool;
  let c := set_read_after_close read config_default in
  c ← lift (set_max_num_streams max_num_streams c);
  limited ← draw arb_bool;
  if limited : bool then
    p ← lift (mul_ usize_max max_num_streams DEFAULT_CREDIT);
    n ← gen_range arb_usize usize_max p usize_max;
    lift (set_max_connection_receive_window (Some n) c)
  else lift (set_max_connection_receive_window None c).

(** ** The properties that the unit tests check *)

(** [encode_decode_identity] of [frame/header.rs]. *)
Definition header_property (hdr : Header unit) : bool :=
  match decode (encode hdr) with Ok x => bool_decide (x = hdr) | Err _ => false end.

(** [next_window_update] of [flow_control.rs], which only asks that the call does not panic. *)
Definition window_update_property (now now' : Instant) (i : Input) : outcome unit :=
  next_window_update (rtt_get (in_rtt i)) now now' (in_accumulated i) (in_buffer_len i) (in_controller i) ≫= fun _ =>
  mret tt.
End generators.

(** ** What the generators give *)

Section laws.
Context `{QuickcheckLaws}.

Lemma wp_draw {A} (f : Gen -> A * Gen) (Q : A -> Gen -> Prop) g : Q (f g).1 (f g).2 -> wp (draw f) Q g.
Proof. unfold wp, draw. by destruct (f g). Qed.

(** A number of the range, which must not be empty. *)
Lemma gen_range_ok arb max a b g :
  (forall g, 0 <= (arb g).1 <= max) -> 0 <= a < b -> b <= max ->
  wp (gen_range arb max a b) (fun x _ => a <= x < b) g.
Proof.
  intros Harb Hab Hb. unfold gen_range. wp_step. apply wp_draw. wp_step. apply wp_lift.
  rewrite sub_ret by lia. simpl. wp_step. apply wp_lift. destruct (Z.eqb_spec (b - a) 0); [lia |].
  pose proof (Z.mod_pos_bound (arb g).1 (b - a) ltac:(lia)). simpl. apply wp_lift. rewrite add_ret by lia. simpl. lia.
Qed.

Lemma gen_range_empty arb max a b g : b <= a -> gen_range arb max a b g = Panic.
Proof.
  intros Hab. unfold gen_range, mbind, M_bind, draw. destruct (arb g) as [x g']. unfold sub_, checked_sub.
  destruct (Z.leb_spec a b); [| done]. simpl. by assert (b - a = 0) as -> by lia.
Qed.

Lemma gen_index_ok n g : 0 < n <= usize_max -> wp (gen_index n) (fun x _ => 0 <= x < n) g.
Proof.
  intros Hn. unfold gen_index. destruct (Z.leb_spec n u32_max).
  - rewrite as_u32_small by lia. apply gen_range_ok; [apply arb_u32_range | lia | lia].
  - apply gen_range_ok; [apply arb_usize_range | lia | lia].
Qed.

(** Swapping two elements. *)
Lemma swap_perm {A} i j (l : list A) :
  (i < length l)%nat -> (j < length l)%nat -> exists k, swap i j l = Ret k /\ k ≡ₚ l.
Proof.
  intros Hi Hj. unfold swap.
  destruct (lookup_lt_is_Some_2 l i Hi) as [x Hx], (lookup_lt_is_Some_2 l j Hj) as [y Hy]. rewrite Hx, Hy.
  eexists. split; [done |]. apply Permutation_inj. rewrite !length_insert. split; [done |].
  exists (fun n => if decide (n = i) then j else if decide (n = j) then i else n). split.
  - intros n m. repeat case_decide; congruence.
  - intros n. rewrite !list_lookup_insert. repeat case_decide; subst; rewrite ?length_insert in *;
      intuition (congruence || lia).
Qed.

Lemma shuffle_from_ok {A} i (arr : list A) g :
  (i < length arr \/ i = 0)%nat -> zlen arr <= usize_max -> wp (shuffle_from i arr) (fun k _ => k ≡ₚ arr) g.
Proof.
  revert arr g. induction i as [|i IH]; intros arr g Hi Hl; simpl; [by apply wp_ret |].
  destruct Hi as [Hi | Hi]; [| done]. unfold zlen in *. wp_step.
  eapply wp_mono; [apply gen_index_ok; lia |]. cbv beta. intros j g' Hj. wp_step. apply wp_lift.
  destruct (swap_perm (S i) (Z.to_nat j) arr) as (k & Hk & Hp); [lia.. |]. rewrite Hk. simpl.
  pose proof (Permutation_length Hp) as Hlen.
  eapply wp_mono; [apply IH; rewrite Hlen; [left; lia | done] |]. cbv beta. intros k' g'' Hp'. by etrans.
Qed.

(** Shuffling permutes, whatever the source of randomness, never indexes out of bounds, and a choice
    of several elements takes them from different places. *)
Theorem shuffle_permutes {A} (arr : list A) amount g :
  zlen arr <= usize_max ->
  wp (shuffle arr) (fun k _ => k ≡ₚ arr) g /\
  wp (choose_multiple arr amount) (fun k _ => length k = Nat.min amount (length arr) /\ k ⊆+ arr) g.
Proof.
  intros Hl. assert (Hs : wp (shuffle arr) (fun k _ => k ≡ₚ arr) g).
  { apply shuffle_from_ok; [| done]. destruct arr as [|a arr]; simpl; [by right | left; lia]. }
  split; [exact Hs |]. unfold choose_multiple. wp_step. eapply wp_mono; [exact Hs |]. cbv beta. intros k g' Hp. apply wp_ret.
  rewrite length_take, (Permutation_length Hp). split; [done |].
  transitivity k; [apply sublist_submseteq, sublist_take | by rewrite Hp].
Qed.

Hypothesis usize_wide : 2 ^ 34 <= usize_max.

(** A configuration that satisfies the invariant. *)
Lemma config_arbitrary_ok g : wp config_arbitrary (fun c _ => config_ok c) g.
Proof.
  unfold config_arbitrary. wp_step. eapply wp_mono; [apply gen_range_ok; [apply arb_usize_range | unfold u16_max; lia..] |].
  cbv beta. intros n g1 Hn. wp_step. apply wp_draw. wp_step.
  assert (Hp : 0 <= DEFAULT_CREDIT * n < usize_max) by (unfold DEFAULT_CREDIT, KIB, u16_max in *; lia).
  eapply (wp_mono _ (fun w _ => match w with Some m => DEFAULT_CREDIT * n <= m < usize_max | None => True end)).
  { destruct (arb_bool g1).1; [| by apply wp_ret]. wp_step. apply wp_lift. rewrite mul_ret by lia. simpl.
    wp_step. eapply wp_mono; [apply gen_range_ok; [apply arb_usize_range | lia.. ] |]. cbv beta. intros m g2 Hm. by apply wp_ret. }
  intros w g2 Hw. wp_step. apply wp_draw. wp_step.
  eapply wp_mono; [apply gen_range_ok; [apply arb_usize_range | unfold DEFAULT_SPLIT_SEND_SIZE, KIB; lia.. ] |].
  cbv beta. intros sp g3 Hsp. apply wp_ret. unfold config_ok, config_budget. simpl.
  assert (0 <= sp) by (unfold DEFAULT_SPLIT_SEND_SIZE, KIB in *; lia).
  assert (n <= usize_max) by (unfold u16_max in *; lia).
  split_and!; try lia; [intros m ->; lia |]. destruct w as [m|]; simpl; lia.
Qed.

Lemma rtt_arbitrary_ok now g : wp (rtt_arbitrary now) (fun r _ => rtt_sane (rtt_get r)) g.
Proof.
  unfold rtt_arbitrary, rtt_state_arbitrary. wp_step. wp_step. apply wp_draw.
  assert (Hrest : forall st g', wp
    (measured ← draw arb_bool;
     d ← (if measured : bool then d ← draw arb_duration; mret (Some d) else mret None);
     mret (mkRtt st d 0)) (fun r _ => rtt_sane (rtt_get r)) g').
  { intros st g'. wp_step. apply wp_draw. wp_step. destruct (arb_bool g').1.
    - wp_step. apply wp_draw. apply wp_ret, wp_ret. intros d [= <-]. apply arb_duration_range.
    - apply wp_ret, wp_ret. by intros d. }
  destruct (arb_bool g).1; [wp_step; apply wp_draw |]; apply wp_ret, Hrest.
Qed.

(** The unread bytes of an [Input] may exceed what its window has given away; no flow controller of
    a connection is in such a state, and an update then does nothing. *)
Definition input_ok (i : Input) : Prop :=
  let fc := in_controller i in
  let config := fc_config fc in
  config_ok config /\ rtt_sane (rtt_get (in_rtt i)) /\
  DEFAULT_CREDIT <= fc_max_receive_window fc <= u32_max /\
  (rtt_get (in_rtt i) = None -> fc_max_receive_window fc = DEFAULT_CREDIT) /\
  0 <= fc_receive_window fc < fc_max_receive_window fc /\ 0 <= in_buffer_len i < fc_max_receive_window fc /\
  0 <= fc_send_window fc <= u32_max /\
  fc_max_receive_window fc - DEFAULT_CREDIT <= in_accumulated i <= config_budget config.

Lemma input_arbitrary_ok now now' g : wp (input_arbitrary now now') (fun i _ => input_ok i) g.
Proof.
  unfold input_arbitrary. wp_step. eapply wp_mono; [apply config_arbitrary_ok |]. intros c g1 Hc.
  wp_step. eapply wp_mono; [apply rtt_arbitrary_ok |]. intros r g2 Hr. wp_step. apply wp_lift.
  rewrite config_streams_mul by done. simpl. pose proof (config_limit_range c Hc) as Hlim.
  pose proof Hc as (_ & _ & _ & Hb). unfold config_budget in Hb.
  wp_step. apply wp_lift. rewrite sub_ret by lia. simpl. fold (config_budget c) in Hb |- *.
  assert (Hb' : config_budget c <= usize_max).
  { destruct Hc as (_ & Hn & _). unfold config_budget, DEFAULT_CREDIT, KIB in *. lia. }
  pose proof usize_max_u32 as Hu. unfold DEFAULT_CREDIT, KIB in *.
  wp_step. eapply (wp_mono _ (fun m _ => 256 * 1024 <= m <= u32_max /\ (rtt_get r = None -> m = 256 * 1024) /\
    m - 256 * 1024 <= config_budget c)).
  { destruct (rtt_get r); [| apply wp_ret; split_and!; (done || (unfold u32_max; lia))].
    set (up := saturating_add u32_max _ 1).
    assert (Hup : 256 * 1024 < up <= u32_max /\ up <= 256 * 1024 + config_budget c + 1).
    { unfold up, saturating_add, try_from. destruct (Z.leb_spec (Z.min usize_max (256 * 1024 + config_budget c)) u32_max);
        simpl; unfold u32_max in *; lia. }
    eapply wp_mono; [apply gen_range_ok; [apply arb_u32_range | lia..] |]. cbv beta. intros m g' Hm.
    split_and!; (done || lia). }
  cbv beta. intros m g3 (Hm & Hnone & Hmb). wp_step.
  eapply wp_mono; [apply gen_range_ok; [apply arb_u32_range | lia..] |]. cbv beta. intros rw g4 Hrw. wp_step.
  eapply wp_mono; [apply gen_range_ok; [apply arb_usize_range | lia..] |]. cbv beta. intros bl g5 Hbl. wp_step.
  apply wp_lift. rewrite sub_ret by lia. simpl. wp_step. unfold saturating_add.
  eapply wp_mono; [apply gen_range_ok; [apply arb_usize_range | unfold u32_max in *; lia..] |]. cbv beta.
  intros ac g6 Hac. wp_step. eapply wp_mono; [apply gen_range_ok; [apply arb_u64_range | unfold u64_max; lia..] |].
  cbv beta. intros ago g7 _. wp_step.
  eapply wp_mono; [apply gen_range_ok; [apply arb_u32_range | unfold u32_max; lia..] |]. cbv beta. intros sw g8 Hsw.
  apply wp_ret. unfold input_ok. simpl. unfold DEFAULT_CREDIT, KIB. split_and!; (done || lia).
Qed.

(** The update of an [Input]: when the bytes that it counts exceed the window nothing is granted. *)
Lemma window_update_input now now' i :
  input_ok i -> 1 <= max_num_streams (fc_config (in_controller i)) -> window_update_property now now' i = Ret tt.
Proof.
  intros (Hc & Hr & Hm & Hn & Hw & Hb & Hs & Ha) Hone. unfold window_update_property.
  set (fc := in_controller i) in *. set (bl := in_buffer_len i) in *.
  destruct (Z.le_gt_cases (fc_receive_window fc + bl) (fc_max_receive_window fc)) as [Hle | Hgt].
  - pose proof (next_window_update_ok (rtt_get (in_rtt i)) now now' (in_accumulated i) bl fc) as Hu.
    cbv zeta in Hu. assert (Hf : fc_ok (rtt_get (in_rtt i)) bl fc) by (unfold fc_ok; split_and!; (done || lia)).
    specialize (Hu Hf ltac:(unfold acc_ok, fc_claim; split_and!; (done || lia)) Hr).
    destruct (_ <? _); [by rewrite Hu | destruct Hu as (Hu & _); by rewrite Hu].
  - unfold next_window_update. rewrite assert_invariants_ret by (unfold fc_claim; (done || lia)). simpl.
    unfold window_to_grant. rewrite sub_ret by lia. simpl.
    assert (Hz : saturating_sub (fc_max_receive_window fc - fc_receive_window fc) (default u32_max (try_from u32_max bl)) = 0).
    { unfold saturating_sub, try_from. destruct (Z.leb_spec bl u32_max); simpl; lia. }
    rewrite Hz. unfold DEFAULT_CREDIT, KIB in Hm.
    assert (Hh : 1 <= fc_max_receive_window fc / 2) by (apply Z.div_le_lower_bound; lia).
    destruct (Z.ltb_spec 0 (fc_max_receive_window fc / 2)); [done | lia].
Qed.

Lemma header_arbitrary_ok g : wp header_arbitrary (fun h _ => header_typed h /\ version h = 0) g.
Proof.
  unfold header_arbitrary. wp_step. apply wp_draw. wp_step. apply wp_lift.
  destruct (gen_choose_in _ [TagData; TagWindowUpdate; TagPing; TagGoAway] g) as (t & -> & _); [done |]. simpl.
  wp_step. apply wp_draw. wp_step. apply wp_draw. wp_step. apply wp_draw. apply wp_ret.
  match goal with |- context [arb_u16 ?g] => pose proof (arb_u16_range g) end.
  repeat match goal with |- context [(arb_u32 ?g).1] =>
    lazymatch goal with H : 0 <= (arb_u32 g).1 <= _ |- _ => fail | _ => pose proof (arb_u32_range g) end end.
  split; [| done]. unfold header_typed, u8_max, u16_max, u32_max in *. simpl. auto with lia.
Qed.

(** A frame that the framing layer accepts and delivers, so that it round-trips. *)
Lemma frame_arbitrary_ok g : wp frame_arbitrary (fun f _ => frame_sendable f) g.
Proof.
  unfold frame_arbitrary. wp_step. eapply wp_mono; [apply header_arbitrary_ok |]. cbv beta. intros h g1 [Ht Hv].
  destruct (decide (tag h = TagData)) as [Hd | Hd].
  - wp_step. apply wp_draw. apply wp_ret. pose proof (Z.mod_pos_bound (len h) 4096 ltac:(lia)) as Hm.
    match goal with |- context [fill_bytes ?n ?g] => pose proof (fill_bytes_length n g) as Hl end. simpl in Hl.
    assert (Hz : forall b : list byte, length b = Z.to_nat (len h mod 4096) -> zlen b = len h mod 4096) by (unfold zlen; lia).
    apply Hz in Hl. split; simpl.
    + unfold frame_wf, header_typed, u32_max in *. simpl. rewrite Hd. simpl. rewrite Hl. split_and!; (done || lia).
    + rewrite Hl. unfold MAX_FRAME_BODY_LEN, MIB, KIB. lia.
  - apply wp_ret. split; simpl; [| unfold MAX_FRAME_BODY_LEN, MIB, KIB; rewrite zlen_nil; lia].
    unfold frame_wf. simpl. by rewrite decide_False.
Qed.

Lemma test_config_ok g : wp test_config_arbitrary (fun c _ => config_ok c /\ max_num_streams c = 512) g.
Proof.
  unfold test_config_arbitrary. wp_step. apply wp_draw.
  destruct config_default_ok as (_ & Hn & Hs & _). simpl in Hs.
  assert (Hgo : forall o c, c = mkConfig (Some GIB) 512 (arb_bool g).1 DEFAULT_SPLIT_SEND_SIZE ->
    match o with Some n => 512 * DEFAULT_CREDIT <= n < usize_max | None => True end ->
    returns (set_max_connection_receive_window o c) (fun c => config_ok c /\ max_num_streams c = 512)).
  { intros o c -> Ho. set (c' := mkConfig o 512 (arb_bool g).1 DEFAULT_SPLIT_SEND_SIZE).
    assert (Hb : 0 <= config_budget c').
    { unfold config_budget, c', DEFAULT_CREDIT, KIB in *. destruct o; simpl; lia. }
    assert (Hck : config_check c' = Ret tt)
      by (apply config_check_ret; split; [unfold DEFAULT_CREDIT, KIB; simpl; lia | done]).
    unfold set_max_connection_receive_window. simpl. fold c'. rewrite Hck. simpl. split; [| done].
    unfold DEFAULT_CREDIT, KIB in Ho.
    split_and!; [intros n; destruct o; intros [= ->]; lia | simpl; (done || lia)..]. }
  assert (Hset : set_max_num_streams 512 (set_read_after_close (arb_bool g).1 config_default)
    = Ret (mkConfig (Some GIB) 512 (arb_bool g).1 DEFAULT_SPLIT_SEND_SIZE)).
  { unfold set_max_num_streams. simpl.
    assert (Hck : config_check (mkConfig (Some GIB) 512 (arb_bool g).1 DEFAULT_SPLIT_SEND_SIZE) = Ret tt)
      by (apply config_check_ret; split; [unfold DEFAULT_CREDIT, KIB; simpl; lia | by vm_compute]).
    by rewrite Hck. }
  wp_step. apply wp_lift. rewrite Hset. simpl. wp_step. apply wp_draw.
  match goal with |- wp (if ?b then _ else _) _ _ => destruct b end.
  - wp_step. apply wp_lift. rewrite mul_ret by (unfold DEFAULT_CREDIT, KIB; lia). simpl. wp_step.
    eapply wp_mono; [apply gen_range_ok; [apply arb_usize_range | unfold DEFAULT_CREDIT, KIB; lia..] |].
    cbv beta. intros n g' Hn'. apply wp_lift. by apply Hgo.
  - apply wp_lift. by apply Hgo.
Qed.

(** The generators of the tests never panic, though they draw from computed ranges, and what they
    give is what the code may be used with: configurations with the invariant that flow controllers
    rely on, frames that the framing layer can carry, messages that are not empty, and receive
    buffers that are a multiple of the send buffers. *)
Theorem generators_sound g :
  wp config_arbitrary (fun c _ => config_ok c) g /\ wp test_config_arbitrary (fun c _ => config_ok c /\ max_num_streams c = 512) g /\
  wp frame_arbitrary (fun f _ => frame_sendable f) g /\
  wp msg_arbitrary (fun m _ => m <> []) g /\
  wp tcp_buffer_sizes_arbitrary (fun s _ => s.2 = 2 * s.1 \/ s.2 = 4 * s.1) g.
Proof.
  split_and!; [apply config_arbitrary_ok | apply test_config_ok | apply frame_arbitrary_ok | |].
  - unfold msg_arbitrary. wp_step. apply wp_draw. case_decide as Hm; [| by apply wp_ret].
    wp_step. apply wp_draw. apply wp_ret. by destruct (arb_bytes g).1.
  - unfold tcp_buffer_sizes_arbitrary. wp_step. apply wp_draw. wp_step. apply wp_draw. wp_step. apply wp_lift.
    destruct (arb_bool g).1; match goal with |- context [(arb_bool ?g).1] => destruct (arb_bool g).1 end;
      rewrite mul_ret by (unfold u32_max; lia); apply wp_ret; simpl; lia.
Qed.

(** The property tests of the crate hold of every input that their generators can make, not only of
    those that a run tries: encoding a header and decoding it gives it back, and the window update of
    an arbitrary flow controller, in or out of the invariant, panics on no assertion and no overflow,
    if its configuration allows at least one stream. *)
Theorem property_tests_hold now now' t t' g :
  wp header_arbitrary (fun h _ => header_property h = true) g /\
  wp (input_arbitrary now now') (fun i _ =>
    1 <= max_num_streams (fc_config (in_controller i)) -> window_update_property t t' i = Ret tt) g.
Proof.
  split.
  - eapply wp_mono; [apply header_arbitrary_ok |]. cbv beta. intros h g' [Ht Hv]. unfold header_property.
    rewrite decode_encode_eq by done. apply bool_decide_eq_true. by destruct h.
  - eapply wp_mono; [apply input_arbitrary_ok |]. cbv beta. intros i g' Hi Hn. by apply window_update_input.
Qed.
End laws.

(** ** A source of randomness *)

(** Numbers from a linear congruence, and a seed. *)
Definition lcg (z : Z) : Z := (z * 6364136223846793005 + 1442695040888963407) mod 2 ^ 64.

#[export] Instance lcg_gen : @Quickcheck := {|
  Gen := Z;
  arb_bool := fun g => (Z.testbit g 40, lcg g);
  arb_u8 := fun g => (byte_of_Z (g / 2 ^ 30), lcg g);
  arb_u16 := fun g => (g / 2 ^ 30 mod 2 ^ 16, lcg g);
  arb_u32 := fun g => (g / 2 ^ 30 mod 2 ^ 32, lcg g);
  arb_u64 := fun g => (g mod 2 ^ 64, lcg g);
  arb_usize := fun g => (g mod 2 ^ 32, lcg g);
  arb_bytes := fun g => (if Z.testbit g 41 then [byte_of_Z g] else [], lcg g);
  arb_duration := fun g => (g mod 1000, lcg g);
  gen_choose := fun A l g => (nth_error l (Z.to_nat (g mod Z.max 1 (zlen l))), lcg g);
  fill_bytes := fun n g => (replicate n (byte_of_Z g), lcg g);
|}.

#[export] Instance lcg_laws : @QuickcheckLaws arch64 lcg_gen.
Proof.
  split; try (intros g; simpl; unfold u16_max, u32_max, u64_max, usize_max, usize_bits, arch64, instant_max, duration_max;
    pose proof (Z.mod_pos_bound (g / 2 ^ 30) (2 ^ 16) ltac:(lia)); pose proof (Z.mod_pos_bound (g / 2 ^ 30) (2 ^ 32) ltac:(lia));
    pose proof (Z.mod_pos_bound g (2 ^ 32) ltac:(lia)); pose proof (Z.mod_pos_bound g (2 ^ 64) ltac:(lia));
    pose proof (Z.mod_pos_bound g 1000 ltac:(lia)); lia).
  - intros g. simpl. pose proof (Z.mod_pos_bound g 1000 ltac:(lia)).
    assert (1000 <= instant_max) by (vm_compute; discriminate). lia.
  - intros A l g Hl. simpl. set (n := Z.to_nat _).
    assert (Hn : (n < length l)%nat).
    { pose proof (Z.mod_pos_bound g (Z.max 1 (zlen l)) ltac:(lia)). destruct l; [done |]. unfold n, zlen in *. simpl in *. lia. }
    destruct (nth_error l n) as [x|] eqn:E; [| by apply nth_error_None in E; lia].
    exists x. split; [done |]. apply list_elem_of_In. by eapply nth_error_In.
  - intros n g. apply length_replicate.
Qed.

Definition seed : @Gen lcg_gen := 2024.

Lemma arch64_wide : 2 ^ 34 <= @usize_max arch64.
Proof. vm_compute. discriminate. Qed.

Lemma shuffle_permutes_witness :
  wp (@shuffle arch64 lcg_gen nat [1; 2; 3; 4]%nat) (fun k _ => k ≡ₚ [1; 2; 3; 4]%nat) seed.
Proof.
  assert (Hl : zlen [1; 2; 3; 4]%nat <= @usize_max arch64) by (vm_compute; discriminate).
  exact (proj1 (shuffle_permutes [1; 2; 3; 4]%nat 2 seed Hl)).
Defined.

Lemma generators_sound_witness : wp (@config_arbitrary arch64 lcg_gen) (fun c _ => @config_ok arch64 c) seed.
Proof. exact (proj1 (generators_sound arch64_wide seed)). Defined.

Lemma property_tests_hold_witness : wp (@header_arbitrary lcg_gen) (fun h _ => header_property h = true) seed.
Proof. exact (proj1 (property_tests_hold arch64_wide 5 5 7 7 seed)). Defined.

(** Without a stream the limit is not what the arithmetic expects: an input that the generator can
    make, on which the update overflows. *)
Definition no_streams_input : Input :=
  mkInput (mkFlowController (mkConfig None 0 true DEFAULT_SPLIT_SEND_SIZE) 0 0 (2 * DEFAULT_CREDIT) 0)
    (mkRtt (Waiting 0) (Some 1000) 0) DEFAULT_CREDIT 0.

Example no_streams_overflow : @input_ok arch64 no_streams_input /\ @window_update_property arch64 0 0 no_streams_input = Panic.
Proof.
  split; [| vm_compute; reflexivity]. unfold input_ok, config_ok. split_and!;
    lazymatch goal with |- rtt_sane _ => idtac | |- forall _, _ => done | _ => vm_compute; (reflexivity || discriminate) end.
  intros d [= <-]. vm_compute. split; discriminate.
Qed.
