(* ===== verification/Loopback.v ===== *)
(** * The loopback test of the framed socket

    The unit test of [frame/io.rs]: a frame is sent into a growing vector, the cursor is set back, and the
    frame that is read must be the same. The cursor is code of the futures crate: a class, with what is
    documented of it. *)
From Stdlib Require Import ZArith Lia Strings.Byte.
From stdpp Require Import base option list numbers.
From S2P Require Import Prelude.
From S2P Require Import Header.
From S2P Require Import Frame.
From S2P Require Import Config.
From S2P Require Import Command.
From S2P Require Import Rtt.
From S2P Require Import FlowControl.
From S2P Require Import FrameIo.
From S2P Require Import FrameIoSpec.
From S2P Require Import Generators.

(** [Cursor::new(Vec::new())] and [set_position]. *)
Class Cursor `{AsyncIo} : Type := {
  cursor_new : Socket;
  set_position : Z -> Socket -> Socket;
}.

(** A cursor is a vector and a position. At the end of the vector a write appends all bytes; a read
    copies what is there from the position on, and moves it; nothing has to wait, and nothing fails. *)
Class CursorLaws `{Cursor} : Type := {
  cursor_data : Socket -> list byte;
  cursor_pos : Socket -> nat;
  cursor_new_law : cursor_data cursor_new = [] /\ cursor_pos cursor_new = O;
  set_position_law : forall n s,
    cursor_data (set_position n s) = cursor_data s /\ cursor_pos (set_position n s) = Z.to_nat n;
  cursor_write_law : forall cx buf s, cursor_pos s = length (cursor_data s) ->
    let '(r, s') := io_poll_write cx buf s in
    r = Ready (Ok (zlen buf)) /\ cursor_data s' = cursor_data s ++ buf /\ cursor_pos s' = length (cursor_data s');
  cursor_read_law : forall cx buf s, let '(r, buf', s') := io_poll_read cx buf s in
    let rest := drop (cursor_pos s) (cursor_data s) in
    let n := Nat.min (length buf) (length rest) in
    r = Ready (Ok (Z.of_nat n)) /\ buf' = take n rest ++ drop n buf /\
    cursor_data s' = cursor_data s /\ cursor_pos s' = (cursor_pos s + n)%nat;
  cursor_flush_law : forall cx s, io_poll_flush cx s = (Ready (Ok tt), s);
}.

#[local] Arguments Z.eqb _ _ : simpl never.

Section loopback.
Context `{Arch, Cursor}.

(** A future that is pending here is never woken. *)
Definition await {S A} (m : M S (poll A)) : M S A :=
  r ← m; match r with Ready a => mret a | Pending => lift OutOfFuel end.

(** [SinkExt::send]: wait for room, send, flush. *)
Definition send (cx : Waker) (f : Frame unit) : M Io (result unit IoError) :=
  r ← await (io_poll_ready cx);
  match r with
  | Err e => mret (Err e)
  | Ok _ =>
      r ← io_start_send f;
      match r with Err e => mret (Err e) | Ok _ => await (io_sink_flush cx) end
  end.

(** The property of the test. *)
Definition encode_decode_identity (cx : Waker) (f : Frame unit) : outcome bool :=
  '(b, _) ← (r ← send cx f;
             match r with
             | Err _ => mret false
             | Ok _ =>
                 r ← await (io_sink_flush cx);
                 match r with
                 | Err _ => mret false
                 | Ok _ =>
                     modify (fun i => set_io (set_position 0 (io i)) i) ≫= fun _ =>
                     x ← await (io_poll_next cx);
                     mret (match x with Some (Ok x) => bool_decide (x = f) | _ => false end)
                 end
             end) (io_new cursor_new);
  Ret b.

Context `{!CursorLaws}.

(** A vector and a position in it. *)
Definition holds (bs : list byte) (p : nat) (s : Socket) : Prop := cursor_data s = bs /\ cursor_pos s = p.

(** *** Writing *)

(** One write takes all of a header, or all of a body. *)
Lemma cursor_write cx bs v s :
  holds bs (length bs) s -> exists s', io_poll_write cx v s = (Ready (Ok (zlen v)), s') /\ holds (bs ++ v) (length (bs ++ v)) s'.
Proof.
  intros [Hd Hp]. pose proof (cursor_write_law cx v s ltac:(by rewrite Hd)) as Hl.
  destruct (io_poll_write cx v s) as [r s']. destruct Hl as (-> & Hd' & Hp'). exists s'. split; [done |].
  rewrite Hd in Hd'. by split; [| rewrite Hp', Hd'].
Qed.

Lemma ready_header fuel cx bs h b s rs :
  holds bs (length bs) s -> h <> [] -> zlen h <= usize_max ->
  exists s', holds (bs ++ h) (length (bs ++ h)) s' /\
    poll_ready_loop (S fuel) cx (mkIo s rs (WriteHeader h b 0)) =
    poll_ready_loop fuel cx (mkIo s' rs (if decide (b = []) then WriteInit else WriteBody b 0)).
Proof.
  intros Hs Hne Hm. destruct (cursor_write cx bs h s Hs) as (s' & Hw & Hs'). exists s'. split; [done |].
  assert (Hl : 0 < zlen h) by (destruct h as [|x h]; [done | rewrite zlen_cons; pose proof (zlen_nonneg h); lia]).
  simpl. unfold mbind, M_bind, gets, lift. simpl. rewrite slice_from_ret by lia. unfold on_io. simpl. rewrite drop_0, Hw.
  destruct (Z.eqb_spec (zlen h) 0); [lia |]. rewrite add_ret by lia. simpl.
  by rewrite Z.add_0_l, Z.ltb_irrefl, Z.eqb_refl.
Qed.

Lemma ready_body fuel cx bs b s rs :
  holds bs (length bs) s -> b <> [] -> zlen b <= usize_max ->
  exists s', holds (bs ++ b) (length (bs ++ b)) s' /\
    poll_ready_loop (S fuel) cx (mkIo s rs (WriteBody b 0)) = poll_ready_loop fuel cx (mkIo s' rs WriteInit).
Proof.
  intros Hs Hne Hm. destruct (cursor_write cx bs b s Hs) as (s' & Hw & Hs'). exists s'. split; [done |].
  assert (Hl : 0 < zlen b) by (destruct b as [|x b]; [done | rewrite zlen_cons; pose proof (zlen_nonneg b); lia]).
  simpl. unfold mbind, M_bind, gets, lift. simpl. rewrite slice_from_ret by lia. unfold on_io. simpl. rewrite drop_0, Hw.
  destruct (Z.eqb_spec (zlen b) 0); [lia |]. rewrite add_ret by lia. simpl.
  by rewrite Z.add_0_l, Z.ltb_irrefl, Z.eqb_refl.
Qed.

(** A frame that has been accepted is written by one call. *)
Lemma cursor_flush cx s rs : io_sink_flush cx (mkIo s rs WriteInit) = Ret (Ready (Ok tt), mkIo s rs WriteInit).
Proof. unfold io_sink_flush, io_poll_ready, mbind, M_bind, on_io. simpl. by rewrite cursor_flush_law. Qed.

Lemma flush_frame cx s rs (f : Frame unit) :
  holds [] 0 s -> zlen (body f) <= usize_max ->
  exists s', holds (encode (header f) ++ body f) (length (encode (header f) ++ body f)) s' /\
    io_sink_flush cx (mkIo s rs (WriteHeader (encode (header f)) (body f) 0)) = Ret (Ready (Ok tt), mkIo s' rs WriteInit).
Proof.
  intros Hs Hb. pose proof usize_max_u32 as Hu. unfold u32_max in Hu.
  assert (Hl : length (encode (header f)) = 12%nat) by apply length_encode.
  assert (Hne : encode (header f) <> []) by (intros He; by rewrite He in Hl).
  assert (Hfuel : exists n, length (unsent (WriteHeader (encode (header f)) (body f) 0)) = S (S n)).
  { cbn [unsent]. change (Z.to_nat 0) with O. rewrite drop_0, length_app, Hl. by eexists. }
  destruct Hfuel as [n Hn]. unfold io_sink_flush, io_poll_ready, mbind, M_bind. simpl write_state. rewrite Hn.
  destruct (ready_header (S (S n)) cx [] (encode (header f)) (body f) s rs Hs Hne ltac:(unfold zlen; lia)) as (s1 & Hs1 & ->).
  case_decide as Hbd.
  - exists s1. rewrite Hbd, app_nil_r. split; [done |]. unfold on_io. simpl. by rewrite cursor_flush_law.
  - destruct (ready_body (S n) cx _ (body f) s1 rs Hs1 Hbd Hb) as (s2 & Hs2 & ->). exists s2. split; [done |].
    unfold on_io. simpl. by rewrite cursor_flush_law.
Qed.

(** *** Reading *)

Lemma cursor_read cx bs p buf s rs ws :
  holds bs p s -> (p + length buf <= length bs)%nat ->
  exists s', holds bs (p + length buf) s' /\
    read_into cx 0 (zlen buf) buf (mkIo s rs ws) =
      Ret ((Ready (Ok (zlen buf)), take (length buf) (drop p bs)), mkIo s' rs ws).
Proof.
  intros [Hd Hp] Hb. unfold read_into, mbind, M_bind, lift, on_io. pose proof (zlen_nonneg buf).
  rewrite slice_ret by lia. simpl. rewrite ?drop_0. pose proof (cursor_read_law cx buf s) as Hl. rewrite Hd, Hp in Hl.
  destruct (io_poll_read cx buf s) as [[r buf'] s']. cbv zeta in Hl. rewrite length_drop, Nat.min_l in Hl by lia.
  destruct Hl as (-> & -> & Hd' & Hp'). exists s'. split; [by split |]. unfold mret, M_ret. simpl.
  unfold zlen. by rewrite Nat2Z.id, !drop_all, !app_nil_r.
Qed.

Lemma read_fuel k : (k <= 16)%nat -> exists n, io_read_fuel = (k + n)%nat.
Proof.
  intros Hk. exists (io_read_fuel - k)%nat. pose proof io_read_fuel_val as Hv.
  unfold HEADER_SIZE, MAX_FRAME_BODY_LEN, MIB, KIB in Hv. lia.
Qed.

(** The iterations of the loop. *)
Lemma next_header fuel cx s buf ws buf' s' :
  read_into cx 0 HEADER_SIZE buf (mkIo s (ReadHeader 0 buf) ws) =
    Ret ((Ready (Ok HEADER_SIZE), buf'), mkIo s' (ReadHeader 0 buf) ws) ->
  poll_next_loop (S fuel) cx (mkIo s (ReadHeader 0 buf) ws) = poll_next_loop fuel cx (mkIo s' (ReadHeader HEADER_SIZE buf') ws).
Proof.
  intros Hr. simpl. unfold mbind, M_bind, gets. simpl. rewrite Hr. simpl. unfold lift.
  rewrite add_ret; [done |]. pose proof usize_max_u32. unfold u32_max, HEADER_SIZE in *. lia.
Qed.

Lemma next_body fuel cx s h buf ws buf' s' n :
  as_usize (len h) = n -> 0 < n <= usize_max ->
  read_into cx 0 n buf (mkIo s (ReadBody h 0 buf) ws) = Ret ((Ready (Ok n), buf'), mkIo s' (ReadBody h 0 buf) ws) ->
  poll_next_loop (S fuel) cx (mkIo s (ReadBody h 0 buf) ws) = poll_next_loop fuel cx (mkIo s' (ReadBody h n buf') ws).
Proof.
  intros Hn Hpos Hr. simpl. unfold mbind, M_bind, gets. simpl. rewrite Hn.
  destruct (Z.eqb_spec 0 n); [lia |]. rewrite Hr. simpl. destruct (Z.eqb_spec n 0); [lia |]. unfold lift.
  by rewrite add_ret by lia.
Qed.

Lemma next_whole fuel cx s h buf ws n :
  as_usize (len h) = n ->
  poll_next_loop (S fuel) cx (mkIo s (ReadBody h n buf) ws) = Ret (Ready (Some (Ok (mkFrame h buf))), mkIo s ReadInit ws).
Proof. intros <-. simpl. unfold mbind, M_bind, gets. simpl. by rewrite Z.eqb_refl. Qed.

Lemma next_decoded fuel cx s h buf ws :
  decode buf = Ok h -> (tag h = TagData -> as_usize (len h) <= MAX_FRAME_BODY_LEN) ->
  poll_next_loop (S fuel) cx (mkIo s (ReadHeader HEADER_SIZE buf) ws) =
    if decide (tag h <> TagData) then Ret (Ready (Some (Ok (frame_new h))), mkIo s ReadInit ws)
    else poll_next_loop fuel cx (mkIo s (ReadBody h 0 (replicate (Z.to_nat (as_usize (len h))) x00)) ws).
Proof.
  intros Hd Hm. simpl. unfold mbind, M_bind, gets. simpl. rewrite Hd. case_decide as Ht; [done |].
  specialize (Hm Ht). destruct (Z.ltb_spec MAX_FRAME_BODY_LEN (as_usize (len h))); [lia | done].
Qed.

(** A frame that is in the vector is read by one call. *)
Lemma next_frame cx s ws (f : Frame unit) :
  frame_sendable f -> holds (frame_wire f) 0 s ->
  exists s', io_poll_next cx (mkIo s ReadInit ws) = Ret (Ready (Some (Ok f)), mkIo s' ReadInit ws).
Proof.
  intros [(Ht & Hv & Hb) Hsz] Hs. unfold io_poll_next. destruct (read_fuel 6 ltac:(lia)) as [n ->].
  set (zs := replicate (Z.to_nat HEADER_SIZE) x00).
  assert (Hl : length (encode (header f)) = 12%nat) by apply length_encode.
  unfold frame_wire in Hs.
  destruct (cursor_read cx _ 0 zs s (ReadHeader 0 zs) ws Hs) as (s1 & Hs1 & Hr1); [rewrite length_app, Hl; simpl; lia |].
  change (length zs) with 12%nat in *. rewrite drop_0, take_app_le, take_ge in Hr1 by lia.
  pose proof (decode_encode_eq (header f) Ht Hv) as Hdec. 
  assert (He : header_erase (header f) = header f) by (by destruct (header f)). rewrite He in Hdec.
  change (6 + n)%nat with (S (S (S (S (S (S n)))))).
  change (poll_next_loop (S (S (S (S (S (S n)))))) cx (mkIo s ReadInit ws))
    with (poll_next_loop (S (S (S (S (S n))))) cx (mkIo s (ReadHeader 0 zs) ws)).
  rewrite (next_header _ _ _ _ _ _ _ Hr1).
  pose proof usize_max_u32 as Hu. assert (Hlen : 0 <= len (header f) <= u32_max) by (by destruct Ht as (_ & _ & _ & ?)).
  assert (Hus : as_usize (len (header f)) = len (header f)) by (apply as_usize_small; lia).
  destruct (decide (tag (header f) = TagData)) as [Hd | Hd].
  - rewrite (next_decoded _ _ _ (header f)), decide_False by (done || lia || auto). rewrite Hus, Hb.
    destruct (decide (body f = [])) as [Hbd | Hbd].
    + rewrite next_whole by (rewrite Hus, Hb, Hbd; done). exists s1. rewrite Hbd. destruct f. simpl in *. by subst.
    + set (bz := replicate (Z.to_nat (zlen (body f))) x00).
      assert (Hbz : length bz = length (body f)) by (unfold bz, zlen; rewrite length_replicate; lia).
      destruct (cursor_read cx _ (0 + 12) bz s1 (ReadBody (header f) 0 bz) ws Hs1) as (s2 & Hs2 & Hr2); [rewrite length_app; lia |].
      rewrite Hbz, drop_app_ge, take_ge in Hr2 by (rewrite ?length_drop; lia).
      rewrite (next_body _ cx s1 (header f) bz ws (body f) s2 (zlen (body f))).
      * rewrite next_whole by congruence. exists s2. by destruct f.
      * congruence.
      * destruct (body f); [done |]. rewrite zlen_cons in *. pose proof (zlen_nonneg l). lia.
      * assert (Hz : zlen bz = zlen (body f)) by (clear -Hbz; unfold zlen; by rewrite Hbz). rewrite Hz, Hl in Hr2. exact Hr2.
  - rewrite (next_decoded _ _ _ (header f)), decide_True by done. exists s1. destruct f. simpl in *. by subst.
Qed.

(** The test passes on every frame that can be sent. *)
Lemma loopback_passes cx f : frame_sendable f -> encode_decode_identity cx f = Ret true.
Proof.
  intros Hf. pose proof Hf as [_ Hsz]. pose proof usize_max_u32 as Hu. unfold MAX_FRAME_BODY_LEN, MIB, KIB, u32_max in *.
  assert (Hnew : holds [] 0 cursor_new) by apply cursor_new_law.
  destruct (flush_frame cx cursor_new ReadInit f Hnew ltac:(lia)) as (s1 & [Hd1 _] & Hflush).
  destruct (set_position_law 0 s1) as [Hd2 Hp2].
  destruct (next_frame cx (set_position 0 s1) WriteInit f Hf) as (s2 & Hnext); [split; [by rewrite Hd2, Hd1 | done] |].
  assert (Hsend : send cx f (io_new cursor_new) = Ret (Ok tt, mkIo s1 ReadInit WriteInit)).
  { change (send cx f (io_new cursor_new)) with
      (await (io_sink_flush cx) (mkIo cursor_new ReadInit (WriteHeader (encode (header f)) (body f) 0))).
    unfold await, mbind, M_bind. by rewrite Hflush. }
  unfold encode_decode_identity, await, mbind, M_bind. rewrite Hsend. simpl. rewrite cursor_flush. simpl.
  unfold set_io. simpl. rewrite Hnext. simpl.
  by rewrite bool_decide_eq_true_2.
Qed.
End loopback.

(** ** The property tests *)

Section tests.
Context `{Arch, Quickcheck, Cursor} `{!QuickcheckLaws, !CursorLaws}.
Hypothesis usize_34 : 2 ^ 34 <= usize_max.

(** C39: the property tests of the crate hold of every input that their generators can make, not only of
    those that a run tries, if [usize] reaches 2^34: encoding a header and decoding it gives it back, a
    frame that is sent into a growing vector is read back from it, and the window update of an arbitrary
    flow controller, in or out of the invariant, panics on no assertion and no overflow, if its
    configuration allows at least one stream. *)
Theorem all_property_tests_hold now now' t t' cx g :
  wp header_arbitrary (fun h _ => header_property h = true) g /\
  wp frame_arbitrary (fun f _ => encode_decode_identity cx f = Ret true) g /\
  wp (input_arbitrary now now') (fun i _ =>
    1 <= max_num_streams (fc_config (in_controller i)) -> window_update_property t t' i = Ret tt) g.
Proof.
  destruct (property_tests_hold usize_34 now now' t t' g) as [Hh Hi]. split_and!; [done | | done].
  eapply wp_mono; [apply frame_arbitrary_ok |]. intros f g' Hf. by apply loopback_passes.
Qed.
End tests.

(** ** A cursor *)

#[export] Instance vec_io : AsyncIo := {|
  Socket := (list byte * nat)%type;
  io_poll_read := fun _ buf s =>
    let rest := drop s.2 s.1 in
    let n := Nat.min (length buf) (length rest) in
    ((Ready (Ok (Z.of_nat n)), take n rest ++ drop n buf), (s.1, (s.2 + n)%nat));
  io_poll_write := fun _ buf s =>
    (Ready (Ok (zlen buf)), (take s.2 s.1 ++ buf ++ drop (s.2 + length buf) s.1, (s.2 + length buf)%nat));
  io_poll_flush := fun _ s => (Ready (Ok tt), s);
  io_poll_close := fun _ s => (Ready (Ok tt), s);
|}.

#[export] Instance vec_cursor : Cursor := {|
  cursor_new := ([], O) : Socket;
  set_position := fun n s => (s.1, Z.to_nat n);
|}.

#[export] Instance vec_laws : CursorLaws.
Proof.
  refine {| cursor_data := fst : Socket -> _; cursor_pos := snd : Socket -> _ |}; try done.
  intros cx buf [bs p] Hp. simpl in *. subst. split_and!; [done | |].
  - by rewrite take_ge, drop_ge, app_nil_r by lia.
  - rewrite !length_app, length_take, length_drop. lia.
Defined.

Lemma all_property_tests_hold_witness :
  wp (@frame_arbitrary lcg_gen) (fun f _ => @encode_decode_identity arch64 vec_io vec_cursor 7%positive f = Ret true) seed.
Proof. exact (proj1 (proj2 (all_property_tests_hold arch64_wide 5 5 7 7 7%positive seed))). Defined.
