(* ===== verification/Connection.v ===== *)
(** * The active connection: [Active] of [connection.rs]

    The handlers of inbound frames, the creation of streams, the commands of stream handles, and
    the loop that drives them. The methods of [Active] are computations on the connection and the
    world it shares with the stream handles. *)
From Stdlib Require Import ZArith Lia Strings.Byte.
From stdpp Require Import base option list gmap numbers.
From S2P Require Import Prelude.
From S2P Require Import Header.
From S2P Require Import Frame.
From S2P Require Import Config.
From S2P Require Import Command.
From S2P Require Import Rtt.
From S2P Require Import ChunkList.
From S2P Require Import FlowControl.
From S2P Require Import Shared.
From S2P Require Import Heap.
From S2P Require Import Channel.
From S2P Require Import TaggedStream.
From S2P Require Import StreamHandle.

(** Capacity of the channels between streams and connection. *)
Definition CHANNEL_CAPACITY : Z := 10.

Section connection.
Context `{Arch, Mpsc, SelectAllOps, FrameSocket, MapOrder}.

(** The receivers of the commands of all streams. *)
Definition Receivers : Type := SelectAll (TaggedStream Z Receiver).

(** The active state of [Connection]. The identifier of the connection is left out, and [rtt] and
    [accumulated_max_stream_windows], which the streams share, are part of the memory. *)
Record Active : Type := mkActive {
  ac_mode : Mode;
  ac_config : Config;
  ac_socket : FSock;
  ac_next_id : Z;
  ac_streams : gmap Z positive;
  ac_receivers : Receivers;
  ac_no_streams_waker : option Waker;
  ac_pending_read_frame : option (Frame unit);
  ac_pending_write_frame : option (Frame unit);
  ac_new_outbound_stream_waker : option Waker;
}.

Definition set_socket (x : FSock) (a : Active) : Active :=
  mkActive (ac_mode a) (ac_config a) x (ac_next_id a) (ac_streams a) (ac_receivers a)
    (ac_no_streams_waker a) (ac_pending_read_frame a) (ac_pending_write_frame a)
    (ac_new_outbound_stream_waker a).
Definition set_next_id (x : Z) (a : Active) : Active :=
  mkActive (ac_mode a) (ac_config a) (ac_socket a) x (ac_streams a) (ac_receivers a)
    (ac_no_streams_waker a) (ac_pending_read_frame a) (ac_pending_write_frame a)
    (ac_new_outbound_stream_waker a).
Definition set_streams (x : gmap Z positive) (a : Active) : Active :=
  mkActive (ac_mode a) (ac_config a) (ac_socket a) (ac_next_id a) x (ac_receivers a)
    (ac_no_streams_waker a) (ac_pending_read_frame a) (ac_pending_write_frame a)
    (ac_new_outbound_stream_waker a).
Definition set_receivers (x : Receivers) (a : Active) : Active :=
  mkActive (ac_mode a) (ac_config a) (ac_socket a) (ac_next_id a) (ac_streams a) x
    (ac_no_streams_waker a) (ac_pending_read_frame a) (ac_pending_write_frame a)
    (ac_new_outbound_stream_waker a).
Definition set_no_streams_waker (x : option Waker) (a : Active) : Active :=
  mkActive (ac_mode a) (ac_config a) (ac_socket a) (ac_next_id a) (ac_streams a) (ac_receivers a)
    x (ac_pending_read_frame a) (ac_pending_write_frame a) (ac_new_outbound_stream_waker a).
Definition set_pending_read_frame (x : option (Frame unit)) (a : Active) : Active :=
  mkActive (ac_mode a) (ac_config a) (ac_socket a) (ac_next_id a) (ac_streams a) (ac_receivers a)
    (ac_no_streams_waker a) x (ac_pending_write_frame a) (ac_new_outbound_stream_waker a).
Definition set_pending_write_frame (x : option (Frame unit)) (a : Active) : Active :=
  mkActive (ac_mode a) (ac_config a) (ac_socket a) (ac_next_id a) (ac_streams a) (ac_receivers a)
    (ac_no_streams_waker a) (ac_pending_read_frame a) x (ac_new_outbound_stream_waker a).
Definition set_new_outbound_stream_waker (x : option Waker) (a : Active) : Active :=
  mkActive (ac_mode a) (ac_config a) (ac_socket a) (ac_next_id a) (ac_streams a) (ac_receivers a)
    (ac_no_streams_waker a) (ac_pending_read_frame a) (ac_pending_write_frame a) x.

(** The methods work on the connection and the world. *)
Definition AS : Type := Active * World.

#[export] Instance as_world : HasWorld AS := {|
  get_world := snd;
  put_world := fun w s => (fst s, w);
|}.

Definition ac {A} (f : Active -> A) : M AS A := gets (fun s => f (fst s)).
Definition upd (f : Active -> Active) : M AS unit := modify (fun s => (f (fst s), snd s)).
Definition on_world {A} (m : M World A) : M AS A := zoom snd (fun w s => (fst s, w)) m.
Definition on_sock {A} (m : M FSock A) : M AS A :=
  zoom (fun s => ac_socket (fst s)) (fun x s => (set_socket x (fst s), snd s)) m.

(** [Active::new]; the [Rtt] and the counter of the memory are those of the new connection. *)
Definition active_new (socket : FSock) (cfg : Config) (mode : Mode) : Active :=
  mkActive mode cfg socket (match mode with Client => 1 | Server => 2 end) ∅
    select_all_default None None None None.

(** ** The map of streams *)

(** [self.streams.contains_key(&id)], [self.streams.len()]. *)
Definition contains_key (id : Z) : M AS bool := ac (fun a => bool_decide (is_Some (ac_streams a !! id))).
Definition streams_len : M AS Z := ac (fun a => Z.of_nat (size (ac_streams a))).

Definition drop_arc (o : option positive) : M AS unit :=
  match o with Some l => on_mem (arc_drop l) | None => mret tt end.

(** [self.streams.insert(id, l);] drops what the map held before. *)
Definition streams_insert (id : Z) (l : positive) : M AS unit :=
  old ← ac (fun a => ac_streams a !! id);
  upd (fun a => set_streams (<[id := l]> (ac_streams a)) a) ≫= fun _ => drop_arc old.

(** [self.streams.remove(&id)]: what was there. *)
Definition streams_remove (id : Z) : M AS (option positive) :=
  old ← ac (fun a => ac_streams a !! id);
  upd (fun a => set_streams (delete id (ac_streams a)) a) ≫= fun _ => mret old.

(** Wake reader and writer, in this order. *)
Definition wake_both (l : positive) : M AS unit :=
  on_mem (wake_reader l) ≫= fun _ => on_mem (wake_writer l).

(** ** New streams *)

(** What the two [make_new_*] methods begin with: the channel of the stream. *)
Definition make_new_inbound_stream (id credit : Z) : M AS Stream :=
  config ← ac ac_config;
  '(sender, receiver) ← on_net (mpsc_channel CHANNEL_CAPACITY);
  upd (fun a => set_receivers (select_all_push (tagged_new id receiver) (ac_receivers a)) a) ≫= fun _ =>
  waker ← ac ac_no_streams_waker;
  upd (set_no_streams_waker None) ≫= fun _ =>
  on_mem (wake waker) ≫= fun _ =>
  on_world (stream_new_inbound id config credit sender).

Definition make_new_outbound_stream (id : Z) : M AS Stream :=
  config ← ac ac_config;
  '(sender, receiver) ← on_net (mpsc_channel CHANNEL_CAPACITY);
  upd (fun a => set_receivers (select_all_push (tagged_new id receiver) (ac_receivers a)) a) ≫= fun _ =>
  waker ← ac ac_no_streams_waker;
  upd (set_no_streams_waker None) ≫= fun _ =>
  on_mem (wake waker) ≫= fun _ =>
  on_world (stream_new_outbound id config sender).

Definition next_stream_id : M AS (result Z ConnectionError) :=
  proposed ← ac ac_next_id;
  match checked_add u32_max proposed 2 with
  | None => mret (Err NoMoreStreamIds)
  | Some n =>
      upd (set_next_id n) ≫= fun _ =>
      mode ← ac ac_mode;
      lift (rust_assert (match mode with Client => is_client proposed | Server => is_server proposed end))
        ≫= fun _ => mret (Ok proposed)
  end.

(** Whether a stream is outbound. *)
Definition is_outbound (mode : Mode) (id : Z) : bool :=
  match mode with Client => is_client id | Server => is_server id end.

(** The count over the streams [l]; every outbound one is locked. *)
Fixpoint count_pending (mode : Mode) (l : list (Z * positive)) : M AS Z :=
  match l with
  | [] => mret 0
  | (id, s) :: l =>
      if is_outbound mode id then
        sh ← on_mem (lock s);
        n ← count_pending mode l;
        mret (if is_pending_ack sh then 1 + n else n)
      else count_pending mode l
  end.

Definition ack_backlog : M AS Z :=
  mode ← ac ac_mode; l ← ac (fun a => map_drain (ac_streams a)); count_pending mode l.

Definition is_valid_remote_id (id : Z) (t : Tag) : M AS bool :=
  mode ← ac ac_mode;
  mret (if bool_decide (t = TagPing \/ t = TagGoAway) then is_session id else
        match mode with Client => is_server id | Server => is_client id end).

Definition active_poll_new_outbound (cx : Waker) : M AS (poll (result Stream ConnectionError)) :=
  n ← streams_len;
  config ← ac ac_config;
  if max_num_streams config <=? n then mret (Ready (Err TooManyStreams)) else
  backlog ← ack_backlog;
  if MAX_ACK_BACKLOG <=? backlog then
    upd (set_new_outbound_stream_waker (Some cx)) ≫= fun _ => mret Pending
  else
  r ← next_stream_id;
  match r with
  | Err e => mret (Ready (Err e))
  | Ok id =>
      stream ← make_new_outbound_stream id;
      l ← on_mem (arc_clone (st_shared stream));
      streams_insert id l ≫= fun _ => mret (Ready (Ok stream))
  end.

(** ** Inbound frames *)

(** A stream reset, as [on_data] and [on_window_update] treat it. *)
Definition reset_stream (stream_id : Z) : M AS (Action Stream) :=
  o ← ac (fun a => ac_streams a !! stream_id);
  (match o with
   | Some s => on_mem (lock_update_state s Closed) ≫= fun _ => wake_both s
   | None => mret tt
   end) ≫= fun _ =>
  removed ← streams_remove stream_id;
  drop_arc removed ≫= fun _ => mret ActionNone.

Definition terminate (f : Frame GoAway) : M AS (Action Stream) := mret (ActionTerminate f).

Definition on_data (frame : Frame Data) : M AS (Action Stream) :=
  let id := stream_id (header frame) in
  let fl := flags (header frame) in
  if flags_contains fl RST then reset_stream id else
  let is_finish := flags_contains fl FIN in
  if flags_contains fl SYN then
    valid ← is_valid_remote_id id TagData;
    if negb valid then terminate frame_protocol_error else
    known ← contains_key id;
    if known : bool then terminate frame_protocol_error else
    n ← streams_len;
    config ← ac ac_config;
    if n =? max_num_streams config then terminate frame_internal_error else
    if DEFAULT_CREDIT <? zlen (body frame) then terminate frame_protocol_error else
    stream ← make_new_inbound_stream id DEFAULT_CREDIT;
    (if is_finish then on_mem (lock_update_state (st_shared stream) RecvClosed) ≫= fun _ => mret tt
     else mret tt) ≫= fun _ =>
    sh ← on_mem (lock (st_shared stream));
    match shared_consume_receive_window (frame_body_len frame) sh with
    | Err _ =>
        on_world (stream_drop stream) ≫= fun _ => terminate frame_protocol_error
    | Ok sh =>
        buffer ← lift (chunks_push (body frame) (sh_buffer sh));
        on_mem (store (st_shared stream) (set_buffer buffer sh)) ≫= fun _ =>
        l ← on_mem (arc_clone (st_shared stream));
        streams_insert id l ≫= fun _ => mret (ActionNew stream)
    end
  else
  o ← ac (fun a => ac_streams a !! id);
  match o with
  | None => mret ActionNone
  | Some s =>
      sh ← on_mem (lock s);
      match shared_consume_receive_window (frame_body_len frame) sh with
      | Err _ => terminate frame_protocol_error
      | Ok sh =>
          let sh := if is_finish then snd (update_state RecvClosed sh) else sh in
          let closed := is_finish && bool_decide (sh_state sh = Closed) in
          buffer ← lift (chunks_push (body frame) (sh_buffer sh));
          on_mem (store s (set_buffer buffer sh)) ≫= fun _ =>
          on_mem (wake_reader s) ≫= fun _ =>
          (if closed : bool
           then removed ← streams_remove id; drop_arc removed
           else mret tt) ≫= fun _ => mret ActionNone
      end
  end.

Definition on_window_update (frame : Frame WindowUpdate) : M AS (Action Stream) :=
  let id := stream_id (header frame) in
  let fl := flags (header frame) in
  if flags_contains fl RST then reset_stream id else
  let is_finish := flags_contains fl FIN in
  if flags_contains fl SYN then
    valid ← is_valid_remote_id id TagWindowUpdate;
    if negb valid then terminate frame_protocol_error else
    known ← contains_key id;
    if known : bool then terminate frame_protocol_error else
    n ← streams_len;
    config ← ac ac_config;
    if n =? max_num_streams config then terminate frame_protocol_error else
    match checked_add u32_max (header_credit (header frame)) DEFAULT_CREDIT with
    | None => terminate frame_protocol_error
    | Some credit =>
        stream ← make_new_inbound_stream id credit;
        (if is_finish then on_mem (lock_update_state (st_shared stream) RecvClosed) ≫= fun _ => mret tt
         else mret tt) ≫= fun _ =>
        l ← on_mem (arc_clone (st_shared stream));
        streams_insert id l ≫= fun _ => mret (ActionNew stream)
    end
  else
  o ← ac (fun a => ac_streams a !! id);
  match o with
  | None => mret ActionNone
  | Some s =>
      sh ← on_mem (lock s);
      match shared_increase_send_window_by (header_credit (header frame)) sh with
      | Err _ => terminate frame_protocol_error
      | Ok sh =>
          let sh := if is_finish then snd (update_state RecvClosed sh) else sh in
          let closed := is_finish && bool_decide (sh_state sh = Closed) in
          on_mem (store s sh) ≫= fun _ =>
          (if is_finish then on_mem (wake_reader s) else mret tt) ≫= fun _ =>
          on_mem (wake_writer s) ≫= fun _ =>
          (if closed : bool
           then removed ← streams_remove id; drop_arc removed
           else mret tt) ≫= fun _ => mret ActionNone
      end
  end.

(** [Rtt::handle_pong] and [Rtt::next_ping] of the shared [Rtt], with the readings of the clock
    they may make; a branch that makes fewer ignores the others. *)
Definition mem_handle_pong (id : Z) : M Mem (Action Stream) :=
  now ← read_clock;
  now' ← read_clock;
  r ← gets rtt;
  '(action, r') ← lift (handle_pong id now now' r);
  modify (set_rtt r') ≫= fun _ => mret action.

Definition mem_next_ping : M Mem (option (Frame Ping)) :=
  now ← read_clock;
  sent_at ← read_clock;
  r ← gets rtt;
  let '(ping, r') := next_ping now sent_at r in
  modify (set_rtt r') ≫= fun _ => mret ping.

Definition on_ping (frame : Frame Ping) : M AS (Action Stream) :=
  let id := stream_id (header frame) in
  if flags_contains (flags (header frame)) ACK then on_mem (mem_handle_pong (frame_ping_id frame)) else
  known ← contains_key id;
  if (id =? CONNECTION_ID) || known
  then mret (ActionPing (frame_new (header_ack (header_ping (header_ping_id (header frame))))))
  else mret ActionNone.

Definition is_stream_tag (t : Tag) : bool :=
  match t with TagData | TagWindowUpdate => true | _ => false end.

Definition on_frame (frame : Frame unit) : M AS (result (Action Stream) ConnectionError) :=
  let id := stream_id (header frame) in
  let fl := flags (header frame) in
  (if flags_contains fl ACK && is_stream_tag (tag (header frame)) then
     o ← ac (fun a => ac_streams a !! id);
     (match o with
      | Some s => on_mem (lock_update_state s (Open true)) ≫= fun _ => mret tt
      | None => mret tt
      end) ≫= fun _ =>
     waker ← ac ac_new_outbound_stream_waker;
     upd (set_new_outbound_stream_waker None) ≫= fun _ => on_mem (wake waker)
   else mret tt) ≫= fun _ =>
  known ← contains_key id;
  if negb (flags_contains fl SYN) && is_stream_tag (tag (header frame)) && negb known
  then mret (Ok ActionNone)
  else
    match tag (header frame) with
    | TagData => f ← lift (frame_into_data frame); a ← on_data f; mret (Ok a)
    | TagWindowUpdate => f ← lift (frame_into_window_update frame); a ← on_window_update f; mret (Ok a)
    | TagPing => f ← lift (frame_into_ping frame); a ← on_ping f; mret (Ok a)
    | TagGoAway => mret (Err ErrClosed)
    end.

(** ** Dropped streams *)

Definition on_drop_stream (id : Z) : M AS (option (Frame unit)) :=
  o ← streams_remove id;
  match o with
  | None => mret None
  | Some s =>
      old ← on_mem (lock_update_state s Closed);
      let frame :=
        match old with
        | Open _ => Some (frame_new (header_rst (header_data id 0)))
        | RecvClosed => Some (frame_new (header_fin (header_data id 0)))
        | SendClosed => None
        | Closed => None
        end in
      wake_both s ≫= fun _ =>
      drop_arc (Some s) ≫= fun _ => mret (frame_erase <$> frame)
  end.

(** [drop_all_streams], over what the map drains. *)
Fixpoint drop_streams (l : list (Z * positive)) : M AS unit :=
  match l with
  | [] => mret tt
  | (_, s) :: l =>
      on_mem (lock_update_state s Closed) ≫= fun _ =>
      wake_both s ≫= fun _ =>
      drop_arc (Some s) ≫= fun _ => drop_streams l
  end.

Definition drop_all_streams : M AS unit :=
  l ← ac (fun a => map_drain (ac_streams a));
  upd (set_streams ∅) ≫= fun _ => drop_streams l.

(** ** The loop *)

(** How a part of the loop ends: with [continue], with [return], or by going on. *)
Inductive flow (A : Type) : Type :=
| Continue
| Return (a : A)
| Next.
#[global] Arguments Continue {A}.
#[global] Arguments Return {A} _.
#[global] Arguments Next {A}.

Definition PollResult : Type := poll (result Stream ConnectionError).

(** [m] unless the loop has been left. *)
Definition and_then {S A} (f : M S (flow A)) (m : M S (flow A)) : M S (flow A) :=
  r ← f;
  match r with Next => m | _ => mret r end.

(** [self.socket.start_send_unpin(frame)?; continue]. *)
Definition send_and_continue (frame : Frame unit) : M AS (flow PollResult) :=
  r ← on_sock (sock_start_send frame);
  match r with
  | Err e => mret (Return (Ready (Err (ErrIo e))))
  | Ok _ => mret Continue
  end.

(** [pending_read_frame.take().or_else(|| pending_write_frame.take())]. *)
Definition take_pending : M AS (option (Frame unit)) :=
  r ← ac ac_pending_read_frame;
  match r with
  | Some f => upd (set_pending_read_frame None) ≫= fun _ => mret (Some f)
  | None =>
      w ← ac ac_pending_write_frame;
      upd (set_pending_write_frame None) ≫= fun _ => mret w
  end.

(** The part of an iteration that sends. *)
Definition poll_send (cx : Waker) : M AS (flow PollResult) :=
  r ← on_sock (sock_poll_ready cx);
  if poll_is_ready r then
    ping ← on_mem mem_next_ping;
    match ping with
    | Some frame => send_and_continue (frame_erase frame)
    | None =>
        pending ← take_pending;
        match pending with
        | Some frame => send_and_continue frame
        | None => mret Next
        end
    end
  else mret Next.

Definition poll_flush_socket (cx : Waker) : M AS (flow PollResult) :=
  r ← on_sock (sock_poll_flush cx);
  match r with
  | Ready (Err e) => mret (Return (Ready (Err (ErrIo e))))
  | _ => mret Next
  end.

(** Polling the commands of all streams. *)
Definition receiver_poll (cx : Waker) (r : Receiver) (n : Net)
    : poll (option StreamCommand) * Receiver * Net :=
  let '(p, n) := receiver_poll_next r cx n in (p, r, n).

Definition poll_receivers (cx : Waker) : M AS (poll (option (Z * option StreamCommand))) := fun s =>
  let '(p, rs, n) :=
    select_all_poll_next (tagged_poll_next (receiver_poll cx)) (ac_receivers (fst s)) (net (snd s)) in
  Ret (p, (set_receivers rs (fst s), set_net n (snd s))).

(** The frame a command asks for. *)
Definition command_frame (id : Z) (c : StreamCommand) : Frame unit :=
  match c with
  | SendFrame f => frame_erase f
  | CloseStream ack => frame_erase (frame_close_stream id ack)
  end.

(** The part that takes commands. *)
Definition poll_commands (cx : Waker) : M AS (flow PollResult) :=
  w ← ac ac_pending_write_frame;
  match w with
  | Some _ => mret Next
  | None =>
      p ← poll_receivers cx;
      match p with
      | Ready (Some (id, Some c)) =>
          upd (set_pending_write_frame (Some (command_frame id c))) ≫= fun _ => mret Continue
      | Ready (Some (id, None)) =>
          o ← on_drop_stream id;
          (match o with
           | Some frame => upd (set_pending_write_frame (Some frame))
           | None => mret tt
           end) ≫= fun _ => mret Continue
      | Ready None => upd (set_no_streams_waker (Some cx)) ≫= fun _ => mret Next
      | Pending => mret Next
      end
  end.

(** The part that reads a frame. *)
Definition poll_frames (cx : Waker) : M AS (flow PollResult) :=
  r ← ac ac_pending_read_frame;
  match r with
  | Some _ => mret Next
  | None =>
      p ← on_sock (sock_poll_next cx);
      match p with
      | Ready (Some (Err e)) => mret (Return (Ready (Err (ErrDecode e))))
      | Ready (Some (Ok frame)) =>
          action ← on_frame frame;
          match action with
          | Err e => mret (Return (Ready (Err e)))
          | Ok ActionNone => mret Continue
          | Ok (ActionNew stream) => mret (Return (Ready (Ok stream)))
          | Ok (ActionPing f) =>
              upd (set_pending_read_frame (Some (frame_erase f))) ≫= fun _ => mret Continue
          | Ok (ActionTerminate f) =>
              upd (set_pending_read_frame (Some (frame_erase f))) ≫= fun _ => mret Continue
          end
      | Ready None => mret (Return (Ready (Err ErrClosed)))
      | Pending => mret Next
      end
  end.

(** One iteration of [Active::poll]. *)
Definition poll_iter (cx : Waker) : M AS (flow PollResult) :=
  and_then (poll_send cx) (and_then (poll_flush_socket cx) (and_then (poll_commands cx) (poll_frames cx))).

(** [Active::poll], for at most [fuel] iterations. *)
Definition active_poll (fuel : nat) (cx : Waker) : M AS PollResult :=
  loop (r ← poll_iter cx;
        mret (match r with Continue => None | Return a => Some a | Next => Some Pending end)) fuel.
End connection.
