(* ===== verification/ConnInvariant.v ===== *)
(** * The invariant of an active connection

    What the connection needs from its socket, its channels and the collection of receivers, as
    classes of laws; the invariant that ties the map of streams to the shared memory; and the steps
    the handlers are made of, each of which keeps it. *)
From Stdlib Require Import ZArith Lia Strings.Byte.
From stdpp Require Import base option list gmap numbers.
From S2P Require Import Prelude.
From S2P Require Import Header.
From S2P Require Import Frame.
From S2P Require Import Config.
From S2P Require Import Command.
From S2P Require Import Rtt.
From S2P Require Import ChunkList.
From S2P Require Import FlowControl.
From S2P Require Import Shared.
From S2P Require Import Heap.
From S2P Require Import Channel.
From S2P Require Import TaggedStream.
From S2P Require Import StreamHandle.
From S2P Require Import FrameIo.
From S2P Require Import FrameIoSpec.
From S2P Require Import Connection.

(** ** Laws of the parts that are not the connection's own *)

(** A socket in a good state stays in one, panics on no operation when it is given well-formed
    frames, and delivers only frames a peer can send. *)
Class FrameSocketLaws `{FrameSocket} : Type := {
  sock_ok : FSock -> Prop;
  sock_ready_law : forall cx s, sock_ok s -> wp (sock_poll_ready cx) (fun _ s' => sock_ok s') s;
  sock_send_law : forall f s, sock_ok s -> frame_wf f -> wp (sock_start_send f) (fun _ s' => sock_ok s') s;
  sock_flush_law : forall cx s, sock_ok s -> wp (sock_poll_flush cx) (fun _ s' => sock_ok s') s;
  sock_close_law : forall cx s, sock_ok s -> wp (sock_poll_close cx) (fun _ s' => sock_ok s') s;
  sock_next_law : forall cx s, sock_ok s ->
    wp (sock_poll_next cx) (fun r s' =>
      sock_ok s' /\ forall f, r = Ready (Some (Ok f)) -> frame_sendable f) s;
}.

(** The bytes that a socket has been given: a frame that is handed over when the socket has said it
    is ready follows the bytes before it, and nothing else adds any. [sock_idle] holds from then
    until the next frame. *)
Class FrameSocketWire `{FrameSocketLaws} : Type := {
  sock_wire : FSock -> list byte;
  sock_idle : FSock -> Prop;
  wire_ready_law : forall cx s r s', sock_ok s -> sock_poll_ready cx s = Ret (r, s') ->
    sock_wire s' = sock_wire s /\ (r = Ready (Ok tt) -> sock_idle s');
  wire_send_law : forall f s r s', sock_ok s -> sock_idle s -> frame_wf f ->
    sock_start_send f s = Ret (r, s') -> r = Ok tt /\ sock_wire s' = sock_wire s ++ frame_wire f;
  wire_flush_law : forall cx s r s', sock_ok s -> sock_poll_flush cx s = Ret (r, s') ->
    sock_wire s' = sock_wire s;
  wire_close_law : forall cx s r s', sock_ok s -> sock_poll_close cx s = Ret (r, s') ->
    sock_wire s' = sock_wire s;
  wire_next_law : forall cx s r s', sock_ok s -> sock_poll_next cx s = Ret (r, s') ->
    sock_wire s' = sock_wire s;
}.

(** Channels deliver only what was sent: when everything that is sent satisfies [cmd_ok], so does
    everything that is received. *)
Class MpscLaws `{Mpsc} : Type := {
  net_ok : Net -> Prop;
  net_channel_law : forall k n, net_ok n -> net_ok (mpsc_channel k n).2;
  net_clone_law : forall s n, net_ok n -> net_ok (sender_clone s n).2;
  net_ready_law : forall s cx n, net_ok n -> net_ok (sender_poll_ready s cx n).2;
  net_send_law : forall s c n, net_ok n -> cmd_ok c -> net_ok (sender_start_send s c n).2;
  net_flush_law : forall s cx n, net_ok n -> net_ok (sender_poll_flush s cx n).2;
  net_drop_law : forall s n, net_ok n -> net_ok (sender_drop s n);
  net_next_law : forall r cx n, net_ok n ->
    net_ok (receiver_poll_next r cx n).2 /\
    forall c, (receiver_poll_next r cx n).1 = Ready (Some c) -> cmd_ok c;
  net_close_law : forall r n, net_ok n -> net_ok (receiver_close r n);
}.

(** [SelectAll] yields items of its members: what holds of all members and of everything they
    yield holds of what it yields. *)
Class SelectAllLaws `{SelectAllOps} : Type := {
  select_all_all : forall {S}, (S -> Prop) -> SelectAll S -> Prop;
  select_all_default_law : forall S (P : S -> Prop), select_all_all P select_all_default;
  select_all_push_law : forall S (P : S -> Prop) s q,
    P s -> select_all_all P q -> select_all_all P (select_all_push s q);
  select_all_next_law : forall S N Item (f : S -> N -> poll (option Item) * S * N)
      (P : S -> Prop) (I : N -> Prop) (Q : Item -> Prop),
    (forall s n, P s -> I n ->
       let '(r, s', n') := f s n in P s' /\ I n' /\ (forall a, r = Ready (Some a) -> Q a)) ->
    forall q n, select_all_all P q -> I n ->
      let '(r, q', n') := select_all_poll_next f q n in
      select_all_all P q' /\ I n' /\ (forall a, r = Ready (Some a) -> Q a);
  select_all_each_law : forall S N (f : S -> N -> N) (I : N -> Prop),
    (forall s n, I n -> I (f s n)) -> forall q n, I n -> I (select_all_for_each f q n);
}.

(** ** References from the map of streams *)

(** How many entries of a map refer to [l]. *)
Definition map_refs (m : gmap Z positive) (l : positive) : nat :=
  length (filter (fun p : Z * positive => p.2 = l) (map_to_list m)).

Lemma map_refs_perm m (ps : list (Z * positive)) l :
  ps ≡ₚ map_to_list m -> map_refs m l = length (filter (fun p : Z * positive => p.2 = l) ps).
Proof. intros Hp. unfold map_refs. by rewrite Hp. Qed.

Lemma map_refs_empty l : map_refs ∅ l = 0%nat.
Proof. unfold map_refs. by rewrite map_to_list_empty. Qed.

Lemma map_refs_insert m id l l' :
  m !! id = None ->
  map_refs (<[id := l]> m) l' = (if decide (l = l') then S (map_refs m l') else map_refs m l').
Proof.
  intros Hm. unfold map_refs. rewrite map_to_list_insert by done. rewrite filter_cons. simpl.
  by case_decide.
Qed.

Lemma map_refs_delete m id l l' :
  m !! id = Some l ->
  map_refs m l' = (if decide (l = l') then S (map_refs (delete id m) l') else map_refs (delete id m) l').
Proof.
  intros Hm. rewrite <- (map_refs_insert (delete id m) id) by apply lookup_delete_eq.
  by rewrite insert_delete_id.
Qed.

Lemma map_refs_pos m id l : m !! id = Some l -> (0 < map_refs m l)%nat.
Proof. intros Hm. rewrite (map_refs_delete _ _ _ _ Hm), decide_True by done. lia. Qed.

(** ** Streams that wait for their acknowledgement *)

(** Whether an entry of the map is an outbound stream that waits for its acknowledgement. *)
Definition pending_entry (mode : Mode) (m : Mem) (p : Z * positive) : bool :=
  is_outbound mode p.1 && match cells m !! p.2 with Some c => is_pending_ack (contents c) | None => false end.

Definition pending_count (mode : Mode) (ss : gmap Z positive) (m : Mem) : Z :=
  Z.of_nat (length (filter (fun p => pending_entry mode m p = true) (map_to_list ss))).

Lemma filter_length_mono {A} (P Q : A -> Prop) `{!forall x, Decision (P x)} `{!forall x, Decision (Q x)} (k : list A) :
  (forall x, x ∈ k -> P x -> Q x) -> (length (filter P k) <= length (filter Q k))%nat.
Proof.
  induction k as [|x k IH]; intros HPQ; [done |]. rewrite !filter_cons.
  assert (IH' := IH (fun y Hy => HPQ y (list_elem_of_further _ _ _ Hy))).
  repeat case_decide; simpl; try lia. match goal with Hn : ~ Q x |- _ => destruct Hn end. apply HPQ; [by left | done].
Qed.

(** A record that waits did so before. *)
Lemma pending_count_mono mode ss m m' :
  (forall id l c', ss !! id = Some l -> cells m' !! l = Some c' -> is_pending_ack (contents c') = true ->
     exists c, cells m !! l = Some c /\ is_pending_ack (contents c) = true) ->
  pending_count mode ss m' <= pending_count mode ss m.
Proof.
  intros Hm. unfold pending_count. apply Nat2Z.inj_le, filter_length_mono.
  intros [id l] Hin%elem_of_map_to_list. unfold pending_entry. simpl.
  intros [Ho Hp]%andb_prop. rewrite Ho. destruct (cells m' !! l) as [c'|] eqn:Hc'; [| done].
  destruct (Hm _ _ _ Hin Hc' Hp) as (c & -> & Hpc). by rewrite Hpc.
Qed.

Lemma pending_count_insert mode ss m id l :
  ss !! id = None ->
  pending_count mode (<[id := l]> ss) m
  = (if pending_entry mode m (id, l) then 1 else 0) + pending_count mode ss m.
Proof.
  intros Hid. unfold pending_count. rewrite map_to_list_insert by done. rewrite filter_cons.
  destruct (pending_entry mode m (id, l)); simpl; [| done]. lia.
Qed.

Lemma pending_count_delete mode ss m id l :
  ss !! id = Some l -> pending_count mode (delete id ss) m <= pending_count mode ss m.
Proof.
  intros Hid. rewrite <- (insert_delete_id ss id l Hid) at 2.
  rewrite pending_count_insert by apply lookup_delete_eq. destruct (pending_entry _ _ _); lia.
Qed.

Lemma pending_count_empty mode m : pending_count mode ∅ m = 0.
Proof. unfold pending_count. by rewrite map_to_list_empty. Qed.

Section invariant.
Context `{Arch, Mpsc, SelectAllOps, FrameSocket, MapOrder}.
Context `{!MpscLaws, !SelectAllLaws, !FrameSocketLaws}.

(** The references to a stream: from the map of streams, and from elsewhere, the handles. *)
Definition conn_refs (a : Active) (E : positive -> nat) (l : positive) : nat :=
  (map_refs (ac_streams a) l + E l)%nat.

(** The outbound streams that wait for their acknowledgement. *)
Definition backlog (a : Active) (w : World) : Z := pending_count (ac_mode a) (ac_streams a) (mem w).

Definition key_ok (t : TaggedStream Z Receiver) : Prop := 0 <= ts_key t <= u32_max.

(** The invariant of a connection with the configuration [cfg] when [E] references to streams are
    held by handles. *)
Record conn_ok (cfg : Config) (E : positive -> nat) (a : Active) (w : World) : Prop := {
  co_config : ac_config a = cfg;
  co_mem : mem_ok cfg (mem w);
  co_refs : refs_ok (conn_refs a E) (mem w);
  co_net : net_ok (net w);
  co_sock : sock_ok (ac_socket a);
  co_size : Z.of_nat (size (ac_streams a)) <= max_num_streams cfg;
  co_keys : forall id l, ac_streams a !! id = Some l ->
    0 <= id <= u32_max /\ (is_outbound (ac_mode a) id = true -> id < ac_next_id a);
  co_inj : forall id id' l, ac_streams a !! id = Some l -> ac_streams a !! id' = Some l -> id = id';
  co_next : 0 <= ac_next_id a <= u32_max /\ is_outbound (ac_mode a) (ac_next_id a) = true;
  co_backlog : backlog a w <= MAX_ACK_BACKLOG;
  co_receivers : select_all_all key_ok (ac_receivers a);
  co_read : forall f, ac_pending_read_frame a = Some f -> frame_wf f;
  co_write : forall f, ac_pending_write_frame a = Some f -> frame_wf f;
}.

(** A handle of the connection, and the invariant when one has just been handed out. *)
Definition handle_wf (cfg : Config) (s : Stream) : Prop := 0 <= st_id s <= u32_max /\ st_config s = cfg.

Definition handed_out (cfg : Config) (E : positive -> nat) (s : Stream) (a : Active) (w : World) : Prop :=
  handle_wf cfg s /\ conn_ok cfg (add_ref (st_shared s) E) a w.

Lemma conn_live cfg E a w id l :
  conn_ok cfg E a w -> ac_streams a !! id = Some l -> exists c, cells (mem w) !! l = Some c.
Proof.
  intros Hok Hl. apply (refs_ok_live _ _ _ (co_refs _ _ _ _ Hok)). unfold conn_refs.
  pose proof (map_refs_pos _ _ _ Hl). lia.
Qed.

(** Handles are live as well. *)
Lemma handle_live cfg E a w l :
  conn_ok cfg E a w -> (0 < E l)%nat -> exists c, cells (mem w) !! l = Some c.
Proof.
  intros Hok Hl. apply (refs_ok_live _ _ _ (co_refs _ _ _ _ Hok)). unfold conn_refs. lia.
Qed.

(** A new record is no stream of the map. *)
Lemma backlog_fresh cfg E a w l c m' :
  conn_ok cfg E a w -> cells (mem w) !! l = None -> cells m' = <[l := c]> (cells (mem w)) ->
  pending_count (ac_mode a) (ac_streams a) m' <= backlog a w.
Proof.
  intros Hok Hl Hc. apply pending_count_mono. intros id l' c' Hin Hc' Hp.
  destruct (conn_live _ _ _ _ _ _ Hok Hin) as [c0 Hc0]. rewrite Hc in Hc'.
  rewrite lookup_insert_ne in Hc' by (intros ->; by rewrite Hl in Hc0). by exists c'.
Qed.

(** Only the total number of references matters. *)
Lemma conn_ok_ext cfg E E' a w : (forall l, E l = E' l) -> conn_ok cfg E a w -> conn_ok cfg E' a w.
Proof.
  intros HE []. split; try done. eapply refs_ok_proper; [| done | done].
  intros l. unfold conn_refs. by rewrite HE.
Qed.

(** *** Steps of the memory *)

Lemma conn_ok_mem cfg E a w P m' :
  conn_ok cfg E a w -> mem_ok cfg m' -> mem_rel P (mem w) m' -> conn_ok cfg E a (set_mem m' w).
Proof.
  intros [] Hm Hr. split; try done; simpl; [by eapply refs_ok_rel |].
  etrans; [| exact co_backlog0]. apply pending_count_mono. intros id l c' _ Hc' Hp. simpl in Hc'.
  pose proof (mr_strong _ _ _ Hr l) as Hs. rewrite Hc' in Hs.
  destruct (cells (mem w) !! l) as [c|] eqn:Hc; [| done]. exists c. split; [done |].
  by eapply (mr_pending _ _ _ Hr).
Qed.

Lemma conn_ok_cells cfg E a w m' :
  conn_ok cfg E a w -> mem_ok cfg m' -> cells m' = cells (mem w) -> conn_ok cfg E a (set_mem m' w).
Proof.
  intros [] Hm Hc. split; try done; simpl; [by eapply refs_ok_cells |].
  unfold backlog, pending_count, pending_entry in *. simpl. by rewrite Hc.
Qed.

Lemma conn_ok_net cfg E a w n : conn_ok cfg E a w -> net_ok n -> conn_ok cfg E a (set_net n w).
Proof. intros [] Hn. by split. Qed.

(** *** Steps of the connection *)

Lemma conn_ok_socket cfg E a w x : conn_ok cfg E a w -> sock_ok x -> conn_ok cfg E (set_socket x a) w.
Proof. intros [] Hx. by split. Qed.

Lemma conn_ok_no_streams_waker cfg E a w x :
  conn_ok cfg E a w -> conn_ok cfg E (set_no_streams_waker x a) w.
Proof. intros []. by split. Qed.

Lemma conn_ok_outbound_waker cfg E a w x :
  conn_ok cfg E a w -> conn_ok cfg E (set_new_outbound_stream_waker x a) w.
Proof. intros []. by split. Qed.

Lemma conn_ok_read_frame cfg E a w x :
  conn_ok cfg E a w -> (forall f, x = Some f -> frame_wf f) ->
  conn_ok cfg E (set_pending_read_frame x a) w.
Proof. intros [] Hx. by split. Qed.

Lemma conn_ok_write_frame cfg E a w x :
  conn_ok cfg E a w -> (forall f, x = Some f -> frame_wf f) ->
  conn_ok cfg E (set_pending_write_frame x a) w.
Proof. intros [] Hx. by split. Qed.

Lemma conn_ok_receivers cfg E a w x :
  conn_ok cfg E a w -> select_all_all key_ok x -> conn_ok cfg E (set_receivers x a) w.
Proof. intros [] Hx. by split. Qed.

(** Taking a stream out of the map leaves its reference to whoever took it. *)
Lemma conn_ok_remove cfg E a w id l :
  conn_ok cfg E a w -> ac_streams a !! id = Some l ->
  conn_ok cfg (add_ref l E) (set_streams (delete id (ac_streams a)) a) w.
Proof.
  intros [] Hl. split; try done; simpl.
  - eapply refs_ok_proper; [| done | done]. intros l'. unfold conn_refs, add_ref. simpl.
    rewrite (map_refs_delete _ _ _ l' Hl). case_decide; lia.
  - rewrite map_size_delete, Hl. lia.
  - intros id' l' [_ Hl']%lookup_delete_Some. by eapply co_keys0.
  - intros i j l' [_ Hi]%lookup_delete_Some [_ Hj]%lookup_delete_Some. by eapply co_inj0.
  - etrans; [by eapply pending_count_delete | done].
Qed.

(** Putting a stream with a fresh identifier into the map consumes a reference. *)
Lemma conn_ok_insert cfg E a w id l :
  conn_ok cfg (add_ref l E) a w -> ac_streams a !! id = None ->
  (forall id', ac_streams a !! id' <> Some l) ->
  Z.of_nat (size (ac_streams a)) < max_num_streams cfg -> 0 <= id <= u32_max ->
  (is_outbound (ac_mode a) id = true -> id < ac_next_id a /\ backlog a w < MAX_ACK_BACKLOG) ->
  conn_ok cfg E (set_streams (<[id := l]> (ac_streams a)) a) w.
Proof.
  intros [] Hl Hnew Hsz Hid Hout. split; try done; simpl.
  - eapply refs_ok_proper; [| done | done]. intros l'. unfold conn_refs, add_ref. simpl.
    rewrite map_refs_insert by done. case_decide; lia.
  - rewrite map_size_insert_None by done. lia.
  - intros id' l' [[<- <-] | [_ Hl']]%lookup_insert_Some; [| by eapply co_keys0].
    split; [done |]. intros Ho. by apply Hout.
  - intros i j l' [[<- <-] | [_ Hi]]%lookup_insert_Some [[<- Hj] | [_ Hj]]%lookup_insert_Some; try done.
    + by apply Hnew in Hj.
    + subst l'. by apply Hnew in Hi.
    + by eapply co_inj0.
  - unfold backlog in *. simpl. rewrite pending_count_insert by done.
    destruct (pending_entry (ac_mode a) (mem w) (id, l)) eqn:Hp; [| lia].
    apply andb_prop in Hp as [Ho _]. destruct (Hout Ho). lia.
Qed.
End invariant.
