(* ===== verification/ConnSteps.v ===== *)
(** * The steps of the connection's handlers

    Symbolic execution rules for computations on a connection, and what the building blocks of the
    handlers do: shutting a stream, dropping a reference, creating a stream. *)
From Stdlib Require Import ZArith Lia Strings.Byte.
From stdpp Require Import base option list gmap numbers.
From S2P Require Import Prelude.
From S2P Require Import Header.
From S2P Require Import Frame.
From S2P Require Import Config.
From S2P Require Import Command.
From S2P Require Import Rtt.
From S2P Require Import ChunkList.
From S2P Require Import FlowControl.
From S2P Require Import Shared.
From S2P Require Import Heap.
From S2P Require Import Channel.
From S2P Require Import TaggedStream.
From S2P Require Import StreamHandle.
From S2P Require Import FrameIo.
From S2P Require Import FrameIoSpec.
From S2P Require Import Connection.
From S2P Require Import ConnInvariant.

Section steps.
Context `{Arch, Mpsc, SelectAllOps, FrameSocket, MapOrder}.

(** ** Rules *)

Lemma as_on_mem {A} (m : M Mem A) (Q : A -> AS -> Prop) a w x m' :
  m (mem w) = Ret (x, m') -> Q x (a, set_mem m' w) -> wp (on_mem m) Q (a, w).
Proof. intros E HQ. unfold wp, on_mem, zoom. simpl. by rewrite E. Qed.

Lemma as_on_mem_read {A} (m : M Mem A) (Q : A -> AS -> Prop) a w x :
  m (mem w) = Ret (x, mem w) -> Q x (a, w) -> wp (on_mem m) Q (a, w).
Proof. intros E HQ. destruct w. by eapply as_on_mem. Qed.

Lemma as_on_net {A} (f : Net -> A * Net) (Q : A -> AS -> Prop) a w :
  Q (f (net w)).1 (a, set_net (f (net w)).2 w) -> wp (on_net f) Q (a, w).
Proof. intros HQ. unfold wp, on_net. simpl. by destruct (f (net w)). Qed.

Lemma as_ac {A} (f : Active -> A) (Q : A -> AS -> Prop) a w : Q (f a) (a, w) -> wp (ac f) Q (a, w).
Proof. done. Qed.

Lemma as_upd (f : Active -> Active) (Q : unit -> AS -> Prop) a w : Q tt (f a, w) -> wp (upd f) Q (a, w).
Proof. done. Qed.

Lemma as_on_world {A} (m : M World A) (Q : A -> AS -> Prop) a w :
  wp m (fun x w' => Q x (a, w')) w -> wp (on_world m) Q (a, w).
Proof. intros Hm. by apply wp_zoom. Qed.

Lemma as_on_sock {A} (m : M FSock A) (Q : A -> AS -> Prop) a w :
  wp m (fun x s => Q x (set_socket s a, w)) (ac_socket a) -> wp (on_sock m) Q (a, w).
Proof. intros Hm. by apply wp_zoom. Qed.

Lemma world_on_mem {A} (m : M Mem A) (Q : A -> World -> Prop) w x m' :
  m (mem w) = Ret (x, m') -> Q x (set_mem m' w) -> wp (on_mem m) Q w.
Proof. intros E HQ. unfold wp, on_mem, zoom. simpl. by rewrite E. Qed.

Lemma world_on_net {A} (f : Net -> A * Net) (Q : A -> World -> Prop) w :
  Q (f (net w)).1 (set_net (f (net w)).2 w) -> wp (on_net f) Q w.
Proof. intros HQ. unfold wp, on_net. simpl. by destruct (f (net w)). Qed.

(** ** Shutting a stream *)

(** A record with nobody parked, and one that is closed as well. *)
Definition unpark (sh : Shared) : Shared := set_writer None (set_reader None sh).
Definition shut (sh : Shared) : Shared := set_state Closed (unpark sh).

(** The wakers that are parked in a record. *)
Definition parked (sh : Shared) : list Waker := option_list (sh_reader sh) ++ option_list (sh_writer sh).

Definition wake_all (ws : list Waker) (m : Mem) : Mem := set_woken (woken m ++ ws) m.

Definition shut_mem (l : positive) (sh : Shared) (m : Mem) : Mem := wake_all (parked sh) (put l (shut sh) m).

Lemma wake_mem_all o m : wake_mem o m = wake_all (option_list o) m.
Proof. destruct o; [done |]. unfold wake_all. simpl. rewrite app_nil_r. by destruct m. Qed.

Lemma wake_all_app ws ws' m : wake_all ws' (wake_all ws m) = wake_all (ws ++ ws') m.
Proof. unfold wake_all, set_woken. simpl. by rewrite app_assoc. Qed.

Lemma cells_wake_all ws m : cells (wake_all ws m) = cells m.
Proof. done. Qed.

Lemma put_wake_all l sh ws m : put l sh (wake_all ws m) = wake_all ws (put l sh m).
Proof. done. Qed.

Lemma mem_ok_wake_all cfg ws m : mem_ok cfg m -> mem_ok cfg (wake_all ws m).
Proof. intros []. by split. Qed.

Lemma mem_rel_wake_all P ws m : mem_rel P m (wake_all ws m).
Proof. pose proof (mem_rel_refl P m) as []. split; try done. by exists ws. Qed.

Lemma wake_both_eval l a w c :
  cells (mem w) !! l = Some c ->
  wp (wake_both l) (fun _ s =>
    s = (a, set_mem (wake_all (parked (contents c)) (put l (unpark (contents c)) (mem w))) w)) (a, w).
Proof.
  intros Hl. unfold wake_both. wp_step. eapply as_on_mem; [by eapply wake_reader_eval |].
  eapply as_on_mem; [eapply wake_writer_eval |].
  - simpl. rewrite cells_wake. by eapply cells_put_eq.
  - simpl. rewrite !wake_mem_all, put_wake_all, put_put, wake_all_app. done.
Qed.

Lemma shut_eval l a w c :
  cells (mem w) !! l = Some c ->
  wp (on_mem (lock_update_state l Closed)) (fun old s =>
    old = sh_state (contents c) /\
    wp (wake_both l) (fun _ s' => s' = (a, set_mem (shut_mem l (contents c) (mem w)) w)) s) (a, w).
Proof.
  intros Hl. eapply as_on_mem; [by apply lock_update_state_eval |]. split; [done |].
  eapply wp_mono; [eapply wake_both_eval; by eapply cells_put_eq |].
  intros _ s ->. simpl. rewrite put_put, state_update_closed. done.
Qed.

Lemma shut_mem_ok cfg l c m :
  mem_ok cfg m -> cells m !! l = Some c ->
  mem_ok cfg (shut_mem l (contents c) m) /\ mem_rel (eq l) m (shut_mem l (contents c) m).
Proof.
  intros Hm Hl. split.
  - apply mem_ok_wake_all. by eapply mem_ok_put_meta.
  - etrans; [| apply mem_rel_wake_all]. eapply (mem_rel_update_state _ _ _ _ Closed Hl); [| done].
    simpl. by rewrite state_update_closed.
Qed.

Lemma cells_shut l m c : cells m !! l = Some c -> cells (shut_mem l (contents c) m) !! l = Some (mkCell (strong c) (shut (contents c))).
Proof. intros Hl. by apply (cells_put_eq _ _ _ _ Hl). Qed.

Lemma cells_shut_ne l l' sh m : l <> l' -> cells (shut_mem l sh m) !! l' = cells m !! l'.
Proof. intros Hl. by apply cells_put_ne. Qed.

Context `{!MpscLaws, !SelectAllLaws, !FrameSocketLaws}.

(** ** Dropping a reference *)

Lemma drop_arc_ok cfg E a w l :
  conn_ok cfg (add_ref l E) a w ->
  wp (drop_arc (Some l)) (fun _ '(a', w') =>
    a' = a /\ conn_ok cfg E a w' /\ mem_drop l (mem w) (mem w') /\ net w' = net w) (a, w).
Proof.
  intros Hok. assert (Hr : refs_ok (add_ref l (conn_refs a E)) (mem w)).
  { eapply refs_ok_proper; [| done | exact (co_refs _ _ _ _ Hok)].
    intros l'. unfold add_ref, conn_refs, add_ref. case_decide; lia. }
  destruct (arc_drop_ok cfg _ _ l (co_mem _ _ _ _ Hok) Hr) as (m' & He & Hm' & Hr' & Hd).
  simpl. eapply as_on_mem; [exact He |]. split_and!; try done. destruct Hok. split; try done.
  etrans; [| exact co_backlog]. apply pending_count_mono. intros id l' c' _ Hc' Hp. simpl in Hc'.
  destruct (decide (l = l')) as [<- | Hne].
  - destruct (md_self _ _ _ Hd _ Hc') as (c & Hc & Heq). exists c. by rewrite <- Heq.
  - rewrite (md_other _ _ _ Hd) in Hc' by done. by exists c'.
Qed.

(** ** Creating a stream *)

(** What the two ways to create a stream do: [f] is the flag of the handle, [credit] what the
    remote allows us to send. *)
Definition created (cfg : Config) (f : Flag) (id credit : Z) (E : positive -> nat) (a : Active) (w : World)
    (st : Stream) (a' : Active) (w' : World) : Prop :=
  conn_ok cfg (add_ref (st_shared st) E) a' w' /\
  st_id st = id /\ st_config st = cfg /\ st_flag st = f /\
  cells (mem w) !! st_shared st = None /\
  (exists now, cells (mem w') = <[st_shared st := mkCell 1 (shared_new DEFAULT_CREDIT credit cfg now)]> (cells (mem w))) /\
  rtt (mem w') = rtt (mem w) /\ woken (mem w') = woken (mem w) ++ option_list (ac_no_streams_waker a) /\
  exists rs, a' = set_no_streams_waker None (set_receivers rs a).

Lemma stream_new_ok cfg E a w id credit sender (f : Flag) :
  conn_ok cfg E a w -> 0 <= credit <= u32_max -> 1 <= max_num_streams cfg ->
  wp (window_update_sender ← on_net (sender_clone sender);
      now ← on_mem read_clock;
      l ← on_mem (arc_new (shared_new DEFAULT_CREDIT credit cfg now));
      mret (mkStream id cfg sender window_update_sender f l)) (fun st w' =>
    conn_ok cfg (add_ref (st_shared st) E) a w' /\
    st_id st = id /\ st_config st = cfg /\ st_flag st = f /\
    cells (mem w) !! st_shared st = None /\
    (exists now, cells (mem w') = <[st_shared st := mkCell 1 (shared_new DEFAULT_CREDIT credit cfg now)]> (cells (mem w))) /\
    rtt (mem w') = rtt (mem w) /\ woken (mem w') = woken (mem w)) w.
Proof.
  intros Hok Hc Hn. wp_step. apply world_on_net. wp_step. eapply world_on_mem; [done |]. wp_step.
  set (now := clock _ _). set (m1 := set_ticks _ _).
  assert (Hm1 : mem_ok cfg m1) by (apply mem_ok_ticks; apply Hok).
  destruct (shared_new_ok (rtt_get (rtt m1)) credit cfg now Hc) as [Hs Hcl].
  destruct (arc_new_ok cfg (conn_refs a E) m1 _ Hm1 (co_refs _ _ _ _ Hok) Hs Hcl eq_refl Hn)
    as (l & He & Hl & _ & Hm2 & Hr2).
  eapply world_on_mem; [exact He |]. apply wp_ret. simpl. split_and!; try done; [| by exists now].
  destruct Hok. split; try done; simpl; [| by apply net_clone_law |].
  - eapply refs_ok_proper; [| done | exact Hr2].
    intros l'. unfold conn_refs, add_ref. case_decide; lia.
  - etrans; [eapply (backlog_fresh cfg E a w l); [by split | done | done] | done].
Qed.

(** The channel of a new stream is registered and the connection is woken. *)
Lemma register_ok cfg E a w id n receiver :
  conn_ok cfg E a w -> net_ok n -> 0 <= id <= u32_max ->
  conn_ok cfg E
    (set_no_streams_waker None (set_receivers (select_all_push (tagged_new id receiver) (ac_receivers a)) a))
    (set_mem (wake_mem (ac_no_streams_waker a) (mem w)) (set_net n w)).
Proof.
  intros Hok Hn Hid. apply conn_ok_no_streams_waker, conn_ok_receivers.
  - apply (conn_ok_cells cfg E a (set_net n w)); [by apply conn_ok_net | |].
    + simpl. apply mem_ok_wake. apply Hok.
    + apply cells_wake.
  - apply select_all_push_law; [done | apply Hok].
Qed.

(** What both [make_new_*] methods do, around the record that [f] marks. *)
Lemma make_new_ok cfg E a w id credit (f : Flag) :
  conn_ok cfg E a w -> 0 <= id <= u32_max -> 0 <= credit <= u32_max -> 1 <= max_num_streams cfg ->
  wp (config ← ac ac_config;
      '(sender, receiver) ← on_net (mpsc_channel CHANNEL_CAPACITY);
      upd (fun a => set_receivers (select_all_push (tagged_new id receiver) (ac_receivers a)) a) ≫= fun _ =>
      waker ← ac ac_no_streams_waker;
      upd (set_no_streams_waker None) ≫= fun _ =>
      on_mem (wake waker) ≫= fun _ =>
      on_world (window_update_sender ← on_net (sender_clone sender);
                now ← on_mem read_clock;
                l ← on_mem (arc_new (shared_new DEFAULT_CREDIT credit config now));
                mret (mkStream id config sender window_update_sender f l)))
    (fun st '(a', w') => created cfg f id credit E a w st a' w') (a, w).
Proof.
  intros Hok Hid Hc Hn. wp_step. apply as_ac. wp_step. apply as_on_net.
  pose proof (net_channel_law CHANNEL_CAPACITY (net w) (co_net _ _ _ _ Hok)) as Hnet.
  destruct (mpsc_channel CHANNEL_CAPACITY (net w)) as [[sender receiver] n]. simpl in Hnet |- *.
  pose proof (register_ok cfg E a w id n receiver Hok Hnet Hid) as Hok1.
  wp_step. apply as_upd. wp_step. apply as_ac. wp_step. apply as_upd. wp_step.
  eapply as_on_mem; [apply wake_eval |]. apply as_on_world. rewrite (co_config _ _ _ _ Hok).
  eapply wp_mono; [by apply stream_new_ok |].
  intros st w' (Hok' & Hi & Hcf & Hf & Hl & (now & Hcells) & Hrtt & Hwk). simpl in *.
  rewrite cells_wake in Hl, Hcells. rewrite wake_mem_all in Hrtt, Hwk.
  split_and!; try done; [by exists now | by eexists].
Qed.

Lemma make_new_inbound_stream_ok cfg E a w id credit :
  conn_ok cfg E a w -> 0 <= id <= u32_max -> 0 <= credit <= u32_max -> 1 <= max_num_streams cfg ->
  wp (make_new_inbound_stream id credit) (fun st '(a', w') =>
    created cfg FlagAck id credit E a w st a' w') (a, w).
Proof. apply make_new_ok. Qed.

Lemma make_new_outbound_stream_ok cfg E a w id :
  conn_ok cfg E a w -> 0 <= id <= u32_max -> 1 <= max_num_streams cfg ->
  wp (make_new_outbound_stream id) (fun st '(a', w') =>
    created cfg FlagSyn id DEFAULT_CREDIT E a w st a' w') (a, w).
Proof. intros. by apply make_new_ok. Qed.

(** Sharing a stream that is not in the map yet: [insert(id, stream.clone_shared())]. *)
Lemma share_stream_ok cfg E a w st c {B} (r : B) :
  conn_ok cfg (add_ref (st_shared st) E) a w -> cells (mem w) !! st_shared st = Some c ->
  ac_streams a !! st_id st = None -> (forall id', ac_streams a !! id' <> Some (st_shared st)) ->
  Z.of_nat (size (ac_streams a)) < max_num_streams cfg ->
  0 <= st_id st <= u32_max ->
  (is_outbound (ac_mode a) (st_id st) = true ->
     st_id st < ac_next_id a /\ backlog a w < MAX_ACK_BACKLOG) ->
  wp (l ← on_mem (arc_clone (st_shared st));
      streams_insert (st_id st) l ≫= fun _ => mret r) (fun x '(a', w') =>
    x = r /\ conn_ok cfg (add_ref (st_shared st) E) a' w' /\
    a' = set_streams (<[st_id st := st_shared st]> (ac_streams a)) a /\
    cells (mem w') = <[st_shared st := mkCell (S (strong c)) (contents c)]> (cells (mem w)) /\
    rtt (mem w') = rtt (mem w) /\ woken (mem w') = woken (mem w)) (a, w).
Proof.
  intros Hok Hl Hid Hnew Hsz Hr Hout.
  destruct (arc_clone_ok cfg _ _ _ _ (co_mem _ _ _ _ Hok) (co_refs _ _ _ _ Hok) Hl) as (He & Hm & Hrf).
  wp_step. eapply as_on_mem; [exact He |]. unfold streams_insert. wp_step. wp_step. apply as_ac.
  rewrite Hid. wp_step. apply as_upd. apply wp_ret. apply wp_ret. simpl. split_and!; try done.
  assert (Hbl : pending_count (ac_mode a) (ac_streams a)
    (set_cells (<[st_shared st := mkCell (S (strong c)) (contents c)]> (cells (mem w))) (mem w)) <= backlog a w).
  { apply pending_count_mono. simpl. intros id l' c' _ [[<- <-] | [_ Hc']]%lookup_insert_Some Hp; [by exists c | by exists c']. }
  apply conn_ok_insert; try done.
  - destruct Hok. split; try done; simpl; [| by etrans].
    eapply refs_ok_proper; [| done | exact Hrf].
    intros l'. unfold conn_refs, add_ref. repeat case_decide; lia.
  - intros Ho. destruct (Hout Ho). split; [done |]. unfold backlog at 1. simpl. lia.
Qed.

(** Removing a stream and dropping what the map held. *)
Lemma remove_drop_ok cfg E a w id :
  conn_ok cfg E a w ->
  wp (removed ← streams_remove id; drop_arc removed) (fun _ '(a', w') =>
    conn_ok cfg E a' w' /\ a' = set_streams (delete id (ac_streams a)) a /\ net w' = net w /\
    match ac_streams a !! id with
    | Some l => mem_drop l (mem w) (mem w')
    | None => w' = w
    end) (a, w).
Proof.
  intros Hok. unfold streams_remove. wp_step. wp_step. apply as_ac. wp_step. apply as_upd. apply wp_ret.
  destruct (ac_streams a !! id) as [l|] eqn:Hl.
  - eapply wp_mono; [apply (drop_arc_ok cfg E); by apply conn_ok_remove |].
    intros _ [a' w'] (-> & Hok' & Hd & Hn). done.
  - apply wp_ret. split_and!; try done. rewrite delete_id by done. by destruct a.
Qed.
End steps.
