(* ===== verification/ConnHandlers.v ===== *)
(** * What the handlers of the connection do

    For every handler of inbound frames: what it returns, how it changes the map of streams and the
    shared memory on every branch, and that it keeps the invariant without panicking. *)
From Stdlib Require Import ZArith Lia Strings.Byte.
From stdpp Require Import base option list gmap numbers.
From S2P Require Import Prelude.
From S2P Require Import Header.
From S2P Require Import Frame.
From S2P Require Import Config.
From S2P Require Import Command.
From S2P Require Import Rtt.
From S2P Require Import ChunkList.
From S2P Require Import FlowControl.
From S2P Require Import Shared.
From S2P Require Import Heap.
From S2P Require Import Channel.
From S2P Require Import TaggedStream.
From S2P Require Import StreamHandle.
From S2P Require Import StreamSpec.
From S2P Require Import FrameIo.
From S2P Require Import FrameIoSpec.
From S2P Require Import Connection.
From S2P Require Import ConnInvariant.
From S2P Require Import ConnSteps.

Section handlers.
Context `{Arch, Mpsc, SelectAllOps, FrameSocket, MapOrder}.
Context `{!MpscLaws, !SelectAllLaws, !FrameSocketLaws}.

(** [usize] has room for twice a window, as on every 64-bit platform. *)
Hypothesis usize_wide : u32_max + u32_max <= usize_max.

Variable cfg : Config.
Variable E : positive -> nat.

(** ** Resets *)

Definition reset_rel (a : Active) (w : World) (id : Z) (a' : Active) (w' : World) : Prop :=
  a' = set_streams (delete id (ac_streams a)) a /\ net w' = net w /\
  match ac_streams a !! id with
  | Some l => exists c, cells (mem w) !! l = Some c /\
                        mem_drop l (shut_mem l (contents c) (mem w)) (mem w')
  | None => w' = w
  end.

Lemma reset_stream_ok a w id :
  conn_ok cfg E a w ->
  wp (reset_stream id) (fun act '(a', w') =>
    act = ActionNone /\ conn_ok cfg E a' w' /\ reset_rel a w id a' w') (a, w).
Proof.
  intros Hok. unfold reset_stream. wp_step. apply as_ac.
  destruct (ac_streams a !! id) as [l|] eqn:Hl.
  - destruct (conn_live _ _ _ _ _ _ Hok Hl) as [c Hc].
    destruct (shut_mem_ok cfg l c _ (co_mem _ _ _ _ Hok) Hc) as [Hm Hr].
    wp_step. wp_step. eapply wp_mono; [by apply shut_eval |]. intros old s [_ Hw].
    eapply wp_mono; [exact Hw |]. intros _ s' ->.
    pose proof (conn_ok_mem _ _ _ _ _ _ Hok Hm Hr) as Hok1.
    apply wp_bind_inv2. wp_step. eapply wp_mono; [by apply remove_drop_ok |].
    intros _ [a' w'] (Hok' & -> & Hn & Hd). rewrite Hl in Hd. apply wp_ret.
    split_and!; try done. split_and!; try done. rewrite Hl. by exists c.
  - wp_step. apply wp_ret. apply wp_bind_inv2. wp_step. eapply wp_mono; [by apply remove_drop_ok |].
    intros _ [a' w'] (Hok' & -> & Hn & Hd). rewrite Hl in Hd. apply wp_ret.
    split_and!; try done. split_and!; try done. by rewrite Hl.
Qed.

(** ** Frames for a known stream *)

(** The end of both handlers: the record of the stream [id] at [l] is now [sh'], the wakers [ws]
    have been woken, and the stream is forgotten if a FIN has closed it for good. *)
Definition touch_rel (a : Active) (w : World) (id : Z) (l : positive) (fin : bool) (sh' : Shared)
    (ws : list Waker) (a' : Active) (w' : World) : Prop :=
  net w' = net w /\
  if fin && bool_decide (sh_state sh' = Closed)
  then a' = set_streams (delete id (ac_streams a)) a /\
       mem_drop l (wake_all ws (put l sh' (mem w))) (mem w')
  else a' = a /\ mem w' = wake_all ws (put l sh' (mem w)).

Lemma touch_ok {B} a w id l c (fin : bool) sh' ws (r : B) :
  conn_ok cfg E a w -> ac_streams a !! id = Some l -> cells (mem w) !! l = Some c ->
  mem_ok cfg (put l sh' (mem w)) ->
  (sh_state sh' = sh_state (contents c) \/ sh_state sh' = state_update (sh_state (contents c)) RecvClosed) ->
  wp ((if fin && bool_decide (sh_state sh' = Closed)
       then removed ← streams_remove id; drop_arc removed else mret tt) ≫= fun _ => mret r)
    (fun x '(a', w') => x = r /\ conn_ok cfg E a' w' /\ touch_rel a w id l fin sh' ws a' w')
    (a, set_mem (wake_all ws (put l sh' (mem w))) w).
Proof.
  intros Hok Hl Hc Hm Hst.
  assert (Hr : mem_rel (eq l) (mem w) (wake_all ws (put l sh' (mem w)))).
  { etrans; [| apply mem_rel_wake_all]. destruct Hst as [Hst | Hst].
    - by eapply mem_rel_put_same.
    - by eapply (mem_rel_update_state _ _ _ _ RecvClosed Hc). }
  pose proof (conn_ok_mem _ _ _ _ _ _ Hok (mem_ok_wake_all _ ws _ Hm) Hr) as Hok1.
  unfold touch_rel. destruct (fin && bool_decide (sh_state sh' = Closed)).
  - wp_step. eapply wp_mono; [by apply remove_drop_ok |].
    intros _ [a' w'] (Hok' & -> & Hn & Hd). rewrite Hl in Hd. by apply wp_ret.
  - wp_step. apply wp_ret. by apply wp_ret.
Qed.

(** What a body of [b] bytes makes of a record. *)
Definition received (fin : bool) (b : list byte) (sh sh' : Shared) : Prop :=
  sh_state sh' = (if fin then state_update (sh_state sh) RecvClosed else sh_state sh) /\
  sh_flow_controller sh'
    = with_receive_window (fc_receive_window (sh_flow_controller sh) - zlen b) (sh_flow_controller sh) /\
  unread sh' = unread sh ++ b /\ sh_reader sh' = None /\ sh_writer sh' = sh_writer sh.

Lemma consume_receive_eval i sh :
  0 <= i ->
  shared_consume_receive_window i sh =
  if i <=? fc_receive_window (sh_flow_controller sh)
  then Ok (set_flow_controller (with_receive_window (fc_receive_window (sh_flow_controller sh) - i)
             (sh_flow_controller sh)) sh)
  else Err InvalidWindowUpdate.
Proof.
  intros Hi. unfold shared_consume_receive_window, on_flow_controller, consume_receive_window, checked_sub.
  by destruct (i <=? _).
Qed.

(** Receiving a body within the window: the buffer has room, and the invariant stays. *)
Lemma receive_ok m l c b :
  mem_ok cfg m -> cells m !! l = Some c ->
  zlen b <= fc_receive_window (sh_flow_controller (contents c)) ->
  exists cs, chunks_push b (sh_buffer (contents c)) = Ret cs /\
    chunks_rest cs = chunks_rest (sh_buffer (contents c)) ++ b /\
    forall st r wr, mem_ok cfg (put l (mkShared st
      (with_receive_window (fc_receive_window (sh_flow_controller (contents c)) - zlen b)
         (sh_flow_controller (contents c))) cs r wr) m).
Proof.
  intros Hm Hl Hb. destruct (mo_cells _ _ Hm _ _ Hl) as (Hs & Hcf & _).
  assert (Hc : consume_receive_window (zlen b) (sh_flow_controller (contents c))
    = Ok (with_receive_window (fc_receive_window (sh_flow_controller (contents c)) - zlen b)
            (sh_flow_controller (contents c)))).
  { unfold consume_receive_window, checked_sub.
    destruct (Z.leb_spec (zlen b) (fc_receive_window (sh_flow_controller (contents c)))); [done | lia]. }
  destruct (shared_receive_ok _ _ _ b usize_wide Hs Hc) as (cs & Hp & Hrest).
  exists cs. split; [done |]. destruct (Hrest (Open false) None None) as (_ & Hr & Hcl & _).
  split; [done |]. intros st r wr. destruct (Hrest st r wr) as (Hs' & _).
  by apply (mem_ok_put cfg m l c).
Qed.

(** [on_data] for a stream that is known, neither SYN nor RST. *)
Lemma on_data_known_ok a w id l c (frame : Frame Data) :
  conn_ok cfg E a w -> ac_streams a !! id = Some l -> cells (mem w) !! l = Some c ->
  stream_id (header frame) = id -> zlen (body frame) <= u32_max ->
  flags_contains (flags (header frame)) RST = false -> flags_contains (flags (header frame)) SYN = false ->
  let fin := flags_contains (flags (header frame)) FIN in
  wp (on_data frame) (fun act '(a', w') =>
    conn_ok cfg E a' w' /\
    if zlen (body frame) <=? fc_receive_window (sh_flow_controller (contents c)) then
      act = ActionNone /\ exists sh', received fin (body frame) (contents c) sh' /\
        touch_rel a w id l fin sh' (option_list (sh_reader (contents c))) a' w'
    else act = ActionTerminate frame_protocol_error /\ a' = a /\ w' = w) (a, w).
Proof.
  intros Hok Hl Hc <- Hb Hrst Hsyn fin. unfold on_data. rewrite Hrst, Hsyn. fold fin.
  wp_step. apply as_ac. rewrite Hl. wp_step. eapply as_on_mem_read; [by apply lock_eval |].
  pose proof (zlen_nonneg (body frame)). unfold frame_body_len. rewrite as_u32_small by lia.
  rewrite consume_receive_eval by lia.
  destruct (Z.leb_spec (zlen (body frame)) (fc_receive_window (sh_flow_controller (contents c)))) as [Hle | Hgt].
  2: { by apply wp_ret. }
  destruct (receive_ok _ _ _ (body frame) (co_mem _ _ _ _ Hok) Hc Hle) as (cs & Hp & Hrest & Hm).
  set (fc' := with_receive_window _ _) in *.
  set (st' := if fin then state_update (sh_state (contents c)) RecvClosed else sh_state (contents c)).
  replace (if fin then snd (update_state RecvClosed (set_flow_controller fc' (contents c)))
           else set_flow_controller fc' (contents c))
    with (mkShared st' fc' (sh_buffer (contents c)) (sh_reader (contents c)) (sh_writer (contents c)))
    by (unfold st'; by destruct fin).
  wp_step. apply wp_lift. simpl. rewrite Hp. simpl. wp_step. eapply as_on_mem; [by eapply store_eval |].
  wp_step. eapply as_on_mem; [eapply wake_reader_eval; by eapply cells_put_eq |].
  simpl. rewrite put_put, wake_mem_all. unfold set_reader. simpl.
  set (sh' := mkShared st' fc' cs None (sh_writer (contents c))).
  eapply wp_mono; [eapply (touch_ok a w _ l c fin sh' (option_list (sh_reader (contents c)))); try done |].
  - apply Hm.
  - unfold sh', st'. simpl. destruct fin; [by right | by left].
  - intros x [a' w'] (-> & Hok' & Ht). split; [done |]. split; [done |]. exists sh'.
    split; [| done]. by split_and!.
Qed.

(** What a window update of [k] bytes makes of a record. *)
Definition credited (fin : bool) (k : Z) (sh : Shared) : Shared :=
  mkShared (if fin then state_update (sh_state sh) RecvClosed else sh_state sh)
    (with_send_window (send_window sh + k) (sh_flow_controller sh)) (sh_buffer sh)
    (if fin then None else sh_reader sh) None.

Lemma increase_send_eval k sh :
  shared_increase_send_window_by k sh =
  if send_window sh + k <=? u32_max
  then Ok (set_flow_controller (with_send_window (send_window sh + k) (sh_flow_controller sh)) sh)
  else Err InvalidWindowUpdate.
Proof.
  unfold shared_increase_send_window_by, on_flow_controller, increase_send_window_by, checked_add, send_window.
  by destruct (_ <=? _).
Qed.

(** [on_window_update] for a stream that is known, neither SYN nor RST. *)
Lemma on_window_update_known_ok a w id l c (frame : Frame WindowUpdate) :
  conn_ok cfg E a w -> ac_streams a !! id = Some l -> cells (mem w) !! l = Some c ->
  stream_id (header frame) = id -> 0 <= len (header frame) ->
  flags_contains (flags (header frame)) RST = false -> flags_contains (flags (header frame)) SYN = false ->
  let fin := flags_contains (flags (header frame)) FIN in
  let k := len (header frame) in
  wp (on_window_update frame) (fun act '(a', w') =>
    conn_ok cfg E a' w' /\
    if send_window (contents c) + k <=? u32_max then
      act = ActionNone /\
      touch_rel a w id l fin (credited fin k (contents c))
        ((if fin then option_list (sh_reader (contents c)) else []) ++ option_list (sh_writer (contents c))) a' w'
    else act = ActionTerminate frame_protocol_error /\ a' = a /\ w' = w) (a, w).
Proof.
  intros Hok Hl Hc <- Hk Hrst Hsyn fin k. unfold on_window_update. rewrite Hrst, Hsyn. fold fin.
  wp_step. apply as_ac. rewrite Hl. wp_step. eapply as_on_mem_read; [by apply lock_eval |].
  unfold header_credit. fold k. rewrite increase_send_eval.
  destruct (Z.leb_spec (send_window (contents c) + k) u32_max) as [Hle | Hgt]; [| by apply wp_ret].
  set (fc' := with_send_window _ _).
  destruct (mo_cells _ _ (co_mem _ _ _ _ Hok) _ _ Hc) as ([Hbuf Hf] & Hcf & _).
  destruct (increase_send_window_ok _ _ k _ fc' Hf Hk) as (Hf' & Hcl & Hcf' & _).
  { unfold increase_send_window_by, checked_add. unfold send_window in Hle.
    destruct (Z.leb_spec (fc_send_window (sh_flow_controller (contents c)) + k) u32_max); [done | lia]. }
  set (st' := if fin then state_update (sh_state (contents c)) RecvClosed else sh_state (contents c)).
  replace (if fin then _ else _)
    with (mkShared st' fc' (sh_buffer (contents c)) (sh_reader (contents c)) (sh_writer (contents c)))
    by (unfold st'; by destruct fin).
  simpl. wp_step. eapply as_on_mem; [by eapply store_eval |].
  set (sh1 := mkShared _ _ _ _ _). set (sh2 := credited fin k (contents c)).
  wp_step. eapply (wp_mono _ (fun _ s => s = (a, set_mem (wake_all (if fin then option_list (sh_reader (contents c)) else [])
    (put l (set_reader (if fin then None else sh_reader (contents c)) sh1) (mem w))) w))).
  { destruct fin; [| apply wp_ret; unfold wake_all; by rewrite app_nil_r].
    eapply as_on_mem; [eapply wake_reader_eval; by eapply cells_put_eq |]. simpl.
    by rewrite put_put, wake_mem_all. }
  intros _ s ->. wp_step. eapply as_on_mem; [eapply wake_writer_eval; by eapply cells_put_eq |].
  simpl. rewrite wake_mem_all, put_wake_all, put_put, wake_all_app.
  replace (set_writer None (set_reader _ sh1)) with sh2
    by (unfold sh1, sh2, credited, fc', st'; by destruct fin).
  eapply wp_mono; [eapply (touch_ok a w _ l c fin sh2); try done |].
  - apply (mem_ok_put cfg _ l c); try done. apply Hok.
  - unfold sh2, credited. simpl. destruct fin; [by right | by left].
  - intros x [a' w'] (-> & Hok' & Ht). done.
Qed.

(** ** New inbound streams *)

(** Why a SYN is refused; the first reason counts. *)
Definition refuse_syn (a : Active) (id : Z) (full : Frame GoAway) : option (Frame GoAway) :=
  if is_outbound (ac_mode a) id then Some frame_protocol_error
  else if bool_decide (is_Some (ac_streams a !! id)) then Some frame_protocol_error
  else if Z.of_nat (size (ac_streams a)) =? max_num_streams cfg then Some full
  else None.

Definition refuse_data (a : Active) (id : Z) (b : list byte) : option (Frame GoAway) :=
  match refuse_syn a id frame_internal_error with
  | Some f => Some f
  | None => if DEFAULT_CREDIT <? zlen b then Some frame_protocol_error else None
  end.

Definition refuse_window_update (a : Active) (id k : Z) : option (Frame GoAway) :=
  match refuse_syn a id frame_protocol_error with
  | Some f => Some f
  | None => if k + DEFAULT_CREDIT <=? u32_max then None else Some frame_protocol_error
  end.

(** An accepted SYN: a new handle that owes an ACK, and a new record, shared by the handle and the
    map, with the bytes [b] unread, [credit] to send and the rest of the default window. *)
Definition accepted (a : Active) (w : World) (id credit : Z) (fin : bool) (b : list byte)
    (st : Stream) (a' : Active) (w' : World) : Prop :=
  st_id st = id /\ st_config st = cfg /\ st_flag st = FlagAck /\
  cells (mem w) !! st_shared st = None /\
  (exists sh, cells (mem w') = <[st_shared st := mkCell 2 sh]> (cells (mem w)) /\
     sh_state sh = (if fin then RecvClosed else Open false) /\ unread sh = b /\
     send_window sh = credit /\
     fc_receive_window (sh_flow_controller sh) = DEFAULT_CREDIT - zlen b /\
     fc_max_receive_window (sh_flow_controller sh) = DEFAULT_CREDIT) /\
  rtt (mem w') = rtt (mem w) /\
  woken (mem w') = woken (mem w) ++ option_list (ac_no_streams_waker a) /\
  exists rs, a' = set_streams (<[id := st_shared st]> (ac_streams a))
                    (set_no_streams_waker None (set_receivers rs a)).

Lemma is_valid_remote_id_eval a w id t (Q : bool -> AS -> Prop) :
  is_stream_tag t = true -> Q (negb (is_outbound (ac_mode a) id)) (a, w) ->
  wp (is_valid_remote_id id t) Q (a, w).
Proof.
  intros Ht HQ. unfold is_valid_remote_id. wp_step. apply as_ac. apply wp_ret.
  rewrite bool_decide_eq_false_2 by (by intros [-> | ->]).
  unfold is_outbound, is_client in HQ. destruct (ac_mode a); [by rewrite negb_involutive in HQ | done].
Qed.

(** The record of the new stream, ready to be shared. *)
Lemma accept_ok a w id credit (fin : bool) b st a1 w1 w2 sh :
  conn_ok cfg E a w -> 0 <= id <= u32_max ->
  refuse_syn a id frame_internal_error = None ->
  created cfg FlagAck id credit E a w st a1 w1 ->
  mem_ok cfg (mem w2) -> net w2 = net w1 -> rtt (mem w2) = rtt (mem w1) -> woken (mem w2) = woken (mem w1) ->
  cells (mem w2) = <[st_shared st := mkCell 1 sh]> (cells (mem w)) ->
  sh_state sh = (if fin then RecvClosed else Open false) -> unread sh = b -> send_window sh = credit ->
  fc_receive_window (sh_flow_controller sh) = DEFAULT_CREDIT - zlen b ->
  fc_max_receive_window (sh_flow_controller sh) = DEFAULT_CREDIT ->
  wp (l ← on_mem (arc_clone (st_shared st));
      streams_insert id l ≫= fun _ => mret (ActionNew st)) (fun act '(a', w') =>
    act = ActionNew st /\ conn_ok cfg (add_ref (st_shared st) E) a' w' /\
    accepted a w id credit fin b st a' w') (a1, w2).
Proof.
  intros Hok Hid Href (Hok1 & Hi & Hcf & Hf & Hnone & (now & Hc1) & Hrt & Hwk & (rs & ->)) Hm Hn Hrt2 Hwk2 Hc2
    Hst Hub Hsw Hrw Hmw.
  unfold refuse_syn in Href. destruct (is_outbound (ac_mode a) id) eqn:Hout; [done |].
  case_bool_decide as Hkn; [done |]. apply eq_None_not_Some in Hkn.
  destruct (Z.eqb_spec (Z.of_nat (size (ac_streams a))) (max_num_streams cfg)) as [| Hsz]; [done |].
  pose proof (co_size _ _ _ _ Hok) as Hle. rewrite <- Hi in *.
  set (a1 := set_no_streams_waker None _) in *.
  assert (Hok2 : conn_ok cfg (add_ref (st_shared st) E) a1 w2).
  { destruct Hok1. split; try done; [| by rewrite Hn |].
    2: { etrans; [by eapply (backlog_fresh cfg E a w (st_shared st)) | apply Hok]. }
    intros l. specialize (co_refs l). rewrite Hc2, Hc1 in *. destruct (decide (st_shared st = l)) as [<- |].
    - by rewrite lookup_insert_eq in co_refs |- *.
    - by rewrite lookup_insert_ne in co_refs |- *. }
  eapply wp_mono; [eapply (share_stream_ok cfg E a1 w2 st (mkCell 1 sh)); try done |].
  - rewrite Hc2. by rewrite lookup_insert_eq.
  - intros id' Hid'. destruct (conn_live _ _ _ _ _ _ Hok Hid') as [c Hc]. by rewrite Hnone in Hc.
  - simpl. lia.
  - simpl. by rewrite Hout.
  - intros x [a' w'] (-> & Hok' & -> & Hcells & Hr' & Hw'). simpl in Hcells. split; [done |].
    split; [done |]. rewrite Hc2, insert_insert_eq in Hcells. split_and!; try done.
    + by exists sh.
    + by rewrite Hr', Hrt2.
    + by rewrite Hw', Hwk2.
    + by exists rs.
Qed.

(** The guards both handlers begin with. *)
Lemma syn_guards_ok a w id t (full : Frame GoAway) (Q : Action Stream -> AS -> Prop) m :
  conn_ok cfg E a w -> is_stream_tag t = true ->
  (forall f, refuse_syn a id full = Some f -> Q (ActionTerminate f) (a, w)) ->
  (refuse_syn a id full = None -> wp m Q (a, w)) ->
  wp (valid ← is_valid_remote_id id t;
      if negb valid then terminate frame_protocol_error else
      known ← contains_key id;
      if known : bool then terminate frame_protocol_error else
      n ← streams_len;
      config ← ac ac_config;
      if n =? max_num_streams config then terminate full else m) Q (a, w).
Proof.
  intros Hok Ht Hrefuse Hm. unfold refuse_syn in *. wp_step. apply is_valid_remote_id_eval; [done |].
  rewrite negb_involutive. destruct (is_outbound (ac_mode a) id); [by apply wp_ret, Hrefuse |].
  wp_step. apply as_ac. destruct (bool_decide (is_Some _)); [by apply wp_ret, Hrefuse |].
  wp_step. apply as_ac. wp_step. apply as_ac. rewrite (co_config _ _ _ _ Hok).
  destruct (_ =? _); [by apply wp_ret, Hrefuse | by apply Hm].
Qed.

Lemma refuse_syn_full a id f f' : refuse_syn a id f = None -> refuse_syn a id f' = None.
Proof. unfold refuse_syn. repeat case_match; done. Qed.

Lemma refuse_syn_room a w id f :
  conn_ok cfg E a w -> refuse_syn a id f = None -> 1 <= max_num_streams cfg.
Proof.
  intros Hok. pose proof (co_size _ _ _ _ Hok). unfold refuse_syn.
  destruct (is_outbound _ _); [done |]. case_bool_decide; [done |].
  destruct (Z.eqb_spec (Z.of_nat (size (ac_streams a))) (max_num_streams cfg)); [done | lia].
Qed.

(** The record of a stream that has just been created, after a FIN if there was one. *)
Lemma created_fin_ok id credit a w st a1 w1 (fin : bool) :
  created cfg FlagAck id credit E a w st a1 w1 ->
  wp (if fin then on_mem (lock_update_state (st_shared st) RecvClosed) ≫= fun _ => mret tt
      else mret tt) (fun _ '(a2, w2) => exists sh,
    a2 = a1 /\ mem_ok cfg (mem w2) /\ net w2 = net w1 /\ rtt (mem w2) = rtt (mem w1) /\
    woken (mem w2) = woken (mem w1) /\
    cells (mem w2) = <[st_shared st := mkCell 1 sh]> (cells (mem w)) /\
    sh_state sh = (if fin then RecvClosed else Open false) /\ unread sh = [] /\
    send_window sh = credit /\ fc_receive_window (sh_flow_controller sh) = DEFAULT_CREDIT /\
    fc_max_receive_window (sh_flow_controller sh) = DEFAULT_CREDIT) (a1, w1).
Proof.
  intros (Hok1 & _ & _ & _ & _ & (now & Hc1) & _). set (sh0 := shared_new _ _ _ _) in *.
  assert (Hl : cells (mem w1) !! st_shared st = Some (mkCell 1 sh0)) by (rewrite Hc1; apply lookup_insert_eq).
  destruct fin.
  - wp_step. eapply as_on_mem; [by eapply lock_update_state_eval |]. apply wp_ret.
    exists (set_state RecvClosed sh0). split_and!; try done.
    + eapply mem_ok_put_meta; [apply Hok1 | done..].
    + etrans; [exact (cells_put_insert _ _ _ _ Hl) |]. rewrite Hc1. apply insert_insert_eq.
  - apply wp_ret. exists sh0. split_and!; try done. apply Hok1.
Qed.

Lemma on_data_syn_ok a w (frame : Frame Data) :
  conn_ok cfg E a w -> 0 <= stream_id (header frame) <= u32_max ->
  flags_contains (flags (header frame)) RST = false -> flags_contains (flags (header frame)) SYN = true ->
  let id := stream_id (header frame) in
  let fin := flags_contains (flags (header frame)) FIN in
  wp (on_data frame) (fun act '(a', w') =>
    match refuse_data a id (body frame) with
    | Some f => act = ActionTerminate f /\ a' = a /\ w' = w
    | None => exists st, act = ActionNew st /\ conn_ok cfg (add_ref (st_shared st) E) a' w' /\
                accepted a w id DEFAULT_CREDIT fin (body frame) st a' w'
    end) (a, w).
Proof.
  intros Hok Hid Hrst Hsyn id fin. unfold on_data, refuse_data. rewrite Hrst, Hsyn. fold id fin.
  apply syn_guards_ok; [done | done | intros f Hf; by rewrite Hf |]. intros Hr. rewrite Hr.
  pose proof (refuse_syn_room _ _ _ _ Hok Hr) as Hmax.
  destruct (Z.ltb_spec DEFAULT_CREDIT (zlen (body frame))) as [| Hb]; [by apply wp_ret |].
  pose proof (zlen_nonneg (body frame)) as Hb0.
  assert (Hdc : 0 <= DEFAULT_CREDIT <= u32_max) by (vm_compute; split; discriminate).
  wp_step. eapply wp_mono; [by apply make_new_inbound_stream_ok |]. intros st [a1 w1] Hcr.
  wp_step. eapply wp_mono; [by eapply created_fin_ok |].
  intros _ [a2 w2] (sh & -> & Hm2 & Hn2 & Hrt2 & Hwk2 & Hc2 & Hst & Hub & Hsw & Hrw & Hmw).
  assert (Hl2 : cells (mem w2) !! st_shared st = Some (mkCell 1 sh)) by (rewrite Hc2; apply lookup_insert_eq).
  wp_step. eapply as_on_mem_read; [by apply lock_eval |]. simpl.
  unfold frame_body_len. rewrite as_u32_small, consume_receive_eval, Hrw by lia.
  destruct (Z.leb_spec (zlen (body frame)) DEFAULT_CREDIT); [| lia].
  destruct (receive_ok _ _ _ (body frame) Hm2 Hl2) as (cs & Hp & Hrest & Hm3); [simpl; lia |].
  simpl in Hp, Hrest, Hm3. rewrite Hrw in Hm3.
  wp_step. apply wp_lift. simpl. rewrite Hp. simpl. wp_step. eapply as_on_mem; [by eapply store_eval |].
  set (sh' := set_buffer cs _). eapply wp_mono.
  - apply (accept_ok a w id DEFAULT_CREDIT fin (body frame) st a1 w1 _ sh'); try done; [apply Hm3 |..].
    + etrans; [exact (cells_put_insert _ _ _ _ Hl2) |]. rewrite Hc2. apply insert_insert_eq.
    + unfold unread. simpl. rewrite Hrest. unfold unread in Hub. by rewrite Hub.
  - intros act [a' w'] (-> & Hok' & Hacc). by exists st.
Qed.

Lemma on_window_update_syn_ok a w (frame : Frame WindowUpdate) :
  conn_ok cfg E a w -> 0 <= stream_id (header frame) <= u32_max -> 0 <= len (header frame) ->
  flags_contains (flags (header frame)) RST = false -> flags_contains (flags (header frame)) SYN = true ->
  let id := stream_id (header frame) in
  let k := len (header frame) in
  let fin := flags_contains (flags (header frame)) FIN in
  wp (on_window_update frame) (fun act '(a', w') =>
    match refuse_window_update a id k with
    | Some f => act = ActionTerminate f /\ a' = a /\ w' = w
    | None => exists st, act = ActionNew st /\ conn_ok cfg (add_ref (st_shared st) E) a' w' /\
                accepted a w id (k + DEFAULT_CREDIT) fin [] st a' w'
    end) (a, w).
Proof.
  intros Hok Hid Hk Hrst Hsyn id k fin. unfold on_window_update, refuse_window_update.
  rewrite Hrst, Hsyn. fold id fin.
  apply syn_guards_ok; [done | done | intros f Hf; by rewrite Hf |]. intros Hr. rewrite Hr.
  pose proof (refuse_syn_room _ _ _ _ Hok Hr) as Hmax.
  unfold checked_add, header_credit. fold k.
  destruct (Z.leb_spec (k + DEFAULT_CREDIT) u32_max) as [Hle |]; [| by apply wp_ret].
  wp_step. eapply wp_mono; [apply make_new_inbound_stream_ok; try done |].
  { unfold k, DEFAULT_CREDIT, KIB in *. lia. }
  intros st [a1 w1] Hcr.
  wp_step. eapply wp_mono; [by eapply created_fin_ok |].
  intros _ [a2 w2] (sh & -> & Hm2 & Hn2 & Hrt2 & Hwk2 & Hc2 & Hst & Hub & Hsw & Hrw & Hmw).
  eapply wp_mono; [eapply (accept_ok a w id (k + DEFAULT_CREDIT) fin []); try done; by eapply refuse_syn_full |].
  intros act [a' w'] (-> & Hok' & Hacc). by exists st.
Qed.

(** ** Pings *)

Lemma on_ping_ok a w (frame : Frame Ping) :
  conn_ok cfg E a w ->
  let known := bool_decide (is_Some (ac_streams a !! stream_id (header frame))) in
  wp (on_ping frame) (fun act '(a', w') =>
    a' = a /\ conn_ok cfg E a w' /\ net w' = net w /\ cells (mem w') = cells (mem w) /\
    woken (mem w') = woken (mem w) /\
    if flags_contains (flags (header frame)) ACK then
      exists now now', handle_pong (len (header frame)) now now' (rtt (mem w)) = Ret (act, rtt (mem w'))
    else w' = w /\
      act = if is_session (stream_id (header frame)) || known
            then ActionPing (frame_new (header_ack (header_ping (len (header frame))))) else ActionNone)
    (a, w).
Proof.
  intros Hok known. unfold on_ping. destruct (flags_contains _ ACK).
  - pose proof (mo_clock _ _ (co_mem _ _ _ _ Hok)) as Hck.
    destruct (handle_pong_ok (S := Stream) (len (header frame)) (clock (mem w) (ticks (mem w)))
      (clock (mem w) (S (ticks (mem w)))) _ (mo_rtt _ _ (co_mem _ _ _ _ Hok)) (Hck _) (Hck _)) as (act & r' & He & Hr & Hs).
    set (m' := set_rtt r' (set_ticks (S (S (ticks (mem w)))) (mem w))).
    assert (Hm' : mem_ok cfg m') by (apply mem_ok_set_rtt; [apply mem_ok_ticks, Hok | exact Hr | exact Hs]).
    eapply (as_on_mem _ _ a w act m').
    + unfold mem_handle_pong, frame_ping_id, header_ping_id, mbind, M_bind, read_clock, gets, modify, lift. simpl.
      by rewrite He.
    + split; [done |]. split; [by eapply conn_ok_cells |]. split_and!; try done. eauto.
  - wp_step. apply as_ac. fold known. unfold is_session.
    destruct ((_ =? _) || known); apply wp_ret; split_and!; done.
Qed.

(** ** Frames *)

(** What [on_frame] does first: an ACK acknowledges the stream and wakes the task that waits to
    open one. *)
Definition acked_mem (a : Active) (w : World) (id : Z) : Mem :=
  match ac_streams a !! id with
  | Some l =>
      match cells (mem w) !! l with
      | Some c => put l (set_state (state_update (sh_state (contents c)) (Open true)) (contents c)) (mem w)
      | None => mem w
      end
  | None => mem w
  end.

Definition acked (a : Active) (w : World) (frame : Frame unit) : AS :=
  if flags_contains (flags (header frame)) ACK && is_stream_tag (tag (header frame)) then
    (set_new_outbound_stream_waker None a,
     set_mem (wake_all (option_list (ac_new_outbound_stream_waker a))
                (acked_mem a w (stream_id (header frame)))) w)
  else (a, w).

(** The rest of [on_frame]. *)
Definition dispatch (frame : Frame unit) : M AS (result (Action Stream) ConnectionError) :=
  known ← contains_key (stream_id (header frame));
  if negb (flags_contains (flags (header frame)) SYN) && is_stream_tag (tag (header frame)) && negb known
  then mret (Ok ActionNone)
  else
    match tag (header frame) with
    | TagData => f ← lift (frame_into_data frame); a ← on_data f; mret (Ok a)
    | TagWindowUpdate => f ← lift (frame_into_window_update frame); a ← on_window_update f; mret (Ok a)
    | TagPing => f ← lift (frame_into_ping frame); a ← on_ping f; mret (Ok a)
    | TagGoAway => mret (Err ErrClosed)
    end.

Lemma acked_ok a w frame :
  conn_ok cfg E a w ->
  let '(a1, w1) := acked a w frame in
  conn_ok cfg E a1 w1 /\ ac_streams a1 = ac_streams a /\ ac_mode a1 = ac_mode a /\ net w1 = net w.
Proof.
  intros Hok. unfold acked. destruct (_ && _); [| done]. split; [| done].
  apply conn_ok_outbound_waker. unfold acked_mem. destruct (ac_streams a !! _) as [l|] eqn:Hl.
  - destruct (conn_live _ _ _ _ _ _ Hok Hl) as [c Hc]. rewrite Hc.
    eapply (conn_ok_mem _ _ _ _ (eq l) _ Hok).
    + apply mem_ok_wake_all. by eapply mem_ok_put_meta; [apply Hok |..].
    + etrans; [| apply mem_rel_wake_all]. by eapply (mem_rel_update_state _ _ _ _ (Open true) Hc).
  - eapply (conn_ok_cells _ _ _ _ _ Hok); [apply mem_ok_wake_all, Hok | done].
Qed.

Lemma on_frame_acked a w frame (Q : _ -> AS -> Prop) :
  conn_ok cfg E a w -> wp (dispatch frame) Q (acked a w frame) -> wp (on_frame frame) Q (a, w).
Proof.
  intros Hok Hd. unfold on_frame. apply wp_bind.
  eapply (wp_mono _ (fun _ s => s = acked a w frame)); [| by intros _ s ->].
  unfold acked. destruct (_ && _); [| by apply wp_ret]. wp_step. apply as_ac.
  wp_step. eapply (wp_mono _ (fun _ s => s = (a, set_mem (acked_mem a w (stream_id (header frame))) w))).
  - unfold acked_mem. destruct (ac_streams a !! _) as [l|] eqn:Hl.
    + destruct (conn_live _ _ _ _ _ _ Hok Hl) as [c Hc]. rewrite Hc. wp_step.
      eapply as_on_mem; [by apply lock_update_state_eval |]. by apply wp_ret.
    + apply wp_ret. by destruct w.
  - intros _ s ->. wp_step. apply as_ac. wp_step. apply as_upd.
    eapply as_on_mem; [apply wake_eval |]. simpl. by rewrite wake_mem_all.
Qed.

(** Frames for a stream that is not known, SYN apart. *)
Lemma on_frame_unknown a w (frame : Frame unit) :
  conn_ok cfg E a w -> ac_streams a !! stream_id (header frame) = None ->
  is_stream_tag (tag (header frame)) = true -> flags_contains (flags (header frame)) SYN = false ->
  let ack := flags_contains (flags (header frame)) ACK in
  wp (on_frame frame) (fun r '(a', w') =>
    r = Ok ActionNone /\
    a' = (if ack then set_new_outbound_stream_waker None a else a) /\
    w' = (if ack then set_mem (wake_all (option_list (ac_new_outbound_stream_waker a)) (mem w)) w else w) /\
    conn_ok cfg E a' w')
    (a, w).
Proof.
  intros Hok Hn Ht Hs ack. eapply on_frame_acked; [done |].
  pose proof (acked_ok a w frame Hok) as Ha. unfold acked, acked_mem in *.
  rewrite Ht, Hn, andb_true_r in *. fold ack in Ha |- *. unfold dispatch. rewrite Hs, Ht.
  destruct ack; destruct Ha as (Hok1 & _); (wp_step; apply as_ac; simpl; rewrite Hn; by apply wp_ret).
Qed.

(** What only the loop and new streams change. *)
Definition quiet (a : Active) (w : World) (a' : Active) (w' : World) : Prop :=
  ac_receivers a' = ac_receivers a /\ ac_socket a' = ac_socket a /\
  ac_pending_read_frame a' = ac_pending_read_frame a /\
  ac_pending_write_frame a' = ac_pending_write_frame a /\ net w' = net w /\
  ac_streams a' ⊆ ac_streams a.

Lemma quiet_trans a w a1 w1 a2 w2 : quiet a w a1 w1 -> quiet a1 w1 a2 w2 -> quiet a w a2 w2.
Proof.
  unfold quiet. intros (?&?&?&?&?&?) (?&?&?&?&?&?). split_and!; [congruence.. |]. by etrans.
Qed.

Lemma reset_quiet a w id a' w' : reset_rel a w id a' w' -> quiet a w a' w'.
Proof. intros (-> & Hn & _). split_and!; try done. apply delete_subseteq. Qed.

Lemma reset_rtt a w id a' w' : reset_rel a w id a' w' -> rtt (mem w') = rtt (mem w).
Proof.
  intros (_ & _ & Hr). destruct (ac_streams a !! id) as [l|]; [| by subst].
  destruct Hr as (c & _ & Hd). by rewrite (md_rtt _ _ _ Hd).
Qed.

Lemma touch_quiet a w id l fin sh' ws a' w' : touch_rel a w id l fin sh' ws a' w' -> quiet a w a' w'.
Proof. intros [Hn Hr]. destruct (_ && _); destruct Hr as [-> _]; split_and!; try done. apply delete_subseteq. Qed.

Lemma acked_quiet a w frame : let '(a1, w1) := acked a w frame in quiet a w a1 w1.
Proof. unfold acked. by destruct (_ && _). Qed.

(** What the connection needs to know about an action that was taken from [a] and [w]. *)
Definition action_ok (a : Active) (w : World) (act : Action Stream) (a' : Active) (w' : World) : Prop :=
  match act with
  | ActionNone => conn_ok cfg E a' w' /\ quiet a w a' w'
  | ActionNew st => handed_out cfg E st a' w'
  | ActionPing f => conn_ok cfg E a' w' /\ quiet a w a' w' /\ frame_wf f
  | ActionTerminate f => conn_ok cfg E a' w' /\ quiet a w a' w' /\ frame_wf f
  end.

Lemma refuse_wf a id b k f :
  refuse_data a id b = Some f \/ refuse_window_update a id k = Some f -> frame_wf f.
Proof.
  assert (Hp : frame_wf frame_protocol_error) by (apply (frame_go_away_wf 1); vm_compute; split; discriminate).
  assert (Hi : frame_wf frame_internal_error) by (apply (frame_go_away_wf 2); vm_compute; split; discriminate).
  unfold refuse_data, refuse_window_update, refuse_syn. intros [Hr | Hr]; repeat case_match; by simplify_eq.
Qed.

Lemma protocol_error_wf : frame_wf frame_protocol_error.
Proof. apply (frame_go_away_wf 1). vm_compute. split; discriminate. Qed.

Lemma accepted_action a w id credit fin b act a' w' :
  0 <= id <= u32_max ->
  (exists st, act = ActionNew st /\ conn_ok cfg (add_ref (st_shared st) E) a' w' /\
     accepted a w id credit fin b st a' w') -> action_ok a w act a' w'.
Proof. intros Hid (st & -> & Hok' & <- & Hcf & _). by split. Qed.

Lemma on_data_ok a w (frame : Frame Data) :
  conn_ok cfg E a w -> 0 <= stream_id (header frame) <= u32_max -> zlen (body frame) <= u32_max ->
  wp (on_data frame) (fun act '(a', w') => action_ok a w act a' w') (a, w).
Proof.
  intros Hok Hid Hb. destruct (flags_contains (flags (header frame)) RST) eqn:Hrst.
  { unfold on_data. rewrite Hrst. eapply wp_mono; [by apply reset_stream_ok |].
    intros act [a' w'] (-> & Hok' & Hr). split; [done | by eapply reset_quiet]. }
  destruct (flags_contains (flags (header frame)) SYN) eqn:Hsyn.
  { eapply wp_mono; [by apply on_data_syn_ok |]. intros act [a' w'] Hr. simpl in Hr.
    destruct (refuse_data _ _ _) as [f|] eqn:Hf; [| by eapply accepted_action].
    destruct Hr as (-> & -> & ->). split; [done |]. split; [done |]. eapply (refuse_wf _ _ _ 0). by left. }
  destruct (ac_streams a !! stream_id (header frame)) as [l|] eqn:Hl.
  - destruct (conn_live _ _ _ _ _ _ Hok Hl) as [c Hc].
    eapply wp_mono; [by eapply on_data_known_ok |]. intros act [a' w'] [Hok' Hr].
    destruct (_ <=? _); [destruct Hr as (-> & sh' & _ & Ht) | destruct Hr as (-> & -> & ->)].
    + split; [done | by eapply touch_quiet].
    + split; [done |]. split; [done | apply protocol_error_wf].
  - unfold on_data. rewrite Hrst, Hsyn. wp_step. apply as_ac. rewrite Hl. by apply wp_ret.
Qed.

Lemma on_window_update_ok a w (frame : Frame WindowUpdate) :
  conn_ok cfg E a w -> 0 <= stream_id (header frame) <= u32_max -> 0 <= len (header frame) ->
  wp (on_window_update frame) (fun act '(a', w') => action_ok a w act a' w') (a, w).
Proof.
  intros Hok Hid Hk. destruct (flags_contains (flags (header frame)) RST) eqn:Hrst.
  { unfold on_window_update. rewrite Hrst. eapply wp_mono; [by apply reset_stream_ok |].
    intros act [a' w'] (-> & Hok' & Hr). split; [done | by eapply reset_quiet]. }
  destruct (flags_contains (flags (header frame)) SYN) eqn:Hsyn.
  { eapply wp_mono; [by apply on_window_update_syn_ok |]. intros act [a' w'] Hr. simpl in Hr.
    destruct (refuse_window_update _ _ _) as [f|] eqn:Hf; [| by eapply accepted_action].
    destruct Hr as (-> & -> & ->). split; [done |]. split; [done |]. eapply (refuse_wf _ _ []). by right. }
  destruct (ac_streams a !! stream_id (header frame)) as [l|] eqn:Hl.
  - destruct (conn_live _ _ _ _ _ _ Hok Hl) as [c Hc].
    eapply wp_mono; [by eapply on_window_update_known_ok |]. intros act [a' w'] [Hok' Hr].
    destruct (_ <=? _); [destruct Hr as (-> & Ht) | destruct Hr as (-> & -> & ->)].
    + split; [done | by eapply touch_quiet].
    + split; [done |]. split; [done | apply protocol_error_wf].
  - unfold on_window_update. rewrite Hrst, Hsyn. wp_step. apply as_ac. rewrite Hl. by apply wp_ret.
Qed.

Lemma on_ping_action_ok a w (frame : Frame Ping) :
  conn_ok cfg E a w -> 0 <= len (header frame) <= u32_max ->
  wp (on_ping frame) (fun act '(a', w') => action_ok a w act a' w') (a, w).
Proof.
  intros Hok Hl. eapply wp_mono; [by apply on_ping_ok |].
  intros act [a' w'] (-> & Hok' & Hn & _ & _ & Hr).
  assert (Hq : quiet a w a w') by (by split_and!). destruct (flags_contains _ ACK).
  - destruct Hr as (now & now' & Hr). unfold handle_pong in Hr.
    destruct (rtt_state _); [destruct (negb _) |]; simpl in Hr; [| destruct (add_ _ _ _); [| done..] |]; injection Hr as <- _;
      try done; (split; [done |]; split; [done | apply protocol_error_wf]).
  - destruct Hr as [-> ->]. destruct (_ || _); [| done]. split; [done |]. split; [done |].
    unfold frame_wf, header_typed, u8_max, u16_max, u32_max in *. simpl.
    split_and!; try (done || lia); vm_compute; discriminate.
Qed.

Lemma action_ok_trans a w a1 w1 act a' w' :
  quiet a w a1 w1 -> action_ok a1 w1 act a' w' -> action_ok a w act a' w'.
Proof.
  intros Hq. destruct act; simpl; [intros [? ?] | done | intros (? & ? & ?) | intros (? & ? & ?)];
    split_and!; try done; by eapply quiet_trans.
Qed.

Lemma on_frame_ok a w (frame : Frame unit) :
  conn_ok cfg E a w -> frame_sendable frame ->
  wp (on_frame frame) (fun r '(a', w') =>
    match r with
    | Ok act => action_ok a w act a' w'
    | Err e => e = ErrClosed /\ tag (header frame) = TagGoAway /\ conn_ok cfg E a' w'
    end) (a, w).
Proof.
  intros Hok [(Ht & Hv & Hb) Hsz]. apply on_frame_acked; [done |].
  pose proof (acked_ok a w frame Hok) as Ha. pose proof (acked_quiet a w frame) as Hq.
  destruct (acked a w frame) as [a1 w1]. destruct Ha as (Hok1 & _). unfold dispatch. wp_step. apply as_ac.
  destruct (negb _ && _ && _); [by apply wp_ret |].
  destruct Ht as (_ & _ & Hid & Hlen).
  assert (Hsz' : zlen (body frame) <= u32_max) by (unfold MAX_FRAME_BODY_LEN, MIB, KIB, u32_max in *; lia).
  destruct (tag (header frame)) eqn:Htag.
  - wp_step. apply wp_lift. rewrite frame_into_data_ret by done. simpl. wp_step.
    eapply wp_mono; [by apply on_data_ok |]. intros act [a' w'] Hact. by eapply wp_ret, action_ok_trans.
  - wp_step. apply wp_lift. rewrite frame_into_window_update_ret by done. simpl. wp_step.
    eapply wp_mono; [apply on_window_update_ok; [done | done | apply Hlen] |]. intros act [a' w'] Hact. by eapply wp_ret, action_ok_trans.
  - wp_step. apply wp_lift. rewrite frame_into_ping_ret by done. simpl. wp_step.
    eapply wp_mono; [by apply on_ping_action_ok |]. intros act [a' w'] Hact. by eapply wp_ret, action_ok_trans.
  - by apply wp_ret.
Qed.
End handlers.
