(* ===== verification/Wakeups.v ===== *)
(** * No wake-up is lost

    A task that is parked on a stream, to read or to write, is woken by every frame that gives it
    something to do. *)
From Stdlib Require Import ZArith Lia Strings.Byte.
From stdpp Require Import base option list gmap numbers.
From S2P Require Import Prelude.
From S2P Require Import Header.
From S2P Require Import Frame.
From S2P Require Import Config.
From S2P Require Import Command.
From S2P Require Import Rtt.
From S2P Require Import ChunkList.
From S2P Require Import FlowControl.
From S2P Require Import Shared.
From S2P Require Import Heap.
From S2P Require Import Channel.
From S2P Require Import TaggedStream.
From S2P Require Import StreamHandle.
From S2P Require Import StreamSpec.
From S2P Require Import FrameIo.
From S2P Require Import FrameIoSpec.
From S2P Require Import Connection.
From S2P Require Import ConnInvariant.
From S2P Require Import ConnSteps.
From S2P Require Import ConnHandlers.

(** A parked reader has nothing new to do: it is still parked, with the same bytes to read and the
    same prospect of more. A parked writer likewise, with the same credit. *)
Definition calm_reader (sh sh' : Shared) : Prop :=
  sh_reader sh' = sh_reader sh /\ unread sh' = unread sh /\ can_read (sh_state sh') = can_read (sh_state sh).

Definition calm_writer (sh sh' : Shared) : Prop :=
  sh_writer sh' = sh_writer sh /\ send_window sh' = send_window sh /\ can_write (sh_state sh') = can_write (sh_state sh).

(** From [m] to [m'], every task parked on a stream that still lives is calm or has been woken. *)
Definition no_lost (m m' : Mem) : Prop :=
  (forall k, k ∈ woken m -> k ∈ woken m') /\
  (forall l c c', cells m !! l = Some c -> cells m' !! l = Some c' ->
     (calm_reader (contents c) (contents c') \/ (forall cx, sh_reader (contents c) = Some cx -> cx ∈ woken m')) /\
     (calm_writer (contents c) (contents c') \/ (forall cx, sh_writer (contents c) = Some cx -> cx ∈ woken m'))).

Lemma no_lost_cells m m' ws :
  cells m' = cells m -> woken m' = woken m ++ ws -> no_lost m m'.
Proof.
  intros Hc Hw. split; [intros k Hk; rewrite Hw; apply elem_of_app; by left |].
  intros l c c' Hl Hl'. rewrite Hc, Hl in Hl'. injection Hl' as <-. split; by left.
Qed.

Lemma no_lost_refl m : no_lost m m.
Proof. apply (no_lost_cells m m []); [done | by rewrite app_nil_r]. Qed.

(** One step after another, when the first keeps all records. *)
Lemma no_lost_trans m1 m2 m3 :
  (forall l c, cells m1 !! l = Some c -> is_Some (cells m2 !! l)) ->
  no_lost m1 m2 -> no_lost m2 m3 -> no_lost m1 m3.
Proof.
  intros Hkeep [Hw1 H1] [Hw2 H2]. split; [auto |]. intros l c1 c3 Hc1 Hc3.
  destruct (Hkeep _ _ Hc1) as [c2 Hc2]. destruct (H1 _ _ _ Hc1 Hc2) as [R1 W1], (H2 _ _ _ Hc2 Hc3) as [R2 W2].
  split.
  - destruct R1 as [(Hr & Hu & Hcr) | R1]; [| right; auto]. destruct R2 as [(Hr' & Hu' & Hcr') | R2].
    + left. split_and!; congruence.
    + right. intros cx Hcx. apply R2. by rewrite Hr.
  - destruct W1 as [(Hr & Hu & Hcr) | W1]; [| right; auto]. destruct W2 as [(Hr' & Hu' & Hcr') | W2].
    + left. split_and!; congruence.
    + right. intros cx Hcx. apply W2. by rewrite Hr.
Qed.

(** Writing one record and waking some tasks. *)
Lemma no_lost_put m l c sh ws :
  cells m !! l = Some c ->
  calm_reader (contents c) sh \/ (forall cx, sh_reader (contents c) = Some cx -> cx ∈ ws) ->
  calm_writer (contents c) sh \/ (forall cx, sh_writer (contents c) = Some cx -> cx ∈ ws) ->
  no_lost m (wake_all ws (put l sh m)).
Proof.
  intros Hl Hr Hw. split; [intros k Hk; apply elem_of_app; by left |]. intros l' c1 c2 H1 H2.
  rewrite cells_wake_all in H2. destruct (decide (l = l')) as [<- | Hne].
  - rewrite Hl in H1. injection H1 as <-. rewrite (cells_put_eq _ _ _ _ Hl) in H2. injection H2 as <-.
    simpl. split; [destruct Hr as [| Hr]; [by left |] | destruct Hw as [| Hw]; [by left |]];
      right; intros cx Hcx; apply elem_of_app; right; auto.
  - rewrite cells_put_ne in H2 by done. rewrite H1 in H2. injection H2 as <-. split; by left.
Qed.

Lemma put_keeps m l c sh ws l' c' :
  cells m !! l = Some c -> cells m !! l' = Some c' -> is_Some (cells (wake_all ws (put l sh m)) !! l').
Proof.
  intros Hl Hl'. rewrite cells_wake_all. destruct (decide (l = l')) as [<- | Hne].
  - by rewrite (cells_put_eq _ _ _ _ Hl).
  - by rewrite cells_put_ne, Hl'.
Qed.

Lemma no_lost_drop l m m' : mem_drop l m m' -> no_lost m m'.
Proof.
  intros [Ho Hs _ _ Hw]. split; [by rewrite Hw |]. intros l' c c' Hc Hc'.
  assert (Heq : contents c' = contents c).
  { destruct (decide (l = l')) as [<- | Hne].
    - destruct (Hs _ Hc') as (c0 & Hc0 & Heq). rewrite Hc in Hc0. by injection Hc0 as ->.
    - rewrite Ho in Hc' by done. rewrite Hc in Hc'. by injection Hc' as ->. }
  rewrite Heq. split; by left.
Qed.

Section wakeups.
Context `{Arch, Mpsc, SelectAllOps, FrameSocket, MapOrder}.
Context `{!MpscLaws, !SelectAllLaws, !FrameSocketLaws}.
Hypothesis usize_wide : u32_max + u32_max <= usize_max.
Variable cfg : Config.
Variable E : positive -> nat.

Lemma reset_no_lost a w id a' w' : reset_rel a w id a' w' -> no_lost (mem w) (mem w').
Proof.
  intros (_ & _ & Hr). destruct (ac_streams a !! id) as [l|]; [| subst; apply no_lost_refl].
  destruct Hr as (c & Hl & Hd). eapply (no_lost_trans _ (shut_mem l (contents c) (mem w))).
  - intros l' c' Hc'. by eapply put_keeps.
  - apply (no_lost_put _ _ _ _ _ Hl); right; intros cx Hcx; unfold parked; rewrite Hcx; apply elem_of_app;
      [left | right]; by apply list_elem_of_singleton.
  - by eapply no_lost_drop.
Qed.

Lemma touch_no_lost a w id l c fin sh' ws a' w' :
  cells (mem w) !! l = Some c ->
  calm_reader (contents c) sh' \/ (forall cx, sh_reader (contents c) = Some cx -> cx ∈ ws) ->
  calm_writer (contents c) sh' \/ (forall cx, sh_writer (contents c) = Some cx -> cx ∈ ws) ->
  touch_rel a w id l fin sh' ws a' w' -> no_lost (mem w) (mem w').
Proof.
  intros Hl Hr Hw [_ Ht]. pose proof (no_lost_put _ _ _ sh' ws Hl Hr Hw) as Hp.
  destruct (_ && _); destruct Ht as [_ Ht]; [| by rewrite Ht].
  eapply no_lost_trans; [| exact Hp | by eapply no_lost_drop]. intros l' c' Hc'. by eapply put_keeps.
Qed.

(** A new record concerns nobody. *)
Lemma no_lost_insert m m' l x ws :
  cells m !! l = None -> cells m' = <[l := x]> (cells m) -> woken m' = woken m ++ ws -> no_lost m m'.
Proof.
  intros Hl Hc Hw. split; [intros k Hk; rewrite Hw; apply elem_of_app; by left |].
  intros l' c c' Hx Hy. rewrite Hc, lookup_insert_ne in Hy by (intros ->; by rewrite Hl in Hx).
  rewrite Hx in Hy. injection Hy as <-. split; by left.
Qed.

Lemma on_data_no_lost a w (frame : Frame Data) :
  conn_ok cfg E a w -> 0 <= stream_id (header frame) <= u32_max -> zlen (body frame) <= u32_max ->
  wp (on_data frame) (fun _ '(a', w') => no_lost (mem w) (mem w')) (a, w).
Proof.
  intros Hok Hid Hb. destruct (flags_contains (flags (header frame)) RST) eqn:Hrst.
  { unfold on_data. rewrite Hrst. eapply wp_mono; [by apply (reset_stream_ok cfg E) |].
    intros act [a' w'] (_ & _ & Hr). by eapply reset_no_lost. }
  destruct (flags_contains (flags (header frame)) SYN) eqn:Hsyn.
  { eapply wp_mono; [by apply (on_data_syn_ok usize_wide cfg E) |]. intros act [a' w'] Hr. simpl in Hr.
    destruct (refuse_data _ _ _ _) as [f|]; [destruct Hr as (_ & _ & ->); apply no_lost_refl |].
    destruct Hr as (st & _ & _ & _ & _ & _ & Hl & (sh & Hc & _) & _ & Hw & _). by eapply no_lost_insert. }
  destruct (ac_streams a !! stream_id (header frame)) as [l|] eqn:Hl.
  - destruct (conn_live _ _ _ _ _ _ Hok Hl) as [c Hc].
    eapply wp_mono; [by eapply (on_data_known_ok usize_wide cfg E) |]. intros act [a' w'] [_ Hr].
    destruct (_ <=? _); [| destruct Hr as (_ & _ & ->); apply no_lost_refl].
    destruct Hr as (_ & sh' & (Hst & Hfc & _ & _ & Hwr) & Ht). eapply touch_no_lost; [exact Hc | | | exact Ht].
    + right. intros cx Hcx. rewrite Hcx. by apply list_elem_of_singleton.
    + left. split_and!; [done | unfold send_window; by rewrite Hfc |]. rewrite Hst.
      destruct (flags_contains _ FIN); [| done]. by destruct (sh_state (contents c)).
  - unfold on_data. rewrite Hrst, Hsyn. wp_step. apply as_ac. rewrite Hl. apply wp_ret. apply no_lost_refl.
Qed.

Lemma on_window_update_no_lost a w (frame : Frame WindowUpdate) :
  conn_ok cfg E a w -> 0 <= stream_id (header frame) <= u32_max -> 0 <= len (header frame) ->
  wp (on_window_update frame) (fun _ '(a', w') => no_lost (mem w) (mem w')) (a, w).
Proof.
  intros Hok Hid Hk. destruct (flags_contains (flags (header frame)) RST) eqn:Hrst.
  { unfold on_window_update. rewrite Hrst. eapply wp_mono; [by apply (reset_stream_ok cfg E) |].
    intros act [a' w'] (_ & _ & Hr). by eapply reset_no_lost. }
  destruct (flags_contains (flags (header frame)) SYN) eqn:Hsyn.
  { eapply wp_mono; [by apply (on_window_update_syn_ok cfg E) |]. intros act [a' w'] Hr. simpl in Hr.
    destruct (refuse_window_update _ _ _ _) as [f|]; [destruct Hr as (_ & _ & ->); apply no_lost_refl |].
    destruct Hr as (st & _ & _ & _ & _ & _ & Hl & (sh & Hc & _) & _ & Hw & _). by eapply no_lost_insert. }
  destruct (ac_streams a !! stream_id (header frame)) as [l|] eqn:Hl.
  - destruct (conn_live _ _ _ _ _ _ Hok Hl) as [c Hc].
    eapply wp_mono; [by eapply (on_window_update_known_ok cfg E) |]. intros act [a' w'] [_ Hr].
    destruct (_ <=? _); [| destruct Hr as (_ & _ & ->); apply no_lost_refl].
    destruct Hr as (_ & Ht). eapply touch_no_lost; [exact Hc | | | exact Ht].
    + destruct (flags_contains _ FIN); [right | by left]. intros cx Hcx. rewrite Hcx.
      apply elem_of_app. left. by apply list_elem_of_singleton.
    + right. intros cx Hcx. rewrite Hcx. apply elem_of_app. right. by apply list_elem_of_singleton.
  - unfold on_window_update. rewrite Hrst, Hsyn. wp_step. apply as_ac. rewrite Hl. apply wp_ret. apply no_lost_refl.
Qed.

Lemma acked_no_lost a w frame :
  conn_ok cfg E a w ->
  no_lost (mem w) (mem (acked a w frame).2) /\
  (forall l c, cells (mem w) !! l = Some c -> is_Some (cells (mem (acked a w frame).2) !! l)).
Proof.
  intros Hok. unfold acked. destruct (_ && _); [| split; [apply no_lost_refl | intros l c Hc; by exists c]]. simpl. unfold acked_mem.
  destruct (ac_streams a !! _) as [l|] eqn:Hl.
  - destruct (conn_live _ _ _ _ _ _ Hok Hl) as [c Hc]. rewrite Hc. split.
    + apply (no_lost_put _ _ _ _ _ Hc); left; (split_and!; try done); simpl; by destruct (sh_state (contents c)).
    + intros l' c' Hc'. by eapply (put_keeps _ _ _ _ [] _ _ Hc).
  - split; [by eapply (no_lost_cells _ _ (option_list (ac_new_outbound_stream_waker a))) | intros l c Hc; by exists c].
Qed.

Lemma on_frame_no_lost a w (frame : Frame unit) :
  conn_ok cfg E a w -> frame_sendable frame ->
  wp (on_frame frame) (fun _ '(a', w') => no_lost (mem w) (mem w')) (a, w).
Proof.
  intros Hok [(Ht & _) Hsz]. eapply (on_frame_acked cfg E); [done |].
  pose proof (acked_ok cfg E a w frame Hok) as Ha. destruct (acked_no_lost a w frame Hok) as [Hn Hkeep].
  destruct (acked a w frame) as [a1 w1]. destruct Ha as (Hok1 & _). simpl in Hn, Hkeep.
  destruct Ht as (_ & _ & Hid & Hlen).
  assert (Hsz' : zlen (body frame) <= u32_max) by (unfold MAX_FRAME_BODY_LEN, MIB, KIB, u32_max in *; lia).
  assert (Hgo : forall w', no_lost (mem w1) (mem w') -> no_lost (mem w) (mem w')).
  { intros w' Hw'. by eapply no_lost_trans. }
  unfold dispatch. wp_step. apply as_ac. destruct (negb _ && _ && _); [by apply wp_ret |].
  destruct (tag (header frame)) eqn:Htag.
  - wp_step. apply wp_lift. rewrite frame_into_data_ret by done. simpl. wp_step.
    eapply wp_mono; [by apply on_data_no_lost |]. intros act [a' w'] Hw. by apply wp_ret, Hgo.
  - wp_step. apply wp_lift. rewrite frame_into_window_update_ret by done. simpl. wp_step.
    eapply wp_mono; [apply on_window_update_no_lost; [done | done | apply Hlen] |].
    intros act [a' w'] Hw. by apply wp_ret, Hgo.
  - wp_step. apply wp_lift. rewrite frame_into_ping_ret by done. simpl. wp_step.
    eapply wp_mono; [by apply (on_ping_ok cfg E) |]. intros act [a' w'] (_ & _ & _ & Hc & Hw & _).
    apply wp_ret, Hgo. apply (no_lost_cells _ _ []); [done | by rewrite app_nil_r].
  - by apply wp_ret.
Qed.
End wakeups.
