(* ===== verification/ConnLoop.v ===== *)
(** * The loop of the connection, and the end of streams

    Dropped handles, the end of all streams, new outbound streams, and the loop of [Active::poll]:
    they keep the invariant, panic on no branch, and the loop ends when the input does. *)
From Stdlib Require Import ZArith Lia Strings.Byte.
From stdpp Require Import base option list gmap numbers.
From S2P Require Import Prelude.
From S2P Require Import Header.
From S2P Require Import Frame.
From S2P Require Import Config.
From S2P Require Import Command.
From S2P Require Import Rtt.
From S2P Require Import ChunkList.
From S2P Require Import FlowControl.
From S2P Require Import Shared.
From S2P Require Import Heap.
From S2P Require Import Channel.
From S2P Require Import TaggedStream.
From S2P Require Import StreamHandle.
From S2P Require Import Link.
From S2P Require Import FrameIo.
From S2P Require Import FrameIoSpec.
From S2P Require Import Connection.
From S2P Require Import ConnInvariant.
From S2P Require Import ConnSteps.
From S2P Require Import ConnHandlers.

Lemma drop_frame_wf id s f : 0 <= id <= u32_max -> drop_frame id s = Some f -> frame_wf f.
Proof.
  intros Hid. destruct s as [b| | |]; intros [= <-];
    unfold frame_wf, header_typed, u8_max, u16_max, u32_max in *; simpl;
    split_and!; try (done || lia); vm_compute; discriminate.
Qed.

(** That the work at hand is finite: how many frames the socket can still deliver and how many
    commands wait in the channels, until one of them is not ready. Polling for one takes it away,
    and nothing the loop does adds to them. *)
Class FiniteWork `{Arch, Mpsc, SelectAllOps, FrameSocketLaws} : Type := {
  frames_left : FSock -> nat;
  commands_left : Receivers -> Net -> nat;
  frames_ready_law : forall cx s r s', sock_ok s ->
    sock_poll_ready cx s = Ret (r, s') -> (frames_left s' <= frames_left s)%nat;
  frames_send_law : forall f s r s', sock_ok s -> frame_wf f ->
    sock_start_send f s = Ret (r, s') -> (frames_left s' <= frames_left s)%nat;
  frames_flush_law : forall cx s r s', sock_ok s ->
    sock_poll_flush cx s = Ret (r, s') -> (frames_left s' <= frames_left s)%nat;
  frames_next_law : forall cx s r s', sock_ok s ->
    sock_poll_next cx s = Ret (r, s') ->
    match r with
    | Ready (Some (Ok _)) => (frames_left s' < frames_left s)%nat
    | _ => (frames_left s' <= frames_left s)%nat
    end;
  commands_next_law : forall cx q n,
    let '(r, q', n') := select_all_poll_next (tagged_poll_next (receiver_poll cx)) q n in
    match r with
    | Ready (Some _) => (commands_left q' n' < commands_left q n)%nat
    | _ => (commands_left q' n' <= commands_left q n)%nat
    end;
  commands_close_law : forall q n,
    (commands_left q (select_all_for_each (fun t n => receiver_close (ts_inner t) n) q n)
     <= commands_left q n)%nat;
}.

Section loop.
Context `{Arch, Mpsc, SelectAllOps, FrameSocket, MapOrder}.
Context `{!MpscLaws, !SelectAllLaws, !FrameSocketLaws}.
Hypothesis usize_wide : u32_max + u32_max <= usize_max.
Variable cfg : Config.
Implicit Type E : positive -> nat.

(** ** Dropped handles *)

Lemma on_drop_stream_ok E a w id :
  conn_ok cfg E a w -> 0 <= id <= u32_max ->
  wp (on_drop_stream id) (fun o '(a', w') =>
    conn_ok cfg E a' w' /\ reset_rel a w id a' w' /\
    o = match ac_streams a !! id with
        | Some l => match cells (mem w) !! l with
                    | Some c => drop_frame id (sh_state (contents c))
                    | None => None
                    end
        | None => None
        end) (a, w).
Proof.
  intros Hok Hid. unfold on_drop_stream, streams_remove, reset_rel.
  wp_step. wp_step. apply as_ac. wp_step. apply as_upd. apply wp_ret.
  destruct (ac_streams a !! id) as [l|] eqn:Hl.
  - destruct (conn_live _ _ _ _ _ _ Hok Hl) as [c Hc]. rewrite Hc.
    pose proof (conn_ok_remove _ _ _ _ _ _ Hok Hl) as Hok1.
    destruct (shut_mem_ok cfg l c _ (co_mem _ _ _ _ Hok) Hc) as [Hm Hr].
    pose proof (conn_ok_mem _ _ _ _ _ _ Hok1 Hm Hr) as Hok2.
    wp_step. eapply wp_mono; [by apply shut_eval |]. intros old s [-> Hw].
    wp_step. eapply wp_mono; [exact Hw |]. intros _ s' ->.
    wp_step. eapply wp_mono; [by apply (drop_arc_ok cfg E) |].
    intros _ [a' w'] (-> & Hok' & Hd & Hn). apply wp_ret.
    split; [done |]. split; [split_and!; try done; by exists c |].
    by destruct (sh_state (contents c)).
  - apply wp_ret. rewrite delete_id by done. destruct a. by split_and!.
Qed.

(** ** The end of all streams *)

Definition list_refs (ps : list (Z * positive)) (l : positive) : nat :=
  length (filter (fun p : Z * positive => p.2 = l) ps).

(** Every stream of [ps] has been shut: its wakers are woken and its record, if a handle keeps it
    alive, is closed with nobody parked. Other records are as before. *)
Definition all_shut (ps : list (Z * positive)) (m m' : Mem) : Prop :=
  (exists ws, woken m' = woken m ++ ws) /\
  (forall l c, l ∈ ps.*2 -> cells m !! l = Some c ->
     (forall k, k ∈ parked (contents c) -> k ∈ woken m') /\
     (forall c', cells m' !! l = Some c' -> contents c' = shut (contents c))) /\
  (forall l, l ∉ ps.*2 -> cells m' !! l = cells m !! l).

Lemma all_shut_nil m : all_shut [] m m.
Proof. split_and!; [exists []; by rewrite app_nil_r | | done]. intros l c Hl. by apply elem_of_nil in Hl. Qed.

Lemma all_shut_cons id l c ps m m1 m2 :
  l ∉ ps.*2 -> cells m !! l = Some c -> mem_drop l (shut_mem l (contents c) m) m1 -> all_shut ps m1 m2 ->
  all_shut ((id, l) :: ps) m m2.
Proof.
  intros Hnew Hl [Ho Hs _ _ Hwk] ([ws Hw] & Hps & Hout). simpl in Hwk. split_and!.
  - exists (parked (contents c) ++ ws). rewrite Hw, Hwk. by rewrite app_assoc.
  - intros l' c' Hl' Hc'. simpl in Hl'. apply elem_of_cons in Hl' as [-> | Hl'].
    + rewrite Hl in Hc'. injection Hc' as <-. split.
      { intros k Hk. rewrite Hw, Hwk. apply elem_of_app. left. apply elem_of_app. by right. }
      intros c2 Hc2. rewrite Hout in Hc2 by done. destruct (Hs c2 Hc2) as (c0 & Hc0 & Heq).
      rewrite (cells_shut _ _ _ Hl) in Hc0. by injection Hc0 as <-.
    + assert (Hne : l <> l') by (by intros ->).
      apply (Hps l' c' Hl'). rewrite Ho by done. by rewrite cells_shut_ne.
  - intros l' Hl'. simpl in Hl'. apply not_elem_of_cons in Hl' as [Hne Hl'].
    rewrite Hout by done. rewrite Ho by done. by rewrite cells_shut_ne.
Qed.

Lemma drop_streams_ok E ps a w :
  NoDup (ps.*2) -> ac_streams a = ∅ -> conn_ok cfg (fun l => (list_refs ps l + E l)%nat) a w ->
  wp (drop_streams ps) (fun _ '(a', w') =>
    a' = a /\ conn_ok cfg E a' w' /\ net w' = net w /\ all_shut ps (mem w) (mem w')) (a, w).
Proof.
  revert w. induction ps as [|[id l] ps IH]; intros w Hnd He Hok; simpl.
  { apply wp_ret. split_and!; try done. apply all_shut_nil. }
  apply list.NoDup_cons in Hnd as [Hnew Hnd].
  destruct (handle_live _ _ _ _ l Hok) as [c Hc].
  { unfold list_refs. rewrite filter_cons. simpl. rewrite decide_True by done. simpl. lia. }
  destruct (shut_mem_ok cfg l c _ (co_mem _ _ _ _ Hok) Hc) as [Hm Hr].
  wp_step. eapply wp_mono; [by apply shut_eval |]. intros old s [_ Hw].
  wp_step. eapply wp_mono; [exact Hw |]. intros _ s' ->. wp_step.
  eapply wp_mono; [apply (drop_arc_ok cfg (fun l' => (list_refs ps l' + E l')%nat)) |].
  - eapply conn_ok_ext; [| by eapply conn_ok_mem]. intros l'. unfold list_refs, add_ref.
    rewrite filter_cons. simpl. repeat case_decide; simpl; (done || lia).
  - intros _ [a1 w1] (-> & Hok1 & Hd & Hn). eapply wp_mono; [by apply IH |].
    intros _ [a2 w2] (-> & Hok2 & Hn2 & Hs). split_and!; try done; [by rewrite Hn2, Hn |].
    by eapply all_shut_cons.
Qed.

Lemma drained_nodup E a w : conn_ok cfg E a w -> NoDup (map_drain (ac_streams a)).*2.
Proof.
  intros Hok. rewrite map_drain_perm. apply list.NoDup_fmap_2_strong; [| apply NoDup_map_to_list].
  intros [i l] [j l'] Hi Hj. simpl. intros ->.
  apply elem_of_map_to_list in Hi, Hj. by rewrite (co_inj _ _ _ _ Hok _ _ _ Hi Hj).
Qed.

(** Draining the map leaves its references to whoever drained it. *)
Lemma conn_ok_drained E a w :
  conn_ok cfg E a w -> 0 <= max_num_streams cfg ->
  conn_ok cfg (fun l => (list_refs (map_drain (ac_streams a)) l + E l)%nat) (set_streams ∅ a) w.
Proof.
  intros [] Hmax. split; try done. simpl. eapply refs_ok_proper; [| done | done]. intros l.
  unfold conn_refs. simpl. rewrite map_refs_empty. simpl. f_equal. symmetry.
  apply map_refs_perm, map_drain_perm.
Qed.

Lemma drop_all_streams_ok E a w :
  conn_ok cfg E a w -> 0 <= max_num_streams cfg ->
  wp drop_all_streams (fun _ '(a', w') =>
    a' = set_streams ∅ a /\ conn_ok cfg E a' w' /\ net w' = net w /\
    all_shut (map_drain (ac_streams a)) (mem w) (mem w')) (a, w).
Proof.
  intros Hok Hmax. unfold drop_all_streams. wp_step. apply as_ac. wp_step. apply as_upd.
  eapply drop_streams_ok; [by eapply drained_nodup | done |]. by apply conn_ok_drained.
Qed.

(** ** New outbound streams *)

Lemma count_pending_ok a w ps :
  (forall p, p ∈ ps -> exists c, cells (mem w) !! p.2 = Some c) ->
  wp (count_pending (ac_mode a) ps) (fun n s =>
    s = (a, w) /\ n = Z.of_nat (length (filter (fun p => pending_entry (ac_mode a) (mem w) p = true) ps))) (a, w).
Proof.
  induction ps as [|[id l] ps IH]; intros Hlive; simpl; [by apply wp_ret |].
  rewrite filter_cons. assert (IH' := IH (fun p Hp => Hlive p (list_elem_of_further _ _ _ Hp))). clear IH.
  destruct (is_outbound (ac_mode a) id) eqn:Ho.
  2: { rewrite decide_False; [exact IH' |]. unfold pending_entry. simpl. by rewrite Ho. }
  destruct (Hlive (id, l)) as [c Hc]; [by left |]. simpl in Hc.
  wp_step. eapply as_on_mem_read; [by apply lock_eval |]. wp_step. eapply wp_mono; [exact IH' |].
  intros n s [-> ->]. apply wp_ret. split; [done |].
  case_decide as Hp; unfold pending_entry in Hp; simpl in Hp; rewrite Ho, Hc in Hp; simpl in Hp;
    destruct (is_pending_ack (contents c)); simpl; (done || lia).
Qed.

Lemma ack_backlog_ok E a w :
  conn_ok cfg E a w -> wp ack_backlog (fun n s => s = (a, w) /\ n = backlog a w) (a, w).
Proof.
  intros Hok. unfold ack_backlog. wp_step. apply as_ac. wp_step. apply as_ac.
  eapply wp_mono; [apply count_pending_ok |].
  - intros [id l] Hp. rewrite map_drain_perm in Hp. apply elem_of_map_to_list in Hp.
    by eapply conn_live.
  - intros n s [-> ->]. split; [done |]. unfold backlog. by rewrite map_drain_perm.
Qed.

Lemma is_outbound_add_2 mode id : is_outbound mode (id + 2) = is_outbound mode id.
Proof. destruct mode; simpl; [apply is_client_add_2 | apply is_server_add_2]. Qed.

(** A new outbound stream: the next identifier, a handle that owes a SYN, and a new record, shared
    by the handle and the map, with both default windows. *)
Definition opened (a : Active) (w : World) (st : Stream) (a' : Active) (w' : World) : Prop :=
  st_id st = ac_next_id a /\ st_config st = cfg /\ st_flag st = FlagSyn /\
  ac_streams a !! ac_next_id a = None /\ cells (mem w) !! st_shared st = None /\
  (exists now, cells (mem w')
     = <[st_shared st := mkCell 2 (shared_new DEFAULT_CREDIT DEFAULT_CREDIT cfg now)]> (cells (mem w))) /\
  rtt (mem w') = rtt (mem w) /\
  woken (mem w') = woken (mem w) ++ option_list (ac_no_streams_waker a) /\
  exists rs, a' = set_streams (<[ac_next_id a := st_shared st]> (ac_streams a))
                    (set_no_streams_waker None (set_receivers rs (set_next_id (ac_next_id a + 2) a))).

Lemma conn_ok_next_id E a w :
  conn_ok cfg E a w -> ac_next_id a + 2 <= u32_max -> conn_ok cfg E (set_next_id (ac_next_id a + 2) a) w.
Proof.
  intros [] Hn. split; try done; simpl.
  - intros id l Hl. destruct (co_keys _ _ Hl) as [? Hout]. split; [done |]. intros Ho.
    specialize (Hout Ho). lia.
  - rewrite is_outbound_add_2. split; [lia | apply co_next].
Qed.

Lemma active_poll_new_outbound_ok E a w cx :
  conn_ok cfg E a w ->
  wp (active_poll_new_outbound cx) (fun r '(a', w') =>
    if max_num_streams cfg <=? Z.of_nat (size (ac_streams a)) then
      r = Ready (Err TooManyStreams) /\ a' = a /\ w' = w
    else if MAX_ACK_BACKLOG <=? backlog a w then
      r = Pending /\ a' = set_new_outbound_stream_waker (Some cx) a /\ w' = w
    else if u32_max <? ac_next_id a + 2 then
      r = Ready (Err NoMoreStreamIds) /\ a' = a /\ w' = w
    else exists st, r = Ready (Ok st) /\ handed_out cfg E st a' w' /\ opened a w st a' w')
    (a, w).
Proof.
  intros Hok. unfold active_poll_new_outbound. wp_step. apply as_ac. wp_step. apply as_ac.
  rewrite (co_config _ _ _ _ Hok).
  destruct (Z.leb_spec (max_num_streams cfg) (Z.of_nat (size (ac_streams a)))) as [| Hsz]; [by apply wp_ret |].
  wp_step. eapply wp_mono; [by eapply ack_backlog_ok |]. intros n s [-> ->].
  destruct (Z.leb_spec MAX_ACK_BACKLOG (backlog a w)) as [| Hbl]; [by wp_step |].
  pose proof (co_next _ _ _ _ Hok) as [Hnr Hno].
  wp_step. unfold next_stream_id. wp_step. apply as_ac. unfold checked_add.
  destruct (Z.leb_spec (ac_next_id a + 2) u32_max) as [Hle | Hgt];
    (destruct (Z.ltb_spec u32_max (ac_next_id a + 2)); [try lia | try lia]); [| by apply wp_ret, wp_ret].
  wp_step. apply as_upd. wp_step. apply as_ac. wp_step. apply wp_lift. simpl.
  replace (match ac_mode a with Client => _ | Server => _ end) with (is_outbound (ac_mode a) (ac_next_id a))
    by done.
  rewrite Hno. simpl. apply wp_ret. pose proof (conn_ok_next_id _ _ _ Hok Hle) as Hok1.
  wp_step. eapply wp_mono; [apply make_new_outbound_stream_ok; [exact Hok1 | done | lia] |].
  intros st [a2 w2] (Hok2 & Hi & Hcf & Hf & Hnone & (now & Hc2) & Hrt & Hwk & (rs & ->)). simpl in Hnone, Hc2.
  assert (Hfresh : ac_streams a !! ac_next_id a = None).
  { destruct (ac_streams a !! ac_next_id a) as [l|] eqn:Hl; [| done].
    destruct (co_keys _ _ _ _ Hok _ _ Hl) as [_ Hlt]. specialize (Hlt Hno). lia. }
  rewrite <- Hi. eapply wp_mono;
    [apply (share_stream_ok cfg E _ w2 st (mkCell 1 (shared_new DEFAULT_CREDIT DEFAULT_CREDIT cfg now)));
     simpl; rewrite ?Hi |].
  - exact Hok2.
  - rewrite Hc2. apply lookup_insert_eq.
  - done.
  - intros id' Hid'. destruct (conn_live _ _ _ _ _ _ Hok Hid') as [c Hc]. by rewrite Hnone in Hc.
  - done.
  - done.
  - intros _. split; [lia |]. eapply Z.le_lt_trans; [| exact Hbl].
    by eapply (backlog_fresh cfg E a w (st_shared st)).
  - intros x [a' w'] (-> & Hok' & -> & Hcells & Hr' & Hw'). exists st. split; [done |].
    split. { split; [split; [by rewrite Hi | done] | done]. }
    simpl in Hcells, Hr', Hw'. rewrite Hc2, insert_insert_eq in Hcells. rewrite Hi. split_and!; try done.
    + by exists now.
    + by rewrite Hr'.
    + by rewrite Hw'.
    + by exists rs.
Qed.

(** ** The loop *)

Definition waiting (r : Rtt) : nat := match rtt_state r with Waiting _ => 1 | AwaitingPong _ _ => 0 end.
Definition owed (f : option (Frame unit)) : nat := match f with Some _ => 1 | None => 0 end.

(** The iterations that are left: a frame may ask for an answer and for a ping, a command for a
    frame. *)
Definition work (fw : FiniteWork) (a : Active) (w : World) : nat :=
  (3 * frames_left (ac_socket a) + 2 * commands_left (ac_receivers a) (net w)
   + owed (ac_pending_read_frame a) + owed (ac_pending_write_frame a) + waiting (rtt (mem w)))%nat.

(** What a part of the loop leaves behind. *)
Definition flow_ok E (a : Active) (w : World) (r : flow PollResult) (a' : Active) (w' : World) : Prop :=
  match r with
  | Return (Ready (Ok st)) => handed_out cfg E st a' w'
  | Return _ => conn_ok cfg E a' w'
  | Continue => conn_ok cfg E a' w' /\ forall fw : FiniteWork, (work fw a' w' < work fw a w)%nat
  | Next => conn_ok cfg E a' w' /\ forall fw : FiniteWork, (work fw a' w' <= work fw a w)%nat
  end.

Lemma flow_ok_trans E a w r a1 w1 a' w' :
  (forall fw : FiniteWork, (work fw a1 w1 <= work fw a w)%nat) -> flow_ok E a1 w1 r a' w' -> flow_ok E a w r a' w'.
Proof.
  intros Hw. destruct r as [|[[st|]|]|]; simpl; try done; intros [Hok Hlt];
    (split; [done |]); intros fw; specialize (Hw fw); specialize (Hlt fw); lia.
Qed.

Lemma and_then_ok E a w f m :
  wp f (fun r '(a', w') => flow_ok E a w r a' w') (a, w) ->
  (forall a1 w1, conn_ok cfg E a1 w1 -> wp m (fun r '(a', w') => flow_ok E a1 w1 r a' w') (a1, w1)) ->
  wp (and_then f m) (fun r '(a', w') => flow_ok E a w r a' w') (a, w).
Proof.
  intros Hf Hm. unfold and_then. wp_step. eapply wp_mono; [exact Hf |]. intros r [a1 w1] Hr.
  destruct r as [|p|]; [by apply wp_ret | by apply wp_ret |]. destruct Hr as [Hok Hw].
  eapply wp_mono; [by apply Hm |]. intros r [a' w'] Hr. by eapply flow_ok_trans.
Qed.

(** A step of the socket. *)
Lemma sock_step {A} E a w (m : M FSock A) (Q : A -> FSock -> Prop) (P : A -> AS -> Prop) :
  conn_ok cfg E a w -> wp m Q (ac_socket a) ->
  (forall x s, Q x s -> m (ac_socket a) = Ret (x, s) -> P x (set_socket s a, w)) ->
  wp (on_sock m) P (a, w).
Proof.
  intros Hok Hm HP. apply as_on_sock. eapply wp_mono; [by apply wp_eq, Hm |].
  intros x s [HQ He]. by apply HP.
Qed.

Lemma send_and_continue_ok E a w a0 w0 f :
  conn_ok cfg E a w -> frame_wf f -> (forall fw : FiniteWork, (work fw a w < work fw a0 w0)%nat) ->
  wp (send_and_continue f) (fun r '(a', w') => flow_ok E a0 w0 r a' w') (a, w).
Proof.
  intros Hok Hf Hw. unfold send_and_continue. wp_step.
  eapply sock_step; [done | apply sock_send_law; [apply Hok | done] |]. intros r s Hs He.
  pose proof (conn_ok_socket _ _ _ _ s Hok Hs) as Hok'. destruct r; apply wp_ret; [| done].
  split; [done |]. intros fw. specialize (Hw fw). pose proof (frames_send_law _ _ _ _ (co_sock _ _ _ _ Hok) Hf He) as Hl.
  unfold work in *. simpl. lia.
Qed.

Lemma mem_next_ping_ok E a w :
  conn_ok cfg E a w ->
  wp (on_mem mem_next_ping) (fun o '(a', w') => a' = a /\ conn_ok cfg E a w' /\ net w' = net w /\
    match o with
    | Some f => frame_wf f /\ (waiting (rtt (mem w')) < waiting (rtt (mem w)))%nat
    | None => waiting (rtt (mem w')) = waiting (rtt (mem w))
    end) (a, w).
Proof.
  intros Hok. pose proof (co_mem _ _ _ _ Hok) as Hm.
  set (now := clock (mem w) (ticks (mem w))). set (sent := clock (mem w) (S (ticks (mem w)))).
  destruct (next_ping now sent (rtt (mem w))) as [o r'] eqn:He.
  set (m' := set_rtt r' (set_ticks (S (S (ticks (mem w)))) (mem w))).
  assert (Hsent : 0 <= sent) by apply (mo_clock _ _ Hm).
  assert (Hm' : mem_ok cfg m').
  { apply mem_ok_set_rtt; [by apply mem_ok_ticks | |].
    - pose proof (next_ping_ok now sent _ (mo_rtt _ _ Hm) Hsent) as Hr. by rewrite He in Hr.
    - pose proof (next_ping_rtt now sent (rtt (mem w))) as Hr. rewrite He in Hr. simpl in Hr. by rewrite Hr. }
  eapply (as_on_mem _ _ a w o m').
  - unfold mem_next_ping, mbind, M_bind, read_clock, gets, modify. simpl. fold now sent. by rewrite He.
  - split; [done |]. split; [by eapply conn_ok_cells |]. split; [done |]. simpl.
    pose proof (next_ping_frame now sent (rtt (mem w))) as Hf. rewrite He in Hf.
    unfold next_ping in He. unfold waiting. destruct (rtt_state (rtt (mem w))) as [|nx] eqn:Hst.
    + injection He as <- <-. by rewrite Hst.
    + destruct (now <? nx); injection He as <- <-; simpl; [by rewrite Hst |].
      split; [| lia]. by eapply Hf; [apply Hm |].
Qed.

Lemma poll_send_ok E a w cx :
  conn_ok cfg E a w -> wp (poll_send cx) (fun r '(a', w') => flow_ok E a w r a' w') (a, w).
Proof.
  intros Hok. unfold poll_send. wp_step.
  eapply sock_step; [done | apply sock_ready_law, Hok |]. intros r s Hs He.
  pose proof (conn_ok_socket _ _ _ _ s Hok Hs) as Hok1.
  assert (Hw1 : forall fw : FiniteWork, (work fw (set_socket s a) w <= work fw a w)%nat).
  { intros fw. pose proof (frames_ready_law _ _ _ _ (co_sock _ _ _ _ Hok) He). unfold work. simpl. lia. }
  destruct (poll_is_ready r); [| by apply wp_ret].
  wp_step. eapply wp_mono; [by apply mem_next_ping_ok |]. intros o [a2 w2] (-> & Hok2 & Hn2 & Ho).
  destruct o as [f|].
  { destruct Ho as [Hf Hlt]. apply send_and_continue_ok; [done | done |]. intros fw. specialize (Hw1 fw).
    unfold work in *. simpl in *. rewrite Hn2. lia. }
  assert (Hw2 : forall fw : FiniteWork, (work fw (set_socket s a) w2 <= work fw a w)%nat).
  { intros fw. specialize (Hw1 fw). unfold work in *. rewrite Hn2, Ho. done. }
  wp_step. unfold take_pending. wp_step. apply as_ac. simpl.
  destruct (ac_pending_read_frame a) as [f|] eqn:Hr.
  - wp_step. apply as_upd. apply wp_ret. apply send_and_continue_ok.
    + by apply conn_ok_read_frame.
    + exact (co_read _ _ _ _ Hok _ Hr).
    + intros fw. specialize (Hw2 fw). unfold work in *. simpl in *.
      assert (owed (ac_pending_read_frame a) = 1%nat) by (by rewrite Hr). lia.
  - wp_step. apply as_ac. simpl. wp_step. apply as_upd. apply wp_ret.
    assert (Hok3 : conn_ok cfg E (set_pending_write_frame None (set_socket s a)) w2)
      by (by apply conn_ok_write_frame).
    destruct (ac_pending_write_frame a) as [f|] eqn:Hw; [| apply wp_ret].
    + apply send_and_continue_ok; [done | exact (co_write _ _ _ _ Hok _ Hw) |].
      intros fw. specialize (Hw2 fw). unfold work in *. simpl in *.
      assert (owed (ac_pending_write_frame a) = 1%nat) by (by rewrite Hw). lia.
    + split; [done |]. intros fw. specialize (Hw2 fw). unfold work in *. simpl in *. lia.
Qed.

Lemma poll_flush_socket_ok E a w cx :
  conn_ok cfg E a w -> wp (poll_flush_socket cx) (fun r '(a', w') => flow_ok E a w r a' w') (a, w).
Proof.
  intros Hok. unfold poll_flush_socket. wp_step.
  eapply sock_step; [done | apply sock_flush_law, Hok |]. intros r s Hs He.
  pose proof (conn_ok_socket _ _ _ _ s Hok Hs) as Hok1.
  assert (Hw1 : forall fw : FiniteWork, (work fw (set_socket s a) w <= work fw a w)%nat).
  { intros fw. pose proof (frames_flush_law _ _ _ _ (co_sock _ _ _ _ Hok) He). unfold work. simpl. lia. }
  destruct r as [[[]|e]|]; by apply wp_ret.
Qed.

(** A member of the collection of receivers keeps its key and yields what was sent. *)
Lemma receiver_poll_ok cx (t : TaggedStream Z Receiver) n :
  key_ok t -> net_ok n ->
  let '(r, t', n') := tagged_poll_next (receiver_poll cx) t n in
  key_ok t' /\ net_ok n' /\
  forall item : Z * option StreamCommand, r = Ready (Some item) ->
    0 <= item.1 <= u32_max /\ forall c, item.2 = Some c -> cmd_ok c.
Proof.
  intros Ht Hn. unfold tagged_poll_next, receiver_poll. destruct (ts_reported_none t); [done |].
  pose proof (net_next_law (ts_inner t) cx n Hn) as [Hn' Hc].
  destruct (receiver_poll_next (ts_inner t) cx n) as [[[c|]|] n']; simpl in *; split_and!; try done;
    intros item [= <-]; (split; [done |]); simpl; intros c' [= <-]. by apply Hc.
Qed.

(** What the commands of the streams deliver. *)
Lemma poll_receivers_ok E a w cx :
  conn_ok cfg E a w ->
  wp (poll_receivers cx) (fun p '(a', w') =>
    conn_ok cfg E a' w' /\ mem w' = mem w /\
    ac_socket a' = ac_socket a /\ ac_streams a' = ac_streams a /\
    ac_pending_read_frame a' = ac_pending_read_frame a /\
    ac_pending_write_frame a' = ac_pending_write_frame a /\
    (forall id o, p = Ready (Some (id, o)) -> 0 <= id <= u32_max /\ forall c, o = Some c -> cmd_ok c) /\
    forall fw : FiniteWork, match p with
               | Ready (Some _) => (commands_left (ac_receivers a') (net w') < commands_left (ac_receivers a) (net w))%nat
               | _ => (commands_left (ac_receivers a') (net w') <= commands_left (ac_receivers a) (net w))%nat
               end) (a, w).
Proof.
  intros Hok. unfold wp, poll_receivers. cbn [fst snd].
  pose proof (select_all_next_law _ _ _ (tagged_poll_next (receiver_poll cx)) key_ok net_ok
    (fun item : Z * option StreamCommand => 0 <= item.1 <= u32_max /\ forall c, item.2 = Some c -> cmd_ok c)) as Hlaw.
  specialize (Hlaw (receiver_poll_ok cx) (ac_receivers a) (net w) (co_receivers _ _ _ _ Hok)
    (co_net _ _ _ _ Hok)).
  pose proof (fun fw : FiniteWork => commands_next_law cx (ac_receivers a) (net w)) as Hleft.
  destruct (select_all_poll_next _ _ _) as [[p rs] n]. destruct Hlaw as (Hall & Hn & Hitem).
  split. { apply conn_ok_net; [| done]. by apply conn_ok_receivers. }
  split_and!; try done. intros id o ->. by apply (Hitem (id, o)).
Qed.

Lemma command_frame_wf id c : 0 <= id <= u32_max -> cmd_ok c -> frame_wf (command_frame id c).
Proof. intros Hid Hc. destruct c; simpl; apply frame_wf_erase; [done | by apply frame_close_stream_wf]. Qed.

Lemma poll_commands_ok E a w cx :
  conn_ok cfg E a w -> wp (poll_commands cx) (fun r '(a', w') => flow_ok E a w r a' w') (a, w).
Proof.
  intros Hok. unfold poll_commands. wp_step. apply as_ac.
  destruct (ac_pending_write_frame a) as [f|] eqn:Hpw; [by apply wp_ret |].
  wp_step. eapply wp_mono; [by apply poll_receivers_ok |].
  intros p [a1 w1] (Hok1 & Hm & Hs & Hst & Hpr & Hpw1 & Hitem & Hleft). rewrite Hpw in Hpw1.
  destruct p as [[[id [c|]]|]|].
  - destruct (Hitem id (Some c) eq_refl) as [Hid Hc]. wp_step. apply as_upd. apply wp_ret. split.
    + apply conn_ok_write_frame; [done |]. intros f [= <-]. apply command_frame_wf; [done | by apply Hc].
    + intros fw. specialize (Hleft fw). unfold work. simpl. rewrite Hpr, Hpw, Hm, Hs. simpl. lia.
  - destruct (Hitem id None eq_refl) as [Hid _]. wp_step.
    eapply wp_mono; [by apply on_drop_stream_ok |]. intros o [a2 w2] (Hok2 & Hr & ->).
    destruct (reset_quiet _ _ _ _ _ Hr) as (Q1 & Q2 & Q3 & Q4 & Q5 & _).
    pose proof (reset_rtt _ _ _ _ _ Hr) as Q6.
    assert (Hgo : forall f, (forall g, f = Some g -> frame_wf g) ->
      flow_ok E a w Continue (set_pending_write_frame f a2) w2).
    { intros f Hf. split; [by apply conn_ok_write_frame |]. intros fw. specialize (Hleft fw).
      unfold work. simpl. rewrite Q1, Q2, Q3, Q5, Q6, Hs, Hpr, Hpw, Hm. destruct f; simpl; lia. }
    wp_step. destruct (match ac_streams a1 !! id with Some _ => _ | None => _ end) as [f|] eqn:Hf.
    + apply as_upd. apply wp_ret. apply Hgo. intros g [= <-].
      destruct (ac_streams a1 !! id) as [l|]; [| done]. destruct (cells (mem w1) !! l); [| done].
      by eapply drop_frame_wf.
    + apply wp_ret. apply wp_ret. specialize (Hgo None ltac:(done)).
      destruct Hgo as [Hok3 Hlt]. split; [done |]. intros fw. specialize (Hlt fw).
      unfold work in *. simpl in *. rewrite Q4, Hpw1. done.
  - wp_step. apply as_upd. apply wp_ret. split; [by apply conn_ok_no_streams_waker |].
    intros fw. specialize (Hleft fw). unfold work. simpl. rewrite Hpr, Hpw, Hpw1, Hm, Hs. lia.
  - apply wp_ret. split; [done |].
    intros fw. specialize (Hleft fw). unfold work. simpl. rewrite Hpr, Hpw, Hpw1, Hm, Hs. lia.
Qed.

Lemma poll_frames_ok E a w cx :
  conn_ok cfg E a w -> wp (poll_frames cx) (fun r '(a', w') => flow_ok E a w r a' w') (a, w).
Proof.
  intros Hok. unfold poll_frames. wp_step. apply as_ac.
  destruct (ac_pending_read_frame a) as [f|] eqn:Hpr; [by apply wp_ret |].
  wp_step. eapply sock_step; [done | apply sock_next_law, Hok |]. intros r s [Hs Hf] He.
  pose proof (conn_ok_socket _ _ _ _ s Hok Hs) as Hok1.
  assert (Hw1 : forall fw : FiniteWork, match r with
    | Ready (Some (Ok _)) => (work fw (set_socket s a) w + 3 <= work fw a w)%nat
    | _ => (work fw (set_socket s a) w <= work fw a w)%nat end).
  { intros fw. pose proof (frames_next_law _ _ _ _ (co_sock _ _ _ _ Hok) He). unfold work. simpl.
    destruct r as [[[]|]|]; lia. }
  destruct r as [[[frame|e]|]|]; [| by apply wp_ret..].
  wp_step. eapply wp_mono; [apply (on_frame_ok usize_wide cfg E); [exact Hok1 | by apply Hf] |].
  intros [act|e] [a2 w2] Hact; [| destruct Hact as (_ & _ & Hok2); by apply wp_ret].
  assert (Hgo : forall f, conn_ok cfg E a2 w2 -> quiet (set_socket s a) w a2 w2 ->
    (forall g, f = Some g -> frame_wf g) -> flow_ok E a w Continue (set_pending_read_frame f a2) w2).
  { intros f Hok2 (Q1 & Q2 & Q3 & Q4 & Q5 & _) Hg. split; [by apply conn_ok_read_frame |].
    intros fw. specialize (Hw1 fw). unfold work in *. simpl in *. rewrite Q1, Q2, Q4, Q5.
    assert ((waiting (rtt (mem w2)) <= 1)%nat) by (unfold waiting; case_match; lia).
    destruct f; simpl; lia. }
  destruct act as [| st | f | f].
  - destruct Hact as [Hok2 Hq]. apply wp_ret. destruct (Hgo None Hok2 Hq ltac:(done)) as [_ Hlt].
    split; [done |]. intros fw. specialize (Hlt fw).
    assert (owed (ac_pending_read_frame a2) = 0%nat)
      by (destruct Hq as (_ & _ & Hq & _); by rewrite Hq; simpl; rewrite Hpr).
    unfold work in *. simpl in *. lia.
  - by apply wp_ret.
  - destruct Hact as (Hok2 & Hq & Hfw). wp_step. apply as_upd. apply wp_ret.
    apply Hgo; [done | done |]. intros g [= <-]. by apply frame_wf_erase.
  - destruct Hact as (Hok2 & Hq & Hfw). wp_step. apply as_upd. apply wp_ret.
    apply Hgo; [done | done |]. intros g [= <-]. by apply frame_wf_erase.
Qed.

Lemma poll_iter_ok E a w cx :
  conn_ok cfg E a w -> wp (poll_iter cx) (fun r '(a', w') => flow_ok E a w r a' w') (a, w).
Proof.
  intros Hok. apply and_then_ok; [by apply poll_send_ok |]. intros a1 w1 Hok1.
  apply and_then_ok; [by apply poll_flush_socket_ok |]. intros a2 w2 Hok2.
  apply and_then_ok; [by apply poll_commands_ok |]. intros a3 w3 Hok3. by apply poll_frames_ok.
Qed.

(** What the caller of [Active::poll] gets. *)
Definition poll_ok E (r : PollResult) (a' : Active) (w' : World) : Prop :=
  match r with
  | Ready (Ok st) => handed_out cfg E st a' w'
  | _ => conn_ok cfg E a' w'
  end.

Lemma poll_iter_loop_ok E a w cx :
  conn_ok cfg E a w ->
  wp (r ← poll_iter cx;
      mret (match r with Continue => None | Return a => Some a | Next => Some Pending end))
    (fun r s' => match r with
                 | Some r => poll_ok E r s'.1 s'.2
                 | None => conn_ok cfg E s'.1 s'.2 /\
                           forall fw : FiniteWork, (work fw s'.1 s'.2 < work fw a w)%nat
                 end) (a, w).
Proof.
  intros Hok. wp_step. eapply wp_mono; [by apply poll_iter_ok |]. intros r [a1 w1] Hr.
  destruct r as [|[[st|e]|]|]; apply wp_ret; [exact Hr | exact Hr.. | by destruct Hr].
Qed.

(** However long it runs, the loop does not panic. *)
Lemma active_poll_safe E fuel a w cx :
  conn_ok cfg E a w -> safe (active_poll fuel cx) (fun r s' => poll_ok E r s'.1 s'.2) (a, w).
Proof.
  intros Hok. apply (loop_safe _ (fun s => conn_ok cfg E s.1 s.2)); [| done].
  intros [a1 w1] Hok1. eapply wp_mono; [by apply poll_iter_loop_ok |].
  intros [r|] s' Hr; [done | apply Hr].
Qed.

(** With as many iterations as there is work, it returns. *)
Lemma active_poll_ok (fw : FiniteWork) E fuel a w cx :
  conn_ok cfg E a w -> (work fw a w < fuel)%nat ->
  wp (active_poll fuel cx) (fun r s' => poll_ok E r s'.1 s'.2) (a, w).
Proof.
  intros Hok Hf. apply (loop_ok _ (fun s => conn_ok cfg E s.1 s.2) (fun s => work fw s.1 s.2)); [| done | done].
  intros [a1 w1] Hok1. eapply wp_mono; [by apply poll_iter_loop_ok |].
  intros [r|] s' Hr; [done |]. split; [apply Hr | apply Hr].
Qed.
End loop.
