(* ===== verification/LinkRefine.v ===== *)
(** * The operations keep the contract of flow control

    The machine of [Link.v] against the code: what the operations of a handle do to the shared
    record and send to the connection are actions of its end, and what the connection does with an
    inbound frame is what the end hears. *)
From Stdlib Require Import ZArith Lia Strings.Byte.
From stdpp Require Import base option list gmap relations numbers.
From S2P Require Import Prelude.
From S2P Require Import Header.
From S2P Require Import Frame.
From S2P Require Import Config.
From S2P Require Import Command.
From S2P Require Import Rtt.
From S2P Require Import ChunkList.
From S2P Require Import FlowControl.
From S2P Require Import Shared.
From S2P Require Import Heap.
From S2P Require Import Channel.
From S2P Require Import StreamHandle.
From S2P Require Import StreamSpec.
From S2P Require Import StreamWrite.
From S2P Require Import Link.
From S2P Require Import FrameIo.
From S2P Require Import FrameIoSpec.
From S2P Require Import Connection.
From S2P Require Import ConnInvariant.
From S2P Require Import ConnSteps.
From S2P Require Import ConnHandlers.
From S2P Require Import ConnLoop.

(** ** Handles *)

(** Some actions in a row, with all that they send. *)
Inductive runs (id : Z) : End -> list (Frame unit) -> End -> Prop :=
| runs_done x : runs id x [] x
| runs_act x o y fs z : acts id x o y -> runs id y fs z -> runs id x (option_list o ++ fs) z.

Lemma runs_one id x o y : acts id x o y -> runs id x (option_list o) y.
Proof. intros Ha. rewrite <- (app_nil_r (option_list o)). eapply runs_act; [exact Ha | apply runs_done]. Qed.

Lemma runs_app id x fs y gs z : runs id x fs y -> runs id y gs z -> runs id x (fs ++ gs) z.
Proof.
  intros H1 H2. induction H1 as [| x o y fs z' Ha _ IH]; [done |]. rewrite <- app_assoc.
  eapply runs_act; [exact Ha | by apply IH].
Qed.

(** Bytes that are read are the front of the unread ones. *)
Lemma acts_read id st fl wrote took sh sh' b :
  sh_flow_controller sh' = sh_flow_controller sh -> sh_state sh' = sh_state sh -> unread sh = b ++ unread sh' ->
  acts id (mkEnd sh st fl wrote took) None (mkEnd sh' st fl wrote (took ++ b)).
Proof.
  intros Hf Hs Hu. apply act_read; simpl; [| done | by left].
  unfold same_windows, send_window, recv_window, max_window. by rewrite Hf.
Qed.

Section handles.
Context `{Arch, Mpsc, !ReadySenders}.

(** An operation of the handle [s] that has accepted the bytes [b] from the caller and delivered
    the bytes [b'] has run the end of the stream, and has sent, through the senders of the handle, the
    commands that ask for the frames of the run. *)
Definition does (cfg : Config) (s : Stream) (w : World) (sh : Shared) (b b' : list byte) (s' : Stream) (w' : World)
    : Prop :=
  exists sh' cmds, handle_ok cfg s' w' sh' /\ emits (own_sender s) (net w) cmds (net w') /\
    forall st wrote took,
      runs (st_id s) (mkEnd sh st (st_flag s) wrote took) (map (command_frame (st_id s)) cmds)
        (mkEnd sh' st (st_flag s') (wrote ++ b) (took ++ b')).

(** An operation that leaves the record as it is, a parked waker aside. *)
Lemma does_nothing cfg s w sh sh' w' :
  handle_ok cfg s w' sh' -> emits (own_sender s) (net w) [] (net w') ->
  sh_flow_controller sh' = sh_flow_controller sh -> sh_state sh' = sh_state sh -> unread sh' = unread sh ->
  does cfg s w sh [] [] s w'.
Proof.
  intros Hh He Hf Hs Hu. exists sh', []. split_and!; [done | done |]. intros st wrote took.
  rewrite (app_nil_r wrote). change (map _ _) with (option_list (@None (Frame unit))).
  apply runs_one. by apply acts_read.
Qed.

(** The window update before a read, as an action. *)
Lemma grants_runs cx n s sh s' fc cmds st wrote took :
  grants cx n s sh s' fc cmds ->
  runs (st_id s) (mkEnd sh st (st_flag s) wrote took) (map (command_frame (st_id s)) cmds)
    (mkEnd (set_flow_controller fc sh) st (st_flag s') wrote took).
Proof.
  assert (Hnone : runs (st_id s) (mkEnd sh st (st_flag s) wrote took) []
    (mkEnd (set_flow_controller (sh_flow_controller sh) sh) st (st_flag s) wrote took)).
  { destruct sh. apply runs_done. }
  intros [_ | _ | k fc' Hcr Hu Hm Hs Hr Hk Hx]; [exact Hnone.. |].
  change (map _ _) with (option_list (Some (credit_msg (st_id s) (st_flag s) k))). apply runs_one.
  apply act_grant; simpl; try done; [lia | by left].
Qed.

(** Reading: the window update, if one is due, and then the bytes. *)
Lemma does_read cfg cx s w sh s' w' sh' b :
  handle_ok cfg s' w' sh' -> granted cx w s sh s' w' sh' -> sh_state sh' = sh_state sh ->
  unread sh = b ++ unread sh' -> does cfg s w sh [] b s' w'.
Proof.
  intros Hh (cmds & He & Hg) Hs Hu. exists sh', cmds. split_and!; [done | done |]. intros st wrote took.
  rewrite <- (app_nil_r (map _ cmds)). eapply runs_app; [by eapply grants_runs |].
  change [] with (option_list (@None (Frame unit))) at 1. apply runs_one. rewrite app_nil_r. by apply acts_read.
Qed.

(** What a closed channel makes of a read. *)
Lemma stopped_does cfg cx s w sh s' w' sh' :
  handle_ok cfg s' w' sh' -> sh_state sh' = sh_state sh -> unread sh' = unread sh ->
  stopped (net w) s sh s' (sh_flow_controller sh') (net w') \/ refused (st_window_update_sender s) cx (net w) ->
  does cfg s w sh [] [] s' w'.
Proof.
  intros Hh Hs Hu [(-> & Hf & He) | Hr]; [by eapply does_nothing | by apply not_refused in Hr].
Qed.

Lemma poll_read_does cfg s w sh cx buf :
  handle_ok cfg s w sh -> zlen buf <= usize_max ->
  wp (poll_read cx buf) (fun '(r, buf') '(s', w') =>
    match r with
    | Ready (Ok n) => does cfg s w sh [] (take (Z.to_nat n) buf') s' w'
    | _ => does cfg s w sh [] [] s' w'
    end) (s, w).
Proof.
  intros Hh Hb. eapply wp_mono; [by apply poll_read_ok |].
  intros [r buf'] [s' w'] (sh' & (_ & Hh' & Hs & _) & Hr). destruct r as [[n|e]|].
  - destruct Hr as [(-> & -> & Hu & Hg & _) | (-> & -> & -> & -> & -> & _)].
    + eapply does_read; [done.. |]. rewrite Hu. rewrite take_app_le by (rewrite length_take; unfold zlen; lia).
      rewrite take_take, Nat.min_id. by rewrite take_drop.
    + rewrite take_0. by apply (does_nothing cfg s w sh sh); [| apply emits_nil | ..].
  - destruct Hr as (_ & _ & Hu & Hr). by eapply stopped_does.
  - destruct Hr as (_ & _ & Hu & Hg & _). by eapply does_read; [.. | by rewrite Hu].
Qed.

Lemma stream_poll_next_does cfg s w sh cx :
  handle_ok cfg s w sh ->
  wp (stream_poll_next cx) (fun r '(s', w') =>
    match r with
    | Ready (Some (Ok packet)) => does cfg s w sh [] packet s' w'
    | _ => does cfg s w sh [] [] s' w'
    end) (s, w).
Proof.
  intros Hh. eapply wp_mono; [by apply stream_poll_next_ok |].
  intros r [s' w'] (sh' & (_ & Hh' & Hs & _) & Hr). destruct r as [[[packet|e]|]|].
  - destruct Hr as [Hu Hg]. by eapply does_read.
  - destruct Hr as (_ & Hu & Hr). by eapply stopped_does.
  - destruct Hr as [(Hu & Hu' & _ & Hg) | (-> & -> & -> & _)].
    + by eapply does_read; [.. | by rewrite Hu, Hu'].
    + by apply (does_nothing cfg s w sh sh); [| apply emits_nil | ..].
  - destruct Hr as (Hu & Hu' & _ & Hg & _). by eapply does_read; [.. | by rewrite Hu, Hu'].
Qed.

(** Asking a channel for room sends nothing. *)
Lemma emits_ask (P : Sender -> Prop) s cx n r n' : P s -> sender_poll_ready s cx n = (r, n') -> emits P n [] n'.
Proof. intros Hp Hr. apply (emits_ready P s cx); [done |]. rewrite Hr. apply emits_nil. Qed.

Lemma emits_ask_send (P : Sender -> Prop) s cx n r n1 c n2 :
  P s -> sender_poll_ready s cx n = (r, n1) -> sender_start_send s c n1 = (Ok tt, n2) -> emits P n [c] n2.
Proof.
  intros Hp Hr Hs. apply (emits_ready P s cx); [done |]. rewrite Hr. simpl.
  apply (emits_taken P s); [done | by rewrite Hs | rewrite Hs; apply emits_nil].
Qed.

(** A closed channel stops writing and closing. *)
Lemma asked_does cfg s w sh cx r n :
  handle_ok cfg s w sh -> sender_poll_ready (st_sender s) cx (net w) = (r, n) -> does cfg s w sh [] [] s (set_net n w).
Proof.
  intros Hh Hr. apply (does_nothing cfg s w sh sh); try done. eapply emits_ask; [by left | done].
Qed.

Lemma accepts_command s cx n n1 c n2 e :
  sender_poll_ready s cx n = (Ready (Ok tt), n1) -> sender_start_send s c n1 = (Err e, n2) -> False.
Proof. intros Hr Hs. apply (ready_send_law _ _ _ _ c) in Hr. by rewrite Hs in Hr. Qed.

Lemma handle_ok_net cfg s w sh n : handle_ok cfg s w sh -> handle_ok cfg s (set_net n w) sh.
Proof. done. Qed.

Lemma handle_ok_put cfg s w sh s' sh' n :
  handle_ok cfg s w sh -> s' = s \/ s' = set_flag FlagNone s ->
  op_rel cfg s w s' (mkWorld (put (st_shared s) sh' (mem w)) n) ->
  handle_ok cfg s' (mkWorld (put (st_shared s) sh' (mem w)) n) sh'.
Proof.
  intros (Hm & Hid & Hcf & c & Hl) Hs [_ Hm' _ _ _]. split; [done |].
  destruct Hs as [-> | ->]; (split; [done |]; split; [done |]); exists c; by apply (cells_put_eq _ _ _ (mkCell c sh)).
Qed.

(** What the writer takes is an action of the writing end. *)
Lemma written_acts s sh st wrote took b :
  can_write (sh_state sh) = true -> zlen b <= send_window sh ->
  acts (st_id s) (mkEnd sh st (st_flag s) wrote took) (Some (command_frame (st_id s) (SendFrame (data_frame s b))))
    (mkEnd (written s (zlen b) sh) st FlagNone (wrote ++ b) took).
Proof.
  intros Hc Hb.
  apply (act_write (st_id s) (mkEnd sh st (st_flag s) wrote took) b); simpl; try done;
    unfold written, same_halves; destruct (st_flag s); auto.
Qed.

Lemma poll_write_does cfg s w sh cx buf :
  handle_ok cfg s w sh -> 0 <= split_send_size cfg ->
  wp (poll_write cx buf) (fun r '(s', w') =>
    match r with
    | Ready (Ok n) => does cfg s w sh (take (Z.to_nat n) buf) [] s' w'
    | _ => does cfg s w sh [] [] s' w'
    end) (s, w).
Proof.
  intros Hh Hsp. eapply wp_mono; [by apply poll_write_ok |]. intros r [s' w'] Hr.
  destruct (sender_poll_ready _ _ _) as [[[[]|[]]|] n1] eqn:Hask.
  2: { destruct Hr as (-> & -> & ->). by eapply asked_does. }
  2: { destruct Hr as (-> & -> & ->). by eapply asked_does. }
  destruct (can_write (sh_state sh)) eqn:Hcw; simpl in Hr.
  2: { destruct Hr as (-> & -> & ->). by eapply asked_does. }
  destruct (Z.eqb_spec (send_window sh) 0).
  { destruct Hr as (-> & -> & -> & Hop). apply (does_nothing cfg s w sh (set_writer (Some cx) sh)); try done.
    - apply (handle_ok_put cfg s w sh); [done | by left | done].
    - eapply emits_ask; [by left | done]. }
  cbv zeta in Hr. set (k := write_amount cfg sh buf) in *.
  destruct (sender_start_send _ _ _) as [[[]|[]] n2] eqn:Hsend; [| by edestruct accepts_command].
  destruct Hr as (-> & -> & -> & _ & Hk & Hop). set (b := take (Z.to_nat k) buf) in *.
  assert (Hb : zlen b = k) by (unfold b; zlen_lia).
  exists (written s k sh), [SendFrame (data_frame s b)]. split_and!.
  - apply (handle_ok_put cfg s w sh); [done | by right | done].
  - eapply emits_ask_send; [by left | done..].
  - intros st wrote took. rewrite (app_nil_r took), <- Hb.
    change (map _ _) with (option_list (Some (command_frame (st_id s) (SendFrame (data_frame s b))))).
    apply runs_one. apply written_acts; [done |]. rewrite Hb. unfold k, write_amount. lia.
Qed.

Lemma stream_poll_close_does cfg s w sh cx :
  handle_ok cfg s w sh ->
  wp (stream_poll_close cx) (fun _ '(s', w') => does cfg s w sh [] [] s' w') (s, w).
Proof.
  intros Hh. eapply wp_mono; [by apply stream_poll_close_ok |]. intros r [s' w'] Hr.
  destruct (decide (sh_state sh = Closed)) as [Hcl | Hcl].
  { destruct Hr as (-> & -> & ->). by apply (does_nothing cfg s w sh sh); [| apply emits_nil | ..]. }
  destruct (sender_poll_ready _ _ _) as [[[[]|[]]|] n1] eqn:Hask.
  2: { destruct Hr as (-> & -> & ->). by eapply asked_does. }
  2: { destruct Hr as (-> & -> & ->). by eapply asked_does. }
  destruct (sender_start_send _ _ _) as [[[]|[]] n2] eqn:Hsend; [| by edestruct accepts_command].
  destruct Hr as (-> & _ & -> & Hh' & Hn). exists (set_state (state_update (sh_state sh) SendClosed) sh).
  exists [CloseStream (bool_decide (st_flag s = FlagAck))]. split_and!; [done | |].
  - rewrite Hn. eapply emits_ask_send; [by left | done..].
  - intros st wrote took. rewrite (app_nil_r wrote), (app_nil_r took).
    change (map _ _) with (option_list (Some (close_msg (st_id s) (bool_decide (st_flag s = FlagAck))))).
    apply runs_one. by apply (act_close (st_id s) (mkEnd sh st (st_flag s) wrote took)).
Qed.

Lemma stream_poll_flush_does cfg s w sh cx :
  handle_ok cfg s w sh ->
  wp (stream_poll_flush cx) (fun _ '(s', w') => does cfg s w sh [] [] s' w') (s, w).
Proof.
  intros Hh. unfold wp. rewrite stream_poll_flush_eval.
  destruct (sender_poll_flush (st_sender s) cx (net w)) as [r n] eqn:Hf.
  apply (does_nothing cfg s w sh sh); try done. apply (emits_flush _ (st_sender s) cx); [by left |]. rewrite Hf. apply emits_nil.
Qed.
End handles.

(** ** Connections *)

Section connection.
Context `{Arch, Mpsc, SelectAllOps, FrameSocket, MapOrder}.
Context `{!MpscLaws, !SelectAllLaws, !FrameSocketLaws}.
Hypothesis usize_wide : u32_max + u32_max <= usize_max.
Variable cfg : Config.
Variable E : positive -> nat.

(** The end [x] of the stream [id], with its record at [l], in a connection. The record of a stream that
    has been forgotten is kept only as long as there is a handle. *)
Definition at_end (a : Active) (w : World) (id : Z) (l : positive) (x : End) : Prop :=
  match en_status x with
  | Unborn => False
  | Known => ac_streams a !! id = Some l /\ exists k, cells (mem w) !! l = Some (mkCell k (en_sh x))
  | Gone | Dropped => ac_streams a !! id = None /\ forall c, cells (mem w) !! l = Some c -> contents c = en_sh x
  end.

(** What concerns other streams, with other records, is as before, and so is what no handler touches. *)
Record elsewhere (id : Z) (l : positive) (s s' : AS) : Prop := {
  ew_stream : forall j, j <> id -> ac_streams s'.1 !! j = ac_streams s.1 !! j;
  ew_cell : forall l', l' <> l -> cells (mem s'.2) !! l' = cells (mem s.2) !! l';
  ew_rtt : rtt (mem s'.2) = rtt (mem s.2);
  ew_mode : ac_mode s'.1 = ac_mode s.1;
  ew_next : ac_next_id s'.1 = ac_next_id s.1;
  ew_socket : ac_socket s'.1 = ac_socket s.1;
  ew_read : ac_pending_read_frame s'.1 = ac_pending_read_frame s.1;
  ew_write : ac_pending_write_frame s'.1 = ac_pending_write_frame s.1;
}.

Definition calm (s s' : AS) : Prop := ac_receivers s'.1 = ac_receivers s.1 /\ net s'.2 = net s.2.

#[local] Instance elsewhere_preorder id l : PreOrder (elsewhere id l).
Proof.
  split; [by split |]. intros s1 s2 s3 [A1 A2 A3 A4 A5 A6 A7 A8] [B1 B2 B3 B4 B5 B6 B7 B8].
  split; [| | congruence..].
  - intros j Hj. by rewrite B1, A1.
  - intros l' Hl'. by rewrite B2, A2.
Qed.

#[local] Instance calm_preorder : PreOrder calm.
Proof. split; [done |]. intros s1 s2 s3 [] []. split; congruence. Qed.

(** The end after a frame for a known stream. *)
Lemma touched_at_end a w id l c (fin : bool) sh' ws a' w' fl wrote took :
  ac_streams a !! id = Some l -> cells (mem w) !! l = Some c ->
  touch_rel a w id l fin sh' ws a' w' ->
  at_end a' w' id l (mkEnd sh' (if fin && bool_decide (sh_state sh' = Closed) then Gone else Known) fl wrote took) /\
  elsewhere id l (a, w) (a', w') /\ calm (a, w) (a', w').
Proof.
  intros Hid Hl [Hn Ht]. unfold at_end. simpl.
  assert (Hput : cells (wake_all ws (put l sh' (mem w))) !! l = Some (mkCell (strong c) sh'))
    by (rewrite cells_wake_all; by apply (cells_put_eq _ _ _ c)).
  assert (Hne : forall l', l' <> l -> cells (wake_all ws (put l sh' (mem w))) !! l' = cells (mem w) !! l').
  { intros l' Hl'. rewrite cells_wake_all. by apply cells_put_ne. }
  destruct (fin && _).
  - destruct Ht as [-> [Hdo Hds _ Hrt _]]. split_and!.
    + simpl. by rewrite lookup_delete_eq.
    + intros c' Hc'. destruct (Hds _ Hc') as (c0 & Hc0 & ->). rewrite Hput in Hc0. by injection Hc0 as <-.
    + split; try done; simpl.
      * intros j Hj. by apply lookup_delete_ne.
      * intros l' Hl'. rewrite Hdo by done. by apply Hne.
    + by split.
  - destruct Ht as [-> Hm]. split_and!; [done | | | by split].
    + exists (strong c). by rewrite Hm.
    + split; try done; simpl; rewrite Hm; [exact Hne | done].
Qed.

(** The end after a reset. *)
Lemma reset_at_end a w id l c a' w' fl wrote took st :
  ac_streams a !! id = Some l -> cells (mem w) !! l = Some c -> reset_rel a w id a' w' -> forgotten st = true ->
  at_end a' w' id l (mkEnd (shut (contents c)) st fl wrote took) /\
  elsewhere id l (a, w) (a', w') /\ calm (a, w) (a', w').
Proof.
  intros Hid Hl (-> & Hn & Hr) Hst. rewrite Hid in Hr. destruct Hr as (c0 & Hc0 & [Hdo Hds _ Hrt _]).
  rewrite Hl in Hc0. injection Hc0 as <-. unfold at_end. simpl. split_and!; [| | by split].
  - assert (Hout : delete id (ac_streams a) !! id = None /\
      forall c', cells (mem w') !! l = Some c' -> contents c' = shut (contents c)).
    { split; [by rewrite lookup_delete_eq |]. intros c' Hc'. destruct (Hds _ Hc') as (c0 & Hc0 & ->).
      rewrite (cells_shut _ _ _ Hl) in Hc0. by injection Hc0 as <-. }
    by destruct st.
  - split; try done; simpl.
    + intros j Hj. by apply lookup_delete_ne.
    + intros l' Hl'. rewrite Hdo by done. by apply cells_shut_ne.
Qed.

(** The record once the acknowledgement has been noted. *)
Definition noted (f : Frame unit) (sh : Shared) : Shared :=
  set_state (if has_flag ACK f then state_update (sh_state sh) (Open true) else sh_state sh) sh.

Lemma acked_cell a w f l c :
  is_stream_tag (tag (header f)) = true -> ac_streams a !! stream_id (header f) = Some l ->
  cells (mem w) !! l = Some c ->
  cells (mem (acked a w f).2) !! l = Some (mkCell (strong c) (noted f (contents c))) /\
  elsewhere (stream_id (header f)) l (a, w) (acked a w f) /\ calm (a, w) (acked a w f).
Proof.
  intros Ht Hl Hc. unfold acked, noted, has_flag. rewrite Ht, andb_true_r. destruct (flags_contains _ ACK); simpl.
  - unfold acked_mem. rewrite Hl, Hc. split_and!; [by apply (cells_put_eq _ _ _ c) | | done].
    split; try done. intros l' Hl'. simpl. by apply cells_put_ne.
  - rewrite Hc. split_and!; [by destruct c as [k []] | done..].
Qed.

Lemma received_hears f sh sh' :
  tag (header f) = TagData -> received (has_flag FIN f) (body f) (noted f sh) sh' -> hears f sh sh'.
Proof.
  intros Ht (Hs & Hf & Hu & _). unfold hears, msg_data, msg_credit, send_window, recv_window, max_window.
  rewrite Ht, Hf, Hs, Hu. simpl. split_and!; try done. lia.
Qed.

Lemma credited_hears f sh :
  tag (header f) = TagWindowUpdate -> hears f sh (credited (has_flag FIN f) (len (header f)) (noted f sh)).
Proof.
  intros Ht. unfold hears, msg_data, msg_credit, send_window, recv_window, max_window, unread.
  rewrite Ht. simpl. rewrite zlen_nil, app_nil_r, Z.sub_0_r. done.
Qed.

(** [on_frame] up to the handlers, for frames of a known stream. *)
Lemma on_frame_known a w f l c (Q : result (Action Stream) ConnectionError -> AS -> Prop) :
  conn_ok cfg E a w -> frame_sendable f -> ac_streams a !! stream_id (header f) = Some l ->
  cells (mem w) !! l = Some c -> is_stream_tag (tag (header f)) = true ->
  (forall a1 w1, conn_ok cfg E a1 w1 -> ac_streams a1 = ac_streams a ->
     cells (mem w1) !! l = Some (mkCell (strong c) (noted f (contents c))) ->
     elsewhere (stream_id (header f)) l (a, w) (a1, w1) -> calm (a, w) (a1, w1) ->
     match tag (header f) with
     | TagData => wp (on_data (mkFrame (cast Data (header f)) (body f))) (fun act s => Q (Ok act) s) (a1, w1)
     | _ => wp (on_window_update (mkFrame (cast WindowUpdate (header f)) (body f))) (fun act s => Q (Ok act) s) (a1, w1)
     end) ->
  wp (on_frame f) Q (a, w).
Proof.
  intros Hok [(Ht & _) _] Hl Hc Htag HQ. eapply on_frame_acked; [done |].
  pose proof (acked_ok cfg E a w f Hok) as Ha. pose proof (acked_cell a w f l c Htag Hl Hc) as (Hc1 & He1 & Hcalm).
  destruct (acked a w f) as [a1 w1]. destruct Ha as (Hok1 & Hs1 & _). simpl in Hc1.
  specialize (HQ a1 w1 Hok1 Hs1 Hc1 He1 Hcalm). unfold dispatch. wp_step. apply as_ac. rewrite Hs1, Hl.
  rewrite bool_decide_eq_true_2, andb_false_r by eauto.
  destruct (tag (header f)) eqn:E1; [| | done..]; wp_step; apply wp_lift.
  - rewrite frame_into_data_ret by done. simpl. wp_step. eapply wp_mono; [exact HQ |]. intros act s Hs. by apply wp_ret.
  - rewrite frame_into_window_update_ret by done. simpl. wp_step. eapply wp_mono; [exact HQ |].
    intros act s Hs. by apply wp_ret.
Qed.

(** What a connection in the state [s0] makes of a frame for a stream that it knows: a protocol error if
    the frame breaks the contract, and otherwise exactly what the end hears, which is nothing to other
    streams. *)
Definition frame_outcome (f : Frame unit) (l : positive) (x : End) (s0 : AS)
    (r : result (Action Stream) ConnectionError) (s : AS) : Prop :=
  conn_ok cfg E s.1 s.2 /\
  ((violates f x /\ exists g, r = Ok (ActionTerminate g)) \/
   (r = Ok ActionNone /\ elsewhere (stream_id (header f)) l s0 s /\ calm s0 s /\
    exists x', hear f x x' /\ at_end s.1 s.2 (stream_id (header f)) l x')).

Section known.
Context (f : Frame unit) (l : positive) (k : nat) (sh : Shared) (fl : Flag) (wrote took : list byte).
Context (a a1 : Active) (w w1 : World).
Hypothesis sendable : frame_sendable f.
Hypothesis here : ac_streams a !! stream_id (header f) = Some l.
Hypothesis cell : cells (mem w) !! l = Some (mkCell k sh).
Hypothesis ok1 : conn_ok cfg E a1 w1.
Hypothesis streams1 : ac_streams a1 = ac_streams a.
Hypothesis cell1 : cells (mem w1) !! l = Some (mkCell k (noted f sh)).
Hypothesis away1 : elsewhere (stream_id (header f)) l (a, w) (a1, w1).
Hypothesis calm1 : calm (a, w) (a1, w1).

Let outcome : result (Action Stream) ConnectionError -> AS -> Prop :=
  frame_outcome f l (mkEnd sh Known fl wrote took) (a, w).

(** A reset of a known stream. *)
Lemma reset_hears : has_flag RST f = true -> wp (reset_stream (stream_id (header f))) (fun act s => outcome (Ok act) s) (a1, w1).
Proof.
  intros Hr. eapply wp_mono; [by apply (reset_stream_ok cfg E) |]. intros act [a2 w2] (-> & Hok2 & Hrel).
  rewrite <- streams1 in here.
  destruct (reset_at_end _ _ _ _ _ _ _ fl wrote took Gone here cell1 Hrel eq_refl) as (Hat & Hew & Hc).
  split; [done |]. right. split; [done |]. split; [by etrans |]. split; [by etrans |].
  eexists. split; [| exact Hat]. by apply (hear_reset f (mkEnd sh Known fl wrote took)).
Qed.

(** A handler that has recorded what the frame says. *)
Lemma touched_hears sh' ws a2 w2 :
  has_flag RST f = false -> ~ violates f (mkEnd sh Known fl wrote took) -> hears f sh sh' ->
  conn_ok cfg E a2 w2 -> touch_rel a1 w1 (stream_id (header f)) l (has_flag FIN f) sh' ws a2 w2 ->
  outcome (Ok ActionNone) (a2, w2).
Proof.
  intros Hrst Hv Hh Hok2 Htr. rewrite <- streams1 in here.
  destruct (touched_at_end _ _ _ _ _ _ _ _ _ _ fl wrote took here cell1 Htr) as (Hat & Hew & Hc).
  split; [done |]. right. split; [done |]. split; [by etrans |]. split; [by etrans |].
  eexists. split; [| exact Hat]. by apply (hear_known f (mkEnd sh Known fl wrote took)).
Qed.

Lemma data_hears :
  tag (header f) = TagData ->
  wp (on_data (mkFrame (cast Data (header f)) (body f))) (fun act s => outcome (Ok act) s) (a1, w1).
Proof.
  destruct sendable as [((_ & _ & Hid & _) & _) Hsz]. intros Ht.
  assert (Hsz' : zlen (body f) <= u32_max) by (unfold MAX_FRAME_BODY_LEN, MIB, KIB, u32_max in *; lia).
  assert (Hd : msg_data f = body f) by (unfold msg_data; by rewrite Ht).
  destruct (has_flag RST f) eqn:Hrst.
  { unfold on_data. simpl. unfold has_flag in Hrst. rewrite Hrst. by apply reset_hears. }
  destruct (has_flag SYN f) eqn:Hsyn.
  - eapply wp_mono; [by apply (on_data_syn_ok usize_wide cfg E) |]. intros act [a2 w2] Hr. simpl in Hr.
    assert (Href : exists g, refuse_data cfg a1 (stream_id (header f)) (body f) = Some g).
    { unfold refuse_data, refuse_syn. rewrite streams1, here. destruct (is_outbound _ _); eauto. }
    destruct Href as [g Hg]. rewrite Hg in Hr. destruct Hr as (-> & -> & ->). split; [done |]. left.
    split; [by left | by exists g].
  - assert (here' : ac_streams a1 !! stream_id (header f) = Some l) by (by rewrite streams1).
    eapply wp_mono; [by eapply (on_data_known_ok usize_wide cfg E) |]. intros act [a2 w2] [Hok2 Hr].
    simpl in Hr. destruct (Z.leb_spec (zlen (body f)) (fc_receive_window (sh_flow_controller sh))).
    + destruct Hr as (-> & sh' & Hrec & Htr). eapply touched_hears; [done | | by apply received_hears | done..].
      unfold violates, recv_window. simpl. rewrite Hd, Hsyn. unfold msg_credit. rewrite Ht. simpl.
      destruct (co_mem _ _ _ _ ok1) as [_ Hcells _ _ _ _].
      destruct (Hcells _ _ cell1) as ([_ (_ & _ & _ & _ & Hsw & _)] & _). simpl in Hsw. unfold send_window.
      intros [[_ ?] | [|]]; [done | lia | lia].
    + destruct Hr as (-> & _). split; [done |]. left. split; [| eauto]. right. left. by rewrite Hd.
Qed.

Lemma credit_hears :
  tag (header f) = TagWindowUpdate ->
  wp (on_window_update (mkFrame (cast WindowUpdate (header f)) (body f))) (fun act s => outcome (Ok act) s) (a1, w1).
Proof.
  destruct sendable as [((_ & _ & Hid & Hlen) & _) Hsz]. intros Ht.
  assert (Hd : msg_credit f = len (header f)) by (unfold msg_credit; by rewrite Ht).
  destruct (has_flag RST f) eqn:Hrst.
  { unfold on_window_update. simpl. unfold has_flag in Hrst. rewrite Hrst. by apply reset_hears. }
  destruct (has_flag SYN f) eqn:Hsyn.
  - eapply wp_mono; [apply (on_window_update_syn_ok cfg E); try done; apply Hlen |]. intros act [a2 w2] Hr. simpl in Hr.
    assert (Href : exists g, refuse_window_update cfg a1 (stream_id (header f)) (len (header f)) = Some g).
    { unfold refuse_window_update, refuse_syn. rewrite streams1, here. destruct (is_outbound _ _); eauto. }
    destruct Href as [g Hg]. rewrite Hg in Hr. destruct Hr as (-> & -> & ->). split; [done |]. left.
    split; [by left | by exists g].
  - assert (here' : ac_streams a1 !! stream_id (header f) = Some l) by (by rewrite streams1).
    eapply wp_mono; [eapply (on_window_update_known_ok cfg E); try done; apply Hlen |]. intros act [a2 w2] [Hok2 Hr].
    simpl in Hr. unfold noted, send_window in Hr. simpl in Hr.
    destruct (Z.leb_spec (fc_send_window (sh_flow_controller sh) + len (header f)) u32_max).
    + destruct Hr as (-> & Htr). eapply touched_hears; [done | | by apply credited_hears | done | exact Htr].
      unfold violates, recv_window. simpl. rewrite Hd, Hsyn. unfold msg_data. rewrite Ht. simpl.
      destruct (co_mem _ _ _ _ ok1) as [_ Hcells _ _ _ _].
      destruct (Hcells _ _ cell1) as ([_ (Hrw & _)] & _). simpl in Hrw. unfold send_window.
      intros [[_ ?] | [|]]; [done | rewrite zlen_nil in *; lia | lia].
    + destruct Hr as (-> & _). split; [done |]. left. split; [| eauto]. right. right. by rewrite Hd.
Qed.
End known.

Lemma on_frame_hears a w f l x :
  conn_ok cfg E a w -> frame_sendable f -> is_stream_tag (tag (header f)) = true ->
  at_end a w (stream_id (header f)) l x -> (forgotten (en_status x) = true -> has_flag SYN f = false) ->
  wp (on_frame f) (frame_outcome f l x (a, w)) (a, w).
Proof.
  intros Hok Hfs Ht Hat Hsyn. destruct x as [sh st fl wrote took].
  assert (Hgone : forgotten st = true -> ac_streams a !! stream_id (header f) = None ->
    (forall c, cells (mem w) !! l = Some c -> contents c = sh) ->
    wp (on_frame f) (frame_outcome f l (mkEnd sh st fl wrote took) (a, w)) (a, w)).
  { intros Hst Hn Hc. eapply wp_mono; [by apply on_frame_unknown; auto |].
    intros r [a' w'] (-> & -> & -> & Hok'). split; [done |]. right. split; [done |].
    split; [by destruct (flags_contains _ ACK) |]. split; [by destruct (flags_contains _ ACK) |].
    exists (mkEnd sh st fl wrote took). split; [apply hear_dropped; by destruct st |].
    assert (Hstr : ac_streams (if flags_contains (flags (header f)) ACK then set_new_outbound_stream_waker None a else a)
      !! stream_id (header f) = None) by (by destruct (flags_contains _ ACK)).
    assert (Hcs : forall c, cells (mem (if flags_contains (flags (header f)) ACK
      then set_mem (wake_all (option_list (ac_new_outbound_stream_waker a)) (mem w)) w else w)) !! l = Some c -> contents c = sh)
      by (by destruct (flags_contains _ ACK)).
    by destruct st. }
  destruct st; [done | | by apply Hgone; [| apply Hat..] | by apply Hgone; [| apply Hat..]].
  destruct Hat as [Hl [k Hc]]. eapply on_frame_known; [done.. |]. intros a1 w1 Hok1 Hs1 Hc1 Hew Hcalm.
  destruct (tag (header f)) eqn:Htag; [by eapply data_hears | by eapply credit_hears | done..].
Qed.

(** A connection that finds the handle of a stream dropped. *)
Lemma on_drop_stream_drops a w l x :
  forall id, conn_ok cfg E a w -> 0 <= id <= u32_max -> en_status x = Known -> at_end a w id l x ->
  wp (on_drop_stream id) (fun o s =>
    conn_ok cfg E s.1 s.2 /\ elsewhere id l (a, w) s /\ calm (a, w) s /\
    exists x', drops id x o x' /\ at_end s.1 s.2 id l x') (a, w).
Proof.
  intros id Hok Hid Hst Hat. unfold at_end in Hat. rewrite Hst in Hat. destruct Hat as [Hl [k Hc]].
  eapply wp_mono; [by apply (on_drop_stream_ok cfg E) |]. intros o [a' w'] (Hok' & Hrel & Ho).
  rewrite Hl, Hc in Ho. simpl in Ho.
  destruct (reset_at_end _ _ _ _ _ _ _ (en_flag x) (en_wrote x) (en_took x) Dropped Hl Hc Hrel eq_refl) as (Hat & Hew & Hcalm).
  split_and!; [done.. |]. rewrite Ho. eexists. split; [| exact Hat]. by apply drops_known.
Qed.

(** The first frame of the remote's, on a connection that takes another stream. *)
Lemma fresh_born f sh0 (fin : bool) k b sh :
  fresh sh0 -> has_flag SYN f = true -> has_flag ACK f = false -> has_flag RST f = false -> has_flag FIN f = fin ->
  msg_data f = b -> msg_credit f = k -> zlen b <= DEFAULT_CREDIT -> k + DEFAULT_CREDIT <= u32_max ->
  sh_state sh = (if fin then RecvClosed else Open false) -> unread sh = b -> send_window sh = k + DEFAULT_CREDIT ->
  recv_window sh = DEFAULT_CREDIT - zlen b -> max_window sh = DEFAULT_CREDIT ->
  hear f (mkEnd sh0 Unborn FlagAck [] []) (mkEnd sh Known FlagAck [] []).
Proof.
  intros (F1 & F2 & F3 & F4 & F5) Hsyn Hack Hrst Hfin Hb Hk Hlb Hlk Hst Hu Hs Hr Hm.
  assert (Hstay : has_flag FIN f && bool_decide (sh_state sh = Closed) = false).
  { rewrite Hst. destruct fin; apply andb_false_r. }
  pose proof (hear_known f (mkEnd sh0 Unborn FlagAck [] []) sh) as Hh. rewrite Hstay in Hh. apply Hh.
  - unfold dropped. simpl. by rewrite Hsyn, Hrst.
  - done.
  - unfold violates. simpl. rewrite Hb, Hk, F3, F4. intros [[? _] | [|]]; [done | lia | lia].
  - unfold hears. simpl. rewrite Hack, Hfin, Hb, Hk, F1, F2, F3, F4, F5, Hst, Hu, Hs, Hr, Hm.
    split_and!; (done || lia || by destruct fin).
Qed.

(** A SYN makes a new end of what it carries, and a handle for it. *)
Definition learned (f : Frame unit) (s0 : AS) (a' : Active) (w' : World) (st : Stream) : Prop :=
  st_id st = stream_id (header f) /\ conn_ok cfg (add_ref (st_shared st) E) a' w' /\
  st_flag st = FlagAck /\ cells (mem s0.2) !! st_shared st = None /\ elsewhere (st_id st) (st_shared st) s0 (a', w') /\
  exists sh, at_end a' w' (st_id st) (st_shared st) (mkEnd sh Known (st_flag st) [] []) /\
    forall sh0, fresh sh0 -> hear f (mkEnd sh0 Unborn FlagAck [] []) (mkEnd sh Known (st_flag st) [] []).

Lemma accepted_learned f a w k b st a' w' :
  has_flag SYN f = true -> has_flag ACK f = false -> has_flag RST f = false ->
  msg_data f = b -> msg_credit f = k -> zlen b <= DEFAULT_CREDIT -> k + DEFAULT_CREDIT <= u32_max ->
  conn_ok cfg (add_ref (st_shared st) E) a' w' ->
  accepted cfg a w (stream_id (header f)) (k + DEFAULT_CREDIT) (has_flag FIN f) b st a' w' -> learned f (a, w) a' w' st.
Proof.
  intros Hsyn Hack Hrst Hb Hk Hlb Hlk Hok' (Hi & _ & Hf & Hnew & (sh & Hc & Hst & Hu & Hs & Hr & Hm) & Hrt & _ & (rs & ->)).
  split; [done |]. split; [done |]. split; [done |]. split; [done |]. split.
  { split; try done; simpl.
    - intros j Hj. rewrite lookup_insert_ne; [done | congruence].
    - intros l' Hl'. rewrite Hc. by apply lookup_insert_ne. }
  exists sh. rewrite Hf. split.
  - unfold at_end. simpl. split; [by rewrite <- Hi, lookup_insert_eq |]. exists 2%nat. by rewrite Hc, lookup_insert_eq.
  - intros sh0 Hfr. by eapply fresh_born.
Qed.

Lemma on_frame_learns a w f :
  conn_ok cfg E a w -> frame_sendable f -> is_stream_tag (tag (header f)) = true -> has_flag RST f = false ->
  has_flag ACK f = false -> has_flag SYN f = true ->
  refuse_syn cfg a (stream_id (header f)) frame_internal_error = None ->
  wp (on_frame f) (fun r '(a', w') =>
    (exists st, r = Ok (ActionNew st) /\ learned f (a, w) a' w' st) \/
    ((exists g, r = Ok (ActionTerminate g)) /\
     forall sh0, fresh sh0 -> violates f (mkEnd sh0 Unborn FlagAck [] []))) (a, w).
Proof.
  intros Hok [(Ht & _) Hsz] Htag Hrst Hack Hsyn Href. eapply on_frame_acked; [done |].
  unfold acked. fold (has_flag ACK f). rewrite Hack. simpl. unfold dispatch. fold (has_flag SYN f).
  rewrite Hsyn. wp_step. apply as_ac. simpl. destruct Ht as (_ & _ & Hid & Hlen).
  destruct (tag (header f)) eqn:E1; [| | done..]; wp_step; apply wp_lift.
  - rewrite frame_into_data_ret by done. simpl. wp_step.
    assert (Hb : msg_data f = body f) by (unfold msg_data; by rewrite E1).
    assert (Hk : msg_credit f = 0) by (unfold msg_credit; by rewrite E1).
    eapply wp_mono; [by apply (on_data_syn_ok usize_wide cfg E) |]. intros act [a' w'] Hr. apply wp_ret. simpl in Hr.
    unfold refuse_data in Hr. rewrite Href in Hr. destruct (Z.ltb_spec DEFAULT_CREDIT (zlen (body f))).
    + destruct Hr as (-> & _). right. split; [eauto |]. intros sh0 (_ & _ & _ & F4 & _).
      unfold violates. simpl. right. left. rewrite F4, Hb. lia.
    + destruct Hr as (st & -> & Hok' & Hacc). left. exists st. split; [done |].
      eapply accepted_learned; [done | done | done | exact Hb | exact Hk | lia | by vm_compute | done | exact Hacc].
  - rewrite frame_into_window_update_ret by done. simpl. wp_step.
    assert (Hb : msg_data f = []) by (unfold msg_data; by rewrite E1).
    assert (Hk : msg_credit f = len (header f)) by (unfold msg_credit; by rewrite E1).
    eapply wp_mono; [apply (on_window_update_syn_ok cfg E); try done; apply Hlen |]. intros act [a' w'] Hr.
    apply wp_ret. simpl in Hr. unfold refuse_window_update in Hr.
    rewrite (refuse_syn_full _ _ _ _ _ Href) in Hr.
    destruct (Z.leb_spec (len (header f) + DEFAULT_CREDIT) u32_max).
    + destruct Hr as (st & -> & Hok' & Hacc). left. exists st. split; [done |].
      eapply accepted_learned; [done | done | done | exact Hb | exact Hk | by vm_compute | done | done | exact Hacc].
    + destruct Hr as (-> & _). right. split; [eauto |]. intros sh0 (_ & _ & F3 & _).
      unfold violates. simpl. right. right. rewrite F3, Hk. lia.
Qed.
End connection.
