(* ===== verification/Joined.v ===== *)
(** * Two connections, seen from outside

    What two connections that are joined by a pair of byte streams know of each other, without their
    memory and channels: of each side the ends of its streams with the frames that wait in their
    channels, the frames it has written and read, and the pings it has asked and owes. The invariant
    [joined] says that every stream, with its ends at both sides and the frames of it that are on the
    way, is a state of the machine of [Link]; it is kept by everything that one side can do. *)
From Stdlib Require Import ZArith Lia Strings.Byte.
From stdpp Require Import base option list gmap relations numbers.
From S2P Require Import Prelude.
From S2P Require Import Header.
From S2P Require Import Frame.
From S2P Require Import Config.
From S2P Require Import Command.
From S2P Require Import ChunkList.
From S2P Require Import Shared.
From S2P Require Import StreamHandle.
From S2P Require Import StreamSpec.
From S2P Require Import Link.
From S2P Require Import FrameIo.
From S2P Require Import FrameIoSpec.
From S2P Require Import Connection.

(** ** Modes and frames *)

Definition peer (m : Mode) : Mode := match m with Client => Server | Server => Client end.

Lemma peer_peer m : peer (peer m) = m.
Proof. by destruct m. Qed.

Lemma outbound_peer m id : is_outbound (peer m) id = negb (is_outbound m id).
Proof. destruct m; simpl; unfold is_client; [by rewrite negb_involutive | done]. Qed.

(** A frame of a stream; a ping, and its answer. *)
Definition stream_frame (f : Frame unit) : Prop := is_stream_tag (tag (header f)) = true.
Definition asking (n : Z) : Frame unit := frame_erase (frame_ping n).
Definition answering (n : Z) : Frame unit := frame_erase (frame_new (header_ack (header_ping n))).

(** What a peer sends as long as it has no complaint: no [GoAway]. *)
Definition courteous (f : Frame unit) : Prop :=
  stream_frame f \/ (exists n, f = asking n) \/ (exists n, f = answering n).

(** The frames of one stream, and the numbers of the pings and of the answers, in a sequence of frames. *)
Definition of_stream (id : Z) (fs : list (Frame unit)) : list (Frame unit) :=
  filter (fun f => stream_frame f /\ stream_id (header f) = id) fs.
Definition nonces (ack : bool) (fs : list (Frame unit)) : list Z :=
  omap (fun f => if decide (tag (header f) = TagPing /\ has_flag ACK f = ack) then Some (len (header f)) else None) fs.

Lemma of_stream_app id fs gs : of_stream id (fs ++ gs) = of_stream id fs ++ of_stream id gs.
Proof. apply list.filter_app. Qed.

Lemma nonces_app b fs gs : nonces b (fs ++ gs) = nonces b fs ++ nonces b gs.
Proof. apply omap_app. Qed.

Lemma of_stream_own f : stream_frame f -> of_stream (stream_id (header f)) [f] = [f].
Proof. intros Hf. unfold of_stream. by rewrite filter_cons_True. Qed.

Lemma of_stream_other id f : ~ (stream_frame f /\ stream_id (header f) = id) -> of_stream id [f] = [].
Proof. intros Hf. unfold of_stream. by rewrite filter_cons_False. Qed.

Lemma nonces_stream b f : stream_frame f -> nonces b [f] = [].
Proof. unfold stream_frame, nonces. intros Hf. simpl. by destruct (tag (header f)). Qed.

Lemma of_stream_messages id fs : Forall (message id) fs -> of_stream id fs = fs.
Proof.
  intros Hm. unfold of_stream. induction Hm as [|f fs (Hi & Ht & _) _ IH]; [done |].
  rewrite filter_cons_True; [by rewrite IH |]. split; [| done]. unfold stream_frame. by destruct Ht as [-> | ->].
Qed.

Lemma of_stream_apart id id' fs : id' <> id -> Forall (message id) fs -> of_stream id' fs = [].
Proof.
  intros Hne Hm. unfold of_stream. induction Hm as [|f fs (Hi & _) _ IH]; [done |].
  rewrite filter_cons_False; [done |]. intros [_ Hi']. congruence.
Qed.

(** ** One side *)

Record View : Set := mkView {
  vw_mode : Mode;
  vw_next : Z;
  vw_streams : gmap Z (End * list (Frame unit));
  vw_sent : list (Frame unit);
  vw_got : list (Frame unit);
  vw_pend : option (Frame unit);
  vw_asked : option Z;
  vw_pong : option Z;
}.

Definition with_streams (ss : gmap Z (End * list (Frame unit))) (v : View) : View :=
  mkView (vw_mode v) (vw_next v) ss (vw_sent v) (vw_got v) (vw_pend v) (vw_asked v) (vw_pong v).
Definition with_next (n : Z) (v : View) : View :=
  mkView (vw_mode v) n (vw_streams v) (vw_sent v) (vw_got v) (vw_pend v) (vw_asked v) (vw_pong v).
Definition with_out (fs : list (Frame unit)) (p : option (Frame unit)) (v : View) : View :=
  mkView (vw_mode v) (vw_next v) (vw_streams v) fs (vw_got v) p (vw_asked v) (vw_pong v).
Definition with_got (f : Frame unit) (v : View) : View :=
  mkView (vw_mode v) (vw_next v) (vw_streams v) (vw_sent v) (vw_got v ++ [f]) (vw_pend v) (vw_asked v) (vw_pong v).
Definition with_asked (o : option Z) (v : View) : View :=
  mkView (vw_mode v) (vw_next v) (vw_streams v) (vw_sent v) (vw_got v) (vw_pend v) o (vw_pong v).
Definition with_pong (o : option Z) (v : View) : View :=
  mkView (vw_mode v) (vw_next v) (vw_streams v) (vw_sent v) (vw_got v) (vw_pend v) (vw_asked v) o.

(** The end of a stream at one side; before a side knows the stream, a new end. *)
Definition unborn (x : End) : Prop := exists sh, fresh sh /\ x = mkEnd sh Unborn FlagAck [] [].

Definition end_of (v : View) (id : Z) (x : End) : Prop :=
  match vw_streams v !! id with
  | Some (e, _) => x = e /\ en_status x <> Unborn
  | None => unborn x
  end.

(** The commands that wait in the channel of a stream. *)
Definition waiting_in (v : View) (id : Z) : list (Frame unit) := default [] (snd <$> vw_streams v !! id).

(** The frames of a stream that have left its end: on the wire [fs], pending, or in the channel. *)
Definition outgoing (v : View) (fs : list (Frame unit)) (id : Z) : list (Frame unit) :=
  of_stream id fs ++ of_stream id (option_list (vw_pend v)) ++ waiting_in v id.

(** ** Both sides *)

(** The link of a stream, from the side that opens it. *)
Definition oriented (m : Mode) (id : Z) (k : Link) : Link := if is_outbound m id then k else turned k.

(** A stream is unknown at both sides, or it is linked. *)
Definition paired (x y : View) (fx fy : list (Frame unit)) (id : Z) : Prop :=
  (vw_streams x !! id = None /\ vw_streams y !! id = None /\ outgoing x fx id = [] /\ outgoing y fy id = []) \/
  exists e e', end_of x id e /\ end_of y id e' /\
    linked id (oriented (vw_mode x) id (mkLink e e' (outgoing x fx id) (outgoing y fy id))).

(** One direction: [fx] is on the way from [x] to [y]. *)
Record half (x y : View) (fx fy : list (Frame unit)) : Prop := {
  ha_way : vw_sent x = vw_got y ++ fx;
  ha_frames : Forall (fun f => frame_wf f /\ courteous f) (vw_sent x);
  ha_pend : forall f, vw_pend x = Some f -> stream_frame f;
  ha_pings : nonces false fx ++ option_list (vw_pong y) ++ nonces true fy = option_list (vw_asked x);
  ha_next : forall id, is_Some (vw_streams x !! id) -> is_outbound (vw_mode x) id = true -> id < vw_next x;
}.

Record joined_by (x y : View) (fx fy : list (Frame unit)) : Prop := {
  jo_modes : vw_mode y = peer (vw_mode x);
  jo_here : half x y fx fy;
  jo_there : half y x fy fx;
  jo_streams : forall id, paired x y fx fy id;
}.

Definition joined (x y : View) : Prop := exists fx fy, joined_by x y fx fy.

(** What is on the way has been sent. *)
Lemma half_way x y fx fy : half x y fx fy -> Forall (fun f => frame_wf f /\ courteous f) fx.
Proof. intros [Hw Hc _ _ _]. rewrite Hw in Hc. by apply Forall_app in Hc as [_ ?]. Qed.

(** Both sides are alike. *)
Lemma turned_oriented m id e e' o i :
  oriented (peer m) id (mkLink e' e i o) = oriented m id (mkLink e e' o i).
Proof. unfold oriented. rewrite outbound_peer. by destruct (is_outbound m id). Qed.

Lemma paired_sym x y fx fy id : vw_mode y = peer (vw_mode x) -> paired x y fx fy id -> paired y x fy fx id.
Proof.
  intros Hm [(? & ? & ? & ?) | (e & e' & He & He' & Hl)]; [by left |]. right. exists e', e. split_and!; [done.. |].
  by rewrite Hm, turned_oriented.
Qed.

Lemma joined_by_sym x y fx fy : joined_by x y fx fy -> joined_by y x fy fx.
Proof.
  intros [Hm Hh Ht Hs]. split; [by rewrite Hm, peer_peer | done | done |]. intros id. by apply paired_sym.
Qed.

Lemma joined_sym x y : joined x y -> joined y x.
Proof. intros (fx & fy & Hby). exists fy, fx. by apply joined_by_sym. Qed.

(** ** Links, from either side *)

Lemma half_step_linked m id k k' :
  linked id (oriented m id k) -> half_step id k k' -> linked id (oriented m id k').
Proof.
  intros (k0 & Hn & Hs) Hk. exists k0. split; [done |]. eapply rtc_r; [exact Hs |]. unfold oriented.
  destruct (is_outbound m id); [by apply step_here |]. apply step_there. by destruct k, k'.
Qed.

Lemma linked_acts m id x o x' y out inn :
  linked id (oriented m id (mkLink x y out inn)) -> en_status x <> Unborn -> acts id x o x' ->
  linked id (oriented m id (mkLink x' y (out ++ option_list o) inn)).
Proof. intros Hl Hx Ha. by eapply half_step_linked, step_acts. Qed.

Lemma linked_drops m id x o x' y out inn :
  linked id (oriented m id (mkLink x y out inn)) -> drops id x o x' ->
  linked id (oriented m id (mkLink x' y (out ++ option_list o) inn)).
Proof. intros Hl Ha. by eapply half_step_linked, step_drops. Qed.

(** What arrives here comes from there. *)
Lemma linked_hears m id f x x' y out inn :
  linked id (oriented m id (mkLink x y out (f :: inn))) -> hear f x x' ->
  linked id (oriented m id (mkLink x' y out inn)).
Proof.
  intros Hl Hh. rewrite <- turned_oriented in Hl |- *. by eapply half_step_linked, step_hear.
Qed.

(** The state of a stream at both sides, and what arrives violates nothing. *)
Lemma linked_sides m id x y out inn :
  linked id (oriented m id (mkLink x y out inn)) ->
  dir_ok x y out inn /\ dir_ok y x inn out /\ (forall f fs, inn = f :: fs -> ~ violates f x) /\
  Forall (message id) out /\ Forall (message id) inn.
Proof.
  intros Hl. pose proof (linked_ok _ _ Hl) as Hok. pose proof (linked_messages _ _ Hl) as [Ho Hi].
  pose proof Hok as [Hd Hd' _ _ _ _]. unfold oriented in *.
  destruct (is_outbound m id); simpl in *; split_and!; try done; intros f fs ->;
    by apply (link_no_violation _ f fs Hok).
Qed.

(** A stream that this side knows. *)
Lemma paired_known x y fx fy id e q :
  paired x y fx fy id -> vw_streams x !! id = Some (e, q) ->
  en_status e <> Unborn /\ exists e', end_of y id e' /\
    linked id (oriented (vw_mode x) id (mkLink e e' (outgoing x fx id) (outgoing y fy id))).
Proof.
  intros [(Hn & _) | (e0 & e' & He & He' & Hl)] Hx; [by rewrite Hn in Hx |].
  unfold end_of in He. rewrite Hx in He. destruct He as [-> Hs]. split; [done |]. by exists e'.
Qed.

(** A stream that this side does not know. *)
Lemma paired_unknown x y fx fy id :
  paired x y fx fy id -> vw_streams x !! id = None -> outgoing y fy id <> [] ->
  exists e e', unborn e /\ end_of y id e' /\
    linked id (oriented (vw_mode x) id (mkLink e e' (outgoing x fx id) (outgoing y fy id))).
Proof.
  intros [(_ & _ & _ & Hn) | (e & e' & He & He' & Hl)] Hx Ho; [done |].
  unfold end_of in He. rewrite Hx in He. by exists e, e'.
Qed.

(** Nothing has changed for a stream. *)
Lemma paired_same x y fx fy x' fx' fy' id :
  vw_mode x' = vw_mode x -> vw_streams x' !! id = vw_streams x !! id ->
  outgoing x' fx' id = outgoing x fx id -> outgoing y fy' id = outgoing y fy id ->
  paired x y fx fy id -> paired x' y fx' fy' id.
Proof.
  intros Hm Hs Ho Ho' [(? & ? & ? & ?) | (e & e' & He & He' & Hl)]; [left; by rewrite Hs, Ho, Ho' |].
  right. exists e, e'. unfold end_of in *. by rewrite Hm, Hs, Ho, Ho'.
Qed.

(** The end at this side has moved on. *)
Lemma paired_moved x y x' fx' fy' id e e' q' :
  vw_mode x' = vw_mode x -> vw_streams x' !! id = Some (e, q') -> en_status e <> Unborn -> end_of y id e' ->
  linked id (oriented (vw_mode x) id (mkLink e e' (outgoing x' fx' id) (outgoing y fy' id))) ->
  paired x' y fx' fy' id.
Proof.
  intros Hm Hs He He' Hl. right. exists e, e'. unfold end_of at 1. by rewrite Hs, Hm.
Qed.

(** What a side sends takes its frames through the channel of the stream, the pending frame and the
    wire. *)
Lemma outgoing_other x ss fx j :
  ss !! j = vw_streams x !! j -> outgoing (with_streams ss x) fx j = outgoing x fx j.
Proof. intros Hs. unfold outgoing, waiting_in. simpl. by rewrite Hs. Qed.

(** *** Actions and commands *)

Lemma half_streams x y fx fy ss :
  half x y fx fy -> (forall id, is_Some (ss !! id) -> is_Some (vw_streams x !! id)) ->
  half (with_streams ss x) y fx fy.
Proof. intros [? ? ? ? Hn] Hs. split; try done. simpl. intros id Hid. by apply Hn, Hs. Qed.

Lemma insert_known {A} (m : gmap Z A) id a j : is_Some (m !! id) -> is_Some (<[id := a]> m !! j) -> is_Some (m !! j).
Proof. intros Hi [b [[<- <-] | [_ Hb]]%lookup_insert_Some]; [done | by exists b]. Qed.

(** Through a handle the program acts. *)
Lemma joined_acts x y id e q o e' :
  joined x y -> vw_streams x !! id = Some (e, q) -> acts id e o e' ->
  joined (with_streams (<[id := (e', q ++ option_list o)]> (vw_streams x)) x) y.
Proof.
  intros (fx & fy & [Hm Hh Ht Hs]) Hx Ha. exists fx, fy. split; [done | | by destruct Ht; split |].
  { apply half_streams; [done |]. intros j. by apply insert_known. }
  intros j. destruct (decide (j = id)) as [-> | Hj].
  - destruct (paired_known _ _ _ _ _ _ _ (Hs id) Hx) as (He & e1 & He1 & Hl).
    eapply (paired_moved x y _ _ _ id e' e1); [done | by simpl; rewrite lookup_insert_eq | | done |].
    { by destruct (acts_syn _ _ _ _ Ha) as [-> _]. }
    replace (outgoing (with_streams _ x) fx id) with (outgoing x fx id ++ option_list o); [by eapply linked_acts |].
    unfold outgoing, waiting_in. simpl. by rewrite lookup_insert_eq, Hx, <- !app_assoc.
  - apply (paired_same x y fx fy); try done; [by apply lookup_insert_ne |].
    apply (outgoing_other x _ fx). by apply lookup_insert_ne.
Qed.

(** The connection takes a command. *)
Lemma joined_take x y id e f q :
  joined x y -> vw_streams x !! id = Some (e, f :: q) -> vw_pend x = None ->
  joined (with_out (vw_sent x) (Some f) (with_streams (<[id := (e, q)]> (vw_streams x)) x)) y.
Proof.
  intros (fx & fy & [Hm Hh Ht Hs]) Hx Hp. exists fx, fy.
  destruct (paired_known _ _ _ _ _ _ _ (Hs id) Hx) as (He & e1 & He1 & Hl).
  assert (Hout : outgoing x fx id = of_stream id fx ++ f :: q)
    by (unfold outgoing, waiting_in; by rewrite Hp, Hx).
  assert (Hf : stream_frame f /\ stream_id (header f) = id).
  { destruct (linked_sides _ _ _ _ _ _ Hl) as (_ & _ & _ & Hmsg & _). rewrite Hout in Hmsg.
    apply Forall_app in Hmsg as [_ Hmsg]. apply Forall_cons_1 in Hmsg as [(Hi & Htag & _) _].
    split; [| done]. unfold stream_frame. by destruct Htag as [-> | ->]. }
  split; [done | | by destruct Ht; split |].
  { destruct Hh as [? ? ? ? Hn]. split; try done; simpl; [intros g [= <-]; apply Hf |].
    intros j Hj. apply Hn. by eapply insert_known. }
  intros j. destruct (decide (j = id)) as [-> | Hj].
  - eapply (paired_moved x y _ _ _ id e e1); [done | by simpl; rewrite lookup_insert_eq | done | done |].
    replace (outgoing _ fx id) with (outgoing x fx id); [done |]. rewrite Hout. unfold outgoing, waiting_in. simpl.
    rewrite lookup_insert_eq. destruct Hf as [Hf <-]. by rewrite of_stream_own.
  - apply (paired_same x y fx fy); try done; [by apply lookup_insert_ne |].
    unfold outgoing, waiting_in. simpl. rewrite lookup_insert_ne, Hp by done.
    rewrite of_stream_other; [done |]. intros [_ ?]. destruct Hf. congruence.
Qed.

(** The connection finds the handle of a stream dropped. *)
Lemma joined_drops x y id e o e' :
  joined x y -> vw_streams x !! id = Some (e, []) -> vw_pend x = None -> drops id e o e' ->
  joined (with_out (vw_sent x) o (with_streams (<[id := (e', [])]> (vw_streams x)) x)) y.
Proof.
  intros (fx & fy & [Hm Hh Ht Hs]) Hx Hp Hd. exists fx, fy.
  destruct (paired_known _ _ _ _ _ _ _ (Hs id) Hx) as (He & e1 & He1 & Hl).
  pose proof (drops_message _ _ _ _ Hd) as Hmsg.
  split; [done | | by destruct Ht; split |].
  { destruct Hh as [? ? ? ? Hn]. split; try done; simpl.
    - intros f ->. apply Forall_cons_1 in Hmsg as [(_ & Htag & _) _]. unfold stream_frame. by destruct Htag as [-> | ->].
    - intros j Hj. apply Hn. by eapply insert_known. }
  intros j. destruct (decide (j = id)) as [-> | Hj].
  - eapply (paired_moved x y _ _ _ id e' e1); [done | by simpl; rewrite lookup_insert_eq | by destruct Hd | done |].
    replace (outgoing _ fx id) with (outgoing x fx id ++ option_list o); [by eapply linked_drops |].
    unfold outgoing, waiting_in. simpl. rewrite lookup_insert_eq, Hx, Hp. simpl.
    by rewrite !app_nil_r, (of_stream_messages id (option_list o)).
  - apply (paired_same x y fx fy); try done; [by apply lookup_insert_ne |].
    unfold outgoing, waiting_in. simpl. rewrite lookup_insert_ne, Hp by done.
    by rewrite (of_stream_apart id j (option_list o)).
Qed.

(** *** Sending *)

Lemma joined_send x y f :
  joined x y -> vw_pend x = Some f -> frame_wf f -> joined (with_out (vw_sent x ++ [f]) None x) y.
Proof.
  intros (fx & fy & [Hm Hh Ht Hs]) Hp Hf. exists (fx ++ [f]), fy. destruct Hh as [Hw Hc Hpd Hn Hx].
  pose proof (Hpd _ Hp) as Hsf. split; [done | | |].
  - split; try done; simpl.
    + by rewrite Hw, app_assoc.
    + apply Forall_app. split; [done |]. apply Forall_singleton. split; [done | by left].
    + by rewrite nonces_app, nonces_stream, app_nil_r.
  - destruct Ht as [? ? ? Hn' ?]. split; try done. simpl. by rewrite nonces_app, (nonces_stream true), app_nil_r.
  - intros j. apply (paired_same x y fx fy); try done. unfold outgoing. simpl. rewrite Hp, of_stream_app. simpl.
    by rewrite <- app_assoc.
Qed.

(** Pings and their answers belong to no stream. *)
Lemma outgoing_control x y fx fy f n :
  f = asking n \/ f = answering n -> (forall id, paired x y fx fy id) -> forall x', vw_mode x' = vw_mode x ->
  vw_streams x' = vw_streams x -> vw_pend x' = vw_pend x -> forall id, paired x' y (fx ++ [f]) fy id.
Proof.
  intros Hf Hs x' Hm Hst Hp id. apply (paired_same x y fx fy); try done; [by rewrite Hst |].
  unfold outgoing, waiting_in. rewrite Hp, Hst, of_stream_app, (of_stream_other _ f), app_nil_r; [done |].
  intros [Hsf _]. by destruct Hf as [-> | ->].
Qed.

Lemma joined_ask x y n :
  joined x y -> vw_asked x = None -> frame_wf (asking n) ->
  joined (with_out (vw_sent x ++ [asking n]) (vw_pend x) (with_asked (Some n) x)) y.
Proof.
  intros (fx & fy & [Hm Hh Ht Hs]) Ha Hf. exists (fx ++ [asking n]), fy. destruct Hh as [Hw Hc Hpd Hn Hx].
  split; [done | | |].
  - split; try done; simpl.
    + by rewrite Hw, app_assoc.
    + apply Forall_app. split; [done |]. apply Forall_singleton. split; [done | right; left; by exists n].
    + rewrite Ha in Hn. apply app_eq_nil in Hn as [Hn1 Hn2]. by rewrite nonces_app, Hn1, Hn2.
  - destruct Ht as [? ? ? Hn' ?]. split; try done. simpl. by rewrite nonces_app, app_nil_r.
  - eapply outgoing_control; [by left | done..].
Qed.

Lemma joined_answer x y n :
  joined x y -> vw_pong x = Some n -> frame_wf (answering n) ->
  joined (with_out (vw_sent x ++ [answering n]) (vw_pend x) (with_pong None x)) y.
Proof.
  intros (fx & fy & [Hm Hh Ht Hs]) Ha Hf. exists (fx ++ [answering n]), fy. destruct Hh as [Hw Hc Hpd Hn Hx].
  split; [done | | |].
  - split; try done; simpl.
    + by rewrite Hw, app_assoc.
    + apply Forall_app. split; [done |]. apply Forall_singleton. split; [done | right; right; by exists n].
    + by rewrite nonces_app, app_nil_r.
  - destruct Ht as [? ? ? Hn' ?]. split; try done. simpl. rewrite Ha in Hn'. simpl in Hn'.
    rewrite nonces_app. destruct (nonces false fy) as [|k l] eqn:E1; simpl in *.
    + destruct (vw_asked y) as [k|]; simpl in *; [| done]. by injection Hn' as -> ->.
    + destruct (vw_asked y) as [k'|]; simpl in *; [| done]. injection Hn' as -> Hn'. by destruct l.
  - eapply outgoing_control; [by right | done..].
Qed.

(** *** Receiving *)

(** The wire of a frame tells the frame. *)
Lemma frame_wire_inj (f g : Frame unit) bs cs :
  frame_wf f -> frame_wf g -> frame_wire f ++ bs = frame_wire g ++ cs -> f = g.
Proof.
  intros (Tf & Vf & Bf) (Tg & Vg & Bg) He. unfold frame_wire in He. rewrite <- !app_assoc in He.
  apply app_inj_1 in He as [Hh Hb]; [| by rewrite !length_encode].
  pose proof (decode_encode_eq (header f) Tf Vf) as Df. rewrite Hh, (decode_encode_eq (header g) Tg Vg) in Df.
  assert (Hhd : header f = header g).
  { injection Df as E1 E2 E3 E4. destruct (header f), (header g). simpl in *. congruence. }
  destruct f as [hf bf], g as [hg bg]. simpl in *. subst hg. f_equal. case_decide.
  - apply app_inj_1 in Hb; [by destruct Hb |]. unfold zlen in *. lia.
  - congruence.
Qed.

(** The next frame to arrive at [x]. *)
Definition incoming (x y : View) (f : Frame unit) : Prop := exists fx fy, joined_by x y fx (f :: fy).

Lemma frame_wire_cons (f : Frame unit) : frame_wire f <> [].
Proof. intros He. apply (f_equal length) in He. unfold frame_wire in He. rewrite length_app, length_encode in He. simpl in He. lia. Qed.

(** The last frame of a side that closes. *)
Definition farewell : Frame unit := frame_erase frame_term.

Lemma farewell_wf : frame_wf farewell.
Proof. apply frame_wf_erase, (frame_go_away_wf 0). vm_compute. split; discriminate. Qed.

(** A peer that is courteous does not say it before it closes. *)
Lemma farewell_last f : courteous f -> f <> farewell.
Proof. intros [Hf | [[n ->] | [n ->]]] E; [by rewrite E in Hf | done | done]. Qed.

(** No frame is empty on the wire. *)
Lemma wires_nil fs : wires fs = [] -> fs = [].
Proof. destruct fs as [|f fs]; [done |]. rewrite wires_cons. intros [E _]%app_eq_nil. by apply frame_wire_cons in E. Qed.

(** Frames up to a farewell are all that was sent before it. *)
Lemma wires_farewell fs gs :
  Forall frame_wf fs -> Forall (fun f => frame_wf f /\ courteous f) gs ->
  wires (fs ++ [farewell]) `prefix_of` wires (gs ++ [farewell]) -> fs = gs.
Proof.
  intros Hfs. revert gs. induction Hfs as [|f fs Hf _ IH]; intros gs Hgs [bs Hb].
  - destruct Hgs as [|g gs [Hg Hc] _]; [done |]. rewrite <- app_comm_cons, app_nil_l, wires_one, wires_cons in Hb.
    destruct (farewell_last _ Hc). by eapply frame_wire_inj; [| apply farewell_wf |].
  - rewrite <- app_comm_cons, wires_cons, <- app_assoc in Hb. destruct Hgs as [|g gs [Hg Hc] Hgs].
    + rewrite app_nil_l, wires_one in Hb. rewrite <- (app_nil_r (frame_wire farewell)) in Hb.
      pose proof (frame_wire_inj _ _ _ _ farewell_wf Hf Hb) as <-. apply app_inv_head in Hb. symmetry in Hb.
      apply app_eq_nil in Hb as [E%wires_nil _]. by destruct fs.
    + rewrite <- app_comm_cons, wires_cons in Hb. pose proof (frame_wire_inj _ _ _ _ Hg Hf Hb) as ->.
      apply app_inv_head in Hb. f_equal. apply IH; [done |]. by eexists.
Qed.

(** What is read is what was sent, or the farewell after all of it. *)
Lemma incoming_prefix x y f :
  joined x y -> frame_wf f -> wires (vw_got x ++ [f]) `prefix_of` wires (vw_sent y ++ [farewell]) ->
  incoming x y f \/ f = farewell.
Proof.
  intros (fx & fy & Hj) Hf Hp. pose proof Hj as [_ _ Ht _]. pose proof (half_way _ _ _ _ Ht) as Hfr.
  destruct Ht as [Hw _ _ _ _]. rewrite Hw, <- app_assoc, !(wires_app (vw_got x)), wires_one in Hp.
  apply prefix_app_inv in Hp as [bs Hb]. symmetry in Hb. destruct fy as [|g fy].
  - right. rewrite app_nil_l, wires_one, <- (app_nil_r (frame_wire farewell)) in Hb.
    by apply (frame_wire_inj f farewell bs []); [| apply farewell_wf |].
  - left. apply Forall_cons_1 in Hfr as [[Hg _] _]. rewrite <- app_comm_cons, wires_cons in Hb.
    rewrite (frame_wire_inj f g bs (wires (fy ++ [farewell]))) by done. by exists fx, fy.
Qed.

Lemma incoming_courteous x y f : incoming x y f -> courteous f.
Proof. intros (fx & fy & [_ _ Ht _]). apply half_way in Ht. by apply Forall_cons_1 in Ht as [[_ Hc] _]. Qed.

Lemma outgoing_head y f fs : stream_frame f -> outgoing y (f :: fs) (stream_id (header f)) = f :: outgoing y fs (stream_id (header f)).
Proof. intros Hf. unfold outgoing, of_stream. by rewrite (filter_cons_True _ f fs). Qed.

Lemma outgoing_tail y f fs id : ~ (stream_frame f /\ stream_id (header f) = id) -> outgoing y (f :: fs) id = outgoing y fs id.
Proof. intros Hf. unfold outgoing, of_stream. by rewrite (filter_cons_False _ f fs). Qed.

(** It breaks no rule, whether the stream is known or not. *)
Lemma incoming_known x y f e q :
  incoming x y f -> stream_frame f -> vw_streams x !! stream_id (header f) = Some (e, q) ->
  ~ violates f e /\ has_flag SYN f = false.
Proof.
  intros (fx & fy & [_ _ _ Hs]) Hf Hx. destruct (paired_known _ _ _ _ _ _ _ (Hs _) Hx) as (He & e1 & _ & Hl).
  rewrite outgoing_head in Hl by done. destruct (linked_sides _ _ _ _ _ _ Hl) as (_ & _ & Hv & _).
  specialize (Hv _ _ eq_refl). split; [done |]. destruct (has_flag SYN f) eqn:Hsyn; [| done]. destruct Hv. by left.
Qed.

Lemma fresh_violates f sh sh' : fresh sh -> fresh sh' ->
  violates f (mkEnd sh' Unborn FlagAck [] []) -> violates f (mkEnd sh Unborn FlagAck [] []).
Proof.
  intros (_ & _ & F3 & F4 & _) (_ & _ & G3 & G4 & _). unfold violates. simpl. rewrite F3, F4, G3, G4. done.
Qed.

Lemma incoming_unknown x y f :
  incoming x y f -> stream_frame f -> vw_streams x !! stream_id (header f) = None -> has_flag SYN f = true ->
  has_flag RST f = false /\ has_flag ACK f = false /\ is_outbound (vw_mode x) (stream_id (header f)) = false /\
  forall sh, fresh sh -> ~ violates f (mkEnd sh Unborn FlagAck [] []).
Proof.
  intros (fx & fy & [_ _ _ Hs]) Hf Hx Hsyn. specialize (Hs (stream_id (header f))).
  apply paired_unknown in Hs as (e & e1 & (sh0 & Hfr & ->) & _ & Hl); [| done | by rewrite outgoing_head].
  rewrite outgoing_head in Hl by done. destruct (linked_sides _ _ _ _ _ _ Hl) as (_ & _ & Hv & _ & Hmsg).
  apply Forall_cons_1 in Hmsg as [(_ & _ & Hack) _]. apply linked_ok in Hl. unfold oriented in Hl.
  destruct (is_outbound _ _); [by apply lo_here in Hl |]. apply lo_born in Hl. unfold born_with in Hl. simpl in Hl.
  destruct Hl as (_ & _ & _ & [[_ Hb] | (_ & g & rest & [= <- _] & _ & Hr & _)]).
  - apply Forall_cons_1 in Hb as [(Hn & _) _]. by rewrite Hn in Hsyn.
  - split_and!; [done | by apply Hack | done |]. intros sh Hsh Hvi. apply (Hv _ _ eq_refl). by eapply fresh_violates.
Qed.

(** The two directions, once the frame has been read. *)
Lemma half_got x y fx f fy x' :
  half x y fx (f :: fy) -> stream_frame f -> vw_sent x' = vw_sent x -> vw_pend x' = vw_pend x -> vw_asked x' = vw_asked x ->
  vw_mode x' = vw_mode x -> (forall id, is_Some (vw_streams x' !! id) -> is_outbound (vw_mode x) id = true -> id < vw_next x') ->
  half x' y fx fy.
Proof.
  intros [Hw Hc Hpd Hn Hx] Hf E1 E2 E3 E4 Hx'. split; rewrite ?E1, ?E2, ?E3, ?E4; try done.
  rewrite <- Hn. rewrite <- (app_nil_l fy) at 1. change (f :: fy) with ([f] ++ fy).
  by rewrite !nonces_app, nonces_stream.
Qed.

Lemma half_given x y fx f fy x' :
  half y x (f :: fy) fx -> stream_frame f -> vw_got x' = vw_got x ++ [f] -> vw_pong x' = vw_pong x -> half y x' fy fx.
Proof.
  intros [Hw Hc Hpd Hn Hx] Hf E1 E2. split; rewrite ?E1, ?E2; try done.
  - by rewrite Hw, <- app_assoc.
  - rewrite <- Hn. change (f :: fy) with ([f] ++ fy). by rewrite (nonces_app _ [f]), nonces_stream.
Qed.

Lemma joined_hear x y f e q e' :
  incoming x y f -> stream_frame f -> vw_streams x !! stream_id (header f) = Some (e, q) -> hear f e e' ->
  joined (with_got f (with_streams (<[stream_id (header f) := (e', q)]> (vw_streams x)) x)) y.
Proof.
  intros (fx & fy & [Hm Hh Ht Hs]) Hf Hx He. exists fx, fy. split; [done | | by eapply half_given |].
  { eapply half_got; [done.. |]. simpl. intros id Hi. apply Hh. by eapply insert_known. }
  intros j. destruct (decide (j = stream_id (header f))) as [-> | Hj].
  - destruct (paired_known _ _ _ _ _ _ _ (Hs _) Hx) as (Hst & e1 & He1 & Hl).
    eapply (paired_moved x y _ _ _ _ e' e1); [done | by simpl; rewrite lookup_insert_eq | | done |].
    { destruct He as [| sh' Hd | sh' Hd]; [done | | done]. simpl. by destruct (_ && _). }
    rewrite outgoing_head in Hl by done. apply (linked_hears _ _ _ _ e') in Hl; [| done].
    replace (outgoing _ fx _) with (outgoing x fx (stream_id (header f))); [done |].
    unfold outgoing, waiting_in. simpl. by rewrite lookup_insert_eq, Hx.
  - apply (paired_same x y fx (f :: fy)); try done; [by apply lookup_insert_ne | | ].
    + apply (outgoing_other x _ fx j). by apply lookup_insert_ne.
    + symmetry. apply outgoing_tail. intros [_ ?]. congruence.
Qed.

Lemma joined_ignore x y f :
  incoming x y f -> stream_frame f -> vw_streams x !! stream_id (header f) = None -> has_flag SYN f = false ->
  joined (with_got f x) y.
Proof.
  intros (fx & fy & [Hm Hh Ht Hs]) Hf Hx Hsyn. exists fx, fy. split; [done | | by eapply half_given |].
  { eapply half_got; [done.. |]. apply Hh. }
  intros j. destruct (decide (j = stream_id (header f))) as [-> | Hj].
  - specialize (Hs (stream_id (header f))).
    apply paired_unknown in Hs as (e & e1 & Hun & He1 & Hl); [| done | by rewrite outgoing_head].
    rewrite outgoing_head in Hl by done. right. exists e, e1. unfold end_of at 1. simpl. rewrite Hx. split_and!; [done.. |].
    eapply linked_hears; [exact Hl |]. apply hear_dropped. destruct Hun as (sh & _ & ->). unfold dropped. simpl. by rewrite Hsyn.
  - apply (paired_same x y fx (f :: fy)); try done. symmetry. apply outgoing_tail. intros [_ ?]. congruence.
Qed.

Lemma joined_learn x y f e' :
  incoming x y f -> stream_frame f -> vw_streams x !! stream_id (header f) = None -> has_flag SYN f = true ->
  en_status e' <> Unborn -> (forall sh, fresh sh -> hear f (mkEnd sh Unborn FlagAck [] []) e') ->
  joined (with_got f (with_streams (<[stream_id (header f) := (e', [])]> (vw_streams x)) x)) y.
Proof.
  intros Hin Hf Hx Hsyn Hst He. destruct (incoming_unknown _ _ _ Hin Hf Hx Hsyn) as (_ & _ & Hout & _).
  destruct Hin as (fx & fy & [Hm Hh Ht Hs]). exists fx, fy. split; [done | | by eapply half_given |].
  { eapply half_got; [done.. |]. simpl. intros id [c [[<- _] | [_ Hc]]%lookup_insert_Some] Ho; [congruence |].
    apply Hh; [by exists c | done]. }
  intros j. destruct (decide (j = stream_id (header f))) as [-> | Hj].
  - specialize (Hs (stream_id (header f))).
    apply paired_unknown in Hs as (e & e1 & (sh & Hfr & ->) & He1 & Hl); [| done | by rewrite outgoing_head].
    rewrite outgoing_head in Hl by done.
    eapply (paired_moved x y _ _ _ _ e' e1); [done | by simpl; rewrite lookup_insert_eq | done | done |].
    apply (linked_hears _ _ _ _ e') in Hl; [| by apply He].
    replace (outgoing _ fx _) with (outgoing x fx (stream_id (header f))); [done |].
    unfold outgoing, waiting_in. simpl. by rewrite lookup_insert_eq, Hx.
  - apply (paired_same x y fx (f :: fy)); try done; [by apply lookup_insert_ne | | ].
    + apply (outgoing_other x _ fx j). by apply lookup_insert_ne.
    + symmetry. apply outgoing_tail. intros [_ ?]. congruence.
Qed.

(** A ping is to be answered, and an answer was asked for. *)
Lemma control_stream n f : f = asking n \/ f = answering n -> forall id, ~ (stream_frame f /\ stream_id (header f) = id).
Proof. intros Hf id [Hs _]. by destruct Hf as [-> | ->]. Qed.

Lemma paired_control x y fx n f fy x' :
  f = asking n \/ f = answering n -> (forall id, paired x y fx (f :: fy) id) -> vw_mode x' = vw_mode x ->
  vw_streams x' = vw_streams x -> vw_pend x' = vw_pend x -> forall id, paired x' y fx fy id.
Proof.
  intros Hf Hs Hm Hst Hp id. apply (paired_same x y fx (f :: fy)); try done; [by rewrite Hst | |].
  - unfold outgoing, waiting_in. by rewrite Hp, Hst.
  - symmetry. apply outgoing_tail. by eapply control_stream.
Qed.

Lemma joined_asked x y n :
  incoming x y (asking n) -> vw_pong x = None -> joined (with_got (asking n) (with_pong (Some n) x)) y.
Proof.
  intros (fx & fy & [Hm [Hw Hc Hpd Hn Hx] [Hw' Hc' Hpd' Hn' Hx'] Hs]) Hp. exists fx, fy. split; [done | by split | |].
  - split; try done; simpl.
    + by rewrite Hw', <- app_assoc.
    + rewrite <- Hn', Hp. simpl. destruct (nonces false fy) as [|k l] eqn:E; [done |].
      change (asking n :: fy) with ([asking n] ++ fy) in Hn'. rewrite nonces_app, E in Hn'.
      by destruct (vw_asked y).
  - eapply paired_control; [by left | done..].
Qed.

Lemma joined_answered x y n :
  incoming x y (answering n) -> vw_asked x = Some n /\ joined (with_got (answering n) (with_asked None x)) y.
Proof.
  intros (fx & fy & [Hm [Hw Hc Hpd Hn Hx] [Hw' Hc' Hpd' Hn' Hx'] Hs]).
  change (answering n :: fy) with ([answering n] ++ fy) in Hn. rewrite (nonces_app _ [answering n]) in Hn.
  change (nonces true [answering n]) with [n] in Hn.
  assert (Hnil : vw_asked x = Some n /\ nonces false fx = [] /\ vw_pong y = None /\ nonces true fy = []).
  { destruct (nonces false fx) as [|k l]; simpl in Hn.
    - destruct (vw_pong y) as [k|]; simpl in Hn.
      + destruct (vw_asked x) as [k'|]; simpl in Hn; [| done]. injection Hn as _ Hn. done.
      + destruct (vw_asked x) as [k'|]; simpl in Hn; [| done]. by injection Hn as -> ->.
    - destruct (vw_asked x) as [k'|]; simpl in Hn; [| done]. injection Hn as _ Hn.
      destruct l; [| done]. by destruct (vw_pong y). }
  destruct Hnil as (Ha & N1 & N2 & N3). split; [done |]. exists fx, fy. split; [done | | |].
  - split; try done; simpl. by rewrite N1, N2, N3.
  - split; try done; simpl. by rewrite Hw', <- app_assoc.
  - eapply paired_control; [by right | done..].
Qed.

(** *** New streams *)

Lemma next_unknown x y : joined x y -> is_outbound (vw_mode x) (vw_next x) = true -> vw_streams x !! vw_next x = None.
Proof.
  intros (fx & fy & [_ Hh _ _]) Ho. destruct (vw_streams x !! vw_next x) eqn:E; [| done].
  pose proof (ha_next _ _ _ _ Hh (vw_next x) ltac:(by rewrite E) Ho). lia.
Qed.

Lemma joined_open x y sh :
  joined x y -> is_outbound (vw_mode x) (vw_next x) = true -> fresh sh ->
  joined (with_next (vw_next x + 2)
    (with_streams (<[vw_next x := (mkEnd sh Known FlagSyn [] [], [])]> (vw_streams x)) x)) y.
Proof.
  intros Hj Ho Hfr. pose proof (next_unknown _ _ Hj Ho) as Hx. destruct Hj as (fx & fy & [Hm Hh Ht Hs]).
  exists fx, fy. split; [done | | by destruct Ht; split |].
  { destruct Hh as [? ? ? ? Hn]. split; try done. simpl.
    intros id [c [[<- _] | [_ Hc]]%lookup_insert_Some] Hid; [lia |]. specialize (Hn id ltac:(by exists c) Hid). lia. }
  intros j. destruct (decide (j = vw_next x)) as [-> | Hj].
  - destruct (Hs (vw_next x)) as [(_ & Hy & Ox & Oy) | (e & e' & He & _ & Hl)].
    + eapply (paired_moved x y _ _ _ _ _ (mkEnd sh Unborn FlagAck [] [])); [done | by simpl; rewrite lookup_insert_eq | done | |].
      { unfold end_of. rewrite Hy. by exists sh. }
      rewrite Oy. replace (outgoing _ fx _) with (@nil (Frame unit)).
      { unfold oriented. rewrite Ho. eexists. split; [| apply rtc_refl]. by exists sh, sh. }
      symmetry. etrans; [| exact Ox]. unfold outgoing, waiting_in. simpl. by rewrite lookup_insert_eq, Hx.
    + unfold end_of in He. rewrite Hx in He. destruct He as (sh0 & _ & ->). apply linked_ok in Hl.
      unfold oriented in Hl. rewrite Ho in Hl. by apply lo_here in Hl.
  - apply (paired_same x y fx fy); try done; [by apply lookup_insert_ne |].
    apply (outgoing_other x _ fx j). by apply lookup_insert_ne.
Qed.

(** Two new connections. *)
Definition view_new (m : Mode) : View := mkView m (match m with Client => 1 | Server => 2 end) ∅ [] [] None None None.

Lemma joined_new m : joined (view_new m) (view_new (peer m)).
Proof.
  exists [], []. split; [done | | |].
  - split; try done. by intros id [c Hc].
  - split; try done. by intros id [c Hc].
  - intros id. left. by split_and!.
Qed.

(** ** What programs have done *)

Definition wrote_at (v : View) (id : Z) : list byte := default [] ((fun p => en_wrote p.1) <$> vw_streams v !! id).
Definition took_at (v : View) (id : Z) : list byte := default [] ((fun p => en_took p.1) <$> vw_streams v !! id).

(** What has arrived at an end, taken or not. *)
Definition had_at (v : View) (id : Z) : list byte :=
  default [] ((fun p => en_took p.1 ++ unread (en_sh p.1)) <$> vw_streams v !! id).

(** What has arrived here is a beginning of what has been written there. *)
Lemma joined_had x y id : joined x y -> had_at x id `prefix_of` wrote_at y id.
Proof.
  intros (fx & fy & [_ _ _ Hs]). unfold had_at, wrote_at.
  destruct (vw_streams x !! id) as [[e q]|] eqn:Hx; simpl; [| apply prefix_nil].
  destruct (paired_known _ _ _ _ _ _ _ (Hs id) Hx) as (_ & e' & He' & Hl).
  destruct (linked_sides _ _ _ _ _ _ Hl) as (_ & Hd & _). pose proof (do_prefix _ _ _ _ Hd) as Hp.
  unfold end_of in He'. destruct (vw_streams y !! id) as [[e0 q0]|]; simpl; [by destruct He' as [-> _] |].
  by destruct He' as (sh & _ & ->).
Qed.

Lemma took_had v id : took_at v id `prefix_of` had_at v id.
Proof. unfold took_at, had_at. destruct (vw_streams v !! id); simpl; [by apply prefix_app_r | done]. Qed.

(** At the end of a stream everything has been taken or can be. *)
Lemma joined_complete x y id e q :
  joined x y -> vw_streams x !! id = Some (e, q) -> en_status e <> Dropped -> can_read (sh_state (en_sh e)) = false ->
  wrote_at y id = en_took e ++ unread (en_sh e).
Proof.
  intros (fx & fy & [_ _ _ Hs]) Hx Hst Hcr.
  destruct (paired_known _ _ _ _ _ _ _ (Hs id) Hx) as (_ & e' & He' & Hl).
  destruct (linked_sides _ _ _ _ _ _ Hl) as (_ & Hd & _).
  pose proof (do_bytes _ _ _ _ Hd Hst) as Hb. rewrite (do_eof _ _ _ _ Hd Hst Hcr), app_nil_r in Hb.
  rewrite <- Hb. unfold wrote_at, end_of in *. destruct (vw_streams y !! id) as [[e0 q0]|]; simpl.
  - by destruct He' as [-> _].
  - by destruct He' as (sh & _ & ->).
Qed.
