(* ===== verification/Forward.v ===== *)
(** * From the channels to the wire

    What [Active::poll] does with the commands of the streams and with its own frames, as a sequence of
    events: every command it takes is put on the wire, once, under the identifier of its stream, in the
    order in which it was taken. *)
From Stdlib Require Import ZArith Lia Strings.Byte.
From stdpp Require Import base option list gmap numbers.
From S2P Require Import Prelude.
From S2P Require Import Header.
From S2P Require Import Frame.
From S2P Require Import Config.
From S2P Require Import Command.
From S2P Require Import Rtt.
From S2P Require Import Shared.
From S2P Require Import Heap.
From S2P Require Import Channel.
From S2P Require Import TaggedStream.
From S2P Require Import StreamHandle.
From S2P Require Import Link.
From S2P Require Import FrameIo.
From S2P Require Import FrameIoSpec.
From S2P Require Import Connection.
From S2P Require Import ConnInvariant.
From S2P Require Import ConnSteps.
From S2P Require Import ConnHandlers.
From S2P Require Import ConnLoop.

(** ** Channels are queues *)

(** What is in a channel, and which channels there are. A receiver yields the front of its queue, and
    nothing that the connection does changes another one. *)
Class FifoLaws `{Mpsc} : Type := {
  queue : Receiver -> Net -> list StreamCommand;
  known : Receiver -> Net -> Prop;
  fifo_channel_law : forall k n, let '((_, r), n') := mpsc_channel k n in
    ~ known r n /\ forall r', known r' n -> known r' n' /\ queue r' n' = queue r' n;
  fifo_clone_law : forall c n r, known r n -> known r (sender_clone c n).2 /\ queue r (sender_clone c n).2 = queue r n;
  fifo_drop_law : forall c n r, known r n -> known r (sender_drop c n) /\ queue r (sender_drop c n) = queue r n;
  fifo_next_law : forall r cx n, let '(p, n') := receiver_poll_next r cx n in
    (forall r', known r' n -> known r' n' /\ (r' <> r -> queue r' n' = queue r' n)) /\
    match p with
    | Ready (Some c) => queue r n = c :: queue r n'
    | _ => queue r n' = queue r n
    end;
  fifo_end_law : forall r cx n, (receiver_poll_next r cx n).1 = Ready None -> queue r n = [];
}.

(** Polling a [SelectAll] polls members until one of them yields an item, which is then the result:
    what relates the states around each poll without an item relates those around all of them. *)
Class SelectAllTrace `{SelectAllLaws} : Prop :=
  select_all_trace_law : forall S N Item (f : S -> N -> poll (option Item) * S * N)
      (P : S -> Prop) (R : N -> N -> Prop) (Y : N -> Item -> N -> Prop),
    (forall n, R n n) -> (forall n1 n2 n3, R n1 n2 -> R n2 n3 -> R n1 n3) ->
    (forall s n, P s -> let '(r, s', n') := f s n in
       P s' /\ match r with Ready (Some a) => Y n a n' | _ => R n n' end) ->
    forall q n, select_all_all P q ->
      let '(p, q', n') := select_all_poll_next f q n in
      select_all_all P q' /\
      match p with Ready (Some a) => exists n1, R n n1 /\ Y n1 a n' | _ => R n n' end.

(** A socket that can be written to: whatever a connection that is open does with it, it never reports
    an error when it is asked for room. *)
Section writable.
Context `{FrameSocketWire}.

Record writes_on (P : FSock -> Prop) : Prop := {
  on_ready : forall cx s r s', P s -> sock_ok s -> sock_poll_ready cx s = Ret (r, s') ->
    P s' /\ forall e, r <> Ready (Err e);
  on_send : forall f s r s', P s -> sock_ok s -> sock_start_send f s = Ret (r, s') -> P s';
  on_flush : forall cx s r s', P s -> sock_ok s -> sock_poll_flush cx s = Ret (r, s') -> P s';
  on_next : forall cx s r s', P s -> sock_ok s -> sock_poll_next cx s = Ret (r, s') -> P s';
}.

Definition writable (s : FSock) : Prop := exists P, P s /\ writes_on P.

Lemma writable_ready_law cx s r s' :
  sock_ok s -> writable s -> sock_poll_ready cx s = Ret (r, s') -> writable s' /\ forall e, r <> Ready (Err e).
Proof. intros Hok (P & HP & HW) Hs. destruct (on_ready _ HW _ _ _ _ HP Hok Hs). split; [by exists P | done]. Qed.
Lemma writable_send_law f s r s' : sock_ok s -> writable s -> sock_start_send f s = Ret (r, s') -> writable s'.
Proof. intros Hok (P & HP & HW) Hs. exists P. split; [by eapply (on_send _ HW) | done]. Qed.
Lemma writable_flush_law cx s r s' : sock_ok s -> writable s -> sock_poll_flush cx s = Ret (r, s') -> writable s'.
Proof. intros Hok (P & HP & HW) Hs. exists P. split; [by eapply (on_flush _ HW) | done]. Qed.
Lemma writable_next_law cx s r s' : sock_ok s -> writable s -> sock_poll_next cx s = Ret (r, s') -> writable s'.
Proof. intros Hok (P & HP & HW) Hs. exists P. split; [by eapply (on_next _ HW) | done]. Qed.
End writable.

Section forward.
Context `{Arch, Mpsc, SelectAllOps, FrameSocket, MapOrder}.
Context `{!MpscLaws, !SelectAllLaws, !FrameSocketLaws, !FrameSocketWire}.
Context `{!FifoLaws, !SelectAllTrace}.
Context `{EqDecision Receiver}.
Hypothesis usize_wide : u32_max + u32_max <= usize_max.

(** ** Events *)

(** A command has been taken from a receiver, for the stream of that identifier; the end of a receiver
    has asked for a frame. *)
Inductive event : Type :=
| Took (r : Receiver) (id : Z) (c : StreamCommand)
| Shut (r : Receiver) (id : Z) (f : Frame unit).

Definition event_frame (e : event) : Frame unit :=
  match e with Took _ id c => command_frame id c | Shut _ _ f => f end.

(** The streams that have been shut. *)
Definition shut_ids (ev : list event) : list Z :=
  omap (fun e => match e with Shut _ id _ => Some id | Took _ _ _ => None end) ev.

Lemma shut_ids_app ev ev' : shut_ids (ev ++ ev') = shut_ids ev ++ shut_ids ev'.
Proof. apply omap_app. Qed.

(** The two frames a dropped handle may ask for: no data, and the stream is reset or ended. *)
Definition shut_frame (id : Z) (f : Frame unit) : Prop :=
  f = frame_erase (frame_new (header_rst (header_data id 0))) \/
  f = frame_erase (frame_new (header_fin (header_data id 0))).

Lemma drop_frame_shut id st f : drop_frame id st = Some f -> shut_frame id f.
Proof. destruct st; intros [= <-]; [by left | by right]. Qed.

(** The commands taken from [r]. *)
Definition taken (r : Receiver) (ev : list event) : list StreamCommand :=
  omap (fun e => match e with Took r' _ c => if decide (r' = r) then Some c else None | Shut _ _ _ => None end) ev.

Lemma taken_app r ev ev' : taken r (ev ++ ev') = taken r ev ++ taken r ev'.
Proof. apply omap_app. Qed.

(** A frame of the connection itself. *)
Definition control (f : Frame unit) : Prop := tag (header f) = TagPing \/ tag (header f) = TagGoAway.

(** What is sent: a frame of the connection itself, or the pending frame of an event. *)
Definition sent : Type := Frame unit + Frame unit.
Definition sent_frame (x : sent) : Frame unit := match x with inl f => f | inr f => f end.
Definition sent_event (x : sent) : option (Frame unit) := match x with inl _ => None | inr f => Some f end.
Definition sent_ok (x : sent) : Prop := match x with inl f => control f | inr _ => True end.

(** The receivers of the connection, and the identifiers of their streams. *)
Context (own : Receiver -> Prop) (name : Receiver -> Z).

(** An event concerns one of these receivers, under the identifier of its stream. *)
Definition event_ok (e : event) : Prop :=
  match e with
  | Took r id _ => own r /\ id = name r
  | Shut r id f => own r /\ id = name r /\ shut_frame id f
  end.

Definition pending (s : AS) : list (Frame unit) := option_list (ac_pending_write_frame s.1).

(** From [s] to [s'] the events [ev] have happened: what has been sent and what is pending are what was
    pending and the frames of the events, in order, between frames of the connection itself; each
    queue has lost from its front what was taken from it; and a stream is shut once, that was open,
    after all that its channel held. *)
Record forwards (ev : list event) (s s' : AS) : Prop := {
  fw_out : exists out : list sent,
    sock_wire (ac_socket s'.1) = sock_wire (ac_socket s.1) ++ wires (map sent_frame out) /\
    omap sent_event out ++ pending s' = pending s ++ map event_frame ev /\ Forall sent_ok out;
  fw_queue : forall r, known r (net s.2) ->
    known r (net s'.2) /\ queue r (net s.2) = taken r ev ++ queue r (net s'.2);
  fw_events : Forall event_ok ev;
  fw_last : forall ev1 r id f ev2, ev = ev1 ++ Shut r id f :: ev2 -> queue r (net s.2) = taken r ev1;
  fw_once : NoDup (shut_ids ev);
  fw_open : forall id, id ∈ shut_ids ev -> is_Some (ac_streams s.1 !! id);
}.

(** What holds of the connection in between. *)
Definition named (t : TaggedStream Z Receiver) : Prop := own (ts_inner t) /\ ts_key t = name (ts_inner t).

Record tidy (s : AS) : Prop := {
  td_named : select_all_all named (ac_receivers s.1);
  td_read : forall f, ac_pending_read_frame s.1 = Some f -> control f;
  td_writable : writable (ac_socket s.1);
  td_known : forall r, own r -> known r (net s.2);
}.

(** ... and no stream has been opened; those that were shut are gone. *)
Record onward (ev : list event) (s s' : AS) : Prop := {
  ow_tidy : tidy s';
  ow_streams : forall id, is_Some (ac_streams s'.1 !! id) -> is_Some (ac_streams s.1 !! id) /\ id ∉ shut_ids ev;
}.

Definition carried (s s' : AS) : Prop := exists ev, forwards ev s s' /\ onward ev s s'.

Lemma forwards_nil s s' :
  sock_wire (ac_socket s'.1) = sock_wire (ac_socket s.1) -> pending s' = pending s ->
  (forall r, known r (net s.2) -> known r (net s'.2) /\ queue r (net s'.2) = queue r (net s.2)) ->
  forwards [] s s'.
Proof.
  intros Hw Hp Hq. split; [| | done | | constructor | by intros id Hid%elem_of_nil].
  - exists []. simpl. rewrite !app_nil_r. by split_and!.
  - intros r Hr. destruct (Hq r Hr) as [Hk Hqr]. split; [done | by rewrite Hqr].
  - intros ev1 r id f ev2 He. by destruct ev1.
Qed.

Lemma carried_nil s s' :
  tidy s' -> sock_wire (ac_socket s'.1) = sock_wire (ac_socket s.1) -> pending s' = pending s ->
  (forall r, known r (net s.2) -> known r (net s'.2) /\ queue r (net s'.2) = queue r (net s.2)) ->
  ac_streams s'.1 ⊆ ac_streams s.1 -> carried s s'.
Proof.
  intros Ht Hw Hp Hq Hs. exists []. split; [by apply forwards_nil |]. split; [done |].
  intros id [l Hid]. split; [exists l; by eapply lookup_weaken | apply not_elem_of_nil].
Qed.

Lemma carried_refl s : tidy s -> carried s s.
Proof. intros Ht. by apply carried_nil. Qed.

Lemma forwards_trans ev ev' s1 s2 s3 :
  tidy s1 -> forwards ev s1 s2 -> onward ev s1 s2 -> forwards ev' s2 s3 -> forwards (ev ++ ev') s1 s3.
Proof.
  intros Ht [(o1 & W1 & P1 & C1) Q1 E1 L1 N1 S1] [Ht2 On] [(o2 & W2 & P2 & C2) Q2 E2 L2 N2 S2]. split.
  - exists (o1 ++ o2). rewrite W2, W1, map_app, omap_app. unfold wires. rewrite map_app, concat_app, !app_assoc.
    split; [done |]. split; [| by apply Forall_app]. rewrite <- app_assoc, P2, app_assoc, P1.
    by rewrite map_app, app_assoc.
  - intros r Hr. destruct (Q1 r Hr) as [K1 A1], (Q2 r K1) as [K2 A2]. split; [done |].
    by rewrite A1, A2, taken_app, app_assoc.
  - by apply Forall_app.
  - assert (Hlater : forall k r id f ev2, ev' = k ++ Shut r id f :: ev2 -> queue r (net s1.2) = taken r (ev ++ k)).
    { intros k r id f ev2 He. pose proof E2 as Hk. rewrite He in Hk. apply Forall_app in Hk as [_ Hk].
      apply Forall_inv in Hk as [Hk _]. apply (td_known _ Ht) in Hk. destruct (Q1 r Hk) as [_ A1].
      by rewrite A1, taken_app, (L2 _ _ _ _ _ He). }
    intros ev1 r id f ev2 [(k & -> & He) | (k & -> & He)]%app_eq_inv; [| by eapply Hlater].
    destruct k as [|e k]; simpl in He.
    + rewrite app_nil_r in *. rewrite <- (app_nil_r ev1). by eapply (Hlater []).
    + injection He as <- ->. by eapply L1.
  - rewrite shut_ids_app. apply list.NoDup_app. split_and!; [done | | done]. intros id Hid Hid'.
    by apply S2, On in Hid' as [_ Hn].
  - intros id. rewrite shut_ids_app, elem_of_app. intros [Hid | Hid]; [by apply S1 | by apply S2, On in Hid as [? _]].
Qed.

Lemma carried_then s1 s2 s3 :
  tidy s1 -> carried s1 s2 -> (exists ev, forwards ev s2 s3) -> exists ev, forwards ev s1 s3.
Proof. intros Ht (ev & F1 & On) (ev' & F2). eexists. by eapply forwards_trans. Qed.

Lemma carried_trans s1 s2 s3 : tidy s1 -> carried s1 s2 -> carried s2 s3 -> carried s1 s3.
Proof.
  intros Ht (ev & F1 & O1) (ev' & F2 & O2). exists (ev ++ ev'). split; [by eapply forwards_trans |].
  split; [apply O2 |]. intros id Hid. apply O2 in Hid as [Hid N2]. apply O1 in Hid as [Hid N1].
  split; [done |]. rewrite shut_ids_app. by intros [? | ?]%elem_of_app.
Qed.

(** ** Handlers of frames *)

(** No known channel has changed. *)
Definition same_queues (w0 w : World) : Prop :=
  forall r, known r (net w0) -> known r (net w) /\ queue r (net w) = queue r (net w0).

Lemma same_mem w0 {A} (m : M Mem A) : preserves (same_queues w0) (on_mem m : M World A).
Proof. apply preserves_zoom. by intros m' w Hw. Qed.

Lemma same_clone w0 c : preserves (same_queues w0) (on_net (sender_clone c)).
Proof.
  intros w Hw. unfold post, on_net. simpl. pose proof (fun r => fifo_clone_law c (net w) r) as Hc.
  destruct (sender_clone c (net w)) as [d n']. intros r Hr. destruct (Hw r Hr) as [K1 Q1], (Hc r K1) as [K2 Q2].
  split; [done | simpl in *; by rewrite Q2].
Qed.

Lemma same_new w0 id credit cfg c :
  preserves (same_queues w0) (stream_new_inbound id cfg credit c) /\ preserves (same_queues w0) (stream_new_outbound id cfg c).
Proof.
  split; unfold stream_new_inbound, stream_new_outbound; walk ltac:(first [apply same_mem | apply same_clone]).
Qed.

Lemma same_drop w0 st : preserves (same_queues w0) (stream_drop st).
Proof.
  intros w Hw. unfold post, stream_drop. destruct (arc_drop _ _) as [[u m]| |]; [| done..].
  intros r Hr. simpl. destruct (Hw r Hr) as [K1 Q1], (fifo_drop_law (st_sender st) _ r K1) as [K2 Q2],
    (fifo_drop_law (st_window_update_sender st) _ r K2) as [K3 Q3].
  split; [done | by rewrite Q3, Q2].
Qed.

(** What a handler of a frame leaves as it was in [s0], even if it opens a stream. *)
Record aside (s0 s : AS) : Prop := {
  as_socket : ac_socket s.1 = ac_socket s0.1;
  as_write : ac_pending_write_frame s.1 = ac_pending_write_frame s0.1;
  as_queue : forall r, known r (net s0.2) -> known r (net s.2) /\ queue r (net s.2) = queue r (net s0.2);
}.

Section aside.
Context (s0 : AS).

Lemma aside_ac {A} (f : Active -> A) : preserves (aside s0) (ac f).
Proof. apply preserves_gets. Qed.
Lemma aside_mem {A} (m : M Mem A) : preserves (aside s0) (on_mem m).
Proof. apply preserves_zoom. by intros m' [a w] [? ? ?]. Qed.
Lemma aside_upd (f : Active -> Active) :
  (forall a, ac_socket (f a) = ac_socket a /\ ac_pending_write_frame (f a) = ac_pending_write_frame a) ->
  preserves (aside s0) (upd f).
Proof.
  intros Hf. apply preserves_modify. intros [a w] [F1 F2 F3]. destruct (Hf a) as (E1 & E2).
  split; simpl in *; by rewrite ?E1, ?E2.
Qed.
Lemma aside_world {A} (m : M World A) : (forall w0, preserves (same_queues w0) m) -> preserves (aside s0) (on_world m).
Proof.
  intros Hm [a w] [F1 F2 F3]. unfold post, on_world, zoom. simpl.
  specialize (Hm w w ltac:(done)). unfold post in Hm.
  destruct (m w) as [[x w']| |]; [| done..]. split; simpl in *; try done. intros r Hr.
  destruct (F3 r Hr) as [K1 Q1], (Hm r K1) as [K2 Q2]. split; [done | by rewrite Q2].
Qed.

(** A new channel is not one of those that were there. *)
Lemma aside_channel k : preserves (aside s0) (on_net (mpsc_channel k) : M AS (Sender * Receiver)).
Proof.
  intros [a w] [F1 F2 F3]. unfold post, on_net. simpl. pose proof (fifo_channel_law k (net w)) as Hc.
  destruct (mpsc_channel k (net w)) as [[c r] n']. destruct Hc as [_ Hq]. split; simpl in *; try done.
  intros r' Hr. destruct (F3 r' Hr) as [K1 Q1], (Hq r' K1) as [K2 Q2]. split; [done | by rewrite Q2].
Qed.

Ltac aside :=
  walk ltac:(first
    [ apply aside_ac | apply aside_mem | apply aside_upd; intros ?; done
    | apply aside_world; intros ?; first [apply same_new | apply same_drop]
    | apply aside_channel ]).

Lemma aside_new id credit : preserves (aside s0) (make_new_inbound_stream id credit).
Proof. unfold make_new_inbound_stream. aside. Qed.

Lemma aside_streams_insert id l : preserves (aside s0) (streams_insert id l).
Proof. unfold streams_insert, drop_arc. aside. Qed.

Lemma aside_streams_remove id : preserves (aside s0) (streams_remove id).
Proof. unfold streams_remove. aside. Qed.

Lemma aside_on_frame f : preserves (aside s0) (on_frame f).
Proof.
  unfold on_frame, on_data, on_window_update, on_ping, reset_stream, terminate, wake_both, drop_arc, contains_key,
    streams_len, is_valid_remote_id.
  walk ltac:(first [apply aside_new | apply aside_streams_insert | apply aside_streams_remove]).
  all: aside.
Qed.
End aside.

(** The answers that a frame asks for are frames of the connection itself. *)
Definition control_action (a : Action Stream) : Prop :=
  match a with
  | ActionPing f => control (frame_erase f)
  | ActionTerminate f => control (frame_erase f)
  | _ => True
  end.

Lemma pong_control id : yields control_action (on_mem (mem_handle_pong id) : M AS (Action Stream)).
Proof.
  intros [a w]. unfold post, on_mem, zoom, mem_handle_pong, mbind, M_bind, read_clock, gets, modify, lift. simpl.
  unfold handle_pong. destruct (rtt_state _); simpl; [| by right]. destruct (negb _); simpl; [by right |].
  by destruct (add_ _ _ _).
Qed.

Lemma yields_ok (m : M AS (Action Stream)) : yields control_action m ->
  yields (fun r : result (Action Stream) ConnectionError => forall a, r = Ok a -> control_action a) (a ← m; mret (Ok a)).
Proof. intros Hm. apply (yields_bind_of control_action); [done |]. intros a Ha. apply yields_ret. by intros a' [= <-]. Qed.

Ltac control :=
  walk ltac:(first [apply yields_ok | apply pong_control | apply yields_ret; first [exact I | by left | by right]]).

Lemma on_frame_control f : yields (fun r => forall a, r = Ok a -> control_action a) (on_frame f).
Proof.
  unfold on_frame, on_data, on_window_update, on_ping, reset_stream, terminate. control.
  all: apply yields_ret; intros ? ?; by simplify_eq.
Qed.

(** ** The parts of the loop *)

Context (cfg : Config).

(** What a part of the loop has done, if it has not ended in an error. *)
Definition flow_forwards (r : flow PollResult) (s s' : AS) : Prop :=
  match r with
  | Return (Ready (Ok _)) => exists ev, forwards ev s s'
  | Return (Ready (Err _)) => True
  | _ => carried s s'
  end.

Lemma carried_flow r s s' : carried s s' -> flow_forwards r s s'.
Proof. intros Hm. destruct r as [|[[st|e]|]|]; try done. destruct Hm as (ev & F & _). by exists ev. Qed.

Lemma flow_forwards_trans r s1 s2 s3 : tidy s1 -> carried s1 s2 -> flow_forwards r s2 s3 -> flow_forwards r s1 s3.
Proof.
  intros Ht Hm. destruct r as [|[[st|e]|]|]; simpl; try done; intros Hr;
    first [by eapply carried_trans | by eapply carried_then].
Qed.

Definition part_forwards (E : positive -> nat) (m : M AS (flow PollResult)) : Prop :=
  forall s, conn_ok cfg E s.1 s.2 -> tidy s -> post m (fun r s' => flow_forwards r s s') s.

Lemma post_on_sock {A} (m : M FSock A) (Q : A -> AS -> Prop) a w :
  (forall x s, m (ac_socket a) = Ret (x, s) -> Q x (set_socket s a, w)) -> post (on_sock m) Q (a, w).
Proof. intros HQ. unfold post, on_sock, zoom. simpl. destruct (m (ac_socket a)) as [[x s]| |] eqn:Hm; [by apply HQ | done..]. Qed.

(** A step of the socket that neither sends nor delivers a frame. *)
Lemma socket_moved a w s :
  tidy (a, w) -> writable s -> sock_wire s = sock_wire (ac_socket a) -> carried (a, w) (set_socket s a, w).
Proof. intros [T1 T2 T3 T4] Hs Hw. by apply carried_nil. Qed.

(** Sending a frame of the connection itself, or the pending one. *)
Lemma send_forwards s0 a w (x : sent) :
  tidy (a, w) -> sock_ok (ac_socket a) -> sock_idle (ac_socket a) -> frame_wf (sent_frame x) -> sent_ok x ->
  sock_wire (ac_socket a) = sock_wire (ac_socket s0.1) -> ac_streams a = ac_streams s0.1 -> net w = net s0.2 ->
  omap sent_event [x] ++ pending (a, w) = pending s0 ->
  post (send_and_continue (sent_frame x)) (fun r s' => flow_forwards r s0 s') (a, w).
Proof.
  intros [T1 T2 T3 T4] Hok Hidle Hf Hx Hw Hst Hn Hp. apply post_bind, post_on_sock. intros r s Hs.
  pose proof (writable_send_law _ _ _ _ Hok T3 Hs) as Hwr.
  destruct (wire_send_law _ _ _ _ Hok Hidle Hf Hs) as [-> Hws]. apply post_ret, carried_flow.
  assert (Hout : forwards [] s0 (set_socket s a, w)).
  { split; [| | done | | constructor | by intros id Hid%elem_of_nil].
    - exists [x]. simpl. rewrite Hws, Hw, wires_one. split; [done |]. split; [| by apply Forall_singleton].
      rewrite app_nil_r, <- Hp. reflexivity.
    - intros r Hr. simpl. rewrite Hn. split; [done |]. done.
    - intros ev1 r id f ev2 He. by destruct ev1. }
  exists []. split; [done |]. split; [by split |]. simpl. rewrite Hst. intros id Hid.
  split; [done | apply not_elem_of_nil].
Qed.

Lemma ping_control (s : AS) :
  post (on_mem mem_next_ping) (fun o s' => s'.1 = s.1 /\ net s'.2 = net s.2 /\
    forall f, o = Some f -> control (frame_erase f)) s.
Proof.
  destruct s as [a w]. unfold post, on_mem, zoom, mem_next_ping, mbind, M_bind, read_clock, gets, modify. simpl.
  unfold next_ping. destruct (rtt_state _); simpl; [done |]. destruct (_ <? _); simpl; [done |].
  split_and!; [done.. |]. intros f [= <-]. by left.
Qed.

Lemma poll_send_forwards E cx : part_forwards E (poll_send cx).
Proof.
  intros [a w] Hok Ht. apply post_bind, post_on_sock. intros r s Hs.
  assert (Hsock : sock_ok (ac_socket a)) by apply (co_sock _ _ _ _ Hok). pose proof (sock_ready_law cx _ Hsock) as Hready.
  unfold wp in Hready. rewrite Hs in Hready.
  destruct (wire_ready_law _ _ _ _ Hsock Hs) as [Hw Hidle].
  destruct (writable_ready_law _ _ _ _ Hsock (td_writable _ Ht) Hs) as [Hwr Hne].
  pose proof (socket_moved a w s Ht Hwr Hw) as Hfw.
  destruct r as [[[]|e]|]; [| by destruct (Hne e) | by apply post_ret].
  specialize (Hidle eq_refl). simpl. apply post_bind.
  eapply post_mono; [apply post_wp; [apply (mem_next_ping_ok cfg E); by apply conn_ok_socket | apply ping_control] |].
  simpl. intros o [a2 w2] [(-> & Hok2 & Hn & Ho) (_ & _ & Hc)].
  assert (Ht2 : tidy (set_socket s a, w2)) by (destruct Ht; split; simpl in *; by rewrite ?Hn).
  destruct o as [f|].
  { apply (send_forwards (a, w) _ _ (inl (frame_erase f))); try done.
    - simpl. apply frame_wf_erase, Ho.
    - simpl. by apply Hc. }
  apply post_bind. unfold take_pending. apply post_bind. unfold post at 1, ac, gets. simpl.
  destruct (ac_pending_read_frame a) as [f|] eqn:Hr.
  - apply post_bind. unfold post at 1, upd, modify. apply post_ret.
    apply (send_forwards (a, w) _ _ (inl f)); try done.
    + by destruct Ht2.
    + exact (co_read _ _ _ _ Hok _ Hr).
    + exact (td_read _ Ht _ Hr).
  - apply post_bind. unfold post at 1, ac, gets. apply post_bind. unfold post at 1, upd, modify. apply post_ret. simpl.
    destruct (ac_pending_write_frame a) as [f|] eqn:Hpw.
    + apply (send_forwards (a, w) _ _ (inr f)); try done.
      * by destruct Ht2.
      * exact (co_write _ _ _ _ Hok _ Hpw).
      * unfold pending. simpl. by rewrite Hpw.
    + apply post_ret. apply carried_nil; simpl; [by destruct Ht2 | done | | by rewrite Hn | done].
      unfold pending. simpl. by rewrite Hpw.
Qed.

Lemma poll_flush_forwards E cx : part_forwards E (poll_flush_socket cx).
Proof.
  intros [a w] Hok Ht. apply post_bind, post_on_sock. intros r s Hs. assert (Hsock : sock_ok (ac_socket a)) by apply (co_sock _ _ _ _ Hok).
  pose proof (socket_moved a w s Ht (writable_flush_law _ _ _ _ Hsock (td_writable _ Ht) Hs)
    (wire_flush_law _ _ _ _ Hsock Hs)) as Hfw.
  destruct r as [[[]|e]|]; apply post_ret; done.
Qed.

(** A poll of one member of the receivers. *)
Lemma member_polled cx (t : TaggedStream Z Receiver) n :
  named t ->
  let '(r, t', n') := tagged_poll_next (receiver_poll cx) t n in
  named t' /\
  match r with
  | Ready (Some (id, Some c)) => exists q, (own q /\ id = name q) /\
      (forall r', known r' n -> known r' n' /\ (r' <> q -> queue r' n' = queue r' n)) /\ queue q n = c :: queue q n'
  | Ready (Some (id, None)) => exists q, (own q /\ id = name q) /\ queue q n = [] /\
      forall r', known r' n -> known r' n' /\ queue r' n' = queue r' n
  | _ => forall r', known r' n -> known r' n' /\ queue r' n' = queue r' n
  end.
Proof.
  intros Ht. unfold tagged_poll_next, receiver_poll. destruct (ts_reported_none t); [done |].
  pose proof (fifo_next_law (ts_inner t) cx n) as Hl.
  pose proof (fifo_end_law (ts_inner t) cx n) as Hend.
  destruct (receiver_poll_next (ts_inner t) cx n) as [p n']. destruct Hl as [Hk Hq].
  assert (Hsame : queue (ts_inner t) n = queue (ts_inner t) n' ->
    forall r', known r' n -> known r' n' /\ queue r' n' = queue r' n).
  { intros He r' Hr'. destruct (Hk r' Hr') as [K Hne]. split; [done |].
    destruct (decide (r' = ts_inner t)) as [-> | Hd]; [by rewrite He | by apply Hne]. }
  destruct p as [[c|]|]; (split; [done |]); [| | by apply Hsame].
  - exists (ts_inner t). destruct Ht. by split_and!.
  - exists (ts_inner t). destruct Ht. split; [done |]. split; [by apply Hend |]. by apply Hsame.
Qed.

(** What taking an item from the channels changes: a command is gone from the front of one queue. *)
Definition item_taken (p : poll (option (Z * option StreamCommand))) (n n' : Net) : Prop :=
  (forall r, known r n -> known r n') /\
  match p with
  | Ready (Some (id, Some c)) => exists q, (own q /\ id = name q) /\
      forall r, known r n -> queue r n = (if decide (q = r) then [c] else []) ++ queue r n'
  | Ready (Some (id, None)) => exists q, (own q /\ id = name q) /\ (known q n -> queue q n = []) /\
      forall r, known r n -> queue r n' = queue r n
  | _ => forall r, known r n -> queue r n' = queue r n
  end.

Lemma receivers_taken cx rs n :
  select_all_all named rs ->
  let '(p, rs', n') := select_all_poll_next (tagged_poll_next (receiver_poll cx)) rs n in
  select_all_all named rs' /\ item_taken p n n'.
Proof.
  intros Hrs.
  pose proof (select_all_trace_law _ _ _ (tagged_poll_next (receiver_poll cx)) named
    (fun n n' => forall r, known r n -> known r n' /\ queue r n' = queue r n)
    (fun n item n' => item_taken (Ready (Some item)) n n')) as Hlaw.
  specialize (Hlaw ltac:(done)).
  specialize (Hlaw ltac:(intros n1 n2 n3 R1 R2 r Hr; destruct (R1 r Hr) as [K1 Q1], (R2 r K1) as [K2 Q2];
    split; [done | by rewrite Q2])).
  assert (Hmem : forall (t : TaggedStream Z Receiver) n, named t ->
    let '(r, t', n') := tagged_poll_next (receiver_poll cx) t n in named t' /\
    match r with Ready (Some item) => item_taken (Ready (Some item)) n n'
    | _ => forall r, known r n -> known r n' /\ queue r n' = queue r n end).
  { clear n Hrs Hlaw. intros t n Hn. pose proof (member_polled cx t n Hn) as Hp.
    destruct (tagged_poll_next (receiver_poll cx) t n) as [[r t'] n']. destruct Hp as [Hn' Hp]. split; [done |].
    destruct r as [[[id [c|]]|]|]; [| | exact Hp..].
    - destruct Hp as (q & Hid & Hk & Hq). split; [intros r Hr; by apply Hk |]. exists q. split; [done |].
      intros r Hr. case_decide as Hd; [by subst | symmetry; apply Hk; congruence].
    - destruct Hp as (q & Hid & Hq & Hk). split; [intros r Hr; by apply Hk |]. exists q. split; [done |].
      split; [done |]. intros r Hr. by apply Hk. }
  specialize (Hlaw Hmem rs n Hrs). destruct (select_all_poll_next _ _ _) as [[p rs'] n']. destruct Hlaw as [Hall Hp].
  split; [exact Hall |].
  destruct p as [[[id [c|]]|]|]; [| | split; intros r Hr; by apply Hp..]; destruct Hp as (n1 & R1 & Hk & q & Hid & Hq).
  - split; [intros r Hr; by apply Hk, R1 |].
    exists q. split; [done |]. intros r Hr. destruct (R1 r Hr) as [K1 Q1]. by rewrite <- Q1, <- Hq.
  - destruct Hq as [Hq Hs]. split; [intros r Hr; by apply Hk, R1 |]. exists q. split; [done |]. split.
    + intros Kq. destruct (R1 q Kq) as [K1 Q1]. rewrite <- Q1. by apply Hq.
    + intros r Hr. destruct (R1 r Hr) as [K1 Q1]. by rewrite Hs, Q1.
Qed.

Lemma poll_receivers_taken cx a w :
  tidy (a, w) ->
  post (poll_receivers cx) (fun p '(a', w') =>
    tidy (a', w') /\ ac_pending_write_frame a' = ac_pending_write_frame a /\
    item_taken p (net w) (net w')) (a, w).
Proof.
  intros [T1 T2 T3 T4]. unfold post, poll_receivers. cbn [fst snd].
  pose proof (receivers_taken cx (ac_receivers a) (net w) T1) as Hr.
  destruct (select_all_poll_next _ _ _) as [[p rs] n]. destruct Hr as [Hall Hitem].
  split; [| done]. split; simpl in *; try done. intros r Hr. by apply Hitem, T4.
Qed.

(** What an event adds to the frames that are pending. *)
Lemma event_forwards a w a' w' (e : event) :
  sock_wire (ac_socket a') = sock_wire (ac_socket a) -> ac_pending_write_frame a = None ->
  ac_pending_write_frame a' = Some (event_frame e) -> event_ok e ->
  (forall r, known r (net w) -> known r (net w') /\ queue r (net w) = taken r [e] ++ queue r (net w')) ->
  (forall r id f, e = Shut r id f -> queue r (net w) = [] /\ is_Some (ac_streams a !! id)) ->
  forwards [e] (a, w) (a', w').
Proof.
  intros Hw Hp Hp' He Hq Hsh. split; [| done | by apply Forall_singleton | | |].
  - exists []. unfold pending. simpl. rewrite Hw, Hp, Hp', app_nil_r. by split_and!.
  - intros ev1 r id f ev2 Hev. destruct ev1 as [|e1 ev1]; [| by destruct ev1].
    injection Hev as -> _. by destruct (Hsh r id f eq_refl).
  - destruct e; [constructor | apply NoDup_singleton].
  - intros id Hid. destruct e as [|r i f]; [by apply elem_of_nil in Hid |]. apply list_elem_of_singleton in Hid as ->.
    by destruct (Hsh r i f eq_refl).
Qed.

Lemma poll_commands_forwards E cx : part_forwards E (poll_commands cx).
Proof.
  intros [a w] Hok Ht. unfold poll_commands. apply post_bind. unfold post at 1, ac, gets. simpl.
  destruct (ac_pending_write_frame a) as [f|] eqn:Hpw; [by apply post_ret, carried_refl |].
  apply post_bind. eapply post_mono; [apply post_wp; [by apply (poll_receivers_ok cfg E) | by apply poll_receivers_taken] |].
  intros p [a1 w1] [(Hok1 & Hm & Hs & Hst & _ & _ & Hitem & _) (Ht1 & Hp & Hk & Hq)]. rewrite Hpw in Hp.
  assert (Hnone : (forall r, known r (net w) -> queue r (net w1) = queue r (net w)) -> carried (a, w) (a1, w1)).
  { intros Hsame. apply carried_nil; simpl; [done | by rewrite Hs | unfold pending; simpl; by rewrite Hpw, Hp | | by rewrite Hst].
    intros r Hr. split; [by apply Hk | by apply Hsame]. }
  destruct p as [[[id [c|]]|]|].
  - destruct Hq as (q & Hid & Hq). apply post_bind. unfold post at 1, upd, modify. apply post_ret.
    exists [Took q id c]. split.
    + apply event_forwards; simpl; try done; [by rewrite Hs |].
      intros r Hr. split; [by apply Hk |]. rewrite (Hq r Hr). unfold taken. simpl. by case_decide.
    + split; [by destruct Ht1 |]. simpl. rewrite Hst. intros i Hi. split; [done | apply not_elem_of_nil].
  - destruct Hq as (q & Hid & Hend & Hq). destruct (Hitem id None eq_refl) as [Hrange _].
    apply post_bind. eapply post_mono; [by apply wp_post, (on_drop_stream_ok cfg E) |].
    intros o [a2 w2] (_ & (Ha2 & Hn2 & _) & Ho). specialize (Hnone Hq). subst a2.
    assert (Ht2 : tidy (set_streams (delete id (ac_streams a1)) a1, w2)).
    { destruct Ht1 as [T1 T2 T3 T4]. split; simpl in *; [done.. |]. intros r Hr. rewrite Hn2. by apply T4. }
    assert (Hk2 : forall r, known r (net w) -> known r (net w2) /\ queue r (net w2) = queue r (net w)).
    { intros r Hr. rewrite Hn2. split; [by apply Hk | by apply Hq]. }
    apply post_bind. destruct o as [f|].
    + unfold post at 1, upd, modify. apply post_ret. exists [Shut q id f]. rewrite Hst in Ho.
      destruct (ac_streams a !! id) as [l|] eqn:Hl; [| done]. split.
      * apply event_forwards; simpl; try done; [by rewrite Hs | | |].
        -- destruct Hid as [? ?]. split_and!; try done. destruct (cells (mem w1) !! l); [| done].
           by eapply drop_frame_shut.
        -- intros r Hr. destruct (Hk2 r Hr) as [K2 Q2]. split; [done |]. by rewrite Q2.
        -- intros r i g [= <- <- <-]. split; [apply Hend, (td_known _ Ht), Hid | by rewrite Hl].
      * split; [by destruct Ht2 |]. simpl. rewrite Hst. intros i Hi. apply lookup_delete_is_Some in Hi as [Hne Hi].
        split; [done |]. intros He. apply list_elem_of_singleton in He. congruence.
    + apply post_ret, post_ret. apply carried_nil; simpl; [done | by rewrite Hs | | done |].
      * unfold pending. simpl. by rewrite Hp, Hpw.
      * rewrite Hst. apply delete_subseteq.
  - apply post_bind. unfold post at 1, upd, modify. apply post_ret.
    destruct (Hnone Hq) as (ev & [F1 F2 F3 F4 F5 F6] & [O1 O2]). exists ev. split; [by split |]. split; [by destruct O1 | done].
  - by apply post_ret, Hnone.
Qed.

Lemma poll_frames_forwards E cx : part_forwards E (poll_frames cx).
Proof.
  intros [a w] Hok Ht. unfold poll_frames. apply post_bind. unfold post at 1, ac, gets. simpl.
  destruct (ac_pending_read_frame a) as [f|] eqn:Hpr; [by apply post_ret, carried_refl |].
  apply post_bind, post_on_sock. intros r s Hs. assert (Hsock : sock_ok (ac_socket a)) by apply (co_sock _ _ _ _ Hok).
  pose proof (socket_moved a w s Ht (writable_next_law _ _ _ _ Hsock (td_writable _ Ht) Hs)
    (wire_next_law _ _ _ _ Hsock Hs)) as Hfw.
  pose proof (sock_next_law cx _ Hsock) as Hn. unfold wp in Hn. rewrite Hs in Hn. destruct Hn as [Hsock' Hsend].
  destruct r as [[[frame|e]|]|]; [| by apply post_ret..]. specialize (Hsend frame eq_refl).
  apply post_bind. set (s1 := (set_socket s a, w)) in *.
  assert (Ht1 : tidy s1) by (destruct Hfw as (? & _ & O); apply O).
  assert (Hok1 : conn_ok cfg E s1.1 s1.2) by (by apply conn_ok_socket).
  assert (Hon : post (on_frame frame) (fun r s' => (forall act, r = Ok act -> control_action act) /\ aside s1 s') s1).
  { pose proof (aside_on_frame s1 frame s1 ltac:(done)) as Ha.
    pose proof (on_frame_control frame s1) as Hc. unfold post in *. by destruct (on_frame frame s1) as [[act s']| |]. }
  eapply post_mono; [apply post_wp; [by apply (on_frame_ok usize_wide cfg E) | exact Hon] |].
  intros act [a2 w2] [Hact [Hc [A1 A2 A3]]]. simpl in *.
  assert (Hgo : forall f, quiet s1.1 s1.2 a2 w2 -> (forall g, f = Some g -> control g) ->
    carried (a, w) (set_pending_read_frame f a2, w2)).
  { intros f (Q1 & Q2 & Q3 & Q4 & Q5 & Q6) Hf. eapply carried_trans; [exact Ht | exact Hfw |].
    destruct Ht1 as [T1 T2 T3 T4]. apply carried_nil; simpl in *; try done.
    - split; simpl in *; [by rewrite Q1 | done | by rewrite Q2 | by rewrite Q5].
    - by rewrite Q2.
    - unfold pending. simpl. by rewrite Q4. }
  destruct act as [act|e]; [| by apply post_ret]. specialize (Hc act eq_refl). destruct act as [| st | f | f].
  - apply post_ret. destruct Hact as [_ Hq]. pose proof (Hgo None Hq ltac:(done)) as Hm.
    destruct Hq as (_ & _ & Hq & _). simpl in Hq. rewrite Hpr in Hq. by destruct a2; simpl in Hq; subst.
  - apply post_ret. eapply carried_then; [exact Ht | exact Hfw |]. exists []. apply forwards_nil; simpl; [by rewrite A1 | | done].
    unfold pending. simpl. by rewrite A2.
  - apply post_bind. unfold post at 1, upd, modify. apply post_ret. apply Hgo; [apply Hact | by intros g [= <-]].
  - apply post_bind. unfold post at 1, upd, modify. apply post_ret. apply Hgo; [apply Hact | by intros g [= <-]].
Qed.

(** Parts in sequence. *)
Lemma and_then_forwards E f m :
  (forall a w, conn_ok cfg E a w -> wp f (fun r '(a', w') => flow_ok cfg E a w r a' w') (a, w)) ->
  part_forwards E f -> part_forwards E m -> part_forwards E (and_then f m).
Proof.
  intros Hw Hf Hm [a w] Hok Ht. apply post_bind.
  eapply post_mono; [apply post_wp; [by apply Hw | by apply Hf] |]. intros r [a1 w1] [Hr Hfw].
  destruct r as [|p|]; [by apply post_ret.. |]. destruct Hr as [Hok1 _].
  pose proof Hfw as (ev & _ & O). eapply post_mono; [apply Hm; [done | apply O] |].
  intros r s2 Hr. by eapply flow_forwards_trans.
Qed.

Lemma poll_iter_forwards E cx : part_forwards E (poll_iter cx).
Proof.
  apply and_then_forwards; [intros; by apply poll_send_ok | apply poll_send_forwards |].
  apply and_then_forwards; [intros; by apply poll_flush_socket_ok | apply poll_flush_forwards |].
  apply and_then_forwards; [intros; by apply poll_commands_ok | apply poll_commands_forwards | apply poll_frames_forwards].
Qed.

Lemma active_poll_forwards E fuel cx s :
  conn_ok cfg E s.1 s.2 -> tidy s ->
  post (active_poll fuel cx) (fun r s' => flow_forwards (Return r) s s') s.
Proof.
  intros Hok Ht. unfold active_poll.
  apply (post_loop _ (fun s' => conn_ok cfg E s'.1 s'.2 /\ carried s s')); [| split; [done | by apply carried_refl]].
  intros [a1 w1] [Hok1 Hf]. apply post_bind. pose proof Hf as (ev & _ & O).
  eapply post_mono; [apply post_wp; [by apply (poll_iter_ok usize_wide cfg) | by apply (poll_iter_forwards E), O] |].
  intros r [a2 w2] [Hr Hfw]. pose proof (flow_forwards_trans _ _ _ _ Ht Hf Hfw) as Hall.
  destruct r as [|p|]; apply post_ret; [split; [apply Hr | exact Hall] | exact Hall..].
Qed.
End forward.
