(* ===== verification/Transport.v ===== *)
(** * Channels and sockets, as far as two peers rely on them

    What is documented of the channels beyond what [Forward] uses: which channel a sender belongs to, how
    many senders it has left, that a receiver ends only when there are none, what closing it does, and
    that [SelectAll] asks every receiver that holds a command. And of the framed socket: the bytes of
    the frames it has delivered. *)
From Stdlib Require Import ZArith Lia Strings.Byte.
From stdpp Require Import base option list numbers.
From S2P Require Import Prelude.
From S2P Require Import Header.
From S2P Require Import Frame.
From S2P Require Import Config.
From S2P Require Import Command.
From S2P Require Import Rtt.
From S2P Require Import Shared.
From S2P Require Import FlowControl.
From S2P Require Import Heap.
From S2P Require Import Channel.
From S2P Require Import TaggedStream.
From S2P Require Import StreamHandle.
From S2P Require Import FrameIo.
From S2P Require Import FrameIoSpec.
From S2P Require Import Connection.
From S2P Require Import ConnInvariant.
From S2P Require Import Forward.

(** ** Channels *)

(** Where a sender sends to, and how many senders a channel has, unless its receiver has been closed.
    A new channel is empty and has one sender; cloning and dropping count; asking for room and flushing
    change nothing, and what is taken is appended to the queue; a receiver that has ended is empty and
    has no sender left. *)
Class ChannelLaws `{FifoLaws} : Type := {
  target : Sender -> Receiver;
  live : Receiver -> Net -> option nat;
  channel_new_law : forall k n, let '((c, r), n') := mpsc_channel k n in
    target c = r /\ known r n' /\ queue r n' = [] /\ live r n' = Some 1%nat /\
    forall r', known r' n -> live r' n' = live r' n;
  channel_clone_law : forall c n, let '(d, n') := sender_clone c n in
    target d = target c /\ live (target c) n' = S <$> live (target c) n /\
    forall r, r <> target c -> live r n' = live r n;
  channel_drop_law : forall c n, live (target c) (sender_drop c n) = pred <$> live (target c) n /\
    forall r, r <> target c -> live r (sender_drop c n) = live r n;
  channel_ready_law : forall c cx n r, known r n ->
    let n' := (sender_poll_ready c cx n).2 in known r n' /\ queue r n' = queue r n /\ live r n' = live r n;
  channel_flush_law : forall c cx n r, known r n ->
    let n' := (sender_poll_flush c cx n).2 in known r n' /\ queue r n' = queue r n /\ live r n' = live r n;
  channel_send_law : forall c cmd n r, known r n -> (sender_start_send c cmd n).1 = Ok tt ->
    let n' := (sender_start_send c cmd n).2 in
    known r n' /\ live r n' = live r n /\
    (target c = r -> queue r n' = queue r n ++ [cmd]) /\ (target c <> r -> queue r n' = queue r n);
  channel_next_law : forall r cx n, let '(p, n') := receiver_poll_next r cx n in
    (forall r', known r' n -> live r' n' = live r' n) /\
    (p = Ready None -> queue r n = [] /\ forall k, live r n = Some k -> k = O);
}.

(** A receiver that has been closed keeps what it holds, and takes no more; it does not concern others. *)
Class ClosedChannels `{ChannelLaws} : Prop := {
  closed_close_law : forall r n r', known r' n -> let n' := receiver_close r n in
    known r' n' /\ queue r' n' = queue r' n /\ (r' = r -> live r' n' = None) /\ (r' <> r -> live r' n' = live r' n);
  closed_send_law : forall c cmd n, live (target c) n = None -> (sender_start_send c cmd n).1 <> Ok tt;
}.

(** Which members a [SelectAll] has. A member stays until it has ended itself, and what is done for each
    member is done for all. *)
Class SelectAllMembers `{SelectAllLaws} : Type := {
  select_all_in : forall {S}, S -> SelectAll S -> Prop;
  in_all_law : forall S (P : S -> Prop) q, select_all_all P q <-> forall s, select_all_in s q -> P s;
  in_push_law : forall S (s s' : S) q, s = s' \/ select_all_in s q -> select_all_in s (select_all_push s' q);
  in_next_law : forall S N Item (f : S -> N -> poll (option Item) * S * N) (P : S -> Prop) (I E : N -> Prop),
    (forall s n, I n -> let '(_, s', n') := f s n in I n' /\ (E n -> E n')) ->
    (forall s n, P s -> I n -> let '(r, s', n') := f s n in E n' \/ P s' /\ r <> Ready None) ->
    forall q n, I n -> E n \/ (exists s, select_all_in s q /\ P s) ->
      let '(p, q', n') := select_all_poll_next f q n in E n' \/ exists s, select_all_in s q' /\ P s;
  in_each_law : forall S N (f : S -> N -> N) (I J : N -> Prop) s q n,
    select_all_in s q -> (forall s' n, I n -> I (f s' n) /\ (J n -> J (f s' n))) -> (forall n, I n -> J (f s n)) ->
    I n -> J (select_all_for_each f q n);
}.

(** What holds of all members holds of them if it is weakened. *)
Lemma select_all_mono_law `{SelectAllMembers} S (P Q : S -> Prop) q :
  (forall s, P s -> Q s) -> select_all_all P q -> select_all_all Q q.
Proof. intros HPQ Hq. apply in_all_law. intros s Hs. apply HPQ. by apply (proj1 (in_all_law _ P q) Hq). Qed.

(** What a handle emits is appended to the queue of its channel, and nothing else changes. *)
Lemma emits_queue `{ChannelLaws} (P : Sender -> Prop) r n l n' :
  emits P n l n' -> (forall s, P s -> target s = r) ->
  forall r', known r' n -> known r' n' /\ live r' n' = live r' n /\
    (r' = r -> queue r' n' = queue r' n ++ l) /\ (r' <> r -> queue r' n' = queue r' n).
Proof.
  intros He HP. induction He as [n | s cx n l n' Hs _ IH | s cx n l n' Hs _ IH | s c n l n' Hs Hok _ IH]; intros r' Hr.
  - rewrite app_nil_r. done.
  - destruct (channel_ready_law s cx n r' Hr) as (K & Q & L), (IH _ K) as (K' & L' & Q1 & Q2). rewrite L', L, <- Q. done.
  - destruct (channel_flush_law s cx n r' Hr) as (K & Q & L), (IH _ K) as (K' & L' & Q1 & Q2). rewrite L', L, <- Q. done.
  - destruct (channel_send_law s c n r' Hr Hok) as (K & L & Q1 & Q2), (IH _ K) as (K' & L' & Q3 & Q4).
    specialize (HP _ Hs). split_and!; [done | congruence | |].
    + intros ->. rewrite (Q3 eq_refl), (Q1 HP), <- app_assoc. done.
    + intros Hne. rewrite (Q4 Hne). apply Q2. congruence.
Qed.

(** Nothing is emitted into a channel that has been closed. *)
Lemma emits_shut `{ClosedChannels} (P : Sender -> Prop) r n l n' :
  emits P n l n' -> (forall s, P s -> target s = r) -> known r n -> live r n = None -> l = [].
Proof.
  intros He HP. induction He as [n | s cx n l n' Hs _ IH | s cx n l n' Hs _ IH | s c n l n' Hs Hok _ IH]; intros Hr Hl; [done | | |].
  - destruct (channel_ready_law s cx n r Hr) as (K & _ & L). apply IH; [done | congruence].
  - destruct (channel_flush_law s cx n r Hr) as (K & _ & L). apply IH; [done | congruence].
  - rewrite <- (HP _ Hs) in Hl. by destruct (closed_send_law s c n Hl).
Qed.

(** ** Sockets *)

(** The bytes of the frames that a socket has delivered; an error delivers none. *)
Class FrameSocketReads `{FrameSocketWire} : Type := {
  sock_read : FSock -> list byte;
  read_ready_law : forall cx s r s', sock_ok s -> sock_poll_ready cx s = Ret (r, s') -> sock_read s' = sock_read s;
  read_send_law : forall f s r s', sock_ok s -> frame_wf f -> sock_start_send f s = Ret (r, s') -> sock_read s' = sock_read s;
  read_close_law : forall cx s r s', sock_ok s -> sock_poll_close cx s = Ret (r, s') -> sock_read s' = sock_read s;
  read_flush_law : forall cx s r s', sock_ok s -> sock_poll_flush cx s = Ret (r, s') -> sock_read s' = sock_read s;
  read_next_law : forall cx s r s', sock_ok s -> sock_poll_next cx s = Ret (r, s') ->
    match r with
    | Ready (Some (Ok f)) => sock_read s' = sock_read s ++ frame_wire f
    | _ => sock_read s' = sock_read s
    end;
}.

(** ** Receivers that are served *)

Section attended.
Context `{Arch, Mpsc, SelectAllOps, FrameSocket, MapOrder}.
Context `{!FifoLaws, !ChannelLaws, !SelectAllLaws, !SelectAllMembers, EqDecision Receiver}.

(** Nothing is left in a channel, and nothing will come. *)
Definition finished (r : Receiver) (n : Net) : Prop := queue r n = [] /\ forall k, live r n = Some k -> k = O.

(** It is asked for commands, and has not said that it has ended. *)
Definition attended (rs : Receivers) (r : Receiver) : Prop :=
  exists t, select_all_in t rs /\ ts_inner t = r /\ ts_reported_none t = false.

(** A channel is served as long as it is not finished. *)
Definition served (rs : Receivers) (n : Net) (r : Receiver) : Prop := finished r n \/ attended rs r.

Lemma served_net rs n n' r : queue r n' = queue r n -> live r n' = live r n -> served rs n r -> served rs n' r.
Proof. unfold served, finished. by intros -> ->. Qed.

Lemma served_live rs n r k : served rs n r -> live r n = Some (S k) -> attended rs r.
Proof. intros [[_ Hf] | Ha] Hl; [by apply Hf in Hl | done]. Qed.

Lemma served_queue rs n r c q : served rs n r -> queue r n = c :: q -> attended rs r.
Proof. intros [[Hf _] | Ha] Hq; [by rewrite Hf in Hq | done]. Qed.

Lemma attended_push rs t r : attended rs r -> attended (select_all_push t rs) r.
Proof. intros (t' & Ht & Hr). exists t'. split; [apply in_push_law; by right | done]. Qed.

(** What asking one receiver does. *)
Lemma tagged_poll_served cx (t : TaggedStream Z Receiver) n r :
  known r n ->
  let '(p, t', n') := tagged_poll_next (receiver_poll cx) t n in
  (known r n' /\ (finished r n -> finished r n')) /\
  (ts_inner t = r /\ ts_reported_none t = false ->
   finished r n' \/ (ts_inner t' = r /\ ts_reported_none t' = false) /\ p <> Ready None).
Proof.
  intros Hr. unfold tagged_poll_next, receiver_poll. destruct (ts_reported_none t) eqn:Hn; [by split; [| intros []] |].
  pose proof (fifo_next_law (ts_inner t) cx n) as Hl. pose proof (channel_next_law (ts_inner t) cx n) as Hv.
  destruct (receiver_poll_next (ts_inner t) cx n) as [p n']. destruct Hl as [Hk Hq], Hv as [Hlive Hend].
  destruct (Hk r Hr) as [K Hne].
  assert (Hfin : finished r n -> finished r n').
  { intros [F1 F2]. split; [| by rewrite Hlive]. destruct (decide (r = ts_inner t)) as [-> | E]; [| by rewrite Hne].
    rewrite F1 in Hq. by destruct p as [[c|]|]. }
  destruct p as [[c|]|]; (split; [done |]); intros [Hi _].
  - right. by split.
  - left. apply Hfin. subst r. by apply Hend.
  - right. by split.
Qed.

(** What asking them all does. *)
Lemma poll_served cx rs n r :
  known r n -> served rs n r ->
  let '(p, rs', n') := select_all_poll_next (tagged_poll_next (receiver_poll cx)) rs n in served rs' n' r.
Proof.
  intros Hk Hs. pose proof (in_next_law _ _ _ (tagged_poll_next (receiver_poll cx))
    (fun t : TaggedStream Z Receiver => ts_inner t = r /\ ts_reported_none t = false) (known r) (finished r)) as Hlaw.
  specialize (Hlaw ltac:(clear Hlaw; intros t n1 Hn1; pose proof (tagged_poll_served cx t n1 r Hn1); destruct (tagged_poll_next _ _ _) as [[p t'] n']; tauto)
    ltac:(clear Hlaw; intros t n1 Ht Hn1; pose proof (tagged_poll_served cx t n1 r Hn1); destruct (tagged_poll_next _ _ _) as [[p t'] n']; tauto)
    rs n Hk Hs). by destruct (select_all_poll_next _ _ _) as [[p rs'] n'].
Qed.
End attended.

(** [SelectAll] waits or ends only when its receivers hold no command: what is sent wakes the receiver,
    which is then asked. *)
Class DrainLaws `{Mpsc, SelectAllOps} `{!SelectAllLaws, !SelectAllMembers, !FifoLaws, !ChannelLaws} : Prop :=
  drain_law : forall cx (rs : Receivers) n,
    let '(p, rs', n') := select_all_poll_next (tagged_poll_next (receiver_poll cx)) rs n in
    (forall item, p <> Ready (Some item)) -> forall r, known r n -> attended rs r -> queue r n' = [].

(** ** Registering a channel *)

Section registered.
Context `{Arch, Mpsc, SelectAllOps, FrameSocket, MapOrder}.

(** What only concerns the receivers of a connection and the channels. *)
Definition on_channels (K : Receivers -> Net -> Prop) (s : AS) : Prop := K (ac_receivers s.1) (net s.2).

(** They are as they were. *)
Definition unchanged (s0 : AS) (rs : Receivers) (n : Net) : Prop := rs = ac_receivers s0.1 /\ n = net s0.2.

(** A new stream has got a channel, whose receiver is among those of the connection; the handle has the
    sender and a clone of it. *)
Definition registers (s0 : AS) (st : Stream) (rs : Receivers) (n : Net) : Prop :=
  exists c r n1, mpsc_channel CHANNEL_CAPACITY (net s0.2) = ((c, r), n1) /\
    rs = select_all_push (tagged_new (st_id st) r) (ac_receivers s0.1) /\
    st_sender st = c /\ sender_clone c n1 = (st_window_update_sender st, n).

Section rules.
Context (K : Receivers -> Net -> Prop).

Lemma channels_upd (f : Active -> Active) :
  (forall a, ac_receivers (f a) = ac_receivers a) -> preserves (on_channels K) (upd f).
Proof. intros Hf. apply preserves_modify. intros [a w]. unfold on_channels. simpl. by rewrite Hf. Qed.
Lemma channels_mem {A} (m : M Mem A) : preserves (on_channels K) (on_mem m).
Proof. apply preserves_zoom. by intros m' [a w]. Qed.
Lemma channels_ac {A} (f : Active -> A) : preserves (on_channels K) (ac f).
Proof. apply preserves_gets. Qed.
End rules.

Ltac channels :=
  walk ltac:(first [apply channels_ac | apply channels_mem | apply channels_upd; intros ?; reflexivity]).

(** Use it for a computation that does nothing else. *)
Ltac by_channels :=
  match goal with Hs : on_channels ?K ?s |- post ?m (fun _ => on_channels ?K) ?s =>
    let Hp := fresh in assert (Hp : preserves (on_channels K) m) by channels; by apply Hp
  end.

Lemma channels_backlog K : preserves (on_channels K) ack_backlog.
Proof.
  unfold ack_backlog. do 2 (apply preserves_bind; [apply channels_ac | intros ?]).
  match goal with |- preserves _ (count_pending _ ?l) => induction l as [|[id l1] l IH] end; simpl; [apply preserves_ret |].
  destruct (is_outbound _ _); [| exact IH]. apply preserves_bind; [apply channels_mem | intros sh].
  apply preserves_bind; [exact IH | intros n]. destruct (is_pending_ack sh); apply preserves_ret.
Qed.

(** A computation that ends with a new stream has registered its channel and no other. *)
Definition announces (s0 : AS) (act : Action Stream) (s : AS) : Prop :=
  match act with ActionNew st => on_channels (registers s0 st) s | _ => True end.
Definition announced (s0 : AS) (K : Receivers -> Net -> Prop) (m : M AS (Action Stream)) : Prop :=
  forall s, on_channels K s -> post m (announces s0) s.

Section announced.
Context (s0 : AS).

Lemma announced_bind {A} K (m : M AS A) k :
  preserves (on_channels K) m -> (forall a, announced s0 K (k a)) -> announced s0 K (m ≫= k).
Proof. intros Hm Hk s Hs. apply post_bind. eapply post_mono; [by apply Hm |]. intros a s'. apply Hk. Qed.

Lemma announced_ret st : announced s0 (registers s0 st) (mret (ActionNew st)).
Proof. intros s Hs. exact Hs. Qed.

(** What does not end with a stream announces none. *)
Lemma announced_none K (m : M AS (Action Stream)) :
  yields (fun act => match act with ActionNew _ => False | _ => True end) m -> announced s0 K m.
Proof. intros Hm s _. eapply post_mono; [apply Hm |]. by intros []. Qed.

(** Creating a stream, inbound or outbound. *)
Lemma make_new_registers id (f : Flag) credit s :
  on_channels (unchanged s0) s ->
  post (config ← ac ac_config;
      '(sender, receiver) ← on_net (mpsc_channel CHANNEL_CAPACITY);
      upd (fun a => set_receivers (select_all_push (tagged_new id receiver) (ac_receivers a)) a) ≫= fun _ =>
      waker ← ac ac_no_streams_waker;
      upd (set_no_streams_waker None) ≫= fun _ =>
      on_mem (wake waker) ≫= fun _ =>
      on_world (window_update_sender ← on_net (sender_clone sender);
                now ← on_mem read_clock;
                l ← on_mem (arc_new (shared_new DEFAULT_CREDIT credit config now));
                mret (mkStream id config sender window_update_sender f l)))
    (fun st s' => on_channels (registers s0 st) s') s.
Proof.
  destruct s as [a w]. intros [Hr Hn]. simpl in *. subst. apply post_bind. unfold post at 1, ac, gets.
  apply post_bind. unfold post at 1, on_net. simpl. rewrite Hn.
  destruct (mpsc_channel CHANNEL_CAPACITY (net s0.2)) as [[c r] n1] eqn:Hc.
  do 2 (apply post_bind; unfold post at 1, upd, ac, gets, modify). simpl.
  apply post_bind. unfold post at 1, upd, modify. simpl. apply post_bind. apply post_zoom. intros u m'. simpl.
  unfold post, on_world, zoom. simpl. unfold mbind, M_bind, on_net. simpl.
  destruct (sender_clone c n1) as [d n2] eqn:Hd. unfold on_mem, zoom. simpl.
  exists c, r, n1. split_and!; try done. simpl. by rewrite Hr.
Qed.

Lemma inbound_registers id credit s :
  on_channels (unchanged s0) s ->
  post (make_new_inbound_stream id credit) (fun st s' => on_channels (registers s0 st) s') s.
Proof. apply make_new_registers. Qed.

Lemma outbound_registers id s :
  on_channels (unchanged s0) s ->
  post (make_new_outbound_stream id) (fun st s' => on_channels (registers s0 st) s') s.
Proof. apply make_new_registers. Qed.

(** The handlers. *)
Lemma announced_new id credit k :
  (forall st, announced s0 (registers s0 st) (k st)) ->
  announced s0 (unchanged s0) (make_new_inbound_stream id credit ≫= k).
Proof.
  intros Hk s Hs. apply post_bind. eapply post_mono; [by apply inbound_registers |]. intros st s'. apply Hk.
Qed.

Ltac announced :=
  repeat first
    [ apply announced_ret
    | apply announced_new; intros ?
    | apply announced_bind; [solve [unfold streams_insert, streams_remove, contains_key, streams_len,
        is_valid_remote_id, drop_arc, wake_both; channels] | intros ?]
    | match goal with
      | |- announced _ _ (match ?e with _ => _ end) => destruct e
      | |- announced _ _ (if ?e then _ else _) => destruct e
      end
    | apply announced_none; solve [unfold reset_stream, terminate, wake_both, drop_arc; walk ltac:(apply yields_ret; exact I)] ].

Lemma on_data_announced frame : announced s0 (unchanged s0) (on_data frame).
Proof. unfold on_data. announced. Qed.

Lemma on_window_update_announced frame : announced s0 (unchanged s0) (on_window_update frame).
Proof. unfold on_window_update. announced. Qed.
End announced.

(** A frame that opens a stream, and a stream that is opened here. *)
Lemma on_frame_registers f s :
  post (on_frame f) (fun r s' => forall st, r = Ok (ActionNew st) -> on_channels (registers s st) s') s.
Proof.
  assert (Hok : forall m s1, announced s (unchanged s) m -> on_channels (unchanged s) s1 ->
    post (a ← m; mret (Ok a)) (fun (r : result (Action Stream) ConnectionError) s' =>
      forall st, r = Ok (ActionNew st) -> on_channels (registers s st) s') s1).
  { intros m s1 Hm Hs. apply post_bind. eapply post_mono; [by apply Hm |]. intros a s' Ha. apply post_ret.
    intros st [= ->]. exact Ha. }
  assert (Hs : on_channels (unchanged s) s) by done. revert Hs. generalize s at 2 4 as s1. intros s1 Hs.
  unfold on_frame. apply post_bind.
  eapply (post_mono _ (fun _ => on_channels (unchanged s))).
  { by_channels. }
  intros _ s2 Hs2. apply post_bind. unfold post at 1, contains_key, ac, gets.
  destruct (_ && negb _); [by apply post_ret |].
  destruct (tag (header f)); [| | | by apply post_ret].
  - apply post_bind, post_lift. intros g _. by apply Hok; [apply on_data_announced |].
  - apply post_bind, post_lift. intros g _. by apply Hok; [apply on_window_update_announced |].
  - apply post_bind, post_lift. intros g _. apply Hok; [| done]. apply announced_none. unfold on_ping, contains_key.
    walk ltac:(first [apply yields_ret; exact I]). intros [a w]. unfold post, on_mem, zoom, mem_handle_pong, mbind, M_bind, read_clock, gets, modify, lift.
    simpl. unfold handle_pong. destruct (rtt_state _); simpl; [| done]. destruct (negb _); simpl; [done |]. by destruct (add_ _ _ _).
Qed.

Lemma new_outbound_registers cx s :
  post (active_poll_new_outbound cx) (fun r s' => forall st, r = Ready (Ok st) -> on_channels (registers s st) s') s.
Proof.
  assert (Hno : forall x s', (forall st, x <> Ready (Ok st)) ->
    post (mret x) (fun (r : poll (result Stream ConnectionError)) s' => forall st, r = Ready (Ok st) -> on_channels (registers s st) s') s')
    by (intros x s' Hx; apply post_ret; intros st ->; by destruct (Hx st)).
  assert (Hs : on_channels (unchanged s) s) by done. revert Hs. generalize s at 2 4 as s1. intros s1 Hs.
  unfold active_poll_new_outbound, streams_len. do 2 (apply post_bind; unfold post at 1, ac, gets).
  destruct (_ <=? _); [by apply Hno |]. apply post_bind.
  eapply (post_mono _ (fun _ => on_channels (unchanged s))).
  { by apply channels_backlog. }
  intros n s2 Hs2. destruct (_ <=? _); [by apply post_bind; unfold post at 1, upd, modify; apply Hno |].
  apply post_bind. eapply (post_mono _ (fun _ => on_channels (unchanged s))).
  { unfold next_stream_id. by_channels. }
  intros [id|e] s3 Hs3; [| by apply Hno]. apply post_bind. eapply post_mono; [by apply outbound_registers |].
  intros st s4 Hs4. apply post_bind. eapply (post_mono _ (fun _ => on_channels (registers s st))).
  { by apply channels_mem. }
  intros l s5 Hs5. apply post_bind. eapply (post_mono _ (fun _ => on_channels (registers s st))).
  { unfold streams_insert, drop_arc. by_channels. }
  intros _ s6 Hs6. apply post_ret. by intros st' [= <-].
Qed.

(** What that means for the channels. *)
Lemma registers_channel `{!FifoLaws, !ChannelLaws} s0 st rs n :
  registers s0 st rs n -> exists r,
    rs = select_all_push (tagged_new (st_id st) r) (ac_receivers s0.1) /\
    target (st_sender st) = r /\ target (st_window_update_sender st) = r /\
    ~ known r (net s0.2) /\ known r n /\ queue r n = [] /\ live r n = Some 2%nat /\
    forall r', known r' (net s0.2) -> known r' n /\ queue r' n = queue r' (net s0.2) /\ live r' n = live r' (net s0.2).
Proof.
  intros (c & r & n1 & Hc & Hr & Hs & Hd). exists r.
  pose proof (fifo_channel_law CHANNEL_CAPACITY (net s0.2)) as F1. pose proof (channel_new_law CHANNEL_CAPACITY (net s0.2)) as F2.
  rewrite Hc in F1, F2. destruct F1 as [Hnew Hold], F2 as (Ht & Hk & Hq & Hl & Hlo).
  pose proof (fun r' => fifo_clone_law c n1 r') as C1. pose proof (channel_clone_law c n1) as C2. rewrite Hd in C1, C2. simpl in C1.
  destruct C2 as (Ct & Cl & Co). rewrite Hs. split_and!; [done | done | congruence | done | by apply C1 | | | ].
  - by rewrite (proj2 (C1 r Hk)).
  - rewrite Ht in Cl. by rewrite Cl, Hl.
  - intros r' Hr'. destruct (Hold r' Hr') as [K1 Q1], (C1 r' K1) as [K2 Q2]. split_and!; [done | congruence |].
    rewrite Co; [by apply Hlo |]. rewrite Ht. by intros ->.
Qed.
End registered.
