(* ===== verification/PeerStore.v ===== *)
(** * What a connection stores for its streams

    How the streams of a [View] are stored in a connection and its world: the record of each stream in
    the memory and the map, the commands that wait in its channel, and its handle. The lemmas say how
    this is kept by the steps of handles and connection, one stream at a time. *)
From Stdlib Require Import ZArith Lia Strings.Byte.
From stdpp Require Import base option list gmap numbers.
From S2P Require Import Prelude.
From S2P Require Import Header.
From S2P Require Import Frame.
From S2P Require Import Config.
From S2P Require Import Command.
From S2P Require Import Shared.
From S2P Require Import Heap.
From S2P Require Import Channel.
From S2P Require Import TaggedStream.
From S2P Require Import StreamHandle.
From S2P Require Import Link.
From S2P Require Import FrameIo.
From S2P Require Import FrameIoSpec.
From S2P Require Import Connection.
From S2P Require Import ConnInvariant.
From S2P Require Import Forward.
From S2P Require Import Transport.

Section store.
Context `{Arch, Mpsc, SelectAllOps, FrameSocket, MapOrder}.
Context `{!SelectAllLaws, !SelectAllMembers, !FifoLaws, !ChannelLaws}.

(** A stream: its commands wait in its channel, and its record is in the map as long as it is known. *)
Definition strand_at (ps : gmap Z (positive * Receiver)) (m : gmap Z positive) (cs : gmap positive Cell) (n : Net) (id : Z) (x : End)
    (q : list (Frame unit)) : Prop :=
  exists l r, ps !! id = Some (l, r) /\ known r n /\ q = map (command_frame id) (queue r n) /\
    en_status x <> Unborn /\ (en_status x = Known -> m !! id = Some l /\ exists k, cs !! l = Some (mkCell k (en_sh x))) /\
    (en_status x <> Known -> m !! id = None).

(** A handle: it has the flag and both senders of its stream, and keeps the record alive. *)
Definition handle_at (ss : gmap Z (End * list (Frame unit))) (ps : gmap Z (positive * Receiver)) (cs : gmap positive Cell) (n : Net) (h : Stream) : Prop :=
  exists x q r, ss !! st_id h = Some (x, q) /\ ps !! st_id h = Some (st_shared h, r) /\
    en_flag x = st_flag h /\ en_status x <> Dropped /\
    target (st_sender h) = r /\ target (st_window_update_sender h) = r /\ live r n = Some 2%nat /\
    exists k, cs !! st_shared h = Some (mkCell k (en_sh x)).

(** Streams whose record has not been given up. *)
Definition kept (hs : list Stream) (m : gmap Z positive) (id : Z) : Prop := is_Some (m !! id) \/ id ∈ st_id <$> hs.

Definition member_of (ps : gmap Z (positive * Receiver)) (t : TaggedStream Z Receiver) : Prop := exists l, ps !! ts_key t = Some (l, ts_inner t).

Record stored (hs : list Stream) (ss : gmap Z (End * list (Frame unit))) (ps : gmap Z (positive * Receiver)) (m : gmap Z positive) (rs : Receivers)
    (cs : gmap positive Cell) (n : Net) : Prop := {
  sd_map : forall id, is_Some (m !! id) -> is_Some (ss !! id);
  sd_places : forall id, is_Some (ps !! id) -> is_Some (ss !! id);
  sd_strand : forall id x q, ss !! id = Some (x, q) -> strand_at ps m cs n id x q;
  sd_handle : forall h, h ∈ hs -> handle_at ss ps cs n h;
  sd_unique : NoDup (st_id <$> hs);
  sd_apart : forall id id' l r r', ps !! id = Some (l, r) -> ps !! id' = Some (l, r') ->
    kept hs m id -> kept hs m id' -> id = id';
  sd_chan : forall id id' l l' r, ps !! id = Some (l, r) -> ps !! id' = Some (l', r) -> id = id';
  sd_members : select_all_all (member_of ps) rs;
  sd_served : forall id l r, ps !! id = Some (l, r) -> served rs n r;
}.

(** What happens in the channel [r], and in no other one. *)
Definition channel_step (r : Receiver) (n n' : Net) : Prop :=
  forall r', known r' n -> known r' n' /\ live r' n' = live r' n /\ (r' <> r -> queue r' n' = queue r' n).

Lemma channel_step_refl r n : channel_step r n n.
Proof. by intros r' Hr. Qed.

Lemma stored_known hs ss ps m rs cs n id l r : stored hs ss ps m rs cs n -> ps !! id = Some (l, r) -> known r n.
Proof.
  intros Hs Hp. destruct (sd_places _ _ _ _ _ _ _ Hs id ltac:(by rewrite Hp)) as [[x q] Hx].
  destruct (sd_strand _ _ _ _ _ _ _ Hs _ _ _ Hx) as (l' & r' & Hp' & Hk & _). rewrite Hp in Hp'. by injection Hp' as <- <-.
Qed.

(** A channel in which nothing happens is served as it was, and so is that of a handle. *)
Lemma served_other hs ss ps m rs cs n n' id l r j l' r' :
  stored hs ss ps m rs cs n -> ps !! id = Some (l, r) -> channel_step r n n' -> ps !! j = Some (l', r') -> j <> id ->
  served rs n' r'.
Proof.
  intros Hs Hp Hn Hj Hne. destruct (Hn r' (stored_known _ _ _ _ _ _ _ _ _ _ Hs Hj)) as (_ & Hl & Hq).
  apply (served_net rs n); [| done | exact (sd_served _ _ _ _ _ _ _ Hs _ _ _ Hj)]. apply Hq. intros ->. apply Hne.
  by eapply (sd_chan _ _ _ _ _ _ _ Hs).
Qed.

Lemma handle_attended hs ss ps m rs cs n h : stored hs ss ps m rs cs n -> h ∈ hs ->
  attended rs (target (st_sender h)) /\ target (st_window_update_sender h) = target (st_sender h).
Proof.
  intros Hs Hh. destruct (sd_handle _ _ _ _ _ _ _ Hs _ Hh) as (x & q & r & _ & Hp & _ & _ & -> & -> & Hl & _).
  split; [| done]. eapply served_live; [exact (sd_served _ _ _ _ _ _ _ Hs _ _ _ Hp) | exact Hl].
Qed.

(** The record of a stream that is kept is in the memory. *)
Lemma kept_cell hs ss ps m rs cs n id l r :
  stored hs ss ps m rs cs n -> ps !! id = Some (l, r) -> kept hs m id -> is_Some (cs !! l).
Proof.
  intros Hs Hp [Hm | (h & -> & Hh)%list_elem_of_fmap].
  - destruct (sd_map _ _ _ _ _ _ _ Hs _ Hm) as [[x q] Hx].
    destruct (sd_strand _ _ _ _ _ _ _ Hs _ _ _ Hx) as (l' & r' & Hp' & _ & _ & _ & Hkn & Hun).
    rewrite Hp in Hp'. injection Hp' as <- <-. destruct (decide (en_status x = Known)) as [E | E].
    + destruct (Hkn E) as (_ & k & ->). eauto.
    + rewrite (Hun E) in Hm. by destruct Hm.
  - destruct (sd_handle _ _ _ _ _ _ _ Hs _ Hh) as (x & q & r' & _ & Hp' & _ & _ & _ & _ & _ & k & Hc).
    rewrite Hp in Hp'. injection Hp' as -> ->. rewrite Hc. eauto.
Qed.

(** Other streams than [id] have other places. *)
Lemma kept_apart hs ss ps m rs cs n id l r j l' r' :
  stored hs ss ps m rs cs n -> ps !! id = Some (l, r) -> ps !! j = Some (l', r') -> j <> id ->
  r' <> r /\ (kept hs m id -> kept hs m j -> l' <> l).
Proof.
  intros Hs Hi Hj Hne. split.
  - intros ->. apply Hne. by eapply (sd_chan _ _ _ _ _ _ _ Hs).
  - intros K1 K2 ->. apply Hne. by eapply (sd_apart _ _ _ _ _ _ _ Hs).
Qed.

Lemma known_kept hs ss ps m rs cs n id x q :
  stored hs ss ps m rs cs n -> ss !! id = Some (x, q) -> en_status x = Known -> kept hs m id.
Proof.
  intros Hs Hx Hk. left. destruct (sd_strand _ _ _ _ _ _ _ Hs _ _ _ Hx) as (l & r & _ & _ & _ & _ & Hm & _).
  destruct (Hm Hk) as [-> _]. eauto.
Qed.

Lemma handle_kept hs m h : h ∈ hs -> kept hs m (st_id h).
Proof. intros Hh. right. apply list_elem_of_fmap. by exists h. Qed.

(** *** One stream changes *)

(** What is stored of another stream than [id] does not depend on the place of [id]. *)
Lemma strand_other hs ss ps m rs cs n id l r j x q m' cs' n' ss' :
  stored hs ss ps m rs cs n -> ps !! id = Some (l, r) -> kept hs m id -> j <> id -> ss !! j = Some (x, q) ->
  m' !! j = m !! j -> (forall l', l' <> l -> cs' !! l' = cs !! l') -> channel_step r n n' -> ss' !! j = ss !! j ->
  strand_at ps m' cs' n' j x q /\ forall h, h ∈ hs -> st_id h = j -> handle_at ss' ps cs' n' h.
Proof.
  intros Hs Hp Hk Hj Hx Hm Hcs Hn Hss.
  destruct (sd_strand _ _ _ _ _ _ _ Hs _ _ _ Hx) as (l' & r' & Hp' & Hkn & -> & Hu & Hi & Ho).
  destruct (kept_apart _ _ _ _ _ _ _ _ _ _ _ _ _ Hs Hp Hp' Hj) as [Hr Hl]. specialize (Hl Hk).
  destruct (Hn _ Hkn) as (Hkn' & Hlv & Hq). split.
  - exists l', r'. rewrite (Hq Hr), Hm. split_and!; try done. intros Hst. split; [by apply Hi |].
    rewrite Hcs; [by apply Hi |]. apply Hl. by eapply known_kept.
  - intros h Hh <-. destruct (sd_handle _ _ _ _ _ _ _ Hs _ Hh) as (x0 & q0 & r0 & A1 & A2 & A3 & A4 & A5 & A6 & A7 & A8).
    rewrite Hx in A1. injection A1 as <- <-. rewrite Hp' in A2. injection A2 as -> ->.
    exists x, (map (command_frame (st_id h)) (queue r0 n)), r0. rewrite Hss, Hlv. split_and!; try done.
    rewrite Hcs; [done |]. apply Hl. by apply handle_kept.
Qed.

(** The record and the queue of a stream change, and perhaps its entry in the map. *)
Lemma stored_step hs ss ps m rs cs n id l r x q x' q' m' cs' n' :
  stored hs ss ps m rs cs n -> ss !! id = Some (x, q) -> ps !! id = Some (l, r) -> kept hs m id ->
  (forall j, j <> id -> m' !! j = m !! j) -> (forall l', l' <> l -> cs' !! l' = cs !! l') -> channel_step r n n' ->
  strand_at ps m' cs' n' id x' q' -> (forall h, h ∈ hs -> st_id h = id -> handle_at (<[id := (x', q')]> ss) ps cs' n' h) ->
  (is_Some (m' !! id) -> is_Some (m !! id)) -> served rs n' r ->
  stored hs (<[id := (x', q')]> ss) ps m' rs cs' n'.
Proof.
  intros Hs Hx Hp Hk Hm Hcs Hn Hst Hh Hmi Hse.
  assert (Hmm : forall j, is_Some (m' !! j) -> is_Some (m !! j)).
  { intros j. destruct (decide (j = id)) as [-> | Hj]; [done | by rewrite Hm]. }
  assert (Hkk : forall j, kept hs m' j -> kept hs m j) by (intros j [Hj | Hj]; [left; auto | by right]).
  assert (Hsome : forall j, is_Some (ss !! j) -> is_Some (<[id := (x', q')]> ss !! j)).
  { intros j. destruct (decide (j = id)) as [-> | Hj]; [rewrite lookup_insert_eq; eauto | by rewrite lookup_insert_ne]. }
  split.
  - intros j Hj. apply Hsome, (sd_map _ _ _ _ _ _ _ Hs). auto.
  - intros j Hj. by apply Hsome, (sd_places _ _ _ _ _ _ _ Hs).
  - intros j x0 q0 [[<- [= <- <-]] | [Hj Hx0]]%lookup_insert_Some; [done |].
    by destruct (strand_other hs ss ps m rs cs n id l r j x0 q0 m' cs' n' ss Hs Hp Hk (not_eq_sym Hj) Hx0
      (Hm _ (not_eq_sym Hj)) Hcs Hn eq_refl).
  - intros h Hin. destruct (decide (st_id h = id)) as [E | E]; [by apply Hh |].
    destruct (sd_handle _ _ _ _ _ _ _ Hs _ Hin) as (x0 & q0 & r0 & Hx0 & _).
    destruct (strand_other hs ss ps m rs cs n id l r (st_id h) x0 q0 m' cs' n' (<[id := (x', q')]> ss) Hs Hp Hk E Hx0
      (Hm _ E) Hcs Hn (lookup_insert_ne _ _ _ _ (not_eq_sym E))) as [_ Hgo]. by apply Hgo.
  - apply Hs.
  - intros j j' lj r1 r2 Hj Hj' K1 K2. eapply (sd_apart _ _ _ _ _ _ _ Hs); eauto.
  - apply Hs.
  - apply Hs.
  - intros j lj rj Hj. destruct (decide (j = id)) as [-> | Hne]; [| exact (served_other _ _ _ _ _ _ _ _ _ _ _ _ _ _ Hs Hp Hn Hj Hne)].
    rewrite Hp in Hj. injection Hj as <- <-. exact Hse.
Qed.

(** The connection changes the record of a stream that it knows, and may forget the stream. *)
Lemma stored_touch hs ss ps m rs cs n id l r x q x' m' cs' :
  stored hs ss ps m rs cs n -> ss !! id = Some (x, q) -> ps !! id = Some (l, r) -> en_status x = Known ->
  (forall j, j <> id -> m' !! j = m !! j) -> (forall l', l' <> l -> cs' !! l' = cs !! l') ->
  en_flag x' = en_flag x -> en_status x' <> Unborn ->
  (en_status x' = Known -> m' !! id = Some l /\ exists k, cs' !! l = Some (mkCell k (en_sh x'))) ->
  (en_status x' <> Known -> m' !! id = None) ->
  (id ∈ st_id <$> hs -> en_status x' <> Dropped /\ exists k, cs' !! l = Some (mkCell k (en_sh x'))) ->
  stored hs (<[id := (x', q)]> ss) ps m' rs cs' n.
Proof.
  intros Hs Hx Hp Hkn Hm Hcs Hfl Hun Hin Hout Hh. pose proof (known_kept _ _ _ _ _ _ _ _ _ _ Hs Hx Hkn) as Hk.
  destruct (sd_strand _ _ _ _ _ _ _ Hs _ _ _ Hx) as (l' & r' & Hp' & Kr & Hq & _ & Hi & _).
  rewrite Hp in Hp'. injection Hp' as <- <-.
  apply (stored_step hs ss ps m rs cs n id l r x q); try done; [by exists l, r | | | exact (sd_served _ _ _ _ _ _ _ Hs _ _ _ Hp)].
  - intros h Hhs <-. destruct (sd_handle _ _ _ _ _ _ _ Hs _ Hhs) as (x0 & q0 & r0 & A1 & A2 & A3 & A4 & A5 & A6 & A7 & A8).
    rewrite Hx in A1. injection A1 as <- <-. rewrite Hp in A2. injection A2 as -> ->.
    destruct Hh as [Hnd Hc]; [apply list_elem_of_fmap; by exists h |].
    exists x', q, r0. rewrite lookup_insert_eq, Hfl. by split_and!.
  - destruct (Hi Hkn) as [-> _]. eauto.
Qed.

(** A command is taken from a channel. *)
Lemma stored_take hs ss ps m rs rs' cs n id l r x q c n' :
  stored hs ss ps m rs cs n -> ss !! id = Some (x, q) -> ps !! id = Some (l, r) ->
  queue r n = c :: queue r n' -> channel_step r n n' -> select_all_all (member_of ps) rs' ->
  (forall j l' r', ps !! j = Some (l', r') -> served rs' n' r') ->
  q = command_frame id c :: map (command_frame id) (queue r n') /\
  stored hs (<[id := (x, map (command_frame id) (queue r n'))]> ss) ps m rs' cs n'.
Proof.
  intros Hs Hx Hp Hq Hn Hrs Hse.
  destruct (sd_strand _ _ _ _ _ _ _ Hs _ _ _ Hx) as (l' & r' & Hp' & Kr & -> & Hu & Hi & Ho).
  rewrite Hp in Hp'. injection Hp' as <- <-. split; [by rewrite Hq |].
  assert (Hsome : forall j, is_Some (ss !! j) -> is_Some (<[id := (x, map (command_frame id) (queue r n'))]> ss !! j)).
  { intros j. destruct (decide (j = id)) as [-> | Hj]; [rewrite lookup_insert_eq; eauto | by rewrite lookup_insert_ne]. }
  destruct (Hn _ Kr) as (Kr' & Lr & _). split; try apply Hs.
  - intros j Hj. by apply Hsome, (sd_map _ _ _ _ _ _ _ Hs).
  - intros j Hj. by apply Hsome, (sd_places _ _ _ _ _ _ _ Hs).
  - intros j x0 q0 [[<- [= <- <-]] | [Hj Hx0]]%lookup_insert_Some; [by exists l, r |].
    destruct (sd_strand _ _ _ _ _ _ _ Hs _ _ _ Hx0) as (lj & rj & Hpj & Kj & -> & Huj & Hij & Hoj).
    destruct (Hn _ Kj) as (Kj' & _ & Hqj). exists lj, rj. rewrite Hqj; [by split_and! |].
    intros ->. apply Hj. by eapply (sd_chan _ _ _ _ _ _ _ Hs).
  - intros h Hh. destruct (sd_handle _ _ _ _ _ _ _ Hs _ Hh) as (x0 & q0 & r0 & A1 & A2 & A3 & A4 & A5 & A6 & A7 & A8).
    destruct (Hn _ (stored_known _ _ _ _ _ _ _ _ _ _ Hs A2)) as (_ & L0 & _). rewrite <- L0 in A7.
    destruct (decide (st_id h = id)) as [E | E].
    + rewrite E in *. rewrite Hx in A1. injection A1 as <- <-.
      exists x, (map (command_frame id) (queue r n')), r0. rewrite E, lookup_insert_eq. by split_and!.
    + exists x0, q0, r0. rewrite lookup_insert_ne by done. by split_and!.
  - done.
  - done.
Qed.

(** *** Handles *)

(** Distinct handles are of distinct streams. *)
Lemma handle_distinct hs i j h g :
  NoDup (st_id <$> hs) -> hs !! i = Some h -> hs !! j = Some g -> i <> j -> st_id g <> st_id h.
Proof.
  intros Hn Hi Hj Hij E. apply Hij. eapply (NoDup_lookup (st_id <$> hs)); [done | |].
  - by rewrite list_lookup_fmap, Hi.
  - by rewrite list_lookup_fmap, Hj, <- E.
Qed.

Lemma delete_distinct hs i h g :
  NoDup (st_id <$> hs) -> hs !! i = Some h -> g ∈ delete i hs -> g ∈ hs /\ st_id g <> st_id h.
Proof.
  intros Hn Hi (j & Hj)%list_elem_of_lookup. rewrite list_lookup_delete in Hj.
  assert (exists j', j' <> i /\ hs !! j' = Some g) as (j' & Hij & Hj').
  { case_decide; [exists j | exists (S j)]; (split; [lia | done]). }
  split; [by eapply list_elem_of_lookup_2 | by eapply (handle_distinct hs i j')].
Qed.

(** The program uses a handle. *)
Lemma stored_handle hs ss ps m rs cs n i h h' x q r x' cs' n' :
  stored hs ss ps m rs cs n -> hs !! i = Some h -> ss !! st_id h = Some (x, q) -> ps !! st_id h = Some (st_shared h, r) ->
  st_id h' = st_id h -> st_shared h' = st_shared h -> st_sender h' = st_sender h ->
  st_window_update_sender h' = st_window_update_sender h -> en_flag x' = st_flag h' -> en_status x' = en_status x ->
  (forall l', l' <> st_shared h -> cs' !! l' = cs !! l') ->
  (exists k, cs' !! st_shared h = Some (mkCell k (en_sh x'))) -> channel_step r n n' ->
  stored (<[i := h']> hs) (<[st_id h := (x', map (command_frame (st_id h)) (queue r n'))]> ss) ps m rs cs' n'.
Proof.
  intros Hs Hi Hx Hp E1 E2 E3 E4 Efl Est Hcs Hc Hn.
  assert (Hin : h ∈ hs) by (by eapply list_elem_of_lookup_2).
  assert (Hids : st_id <$> <[i := h']> hs = st_id <$> hs).
  { rewrite list_fmap_insert, E1. apply list_insert_id. by rewrite list_lookup_fmap, Hi. }
  assert (Hsome : forall j, is_Some (ss !! j) ->
    is_Some (<[st_id h := (x', map (command_frame (st_id h)) (queue r n'))]> ss !! j)).
  { intros j. destruct (decide (j = st_id h)) as [-> | Hj]; [rewrite lookup_insert_eq; eauto | by rewrite lookup_insert_ne]. }
  pose proof (handle_kept hs m h Hin) as Hk. pose proof (stored_known _ _ _ _ _ _ _ _ _ _ Hs Hp) as Kr.
  destruct (Hn _ Kr) as (Kr' & Lr & _).
  destruct (sd_handle _ _ _ _ _ _ _ Hs _ Hin) as (x0 & q0 & r0 & A1 & A2 & A3 & A4 & A5 & A6 & A7 & A8).
  rewrite Hx in A1. injection A1 as <- <-. rewrite Hp in A2. injection A2 as <-.
  destruct (sd_strand _ _ _ _ _ _ _ Hs _ _ _ Hx) as (l1 & r1 & B1 & B2 & B3 & B4 & B5 & B6).
  rewrite Hp in B1. injection B1 as <- <-. split; try apply Hs.
  - intros j Hj. by apply Hsome, (sd_map _ _ _ _ _ _ _ Hs).
  - intros j Hj. by apply Hsome, (sd_places _ _ _ _ _ _ _ Hs).
  - intros j y p [[<- [= <- <-]] | [Hj Hy]]%lookup_insert_Some.
    + exists (st_shared h), r. rewrite Est. split_and!; try done. intros Hkn. by split; [apply B5 |].
    + by destruct (strand_other hs ss ps m rs cs n (st_id h) (st_shared h) r j y p m cs' n' ss Hs Hp Hk (not_eq_sym Hj) Hy
        eq_refl Hcs Hn eq_refl).
  - intros g (j & Hj)%list_elem_of_lookup. destruct (decide (i = j)) as [<- | Hij].
    + rewrite list_lookup_insert_eq in Hj by (by eapply lookup_lt_Some). injection Hj as <-.
      exists x', (map (command_frame (st_id h)) (queue r n')), r.
      rewrite E1, E2, E3, E4, lookup_insert_eq, Lr, Est. by split_and!.
    + rewrite list_lookup_insert_ne in Hj by done.
      pose proof (handle_distinct _ _ _ _ _ (sd_unique _ _ _ _ _ _ _ Hs) Hi Hj Hij) as Hne.
      assert (Hg : g ∈ hs) by (by eapply list_elem_of_lookup_2).
      destruct (sd_handle _ _ _ _ _ _ _ Hs _ Hg) as (y & p & r2 & Hy & _).
      destruct (strand_other hs ss ps m rs cs n (st_id h) (st_shared h) r (st_id g) y p m cs' n'
        (<[st_id h := (x', map (command_frame (st_id h)) (queue r n'))]> ss) Hs Hp Hk Hne Hy
        eq_refl Hcs Hn (lookup_insert_ne _ _ _ _ (not_eq_sym Hne))) as [_ Hgo]. by apply Hgo.
  - rewrite Hids. apply Hs.
  - intros j j' l r2 r3 Hj Hj' K1 K2. unfold kept in K1, K2. rewrite Hids in K1, K2.
    by eapply (sd_apart _ _ _ _ _ _ _ Hs).
  - intros j lj rj Hj. destruct (decide (j = st_id h)) as [-> | Hne]; [| exact (served_other _ _ _ _ _ _ _ _ _ _ _ _ _ _ Hs Hp Hn Hj Hne)].
    rewrite Hp in Hj. injection Hj as _ <-. right. rewrite <- A5. by eapply handle_attended.
Qed.

(** A handle is dropped. *)
Lemma stored_drop hs ss ps m rs cs n i h r cs' n' :
  stored hs ss ps m rs cs n -> hs !! i = Some h -> ps !! st_id h = Some (st_shared h, r) ->
  (forall l', l' <> st_shared h -> cs' !! l' = cs !! l') ->
  (forall c', cs' !! st_shared h = Some c' -> exists c, cs !! st_shared h = Some c /\ contents c' = contents c) ->
  (m !! st_id h = Some (st_shared h) -> is_Some (cs' !! st_shared h)) ->
  (forall r', known r' n -> known r' n' /\ queue r' n' = queue r' n /\ (r' <> r -> live r' n' = live r' n)) ->
  stored (delete i hs) ss ps m rs cs' n'.
Proof.
  intros Hs Hi Hp Hcs Hc Hm Hn.
  assert (Hin : h ∈ hs) by (by eapply list_elem_of_lookup_2).
  pose proof (fun g => delete_distinct hs i h g (sd_unique _ _ _ _ _ _ _ Hs) Hi) as Hsub.
  assert (Hkk : forall j, kept (delete i hs) m j -> kept hs m j).
  { intros j [Hj | (g & -> & Hg)%list_elem_of_fmap]; [by left |]. apply handle_kept. by apply Hsub. }
  pose proof (handle_kept hs m h Hin) as Hk.
  split; try apply Hs.
  - intros j x q Hx. destruct (sd_strand _ _ _ _ _ _ _ Hs _ _ _ Hx) as (l & r' & B1 & B2 & -> & B4 & B5 & B6).
    destruct (Hn _ B2) as (K & Qe & _). exists l, r'. rewrite Qe. split_and!; try done. intros Hkn. destruct (B5 Hkn) as (B7 & k & B8).
    split; [done |]. destruct (decide (j = st_id h)) as [-> | Hj].
    + rewrite Hp in B1. injection B1 as <- <-. destruct (Hm B7) as [[k' sh'] Hc']. exists k'.
      destruct (Hc _ Hc') as ([k0 sh0] & Hc0 & E). simpl in E. rewrite B8 in Hc0. injection Hc0 as <- <-. by rewrite Hc', E.
    + destruct (kept_apart _ _ _ _ _ _ _ _ _ _ _ _ _ Hs Hp B1 Hj) as [_ Hl].
      rewrite Hcs; [eauto |]. apply Hl; [done |]. by eapply known_kept.
  - intros g Hg. destruct (Hsub _ Hg) as [Hgh Hne].
    destruct (sd_handle _ _ _ _ _ _ _ Hs _ Hgh) as (x & q & r0 & A1 & A2 & A3 & A4 & A5 & A6 & A7 & A8).
    destruct (kept_apart _ _ _ _ _ _ _ _ _ _ _ _ _ Hs Hp A2 Hne) as [Hr Hl].
    destruct (Hn _ (stored_known _ _ _ _ _ _ _ _ _ _ Hs A2)) as (_ & _ & L).
    exists x, q, r0. rewrite (L Hr), Hcs by (apply Hl; [done | by apply handle_kept]). by split_and!.
  - eapply sublist_NoDup; [apply (sd_unique _ _ _ _ _ _ _ Hs) |]. apply fmap_sublist, sublist_delete.
  - intros j j' l r1 r2 Hj Hj' K1 K2. eapply (sd_apart _ _ _ _ _ _ _ Hs); eauto.
  - intros j lj rj Hj. destruct (decide (j = st_id h)) as [-> | Hne].
    + rewrite Hp in Hj. injection Hj as _ <-. right.
      destruct (sd_handle _ _ _ _ _ _ _ Hs _ Hin) as (x & q & r0 & _ & A2 & _ & _ & A5 & _).
      rewrite Hp in A2. injection A2 as <-. rewrite <- A5. by eapply handle_attended.
    + destruct (kept_apart _ _ _ _ _ _ _ _ _ _ _ _ _ Hs Hp Hj Hne) as [Hr _].
      destruct (Hn _ (stored_known _ _ _ _ _ _ _ _ _ _ Hs Hj)) as (_ & Q & L).
      apply (served_net rs n); [done | by apply L | exact (sd_served _ _ _ _ _ _ _ Hs _ _ _ Hj)].
Qed.

(** *** New streams *)

Lemma stored_new hs ss ps m rs cs n st r sh m' cs' n' :
  stored hs ss ps m rs cs n -> ss !! st_id st = None -> cs !! st_shared st = None ->
  m' !! st_id st = Some (st_shared st) -> (forall j, j <> st_id st -> m' !! j = m !! j) ->
  (exists k, cs' !! st_shared st = Some (mkCell k sh)) -> (forall l', l' <> st_shared st -> cs' !! l' = cs !! l') ->
  target (st_sender st) = r -> target (st_window_update_sender st) = r -> ~ known r n -> known r n' -> queue r n' = [] ->
  live r n' = Some 2%nat ->
  (forall r', known r' n -> known r' n' /\ queue r' n' = queue r' n /\ live r' n' = live r' n) ->
  stored (st :: hs) (<[st_id st := (mkEnd sh Known (st_flag st) [] [], [])]> ss) (<[st_id st := (st_shared st, r)]> ps)
    m' (select_all_push (tagged_new (st_id st) r) rs) cs' n'.
Proof.
  intros Hs Hnew Hfr Hm' Hm Hc Hcs Ht Ht' Hr Kr Qr Lr Hn. set (id := st_id st) in *.
  assert (Hps : ps !! id = None).
  { destruct (ps !! id) eqn:E; [| done]. destruct (sd_places _ _ _ _ _ _ _ Hs id) as [? Hx]; [by rewrite E |]. by rewrite Hx in Hnew. }
  assert (Hnh : forall h, h ∈ hs -> st_id h <> id).
  { intros h Hh E. destruct (sd_handle _ _ _ _ _ _ _ Hs _ Hh) as (x & q & r0 & A1 & _). rewrite E in A1. congruence. }
  assert (Hkk : forall j, j <> id -> kept (st :: hs) m' j -> kept hs m j).
  { intros j Hj [Hmj | Hin]; [left; by rewrite <- Hm |]. right. rewrite fmap_cons in Hin.
    apply elem_of_cons in Hin as [E | Hin]; [done | done]. }
  assert (Hfar : forall j l r', ps !! j = Some (l, r') -> kept hs m j -> l <> st_shared st).
  { intros j l r' Hj Hkj ->. destruct (kept_cell _ _ _ _ _ _ _ _ _ _ Hs Hj Hkj) as [c E]. by rewrite Hfr in E. }
  split.
  - intros j Hj. destruct (decide (j = id)) as [-> | Hne]; [rewrite lookup_insert_eq; eauto |].
    rewrite lookup_insert_ne by done. apply (sd_map _ _ _ _ _ _ _ Hs). by rewrite <- Hm.
  - intros j Hj. destruct (decide (j = id)) as [-> | Hne]; [rewrite lookup_insert_eq; eauto |].
    rewrite lookup_insert_ne by done. rewrite lookup_insert_ne in Hj by done. by apply (sd_places _ _ _ _ _ _ _ Hs).
  - intros j x q [[<- [= <- <-]] | [Hj Hx]]%lookup_insert_Some.
    + exists (st_shared st), r. rewrite lookup_insert_eq, Qr. by split_and!.
    + destruct (sd_strand _ _ _ _ _ _ _ Hs _ _ _ Hx) as (l & r' & B1 & B2 & -> & B4 & B5 & B6).
      destruct (Hn _ B2) as (K & Qe & _). exists l, r'. rewrite Qe, lookup_insert_ne, Hm by done. split_and!; try done.
      intros Hkn. split; [by apply B5 |]. rewrite Hcs; [by apply B5 |].
      eapply Hfar; [exact B1 | by eapply known_kept].
  - intros h [-> | Hh]%elem_of_cons.
    + exists (mkEnd sh Known (st_flag st) [] []), [], r. fold id. rewrite !lookup_insert_eq. by split_and!.
    + pose proof (Hnh _ Hh) as Hne.
      destruct (sd_handle _ _ _ _ _ _ _ Hs _ Hh) as (x & q & r0 & A1 & A2 & A3 & A4 & A5 & A6 & A7 & A8).
      destruct (Hn _ (stored_known _ _ _ _ _ _ _ _ _ _ Hs A2)) as (_ & _ & L).
      exists x, q, r0. rewrite !lookup_insert_ne, L, Hcs by (first [done | eapply Hfar; [exact A2 | by apply handle_kept]]).
      by split_and!.
  - rewrite fmap_cons. apply NoDup_cons_2; [| apply Hs]. intros (h & E & Hh)%list_elem_of_fmap. by apply (Hnh h).
  - intros j j' l r1 r2 Hj Hj' K1 K2. destruct (decide (j = id)) as [-> | E1], (decide (j' = id)) as [-> | E2].
    + done.
    + rewrite lookup_insert_eq in Hj. injection Hj as <- <-. rewrite lookup_insert_ne in Hj' by done.
      exfalso. eapply Hfar; [exact Hj' | by apply Hkk | done].
    + rewrite lookup_insert_eq in Hj'. injection Hj' as <- <-. rewrite lookup_insert_ne in Hj by done.
      exfalso. eapply Hfar; [exact Hj | by apply Hkk | done].
    + rewrite lookup_insert_ne in Hj, Hj' by done. eapply (sd_apart _ _ _ _ _ _ _ Hs); eauto.
  - intros j j' l l' r1 Hj Hj'. destruct (decide (j = id)) as [-> | E1], (decide (j' = id)) as [-> | E2].
    + done.
    + rewrite lookup_insert_eq in Hj. injection Hj as <- <-. rewrite lookup_insert_ne in Hj' by done.
      exfalso. apply Hr. by eapply stored_known.
    + rewrite lookup_insert_eq in Hj'. injection Hj' as <- <-. rewrite lookup_insert_ne in Hj by done.
      exfalso. apply Hr. by eapply stored_known.
    + rewrite lookup_insert_ne in Hj, Hj' by done. by eapply (sd_chan _ _ _ _ _ _ _ Hs).
  - apply select_all_push_law.
    + exists (st_shared st). simpl. by rewrite lookup_insert_eq.
    + eapply select_all_mono_law; [| apply (sd_members _ _ _ _ _ _ _ Hs)].
      intros t [l Hl]. exists l. rewrite lookup_insert_ne; [done |]. intros E. by rewrite <- E, Hps in Hl.
  - intros j lj rj Hj. destruct (decide (j = id)) as [-> | Hne].
    + rewrite lookup_insert_eq in Hj. injection Hj as _ <-. right. eexists. split; [apply in_push_law; by left | done].
    + rewrite lookup_insert_ne in Hj by done. destruct (Hn _ (stored_known _ _ _ _ _ _ _ _ _ _ Hs Hj)) as (_ & Q & L).
      destruct (sd_served _ _ _ _ _ _ _ Hs _ _ _ Hj) as [[F1 F2] | Ha]; [left | right; by apply attended_push].
      split; [congruence | by rewrite L].
Qed.

(** Nothing is stored at first. *)
Lemma stored_empty cs n : stored [] ∅ ∅ ∅ select_all_default cs n.
Proof.
  split; try done.
  - by intros id [].
  - by intros id [].
  - by intros h ?%not_elem_of_nil.
  - constructor.
  - apply select_all_default_law.
Qed.
End store.
