(* ===== verification/Closing.v ===== *)
(** * Leaving: [connection/closing.rs] and [connection/cleanup.rs]

    The future that closes a connection gracefully and the one that releases its resources after an
    error; and [Active::close] and [Active::cleanup], which start them. *)
From Stdlib Require Import ZArith Lia Strings.Byte.
From stdpp Require Import base option list gmap numbers.
From S2P Require Import Prelude.
From S2P Require Import Header.
From S2P Require Import Frame.
From S2P Require Import Config.
From S2P Require Import Command.
From S2P Require Import Rtt.
From S2P Require Import ChunkList.
From S2P Require Import FlowControl.
From S2P Require Import Shared.
From S2P Require Import Heap.
From S2P Require Import Channel.
From S2P Require Import TaggedStream.
From S2P Require Import StreamHandle.
From S2P Require Import Connection.

Inductive ClosingState : Set :=
| ClosingStreamReceiver
| DrainingStreamReceiver
| FlushingPendingFrames
| ClosingSocket.

Inductive CleanupState : Set :=
| CleanupClosing
| CleanupDraining.

Section closing.
Context `{Arch, Mpsc, SelectAllOps, FrameSocket, MapOrder}.

(** [Closing]; the queue of frames is a list with its front first. *)
Record Closing : Type := mkClosing {
  cl_state : ClosingState;
  cl_receivers : Receivers;
  cl_pending : list (Frame unit);
  cl_socket : FSock;
}.

Definition closing_new (rs : Receivers) (pending : list (Frame unit)) (socket : FSock) : Closing :=
  mkClosing ClosingStreamReceiver rs pending socket.

Definition set_cl_state (x : ClosingState) (c : Closing) : Closing :=
  mkClosing x (cl_receivers c) (cl_pending c) (cl_socket c).
Definition set_cl_pending (x : list (Frame unit)) (c : Closing) : Closing :=
  mkClosing (cl_state c) (cl_receivers c) x (cl_socket c).
Definition set_cl_socket (x : FSock) (c : Closing) : Closing :=
  mkClosing (cl_state c) (cl_receivers c) (cl_pending c) x.

(** Polling works on the future and the channels. *)
Definition CS : Type := Closing * Net.

Definition cl {A} (f : Closing -> A) : M CS A := gets (fun s => f (fst s)).
Definition cl_upd (f : Closing -> Closing) : M CS unit := modify (fun s => (f (fst s), snd s)).
Definition cl_sock {A} (m : M FSock A) : M CS A :=
  zoom (fun s => cl_socket (fst s)) (fun x s => (set_cl_socket x (fst s), snd s)) m.

(** [for stream in stream_receivers.iter_mut() { stream.inner_mut().close() }]. *)
Definition close_receivers (rs : Receivers) (n : Net) : Net :=
  select_all_for_each (fun t n => receiver_close (ts_inner t) n) rs n.

Definition cl_poll_receivers (cx : Waker) : M CS (poll (option (Z * option StreamCommand))) := fun s =>
  let '(p, rs, n) :=
    select_all_poll_next (tagged_poll_next (receiver_poll cx)) (cl_receivers (fst s)) (snd s) in
  Ret (p, (mkClosing (cl_state (fst s)) rs (cl_pending (fst s)) (cl_socket (fst s)), n)).

Definition push_pending (f : Frame unit) : M CS unit := cl_upd (fun c => set_cl_pending (cl_pending c ++ [f]) c).

(** One iteration of the loop: [None] for going on. *)
Definition closing_iter (cx : Waker) : M CS (option (poll (result unit ConnectionError))) :=
  state ← cl cl_state;
  match state with
  | ClosingStreamReceiver =>
      modify (fun s => (fst s, close_receivers (cl_receivers (fst s)) (snd s))) ≫= fun _ =>
      cl_upd (set_cl_state DrainingStreamReceiver) ≫= fun _ => mret None
  | DrainingStreamReceiver =>
      p ← cl_poll_receivers cx;
      match p with
      | Ready (Some (id, Some c)) => push_pending (command_frame id c) ≫= fun _ => mret None
      | Ready (Some (_, None)) => mret None
      | Pending | Ready None =>
          push_pending (frame_erase frame_term) ≫= fun _ =>
          cl_upd (set_cl_state FlushingPendingFrames) ≫= fun _ => mret None
      end
  | FlushingPendingFrames =>
      r ← cl_sock (sock_poll_ready cx);
      match r with
      | Pending => mret (Some Pending)
      | Ready (Err e) => mret (Some (Ready (Err (ErrIo e))))
      | Ready (Ok _) =>
          pending ← cl cl_pending;
          match pending with
          | frame :: rest =>
              cl_upd (set_cl_pending rest) ≫= fun _ =>
              r ← cl_sock (sock_start_send frame);
              match r with
              | Err e => mret (Some (Ready (Err (ErrIo e))))
              | Ok _ => mret None
              end
          | [] => cl_upd (set_cl_state ClosingSocket) ≫= fun _ => mret None
          end
      end
  | ClosingSocket =>
      r ← cl_sock (sock_poll_close cx);
      match r with
      | Pending => mret (Some Pending)
      | Ready (Err e) => mret (Some (Ready (Err (ErrIo e))))
      | Ready (Ok _) => mret (Some (Ready (Ok tt)))
      end
  end.

Definition closing_poll (fuel : nat) (cx : Waker) : M CS (poll (result unit ConnectionError)) :=
  loop (closing_iter cx) fuel.

(** ** Cleanup *)

Record Cleanup : Type := mkCleanup {
  cu_state : CleanupState;
  cu_receivers : Receivers;
  cu_error : option ConnectionError;
}.

Definition cleanup_new (rs : Receivers) (error : ConnectionError) : Cleanup :=
  mkCleanup CleanupClosing rs (Some error).

Definition US : Type := Cleanup * Net.

(** One iteration; the error is taken, and the future must not be polled again. *)
Definition cleanup_iter (cx : Waker) : M US (option (poll ConnectionError)) := fun s =>
  let '(u, n) := s in
  match cu_state u with
  | CleanupClosing =>
      Ret (None, (mkCleanup CleanupDraining (cu_receivers u) (cu_error u), close_receivers (cu_receivers u) n))
  | CleanupDraining =>
      let '(p, rs, n) := select_all_poll_next (tagged_poll_next (receiver_poll cx)) (cu_receivers u) n in
      match p with
      | Ready (Some _) => Ret (None, (mkCleanup (cu_state u) rs (cu_error u), n))
      | Ready None | Pending =>
          e ← expect (cu_error u);
          Ret (Some (Ready e), (mkCleanup (cu_state u) rs None, n))
      end
  end.

Definition cleanup_poll (fuel : nat) (cx : Waker) : M US (poll ConnectionError) :=
  loop (cleanup_iter cx) fuel.

(** ** Leaving the active state *)

Fixpoint drop_arcs (ps : list (Z * positive)) : M AS unit :=
  match ps with
  | [] => mret tt
  | (_, l) :: ps => drop_arc (Some l) ≫= fun _ => drop_arcs ps
  end.

(** [Active::close]: what is not handed to the future is dropped, the map of streams among it. *)
Definition active_close : M AS Closing :=
  r ← ac ac_pending_read_frame;
  w ← ac ac_pending_write_frame;
  rs ← ac ac_receivers;
  socket ← ac ac_socket;
  ps ← ac (fun a => map_drain (ac_streams a));
  upd (set_streams ∅) ≫= fun _ =>
  drop_arcs ps ≫= fun _ =>
  mret (closing_new rs (option_list r ++ option_list w) socket).

(** [Active::cleanup]. *)
Definition active_cleanup (error : ConnectionError) : M AS Cleanup :=
  drop_all_streams ≫= fun _ =>
  rs ← ac ac_receivers;
  mret (cleanup_new rs error).
End closing.
