(* ===== verification/ClosingSpec.v ===== *)
(** * Properties of closing and cleaning up

    A graceful close sends what is pending, what the streams have left in their channels, and one
    final [GoAway], in this order; both futures end, and neither panics. *)
From Stdlib Require Import ZArith Lia Strings.Byte.
From stdpp Require Import base option list gmap numbers.
From S2P Require Import Prelude.
From S2P Require Import Header.
From S2P Require Import Frame.
From S2P Require Import Config.
From S2P Require Import Command.
From S2P Require Import Rtt.
From S2P Require Import ChunkList.
From S2P Require Import FlowControl.
From S2P Require Import Shared.
From S2P Require Import Heap.
From S2P Require Import Channel.
From S2P Require Import TaggedStream.
From S2P Require Import StreamHandle.
From S2P Require Import FrameIo.
From S2P Require Import FrameIoSpec.
From S2P Require Import Connection.
From S2P Require Import ConnInvariant.
From S2P Require Import ConnSteps.
From S2P Require Import ConnHandlers.
From S2P Require Import ConnLoop.
From S2P Require Import Closing.

Section closing_spec.
Context `{Arch, Mpsc, SelectAllOps, FrameSocket, MapOrder}.
Context `{!MpscLaws, !SelectAllLaws, !FrameSocketLaws, !FrameSocketWire}.

(** What the socket has been given and what is queued for it. *)
Definition due (c : Closing) : list byte := sock_wire (cl_socket c) ++ wires (cl_pending c).

Definition term_wire : list byte := frame_wire (frame_erase frame_term).

(** Everything the closing connection sends after the bytes [W]: frames of the streams, and, once
    their channels are drained, the [GoAway]. *)
Definition closing_sends (W : list byte) (c : Closing) : Prop :=
  exists cmds,
    due c = W ++ wires cmds ++
      match cl_state c with
      | ClosingStreamReceiver | DrainingStreamReceiver => []
      | FlushingPendingFrames | ClosingSocket => term_wire
      end.

Record closing_ok (W : list byte) (c : Closing) (n : Net) : Prop := {
  clo_net : net_ok n;
  clo_sock : sock_ok (cl_socket c);
  clo_receivers : select_all_all key_ok (cl_receivers c);
  clo_pending : Forall frame_wf (cl_pending c);
  clo_sends : closing_sends W c;
  clo_done : cl_state c = ClosingSocket -> cl_pending c = [];
}.

Definition closing_rank (s : ClosingState) : nat :=
  match s with
  | ClosingStreamReceiver => 5
  | DrainingStreamReceiver => 4
  | FlushingPendingFrames => 2
  | ClosingSocket => 1
  end.

Definition closing_work (fw : FiniteWork) (c : Closing) (n : Net) : nat :=
  (2 * commands_left (cl_receivers c) n + length (cl_pending c) + closing_rank (cl_state c))%nat.

(** What a poll may give. *)
Definition closing_result (W : list byte) (r : poll (result unit ConnectionError)) (c : Closing) (n : Net)
    : Prop :=
  net_ok n /\
  match r with
  | Pending => closing_ok W c n
  | Ready (Ok _) => exists cmds, sock_wire (cl_socket c) = W ++ wires cmds ++ term_wire
  | Ready (Err e) => exists ioe, e = ErrIo ioe
  end.

Definition closing_flow (W : list byte) (c : Closing) (n : Net)
    (r : option (poll (result unit ConnectionError))) (c' : Closing) (n' : Net) : Prop :=
  match r with
  | None => closing_ok W c' n' /\ forall fw : FiniteWork, (closing_work fw c' n' < closing_work fw c n)%nat
  | Some r => closing_result W r c' n'
  end.

Lemma cl_sock_step {A} c n (m : M FSock A) (Q : A -> FSock -> Prop) (P : A -> CS -> Prop) :
  wp m Q (cl_socket c) ->
  (forall x s, Q x s -> m (cl_socket c) = Ret (x, s) -> P x (set_cl_socket s c, n)) ->
  wp (cl_sock m) P (c, n).
Proof.
  intros Hm HP. apply wp_zoom. eapply wp_mono; [by apply wp_eq, Hm |]. intros x s [HQ He]. by apply HP.
Qed.

Lemma cl_get {A} (f : Closing -> A) (Q : A -> CS -> Prop) c n : Q (f c) (c, n) -> wp (cl f) Q (c, n).
Proof. done. Qed.

Lemma cl_set (f : Closing -> Closing) (Q : unit -> CS -> Prop) c n : Q tt (f c, n) -> wp (cl_upd f) Q (c, n).
Proof. done. Qed.

(** The commands that are left in the channels. *)
Lemma drain_ok cx rs n :
  select_all_all key_ok rs -> net_ok n ->
  let '(p, rs', n') := select_all_poll_next (tagged_poll_next (receiver_poll cx)) rs n in
  select_all_all key_ok rs' /\ net_ok n' /\
  (forall id o, p = Ready (Some (id, o)) -> 0 <= id <= u32_max /\ forall c, o = Some c -> cmd_ok c).
Proof.
  intros Hall Hn.
  pose proof (select_all_next_law _ _ _ (tagged_poll_next (receiver_poll cx)) key_ok net_ok
    (fun item : Z * option StreamCommand => 0 <= item.1 <= u32_max /\ forall c, item.2 = Some c -> cmd_ok c)) as Hlaw.
  specialize (Hlaw (receiver_poll_ok cx) rs n Hall Hn).
  destruct (select_all_poll_next _ _ _) as [[p rs'] n']. destruct Hlaw as (? & ? & Hitem).
  split_and!; try done. intros id o ->. by apply (Hitem (id, o)).
Qed.

Lemma term_wf : frame_wf (frame_erase frame_term).
Proof. apply frame_wf_erase, (frame_go_away_wf 0). vm_compute. split; discriminate. Qed.

(** One more frame in the queue. *)
Lemma closing_push W c n rs n' f cmds (st : ClosingState) :
  closing_ok W c n -> due c = W ++ wires cmds -> net_ok n' -> select_all_all key_ok rs -> frame_wf f ->
  (st = DrainingStreamReceiver \/ st = FlushingPendingFrames /\ f = frame_erase frame_term) ->
  closing_ok W (mkClosing st rs (cl_pending c ++ [f]) (cl_socket c)) n'.
Proof.
  intros [Hn Hs Hr Hp _ _] Hd Hn' Hr' Hf Hst. split; try done; simpl.
  - apply Forall_app. by split; [| apply Forall_singleton].
  - unfold closing_sends, due in *. simpl. rewrite wires_app, wires_one, app_assoc, Hd.
    destruct Hst as [-> | [-> ->]].
    + exists (cmds ++ [f]). by rewrite wires_app, wires_one, app_nil_r, <- app_assoc.
    + exists cmds. by rewrite <- app_assoc.
  - by destruct Hst as [-> | [-> _]].
Qed.

Lemma closing_drain_ok W c n cx :
  closing_ok W c n -> cl_state c = DrainingStreamReceiver ->
  wp (closing_iter cx) (fun r '(c', n') => closing_flow W c n r c' n') (c, n).
Proof.
  intros Hok Hst. pose proof Hok as [Hn Hs Hr Hp [cmds Hd] Hdone].
  unfold closing_iter. wp_step. apply cl_get. rewrite Hst in *. rewrite app_nil_r in Hd.
  pose proof (drain_ok cx _ _ Hr Hn) as Hdr.
  pose proof (fun fw : FiniteWork => commands_next_law cx (cl_receivers c) n) as Hleft.
  wp_step. unfold wp at 1, cl_poll_receivers. cbn [fst snd].
  destruct (select_all_poll_next _ _ _) as [[p rs] n1]. destruct Hdr as (Hr' & Hn' & Hitem).
  assert (Hstop : (forall fw : FiniteWork, (commands_left rs n1 <= commands_left (cl_receivers c) n)%nat) ->
    closing_flow W c n None
      (mkClosing FlushingPendingFrames rs (cl_pending c ++ [frame_erase frame_term]) (cl_socket c)) n1).
  { intros Hle. split; [apply (closing_push W c n _ _ _ cmds); first [done | apply term_wf | by right] |].
    intros fw. specialize (Hle fw). unfold closing_work. rewrite Hst. simpl. rewrite length_app. simpl. lia. }
  destruct p as [[[id [cmd|]]|]|]; [| | exact (Hstop Hleft)..].
  - destruct (Hitem id (Some cmd) eq_refl) as [Hid Hc]. split.
    + apply (closing_push W c n _ _ _ cmds); first [done | by left | apply command_frame_wf; [done | by apply Hc]].
    + intros fw. specialize (Hleft fw). unfold closing_work. simpl. rewrite Hst, length_app. simpl. lia.
  - split.
    + split; try done; simpl; [| by rewrite Hst]. exists cmds. simpl. by rewrite Hst, app_nil_r.
    + intros fw. specialize (Hleft fw). unfold closing_work. simpl. rewrite Hst. lia.
Qed.

Lemma closing_flush_ok W c n cx :
  closing_ok W c n -> cl_state c = FlushingPendingFrames ->
  wp (closing_iter cx) (fun r '(c', n') => closing_flow W c n r c' n') (c, n).
Proof.
  intros Hok Hst. pose proof Hok as [Hn Hs Hr Hp [cmds Hd] Hdone].
  unfold closing_iter. wp_step. apply cl_get. rewrite Hst in *.
  wp_step. eapply cl_sock_step; [by apply sock_ready_law |]. intros r s1 Hs1 He.
  destruct (wire_ready_law _ _ _ _ Hs He) as [Hw1 Hidle].
  destruct r as [[[]|e]|].
  - wp_step. apply cl_get. simpl. destruct (cl_pending c) as [|f rest] eqn:Hpend.
    + wp_step. apply cl_set. apply wp_ret. split.
      * split; try done; simpl; [by rewrite Hpend |]. exists cmds. unfold due in *. simpl.
        by rewrite Hw1, Hpend, <- Hd, Hpend.
      * intros fw. unfold closing_work. simpl. rewrite Hst. simpl. lia.
    + inversion Hp as [|? ? Hf Hrest]; subst. wp_step. apply cl_set. wp_step.
      eapply cl_sock_step; [by apply sock_send_law |]. intros r s2 Hs2 He2. simpl in He2.
      destruct (wire_send_law _ _ _ _ Hs1 (Hidle eq_refl) Hf He2) as [-> Hw2].
      apply wp_ret. split.
      * split; try done; simpl; [| by rewrite Hst]. exists cmds. unfold due in *. simpl. rewrite Hst.
        by rewrite Hw2, Hw1, <- Hd, Hpend, wires_cons, app_assoc.
      * intros fw. unfold closing_work. simpl. rewrite Hpend. simpl. lia.
  - apply wp_ret. split; [done | by exists e].
  - apply wp_ret. split; [done |]. split; try done; simpl; [| by rewrite Hst]. exists cmds. unfold due in *. simpl.
    by rewrite Hst, Hw1.
Qed.

Lemma closing_iter_ok W c n cx :
  closing_ok W c n -> wp (closing_iter cx) (fun r '(c', n') => closing_flow W c n r c' n') (c, n).
Proof.
  intros Hok. destruct (cl_state c) eqn:Hst; [| by apply closing_drain_ok | by apply closing_flush_ok |].
  - pose proof Hok as [Hn Hs Hr Hp [cmds Hd] Hdone].
    unfold closing_iter. wp_step. apply cl_get. rewrite Hst in *. wp_step. wp_step. wp_step. apply cl_set.
    apply wp_ret. split.
    + split; try done; simpl; [unfold close_receivers | by exists cmds]. apply select_all_each_law; [| done].
      intros t n' Hn'. by apply net_close_law.
    + intros fw. pose proof (commands_close_law (cl_receivers c) n). unfold closing_work, close_receivers.
      simpl. rewrite Hst. simpl. lia.
  - pose proof Hok as [Hn Hs Hr Hp [cmds Hd] Hdone].
    unfold closing_iter. wp_step. apply cl_get. rewrite Hst in *. wp_step.
    eapply cl_sock_step; [by apply sock_close_law |]. intros r s1 Hs1 He.
    pose proof (wire_close_law _ _ _ _ Hs He) as Hw. unfold due in Hd. rewrite (Hdone eq_refl) in Hd.
    unfold wires in Hd at 1. simpl in Hd. rewrite app_nil_r in Hd.
    destruct r as [[[]|e]|]; apply wp_ret; (split; [done |]).
    + exists cmds. simpl. by rewrite Hw.
    + by exists e.
    + split; try done; simpl; [| by intros _; apply Hdone]. exists cmds. unfold due. simpl.
      rewrite Hst, Hw, (Hdone eq_refl). unfold wires at 1. simpl. by rewrite app_nil_r.
Qed.

Lemma closing_poll_ok (fw : FiniteWork) W fuel c n cx :
  closing_ok W c n -> (closing_work fw c n < fuel)%nat ->
  wp (closing_poll fuel cx) (fun r s' => closing_result W r s'.1 s'.2) (c, n).
Proof.
  intros Hok Hf. apply (loop_ok _ (fun s => closing_ok W s.1 s.2) (fun s => closing_work fw s.1 s.2)); [| done | done].
  intros [c1 n1] Hok1. eapply wp_mono; [by apply closing_iter_ok |].
  intros [r|] [c2 n2] Hr; [done |]. split; apply Hr.
Qed.

Lemma closing_poll_safe W fuel c n cx :
  closing_ok W c n -> safe (closing_poll fuel cx) (fun r s' => closing_result W r s'.1 s'.2) (c, n).
Proof.
  intros Hok. apply (loop_safe _ (fun s => closing_ok W s.1 s.2)); [| done].
  intros [c1 n1] Hok1. eapply wp_mono; [by apply closing_iter_ok |]. intros [r|] [c2 n2] Hr; [done | apply Hr].
Qed.

Lemma closing_poll_runs W c n cx :
  closing_ok W c n ->
  runs (inhabited FiniteWork) (fun fuel => closing_poll fuel cx (c, n)) (fun '(r, (c', n')) => closing_result W r c' n').
Proof.
  intros Hok. apply (runs_loop (closing_iter cx)).
  - intros fuel. pose proof (closing_poll_safe W fuel c n cx Hok) as Hs. unfold safe in *.
    fold (closing_poll fuel cx). by destruct (closing_poll fuel cx (c, n)) as [[r []]| |].
  - intros [fw]. exists (S (closing_work fw c n)).
    pose proof (closing_poll_ok fw W (S (closing_work fw c n)) c n cx Hok ltac:(lia)) as Hw.
    eapply wp_mono; [exact Hw |]. by intros r [].
Qed.

Lemma closing_new_ok rs pending socket n :
  net_ok n -> sock_ok socket -> select_all_all key_ok rs -> Forall frame_wf pending ->
  closing_ok (sock_wire socket ++ wires pending) (closing_new rs pending socket) n.
Proof. intros. split; try done. exists []. unfold due. simpl. by rewrite !app_nil_r. Qed.

(** ** Cleanup *)

Definition cleanup_work (fw : FiniteWork) (u : Cleanup) (n : Net) : nat :=
  (commands_left (cu_receivers u) n + match cu_state u with CleanupClosing => 2 | CleanupDraining => 1 end)%nat.

Definition cleanup_ok (e : ConnectionError) (u : Cleanup) (n : Net) : Prop :=
  net_ok n /\ select_all_all key_ok (cu_receivers u) /\ cu_error u = Some e.

Lemma cleanup_iter_ok e u n cx :
  cleanup_ok e u n ->
  wp (cleanup_iter cx) (fun r '(u', n') =>
    match r with
    | Some r => r = Ready e /\ net_ok n'
    | None => cleanup_ok e u' n' /\ forall fw : FiniteWork, (cleanup_work fw u' n' < cleanup_work fw u n)%nat
    end) (u, n).
Proof.
  intros (Hn & Hr & He). unfold wp, cleanup_iter. destruct (cu_state u) eqn:Hst.
  - split.
    + split; [| done]. unfold close_receivers. apply select_all_each_law; [| done].
      intros t n' Hn'. by apply net_close_law.
    + intros fw. pose proof (commands_close_law (cu_receivers u) n). unfold cleanup_work, close_receivers.
      rewrite Hst. simpl. lia.
  - pose proof (drain_ok cx _ _ Hr Hn) as Hdr.
    pose proof (fun fw : FiniteWork => commands_next_law cx (cu_receivers u) n) as Hleft.
    destruct (select_all_poll_next _ _ _) as [[p rs] n1]. destruct Hdr as (Hr' & Hn' & _).
    destruct p as [[it|]|]; [| rewrite He; done..]. split; [done |].
    intros fw. specialize (Hleft fw). unfold cleanup_work. rewrite Hst. simpl. lia.
Qed.

Lemma cleanup_poll_ok (fw : FiniteWork) e fuel u n cx :
  cleanup_ok e u n -> (cleanup_work fw u n < fuel)%nat ->
  wp (cleanup_poll fuel cx) (fun r s' => r = Ready e /\ net_ok s'.2) (u, n).
Proof.
  intros Hok Hf. apply (loop_ok _ (fun s => cleanup_ok e s.1 s.2) (fun s => cleanup_work fw s.1 s.2)); [| done | done].
  intros [u1 n1] Hok1. eapply wp_mono; [by apply cleanup_iter_ok |].
  intros [r|] [u2 n2] Hr; [done |]. split; apply Hr.
Qed.

Lemma cleanup_poll_safe e fuel u n cx :
  cleanup_ok e u n -> safe (cleanup_poll fuel cx) (fun r s' => r = Ready e /\ net_ok s'.2) (u, n).
Proof.
  intros Hok. apply (loop_safe _ (fun s => cleanup_ok e s.1 s.2)); [| done].
  intros [u1 n1] Hok1. eapply wp_mono; [by apply cleanup_iter_ok |]. intros [r|] [u2 n2] Hr; [done | apply Hr].
Qed.

(** ** Leaving the active state *)

Variable cfg : Config.
Implicit Type E : positive -> nat.

Lemma drop_arcs_ok E ps a w :
  conn_ok cfg (fun l => (list_refs ps l + E l)%nat) a w ->
  wp (drop_arcs ps) (fun _ '(a', w') =>
    a' = a /\ conn_ok cfg E a' w' /\ net w' = net w /\ woken (mem w') = woken (mem w) /\
    (forall l c', cells (mem w') !! l = Some c' ->
       exists c, cells (mem w) !! l = Some c /\ contents c' = contents c)) (a, w).
Proof.
  revert w. induction ps as [|[id l] ps IH]; intros w Hok; simpl.
  { apply wp_ret. split_and!; try done. eauto. }
  wp_step. eapply wp_mono; [apply (drop_arc_ok cfg (fun l' => (list_refs ps l' + E l')%nat)) |].
  - eapply conn_ok_ext; [| exact Hok]. intros l'. unfold list_refs, add_ref.
    rewrite filter_cons. simpl. repeat case_decide; simpl; (done || lia).
  - intros _ [a1 w1] (-> & Hok1 & [Ho Hs _ _ Hw] & Hn). eapply wp_mono; [by apply IH |].
    intros _ [a2 w2] (-> & Hok2 & Hn2 & Hw2 & Hc2). split_and!; try done; [congruence.. |].
    intros l' c' Hc'. destruct (Hc2 l' c' Hc') as (c1 & Hc1 & Heq).
    destruct (decide (l = l')) as [<- | Hne].
    + destruct (Hs _ Hc1) as (c & Hc & Heq'). exists c. by rewrite Heq, Heq'.
    + rewrite Ho in Hc1 by done. by exists c1.
Qed.

(** Closing hands the pending frames to the future, the answer to an inbound frame first. It wakes
    nobody, and every stream that a handle still holds stays as it is. *)
Lemma active_close_ok E a w :
  conn_ok cfg E a w -> 0 <= max_num_streams cfg ->
  wp active_close (fun c '(a', w') =>
    a' = set_streams ∅ a /\ conn_ok cfg E a' w' /\ closing_ok (sock_wire (ac_socket a) ++ wires (cl_pending c)) c (net w') /\
    c = closing_new (ac_receivers a)
          (option_list (ac_pending_read_frame a) ++ option_list (ac_pending_write_frame a)) (ac_socket a) /\
    woken (mem w') = woken (mem w) /\
    (forall l c', cells (mem w') !! l = Some c' ->
       exists c, cells (mem w) !! l = Some c /\ contents c' = contents c) /\ net w' = net w) (a, w).
Proof.
  intros Hok Hmax. unfold active_close. wp_step. apply as_ac. wp_step. apply as_ac. wp_step. apply as_ac.
  wp_step. apply as_ac. wp_step. apply as_ac. wp_step. apply as_upd. wp_step.
  assert (Hok1 : conn_ok cfg (fun l => (list_refs (map_drain (ac_streams a)) l + E l)%nat) (set_streams ∅ a) w)
    by (by apply conn_ok_drained).
  eapply wp_mono; [by apply drop_arcs_ok |]. intros _ [a' w'] (-> & Hok' & Hn & Hw & Hc). apply wp_ret.
  split_and!; try done. pose proof Hok as []. split; try done.
  - apply Hok'.
  - simpl. apply Forall_app. split.
    + destruct (ac_pending_read_frame a) as [f|]; [| done]. apply Forall_singleton. by apply co_read.
    + destruct (ac_pending_write_frame a) as [f|]; [| done]. apply Forall_singleton. by apply co_write.
  - exists []. unfold due. simpl. by rewrite !app_nil_r.
Qed.

Lemma active_cleanup_ok E a w e :
  conn_ok cfg E a w -> 0 <= max_num_streams cfg ->
  wp (active_cleanup e) (fun u '(a', w') =>
    a' = set_streams ∅ a /\ conn_ok cfg E a' w' /\ cleanup_ok e u (net w') /\
    all_shut (map_drain (ac_streams a)) (mem w) (mem w')) (a, w).
Proof.
  intros Hok Hmax. unfold active_cleanup. wp_step.
  eapply wp_mono; [by apply (drop_all_streams_ok cfg E) |]. intros _ [a' w'] (-> & Hok' & Hn & Hs).
  wp_step. apply as_ac. apply wp_ret. split; [done |]. split; [done |]. split; [| done].
  split_and!; [apply Hok' | apply Hok' | done].
Qed.
End closing_spec.
