(* ===== verification/ConnectionState.v ===== *)
(** * The connection: [Connection] and [ConnectionState] of [connection.rs]

    The three polling methods of a connection, which run the state it is in and move it to the next
    one, and what dropping the connection does. *)
From Stdlib Require Import ZArith Lia Strings.Byte.
From stdpp Require Import base option list gmap numbers.
From S2P Require Import Prelude.
From S2P Require Import Header.
From S2P Require Import Frame.
From S2P Require Import Config.
From S2P Require Import Command.
From S2P Require Import Rtt.
From S2P Require Import ChunkList.
From S2P Require Import FlowControl.
From S2P Require Import Shared.
From S2P Require Import Heap.
From S2P Require Import Channel.
From S2P Require Import TaggedStream.
From S2P Require Import StreamHandle.
From S2P Require Import Connection.
From S2P Require Import Closing.

Section connection_state.
Context `{Arch, Mpsc, SelectAllOps, FrameSocket, MapOrder}.

Inductive ConnectionState : Type :=
| StActive (a : Active)
| StClosing (c : Closing)
| StCleanup (u : Cleanup)
| StClosed
| StPoisoned.

(** A connection and the world it shares with the stream handles. *)
Definition KS : Type := ConnectionState * World.

(** [Connection::new]. *)
Definition connection_new (socket : FSock) (cfg : Config) (mode : Mode) : ConnectionState :=
  StActive (active_new socket cfg mode).

(** [ConnectionState::Cleanup(active.cleanup(e))]. *)
Definition to_cleanup (e : ConnectionError) (s : Active * World) : outcome KS :=
  '(u, (_, w)) ← active_cleanup e s; Ret (StCleanup u, w).

(** Polling the two futures, whose state includes the channels. *)
Definition run_closing (fuel : nat) (cx : Waker) (c : Closing) (w : World)
    : outcome (poll (result unit ConnectionError) * Closing * World) :=
  '(r, (c, n)) ← closing_poll fuel cx (c, net w); Ret (r, c, set_net n w).

Definition run_cleanup (fuel : nat) (cx : Waker) (u : Cleanup) (w : World)
    : outcome (poll ConnectionError * Cleanup * World) :=
  '(r, (u, n)) ← cleanup_poll fuel cx (u, net w); Ret (r, u, set_net n w).

(** One iteration of [Connection::poll_new_outbound]; [None] for going on. The state is taken out,
    so that a panic would leave it poisoned. *)
Definition new_outbound_iter (fuel : nat) (cx : Waker) : M KS (option (poll (result Stream ConnectionError))) :=
  fun '(st, w) =>
  match st with
  | StActive a =>
      '(r, (a, w)) ← active_poll_new_outbound cx (a, w);
      match r with
      | Ready (Ok stream) => Ret (Some (Ready (Ok stream)), (StActive a, w))
      | Pending => Ret (Some Pending, (StActive a, w))
      | Ready (Err e) => s ← to_cleanup e (a, w); Ret (None, s)
      end
  | StClosing c =>
      '(r, c, w) ← run_closing fuel cx c w;
      match r with
      | Ready (Ok _) => Ret (Some (Ready (Err ErrClosed)), (StClosed, w))
      | Ready (Err e) => Ret (Some (Ready (Err e)), (StClosed, w))
      | Pending => Ret (Some Pending, (StClosing c, w))
      end
  | StCleanup u =>
      '(r, u, w) ← run_cleanup fuel cx u w;
      match r with
      | Ready e => Ret (Some (Ready (Err e)), (StClosed, w))
      | Pending => Ret (Some Pending, (StCleanup u, w))
      end
  | StClosed => Ret (Some (Ready (Err ErrClosed)), (StClosed, w))
  | StPoisoned => Panic
  end.

(** One iteration of [Connection::poll_next_inbound]. *)
Definition next_inbound_iter (fuel : nat) (cx : Waker)
    : M KS (option (poll (option (result Stream ConnectionError)))) :=
  fun '(st, w) =>
  match st with
  | StActive a =>
      '(r, (a, w)) ← active_poll fuel cx (a, w);
      match r with
      | Ready (Ok stream) => Ret (Some (Ready (Some (Ok stream))), (StActive a, w))
      | Ready (Err e) => s ← to_cleanup e (a, w); Ret (None, s)
      | Pending => Ret (Some Pending, (StActive a, w))
      end
  | StClosing c =>
      '(r, c, w) ← run_closing fuel cx c w;
      match r with
      | Ready (Ok _) => Ret (Some (Ready None), (StClosed, w))
      | Ready (Err e) => Ret (Some (Ready (Some (Err e))), (StClosed, w))
      | Pending => Ret (Some Pending, (StClosing c, w))
      end
  | StCleanup u =>
      '(r, u, w) ← run_cleanup fuel cx u w;
      match r with
      | Ready ErrClosed => Ret (Some (Ready None), (StClosed, w))
      | Ready other => Ret (Some (Ready (Some (Err other))), (StClosed, w))
      | Pending => Ret (Some Pending, (StCleanup u, w))
      end
  | StClosed => Ret (Some (Ready None), (StClosed, w))
  | StPoisoned => Panic
  end.

(** One iteration of [Connection::poll_close]. *)
Definition close_iter (fuel : nat) (cx : Waker) : M KS (option (poll (result unit ConnectionError))) :=
  fun '(st, w) =>
  match st with
  | StActive a => '(c, (_, w)) ← active_close (a, w); Ret (None, (StClosing c, w))
  | StClosing c =>
      '(r, c, w) ← run_closing fuel cx c w;
      match r with
      | Ready (Ok _) => Ret (None, (StClosed, w))
      | Ready (Err e) => Ret (Some (Ready (Err e)), (StClosed, w))
      | Pending => Ret (Some Pending, (StClosing c, w))
      end
  | StCleanup u =>
      '(r, u, w) ← run_cleanup fuel cx u w;
      match r with
      | Ready _ => Ret (Some (Ready (Ok tt)), (StClosed, w))
      | Pending => Ret (Some Pending, (StCleanup u, w))
      end
  | StClosed => Ret (Some (Ready (Ok tt)), (StClosed, w))
  | StPoisoned => Panic
  end.

(** The methods, with at most [fuel] iterations of each loop. *)
Definition conn_poll_new_outbound (fuel : nat) (cx : Waker) : M KS (poll (result Stream ConnectionError)) :=
  loop (new_outbound_iter fuel cx) fuel.

Definition conn_poll_next_inbound (fuel : nat) (cx : Waker)
    : M KS (poll (option (result Stream ConnectionError))) :=
  loop (next_inbound_iter fuel cx) fuel.

Definition conn_poll_close (fuel : nat) (cx : Waker) : M KS (poll (result unit ConnectionError)) :=
  loop (close_iter fuel cx) fuel.

(** [Drop for Connection]. *)
Definition conn_drop (s : KS) : outcome World :=
  let '(st, w) := s in
  match st with
  | StActive a => '(_, (_, w)) ← drop_all_streams (a, w); Ret w
  | _ => Ret w
  end.
End connection_state.
