(* ===== verification/Text.v ===== *)
(** * Texts: identifiers of connections, [Display], [Debug] and [Error]

    What the crate writes into log messages and error texts: the identifiers of [connection.rs], and
    the formatting of headers, frames' states, streams, connections and errors with the conversions
    and the sources of errors. The texts of [std::io::Error] are those of the standard library: a
    parameter. *)
From Stdlib Require Import ZArith Lia Ascii String.
From stdpp Require Import base option list numbers strings pretty.
From S2P Require Import Prelude.
From S2P Require Import Header.
From S2P Require Import Frame.
From S2P Require Import Command.
From S2P Require Import Heap.
From S2P Require Import Channel.
From S2P Require Import StreamHandle.
From S2P Require Import FrameIo.
From S2P Require Import Connection.
From S2P Require Import Closing.
From S2P Require Import ConnectionState.

Local Open Scope string_scope.
Local Open Scope Z_scope.

(** ** Formatting numbers *)

(** [{}] of an unsigned number. *)
Definition dec (n : Z) : string := pretty n.

(** [{:08x}]: the digits of base 16, padded with zeros to eight. *)
Definition hex_digit (d : Z) : ascii := ascii_of_nat (Z.to_nat (if d <? 10 then 48 + d else 87 + d)).

Fixpoint hex_digits (fuel : nat) (n : Z) (acc : list Z) : list Z :=
  match fuel with
  | O => acc
  | S fuel => if n =? 0 then acc else hex_digits fuel (n / 16) (n mod 16 :: acc)
  end.

Definition hex08 (n : Z) : string :=
  let ds := hex_digits 8 n [] in
  string_of_list_ascii (map hex_digit (replicate (8 - length ds) 0 ++ ds)).

Example hex08_example : hex08 48879 = "0000beef".
Proof. reflexivity. Qed.

(** ** Connection identifiers *)

(** [Id::next]: what the atomic counter gives, and the counter after it, which wraps. *)
Definition id_next (counter : Z) : Z * Z := (counter, (counter + 1) mod 2 ^ 32).

Definition NEXT_ID : Z := 1.

Definition id_fmt (id : Z) : string := hex08 id.

(** The counter after [k] connections. *)
Definition id_counter (k : nat) : Z := Nat.iter k (fun c => snd (id_next c)) NEXT_ID.

(** ** Headers, frames and the framing layer *)

Definition tag_debug (t : Tag) : string :=
  match t with
  | TagData => "Data"
  | TagWindowUpdate => "WindowUpdate"
  | TagPing => "Ping"
  | TagGoAway => "GoAway"
  end.

Definition stream_id_fmt (id : Z) : string := dec id.

Definition header_fmt {T} (h : Header T) : string :=
  "(Header " +:+ tag_debug (tag h) +:+ " " +:+ stream_id_fmt (stream_id h) +:+ " (len " +:+ dec (len h) +:+
  ") (flags " +:+ dec (flags h) +:+ "))".

Definition write_state_debug (s : WriteState) : string :=
  match s with
  | WriteInit => "(WriteState::Init)"
  | WriteHeader _ _ offset => "(WriteState::Header (offset " +:+ dec offset +:+ "))"
  | WriteBody buffer offset =>
      "(WriteState::Body (offset " +:+ dec offset +:+ ") (buffer-len " +:+ dec (zlen buffer) +:+ "))"
  | WritePoisoned => "(WriteState::Poisoned)"
  end.

Definition read_state_debug (s : ReadState) : string :=
  match s with
  | ReadInit => "(ReadState::Init)"
  | ReadHeader offset _ => "(ReadState::Header (offset " +:+ dec offset +:+ "))"
  | ReadBody header offset buffer =>
      "(ReadState::Body (header " +:+ header_fmt header +:+ ") (offset " +:+ dec offset +:+ ") (buffer-len " +:+
      dec (zlen buffer) +:+ "))"
  end.

(** ** Connections and streams *)

Definition mode_debug (m : Mode) : string := match m with Client => "Client" | Server => "Server" end.

Section connection.
Context `{Arch, Mpsc, SelectAllOps, FrameSocket}.

Definition connection_state_debug (s : ConnectionState) : string :=
  match s with
  | StActive _ => "Active"
  | StClosing _ => "Closing"
  | StCleanup _ => "Cleanup"
  | StClosed => "Closed"
  | StPoisoned => "Poisoned"
  end.

(** [Debug] and [Display] of [Active]; the model keeps the identifier of a connection apart. *)
Definition active_debug (id : Z) (a : Active) : string :=
  "Connection { id: " +:+ id_fmt id +:+ ", mode: " +:+ mode_debug (ac_mode a) +:+ ", streams: " +:+
  dec (Z.of_nat (size (ac_streams a))) +:+ ", next_id: " +:+ dec (ac_next_id a) +:+ " }".

Definition active_fmt (id : Z) (a : Active) : string :=
  "(Connection " +:+ id_fmt id +:+ " " +:+ mode_debug (ac_mode a) +:+ " (streams " +:+
  dec (Z.of_nat (size (ac_streams a))) +:+ "))".

Definition stream_debug (conn : Z) (s : Stream) : string :=
  "Stream { id: " +:+ dec (st_id s) +:+ ", connection: " +:+ id_fmt conn +:+ " }".

Definition stream_fmt (conn : Z) (s : Stream) : string :=
  "(Stream " +:+ id_fmt conn +:+ "/" +:+ dec (st_id s) +:+ ")".

(** The message of [write_zero_err]. *)
Definition write_zero_msg (conn : Z) (s : Stream) : string :=
  id_fmt conn +:+ "/" +:+ stream_id_fmt (st_id s) +:+ ": stream is closed".
End connection.

(** ** Errors *)

Definition header_error_fmt (e : HeaderDecodeError) : string :=
  match e with
  | HeaderVersion v => "unknown version: " +:+ dec v
  | HeaderType t => "unknown frame type: " +:+ dec t
  end.

(** What [Error::source] can refer to. *)
Inductive AnyError : Set :=
| AnyIo (e : IoError)
| AnyHeader (e : HeaderDecodeError)
| AnyDecode (e : FrameDecodeError)
| AnyConnection (e : ConnectionError).

Definition decode_error_source (e : FrameDecodeError) : option AnyError :=
  match e with
  | DecodeIo e => Some (AnyIo e)
  | DecodeHeader e => Some (AnyHeader e)
  | FrameTooLarge _ => None
  end.

Definition connection_error_source (e : ConnectionError) : option AnyError :=
  match e with
  | ErrIo e => Some (AnyIo e)
  | ErrDecode e => Some (AnyDecode e)
  | NoMoreStreamIds | ErrClosed | TooManyStreams => None
  | InvalidWindowUpdate => None
  end.

(** The errors of the standard library and [HeaderDecodeError] have no source of their own here. *)
Definition error_source (e : AnyError) : option AnyError :=
  match e with
  | AnyIo _ | AnyHeader _ => None
  | AnyDecode e => decode_error_source e
  | AnyConnection e => connection_error_source e
  end.

(** The conversions that [?] applies. *)
Definition decode_error_from_io (e : IoError) : FrameDecodeError := DecodeIo e.
Definition decode_error_from_header (e : HeaderDecodeError) : FrameDecodeError := DecodeHeader e.
Definition connection_error_from_io (e : IoError) : ConnectionError := ErrIo e.
Definition connection_error_from_decode (e : FrameDecodeError) : ConnectionError := ErrDecode e.
Definition connection_error_from_send (_ : unit) : ConnectionError := ErrClosed.
Definition connection_error_from_canceled (_ : unit) : ConnectionError := ErrClosed.

Section errors.
(** [Display] of [std::io::Error]. *)
Variable io_error_fmt : IoError -> string.

Definition decode_error_fmt (e : FrameDecodeError) : string :=
  match e with
  | DecodeIo e => "i/o error: " +:+ io_error_fmt e
  | DecodeHeader e => "decode error: " +:+ header_error_fmt e
  | FrameTooLarge n => "frame body is too large (" +:+ dec n +:+ ")"
  end.

Definition connection_error_fmt (e : ConnectionError) : string :=
  match e with
  | ErrIo e => "i/o error: " +:+ io_error_fmt e
  | ErrDecode e => "decode error: " +:+ decode_error_fmt e
  | NoMoreStreamIds => "number of stream ids has been exhausted"
  | ErrClosed => "connection is closed"
  | TooManyStreams => "maximum number of streams reached"
  | InvalidWindowUpdate => "invalid window update for the current flow control window"
  end.

Definition error_fmt (e : AnyError) : string :=
  match e with
  | AnyIo e => io_error_fmt e
  | AnyHeader e => header_error_fmt e
  | AnyDecode e => decode_error_fmt e
  | AnyConnection e => connection_error_fmt e
  end.

(** An error that has a source shows the whole chain, ending in the text of the source, and every
    chain ends: from an error of a connection after at most two steps. *)
Lemma error_chain e e' :
  error_source e = Some e' ->
  (error_fmt e = "i/o error: " +:+ error_fmt e' \/ error_fmt e = "decode error: " +:+ error_fmt e') /\
  (forall e'', error_source e' = Some e'' -> error_source e'' = None).
Proof.
  destruct e as [e | e | [e | e | n] | [e | [e | e | n] | | | |]]; intros [= <-]; simpl;
    (split; [auto | intros e'' Hs; try discriminate Hs; by injection Hs as <-]).
Qed.
End errors.

(** ** The texts of identifiers *)

Local Close Scope string_scope.

(** The number that digits of base 16 stand for. *)
Definition of_digits (ds : list Z) : Z := foldl (fun n d => 16 * n + d) 0 ds.

Lemma foldl_digits ds n : foldl (fun n d => 16 * n + d) n ds = n * 16 ^ Z.of_nat (length ds) + of_digits ds.
Proof.
  unfold of_digits. revert n. induction ds as [|d ds IH]; intros n; cbn [foldl length].
  - rewrite Z.pow_0_r. lia.
  - rewrite IH, (IH (16 * 0 + d)), Nat2Z.inj_succ, Z.pow_succ_r by lia. nia.
Qed.

Lemma of_digits_app ds es : of_digits (ds ++ es) = of_digits ds * 16 ^ Z.of_nat (length es) + of_digits es.
Proof. unfold of_digits. rewrite foldl_app, foldl_digits. done. Qed.

Lemma hex_digits_value fuel n acc :
  0 <= n < 16 ^ Z.of_nat fuel -> Forall (fun d => 0 <= d < 16) acc ->
  of_digits (hex_digits fuel n acc) = n * 16 ^ Z.of_nat (length acc) + of_digits acc /\
  (length (hex_digits fuel n acc) <= fuel + length acc)%nat /\
  Forall (fun d => 0 <= d < 16) (hex_digits fuel n acc).
Proof.
  revert n acc. induction fuel as [|fuel IH]; intros n acc Hn Ha; cbn [hex_digits].
  - split_and!; [simpl in Hn; nia | lia | done].
  - destruct (Z.eqb_spec n 0) as [-> |]; [split_and!; [lia | lia | done] |].
    rewrite Nat2Z.inj_succ, Z.pow_succ_r in Hn by lia.
    pose proof (Z.div_mod n 16 ltac:(lia)). pose proof (Z.mod_pos_bound n 16 ltac:(lia)).
    destruct (IH (n / 16) (n mod 16 :: acc)) as (Hv & Hl & Hf).
    { split; [apply Z.div_pos; lia | apply Z.div_lt_upper_bound; lia]. }
    { by constructor. }
    split_and!; [| simpl in Hl; lia | done]. rewrite Hv. cbn [length].
    change (n mod 16 :: acc) with ([n mod 16] ++ acc). rewrite of_digits_app, Nat2Z.inj_succ, Z.pow_succ_r by lia.
    change (of_digits [n mod 16]) with (16 * 0 + n mod 16). nia.
Qed.

Lemma hex_digit_inj d e : 0 <= d < 16 -> 0 <= e < 16 -> hex_digit d = hex_digit e -> d = e.
Proof.
  intros Hd He.
  assert (Hall : forallb (fun a => forallb (fun b => implb (Ascii.eqb (hex_digit a) (hex_digit b)) (a =? b))
    (seqZ 0 16)) (seqZ 0 16) = true) by (vm_compute; reflexivity).
  rewrite forallb_forall in Hall. specialize (Hall d). rewrite forallb_forall in Hall.
  assert (Hin : forall x, 0 <= x < 16 -> In x (seqZ 0 16)) by (intros x Hx; apply list_elem_of_In, elem_of_seqZ; lia).
  specialize (Hall (Hin d Hd) e (Hin e He)). intros Heq. rewrite Heq, Ascii.eqb_refl in Hall. by apply Z.eqb_eq in Hall.
Qed.

Lemma hex_map_inj ds es :
  Forall (fun d => 0 <= d < 16) ds -> Forall (fun d => 0 <= d < 16) es -> map hex_digit ds = map hex_digit es -> ds = es.
Proof.
  intros Hd. revert es. induction Hd as [|d ds Hd _ IH]; intros [|e es] He Heq; try done.
  simpl in Heq. injection Heq as H1 H2. inversion He; subst. f_equal; [by apply hex_digit_inj | by apply IH].
Qed.

Lemma string_of_list_inj l k : string_of_list_ascii l = string_of_list_ascii k -> l = k.
Proof. intros H. apply (f_equal list_ascii_of_string) in H. by rewrite !list_ascii_of_string_of_list_ascii in H. Qed.

Definition padded (n : Z) : list Z := replicate (8 - length (hex_digits 8 n [])) 0 ++ hex_digits 8 n [].

Lemma padded_ok n :
  0 <= n <= u32_max ->
  of_digits (padded n) = n /\ length (padded n) = 8%nat /\ Forall (fun d => 0 <= d < 16) (padded n).
Proof.
  intros Hn. destruct (hex_digits_value 8 n []) as (Hv & Hl & Hf);
    [change (16 ^ Z.of_nat 8) with (u32_max + 1); lia | constructor |].
  cbn [length] in Hl. unfold padded. split_and!.
  - rewrite of_digits_app, Hv. change (of_digits []) with 0.
    assert (Hz : forall k, of_digits (replicate k 0) = 0).
    { intros k. unfold of_digits. induction k as [|k IH]; [done | exact IH]. }
    rewrite Hz. simpl. lia.
  - rewrite length_app, length_replicate. lia.
  - apply Forall_app. split; [| done]. apply Forall_replicate. lia.
Qed.

(** The text of an identifier has eight digits and determines it. *)
Lemma id_fmt_exact n m :
  0 <= n <= u32_max -> 0 <= m <= u32_max -> String.length (id_fmt n) = 8%nat /\ (id_fmt n = id_fmt m -> n = m).
Proof.
  intros Hn Hm. destruct (padded_ok n Hn) as (Vn & Ln & Fn), (padded_ok m Hm) as (Vm & _ & Fm).
  assert (Hlen : forall l, String.length (string_of_list_ascii l) = length l) by (induction l; simpl; auto).
  split.
  - unfold id_fmt, hex08. rewrite Hlen, length_map. exact Ln.
  - intros Heq. apply string_of_list_inj, hex_map_inj in Heq; [| done..].
    fold (padded n) (padded m) in Heq. by rewrite <- Vn, <- Vm, Heq.
Qed.

Lemma id_counter_value k : id_counter k = (NEXT_ID + Z.of_nat k) mod 2 ^ 32.
Proof.
  induction k as [|k IH]; [done |].
  change (id_counter (S k)) with ((id_counter k + 1) mod 2 ^ 32). rewrite IH, Zplus_mod_idemp_l. f_equal. lia.
Qed.

(** Identifiers tell connections apart in the logs: each is printed as eight hexadecimal digits,
    and of any [2^32] connections in a row no two have the same text. *)
Theorem connection_ids i j :
  (i < j)%nat -> Z.of_nat j < Z.of_nat i + 2 ^ 32 ->
  String.length (id_fmt (id_counter i)) = 8%nat /\ id_fmt (id_counter i) <> id_fmt (id_counter j).
Proof.
  intros Hij Hj. rewrite !id_counter_value.
  assert (Hr : forall x, 0 <= x mod 2 ^ 32 <= u32_max)
    by (intros x; pose proof (Z.mod_pos_bound x (2 ^ 32) ltac:(lia)); unfold u32_max; lia).
  destruct (id_fmt_exact ((NEXT_ID + Z.of_nat i) mod 2 ^ 32) ((NEXT_ID + Z.of_nat j) mod 2 ^ 32)) as [Hlen Hinj];
    [apply Hr.. |]. split; [done |]. intros Heq. apply Hinj in Heq.
  pose proof (Z.div_mod (NEXT_ID + Z.of_nat i) (2 ^ 32) ltac:(lia)).
  pose proof (Z.div_mod (NEXT_ID + Z.of_nat j) (2 ^ 32) ltac:(lia)). nia.
Qed.

Lemma connection_ids_witness : id_fmt (id_counter 0) <> id_fmt (id_counter 300).
Proof. apply (connection_ids 0 300); lia. Defined.
