(* ===== verification/Harness.v ===== *)
(** * The pollers of the test harness: [test-harness/src/lib.rs]

    The hand-written futures that the integration tests drive connections with: a client that opens a
    stream per message, a server that echoes, and a client that only opens streams; and the [async]
    blocks that they run on a stream. The combinators of the futures crate in these blocks are
    parameters, as is [FuturesUnordered]. *)
From Stdlib Require Import ZArith Lia Strings.Byte.
From stdpp Require Import base option list gmap numbers.
From S2P Require Import Prelude.
From S2P Require Import Header.
From S2P Require Import Frame.
From S2P Require Import Config.
From S2P Require Import Command.
From S2P Require Import Heap.
From S2P Require Import Channel.
From S2P Require Import StreamHandle.
From S2P Require Import Connection.
From S2P Require Import Closing.
From S2P Require Import ConnectionState.

(** [FuturesUnordered] over futures of the type [F], whose poll may panic. *)
Class FuturesUnorderedOps : Type := {
  FuturesUnordered : Type -> Type;
  fu_default : forall {F}, FuturesUnordered F;
  fu_push : forall {F}, F -> FuturesUnordered F -> FuturesUnordered F;
  fu_is_empty : forall {F}, FuturesUnordered F -> bool;
  fu_poll_next : forall {F W A},
    (F -> M W (poll A * F)) -> FuturesUnordered F -> M W (poll (option A) * FuturesUnordered F);
}.

(** Its members: one more with each push, one less with each that completes, and the end is reported
    exactly when there is none. *)
Class FuturesUnorderedLaws `{FuturesUnorderedOps} : Type := {
  fu_size : forall {F}, FuturesUnordered F -> nat;
  fu_default_law : forall F, fu_size (fu_default (F := F)) = 0%nat;
  fu_push_law : forall F (x : F) q, fu_size (fu_push x q) = S (fu_size q);
  fu_is_empty_law : forall F (q : FuturesUnordered F), fu_is_empty q = true <-> fu_size q = 0%nat;
  fu_poll_law : forall F W A (f : F -> M W (poll A * F)) q w p q' w',
    fu_poll_next f q w = Ret ((p, q'), w') ->
    match p with
    | Ready (Some _) => fu_size q = S (fu_size q')
    | Ready None => fu_size q = 0%nat /\ fu_size q' = 0%nat
    | Pending => fu_size q' = fu_size q /\ (0 < fu_size q)%nat
    end;
}.

(** ** Futures *)

(** An [async] block on a state [S]: it has a value, panics, or awaits what a polling method gives. *)
Inductive Fut (S A : Type) : Type :=
| Done (a : A)
| Panics
| Await (B : Type) (m : Waker -> M S (poll B)) (k : B -> Fut S A).
Arguments Done {S A} a.
Arguments Panics {S A}.
Arguments Await {S A B} m k.

Fixpoint fut_bind {S A B} (k : A -> Fut S B) (f : Fut S A) : Fut S B :=
  match f with
  | Done a => k a
  | Panics => Panics
  | Await m k' => Await m (fun b => fut_bind k (k' b))
  end.

(** [Future::poll]: go on until a method is not ready, and poll it again the next time. *)
Fixpoint fut_poll {S A} (cx : Waker) (f : Fut S A) : M S (poll A * Fut S A) :=
  match f with
  | Done a => mret (Ready a, f)
  | Panics => lift Panic
  | Await m k =>
      p ← m cx;
      match p with Ready b => fut_poll cx (k b) | Pending => mret (Pending, f) end
  end.

(** [Result::unwrap] and [?] in an [async] block. *)
Definition fut_unwrap {S A E} (f : Fut S (result A E)) : Fut S A :=
  fut_bind (fun r => match r with Ok a => Done a | Err _ => Panics end) f.
Definition fut_try {S A B E} (f : Fut S (result A E)) (k : A -> Fut S (result B ConnectionError))
    (from : E -> ConnectionError) : Fut S (result B ConnectionError) :=
  fut_bind (fun r => match r with Ok a => k a | Err e => Done (Err (from e)) end) f.

(** [for _ in 0..n]. *)
Fixpoint fut_times {S} (n : nat) (f : Fut S unit) : Fut S unit :=
  match n with O => Done tt | Datatypes.S n => fut_bind (fun _ => fut_times n f) f end.

Section harness.
Context `{Arch, Mpsc, SelectAllOps, FrameSocket, MapOrder, FuturesUnorderedOps}.

Inductive MessageSenderStrategy : Set := SendRecv | Send.

(** [AsyncReadExt], [AsyncWriteExt] and [futures::io::copy] on a stream, [futures::future::join] of
    futures on its two halves, and [task::spawn] of a future that is awaited. *)
Class FuturesIo : Type := {
  write_all : list byte -> Fut SW (IoResult unit);
  read_exact : nat -> Fut SW (IoResult (list byte));
  close : Fut SW (IoResult unit);
  copy : Fut SW (IoResult Z);
  join : forall {A B}, Fut SW A -> Fut SW B -> Fut SW (A * B);
  spawn : Fut SW unit -> Fut SW unit;
}.
Context `{FuturesIo}.

(** [send_recv_message]: the writer and the reader at once, and the assertion. *)
Definition send_recv_message (msg : list byte) : Fut SW (IoResult unit) :=
  let write_fut := fut_unwrap (write_all msg) in
  let read_fut := fut_unwrap (read_exact (length msg)) in
  fut_bind (fun '(_, data) => if decide (data = msg) then Done (Ok tt) else Panics) (join write_fut read_fut).

(** [send_on_single_stream]. *)
Fixpoint send_on_single_stream (iter : list (list byte)) : Fut SW (result unit ConnectionError) :=
  match iter with
  | [] => fut_try close (fun _ => Done (Ok tt)) ErrIo
  | msg :: iter => fut_try (send_recv_message msg) (fun _ => send_on_single_stream iter) ErrIo
  end.

(** The futures that are pushed: what is sent on a stream, and the echo of what arrives on one. *)
Definition send_future (spawn_tasks : bool) (multiplier : Z) (strategy : MessageSenderStrategy) (message : list byte)
    : Fut SW unit :=
  let future :=
    fut_bind (fun _ => fut_unwrap close)
      (fut_times (Z.to_nat multiplier)
         (match strategy with
          | SendRecv => fut_unwrap (send_recv_message message)
          | Send => fut_unwrap (write_all message)
          end)) in
  if spawn_tasks then spawn future else future.

Definition echo_future : Fut SW (result unit ConnectionError) :=
  fut_try copy (fun _ => fut_try close (fun _ => Done (Ok tt)) ErrIo) ErrIo.

(** A future with the stream that has been moved into it, which is dropped at its end. *)
Record Task (A : Type) : Type := mkTask {
  tk_stream : Stream;
  tk_future : Fut SW A;
}.
#[global] Arguments mkTask {A}.
#[global] Arguments tk_stream {A}.
#[global] Arguments tk_future {A}.

Definition poll_task {A} (cx : Waker) (t : Task A) : M World (poll A * Task A) := fun w =>
  '((p, f), (s, w)) ← fut_poll cx (tk_future t) (tk_stream t, w);
  match p with
  | Ready a => '(_, w) ← stream_drop s w; Ret ((Ready a, mkTask s f), w)
  | Pending => Ret ((Pending, mkTask s f), w)
  end.

(** ** [MessageSender] *)

(** [pending_messages] is a vector: the last message is popped first. *)
Record MessageSender : Type := mkMessageSender {
  ms_connection : ConnectionState;
  ms_pending_messages : list (list byte);
  ms_worker_streams : FuturesUnordered (Task unit);
  ms_streams_processed : Z;
  ms_spawn_tasks : bool;
  ms_message_multiplier : Z;
  ms_strategy : MessageSenderStrategy;
}.

Definition message_sender_new (c : ConnectionState) (messages : list (list byte)) (spawn_tasks : bool) : MessageSender :=
  mkMessageSender c messages fu_default 0 spawn_tasks 1 SendRecv.

Definition with_message_multiplier (n : Z) (s : MessageSender) : MessageSender :=
  mkMessageSender (ms_connection s) (ms_pending_messages s) (ms_worker_streams s) (ms_streams_processed s)
    (ms_spawn_tasks s) n (ms_strategy s).

Definition with_strategy (x : MessageSenderStrategy) (s : MessageSender) : MessageSender :=
  mkMessageSender (ms_connection s) (ms_pending_messages s) (ms_worker_streams s) (ms_streams_processed s)
    (ms_spawn_tasks s) (ms_message_multiplier s) x.

Definition set_ms_connection (c : ConnectionState) (s : MessageSender) : MessageSender :=
  mkMessageSender c (ms_pending_messages s) (ms_worker_streams s) (ms_streams_processed s)
    (ms_spawn_tasks s) (ms_message_multiplier s) (ms_strategy s).
Definition set_ms_pending (l : list (list byte)) (s : MessageSender) : MessageSender :=
  mkMessageSender (ms_connection s) l (ms_worker_streams s) (ms_streams_processed s)
    (ms_spawn_tasks s) (ms_message_multiplier s) (ms_strategy s).
Definition set_ms_workers (q : FuturesUnordered (Task unit)) (s : MessageSender) : MessageSender :=
  mkMessageSender (ms_connection s) (ms_pending_messages s) q (ms_streams_processed s)
    (ms_spawn_tasks s) (ms_message_multiplier s) (ms_strategy s).
Definition set_ms_processed (n : Z) (s : MessageSender) : MessageSender :=
  mkMessageSender (ms_connection s) (ms_pending_messages s) (ms_worker_streams s) n
    (ms_spawn_tasks s) (ms_message_multiplier s) (ms_strategy s).

(** A poller with the world it shares with the streams. *)
Definition MS : Type := MessageSender * World.

Definition ms_conn {A} (m : M KS A) : M MS A :=
  zoom (fun s => (ms_connection (fst s), snd s)) (fun k s => (set_ms_connection (fst k) (fst s), snd k)) m.

(** [Vec::pop]. *)
Definition vec_pop {A} (l : list A) : option (A * list A) :=
  match rev l with [] => None | x :: l => Some (x, rev l) end.

(** How the part of an iteration ends that tries to open a stream for the next message. *)
Definition ms_open (fuel : nat) (cx : Waker) : M MS (flow (poll (result Z ConnectionError))) :=
  pending ← gets (fun s => ms_pending_messages (fst s));
  match vec_pop pending with
  | None => mret Next
  | Some (message, rest) =>
      modify (fun s => (set_ms_pending rest (fst s), snd s)) ≫= fun _ =>
      r ← ms_conn (conn_poll_new_outbound fuel cx);
      match r with
      | Ready (Err e) => mret (Return (Ready (Err e)))
      | Ready (Ok stream) =>
          modify (fun s =>
            let m := fst s in
            let worker := mkTask stream (send_future (ms_spawn_tasks m) (ms_message_multiplier m) (ms_strategy m) message) in
            (set_ms_workers (fu_push worker (ms_worker_streams m)) m, snd s)) ≫= fun _ => mret Continue
      | Pending =>
          modify (fun s => (set_ms_pending (ms_pending_messages (fst s) ++ [message]) (fst s), snd s)) ≫= fun _ =>
          mret Next
      end
  end.

(** [worker_streams.poll_next_unpin(cx)]. *)
Definition ms_poll_workers (cx : Waker) : M MS (poll (option unit)) := fun '(m, w) =>
  '((p, q), w) ← fu_poll_next (poll_task cx) (ms_worker_streams m) w;
  Ret (p, (set_ms_workers q m, w)).

Definition ms_drive_workers (cx : Waker) : M MS (flow (poll (result Z ConnectionError))) :=
  p ← ms_poll_workers cx;
  match p with
  | Ready (Some _) =>
      n ← gets (fun s => ms_streams_processed (fst s));
      n ← lift (add_ usize_max n 1);
      modify (fun s => (set_ms_processed n (fst s), snd s)) ≫= fun _ => mret Continue
  | Ready None | Pending => mret Next
  end.

(** The connection is only driven: a stream or the end is not expected. *)
Definition ms_drive_connection (fuel : nat) (cx : Waker) : M MS (flow (poll (result Z ConnectionError))) :=
  r ← ms_conn (conn_poll_next_inbound fuel cx);
  match r with
  | Ready (Some (Err e)) => mret (Return (Ready (Err e)))
  | Ready (Some (Ok _)) => lift Panic
  | Ready None => lift Panic
  | Pending => mret (Return Pending)
  end.

Definition ms_finish (fuel : nat) (cx : Waker) : M MS (flow (poll (result Z ConnectionError))) :=
  m ← gets fst;
  if bool_decide (ms_pending_messages m = []) && fu_is_empty (ms_worker_streams m) then
    r ← ms_conn (conn_poll_close fuel cx);
    match r with
    | Ready (Err e) => mret (Return (Ready (Err e)))
    | Pending => mret (Return Pending)
    | Ready (Ok _) => n ← gets (fun s => ms_streams_processed (fst s)); mret (Return (Ready (Ok n)))
    end
  else mret Next.

Definition ms_iter (fuel : nat) (cx : Waker) : M MS (option (poll (result Z ConnectionError))) :=
  r ← and_then (ms_finish fuel cx) (and_then (ms_open fuel cx) (and_then (ms_drive_workers cx) (ms_drive_connection fuel cx)));
  mret (match r with Return a => Some a | Continue => None | Next => Some Pending end).

Definition message_sender_poll (fuel : nat) (cx : Waker) : M MS (poll (result Z ConnectionError)) :=
  loop (ms_iter fuel cx) fuel.

(** ** [EchoServer] *)

Record EchoServer : Type := mkEchoServer {
  es_connection : ConnectionState;
  es_worker_streams : FuturesUnordered (Task (result unit ConnectionError));
  es_streams_processed : Z;
  es_connection_closed : bool;
}.

Definition echo_server_new (c : ConnectionState) : EchoServer := mkEchoServer c fu_default 0 false.

Definition ES : Type := EchoServer * World.

Definition es_conn {A} (m : M KS A) : M ES A :=
  zoom (fun s => (es_connection (fst s), snd s))
    (fun k s => (mkEchoServer (fst k) (es_worker_streams (fst s)) (es_streams_processed (fst s)) (es_connection_closed (fst s)), snd k)) m.

Definition es_poll_workers (cx : Waker) : M ES (poll (option (result unit ConnectionError))) := fun '(e, w) =>
  '((p, q), w) ← fu_poll_next (poll_task cx) (es_worker_streams e) w;
  Ret (p, (mkEchoServer (es_connection e) q (es_streams_processed e) (es_connection_closed e), w)).

(** A stream that failed is reported on the error output and otherwise forgotten. *)
Definition es_drive_workers (cx : Waker) : M ES (flow (poll (result Z ConnectionError))) :=
  p ← es_poll_workers cx;
  match p with
  | Ready (Some (Ok _)) =>
      e ← gets fst;
      n ← lift (add_ usize_max (es_streams_processed e) 1);
      modify (fun s => (mkEchoServer (es_connection (fst s)) (es_worker_streams (fst s)) n (es_connection_closed (fst s)), snd s))
        ≫= fun _ => mret Continue
  | Ready (Some (Err _)) => mret Continue
  | Ready None =>
      e ← gets fst;
      mret (if es_connection_closed e then Return (Ready (Ok (es_streams_processed e))) else Next)
  | Pending => mret Next
  end.

Definition es_drive_connection (fuel : nat) (cx : Waker) : M ES (flow (poll (result Z ConnectionError))) :=
  r ← es_conn (conn_poll_next_inbound fuel cx);
  match r with
  | Ready (Some (Ok stream)) =>
      modify (fun s => (mkEchoServer (es_connection (fst s)) (fu_push (mkTask stream echo_future) (es_worker_streams (fst s)))
                          (es_streams_processed (fst s)) (es_connection_closed (fst s)), snd s)) ≫= fun _ => mret Continue
  | Ready None | Ready (Some (Err _)) =>
      modify (fun s => (mkEchoServer (es_connection (fst s)) (es_worker_streams (fst s)) (es_streams_processed (fst s)) true, snd s))
        ≫= fun _ => mret Continue
  | Pending => mret (Return Pending)
  end.

Definition es_iter (fuel : nat) (cx : Waker) : M ES (option (poll (result Z ConnectionError))) :=
  r ← and_then (es_drive_workers cx) (es_drive_connection fuel cx);
  mret (match r with Return a => Some a | Continue => None | Next => Some Pending end).

Definition echo_server_poll (fuel : nat) (cx : Waker) : M ES (poll (result Z ConnectionError)) :=
  loop (es_iter fuel cx) fuel.

(** ** [OpenStreamsClient] *)

Record OpenStreamsClient : Type := mkOpenStreamsClient {
  oc_connection : option ConnectionState;
  oc_streams : list Stream;
  oc_to_open : Z;
}.

Definition open_streams_new (c : ConnectionState) (to_open : Z) : OpenStreamsClient := mkOpenStreamsClient (Some c) [] to_open.

Definition OC : Type := OpenStreamsClient * World.

(** [self.connection.as_mut().unwrap()]. *)
Definition oc_conn {A} (m : M KS A) : M OC A := fun '(o, w) =>
  c ← expect (oc_connection o);
  '(a, (c, w)) ← m (c, w);
  Ret (a, (mkOpenStreamsClient (Some c) (oc_streams o) (oc_to_open o), w)).

Definition OpenStreams : Type := ConnectionState * list Stream.

Definition oc_drive (fuel : nat) (cx : Waker) : M OC (flow (poll (result OpenStreams ConnectionError))) :=
  r ← oc_conn (conn_poll_next_inbound fuel cx);
  match r with
  | Ready (Some (Err e)) => mret (Return (Ready (Err e)))
  | Ready _ => lift Panic
  | Pending => mret Next
  end.

Definition oc_open (fuel : nat) (cx : Waker) : M OC (flow (poll (result OpenStreams ConnectionError))) :=
  o ← gets fst;
  if zlen (oc_streams o) <? oc_to_open o then
    r ← oc_conn (conn_poll_new_outbound fuel cx);
    match r with
    | Ready (Err e) => mret (Return (Ready (Err e)))
    | Ready (Ok stream) =>
        modify (fun s => (mkOpenStreamsClient (oc_connection (fst s)) (oc_streams (fst s) ++ [stream]) (oc_to_open (fst s)), snd s))
          ≫= fun _ => mret Continue
    | Pending => mret Next
    end
  else mret Next.

Definition oc_finish : M OC (flow (poll (result OpenStreams ConnectionError))) := fun '(o, w) =>
  if zlen (oc_streams o) =? oc_to_open o then
    c ← expect (oc_connection o);
    Ret (Return (Ready (Ok (c, oc_streams o))), (mkOpenStreamsClient None [] (oc_to_open o), w))
  else Ret (Return Pending, (o, w)).

Definition oc_iter (fuel : nat) (cx : Waker) : M OC (option (poll (result OpenStreams ConnectionError))) :=
  r ← and_then (oc_drive fuel cx) (and_then (oc_open fuel cx) oc_finish);
  mret (match r with Return a => Some a | Continue => None | Next => Some Pending end).

Definition open_streams_poll (fuel : nat) (cx : Waker) : M OC (poll (result OpenStreams ConnectionError)) :=
  loop (oc_iter fuel cx) fuel.

(** ** What the pollers account for *)

Context `{!FuturesUnorderedLaws}.

(** A part of a loop body that goes on leaves the state as the next part may find it. *)
Lemma post_and_then {S A} (f m : M S (flow A)) (Q : flow A -> S -> Prop) s :
  post f (fun r s' => match r with Next => post m Q s' | _ => Q r s' end) s -> post (and_then f m) Q s.
Proof. intros Hf. apply post_bind. eapply post_mono; [exact Hf |]. intros [|a|] s' Hr; done. Qed.

(** The messages of a sender: done, in the works, and still to be sent. *)
Definition ms_total (m : MessageSender) : Z :=
  ms_streams_processed m + Z.of_nat (fu_size (ms_worker_streams m)) + zlen (ms_pending_messages m).

Definition ms_left (s : MS) : nat := (fu_size (ms_worker_streams s.1) + 2 * length (ms_pending_messages s.1))%nat.

Lemma vec_pop_some {A} (l : list A) x l' : vec_pop l = Some (x, l') -> l = l' ++ [x].
Proof.
  unfold vec_pop. destruct (rev l) as [|y k] eqn:E; [done |]. intros [= <- <-].
  by rewrite <- (rev_involutive l), E.
Qed.

(** What one iteration may do. *)
Definition ms_step (s : MS) (r : flow (poll (result Z ConnectionError))) (s' : MS) : Prop :=
  match r with
  | Return (Ready (Ok n)) => n = ms_total s.1 /\ ms_pending_messages s'.1 = [] /\ fu_size (ms_worker_streams s'.1) = 0%nat
  | Return (Ready (Err _)) => True
  | Return Pending | Next => ms_total s'.1 = ms_total s.1
  | Continue => ms_total s'.1 = ms_total s.1 /\ (ms_left s' < ms_left s)%nat
  end.

Lemma ms_iter_ok fuel cx s :
  post (ms_iter fuel cx) (fun r s' =>
    match r with
    | Some a => ms_step s (Return a) s'
    | None => ms_step s Continue s'
    end) s.
Proof.
  destruct s as [m w]. apply post_bind.
  eapply (post_mono _ (fun r s' => ms_step (m, w) r s')); [| by intros [|[[]|]|] s' Hr].
  apply post_and_then. unfold ms_finish. apply post_bind. unfold post at 1, gets. simpl.
  assert (Hfin : forall (s1 : MS), ms_total s1.1 = ms_total m -> ms_left s1 = ms_left (m, w) ->
    post (and_then (ms_open fuel cx) (and_then (ms_drive_workers cx) (ms_drive_connection fuel cx)))
      (fun r s' => ms_step (m, w) r s') s1).
  { intros s1 Ht Hl. apply post_and_then. unfold ms_open. apply post_bind. unfold post at 1, gets.
    assert (Hrest : forall s2 : MS, ms_total s2.1 = ms_total m -> ms_left s2 = ms_left (m, w) ->
      post (and_then (ms_drive_workers cx) (ms_drive_connection fuel cx)) (fun r s' => ms_step (m, w) r s') s2).
    { intros [m2 w2] Ht2 Hl2. apply post_and_then. unfold ms_drive_workers. apply post_bind.
      unfold post at 1, ms_poll_workers.
      destruct (fu_poll_next (poll_task cx) (ms_worker_streams m2) w2) as [[[p q] w3]| |] eqn:E; simpl; [| done..].
      apply fu_poll_law in E.
      assert (Hdrive : fu_size q = fu_size (ms_worker_streams m2) ->
        post (ms_drive_connection fuel cx) (fun r s' => ms_step (m, w) r s') (set_ms_workers q m2, w3)).
      { intros Hq. apply post_bind, post_zoom. intros r [k w4]. simpl. destruct r as [[[st|e]|]|]; try done.
        apply post_ret. unfold ms_step, ms_total in *. simpl in *. lia. }
      destruct p as [[u|]|]; [| apply post_ret, Hdrive; lia | apply post_ret, Hdrive; lia].
      apply post_bind. unfold post at 1, gets. apply post_bind, post_lift. intros n Hn.
      apply post_bind. unfold post at 1, modify. apply post_ret. simpl in *.
      unfold add_, checked_add in Hn. destruct (_ <=? _) in Hn; [| done]. injection Hn as <-.
      unfold ms_total, ms_left in *. simpl in *. rewrite E in *. lia. }
    destruct (vec_pop (ms_pending_messages s1.1)) as [[msg rest]|] eqn:Hp; [| by apply post_ret, Hrest].
    apply vec_pop_some in Hp. apply post_bind. unfold post at 1, modify. apply post_bind, post_zoom.
    intros r [k w2]. simpl. destruct r as [[st|e]|]; [| by apply post_ret |].
    - apply post_bind. unfold post at 1, modify. apply post_ret. unfold ms_step, ms_total, ms_left in *. simpl in *.
      rewrite fu_push_law. rewrite Hp in Ht, Hl. rewrite length_app in Hl. rewrite zlen_app in Ht. simpl in *.
      change (zlen [msg]) with 1 in Ht. lia.
    - apply post_bind. unfold post at 1, modify. apply post_ret.
      apply Hrest; unfold ms_total, ms_left in *; simpl in *; by rewrite <- Hp. }
  destruct (bool_decide (ms_pending_messages m = []) && fu_is_empty (ms_worker_streams m)) eqn:E.
  - apply andb_prop in E as [Ep Ew]. apply bool_decide_eq_true in Ep. apply fu_is_empty_law in Ew.
    apply post_bind, post_zoom. intros r [k w2]. simpl. destruct r as [[u|e]|]; try done.
    apply post_bind. unfold post at 1, gets. apply post_ret. unfold ms_step, ms_total. simpl. rewrite Ep, Ew.
    split_and!; [change (zlen []) with 0; lia | done | done].
  - apply post_ret. by apply Hfin.
Qed.

(** A sender neither loses a message from its account nor invents one: what is done, in the works and
    still to be sent adds up to the same, and it ends without an error only when all is done. *)
Lemma message_sender_poll_ok fuel cx s : post (message_sender_poll fuel cx) (fun a s' => ms_step s (Return a) s') s.
Proof.
  unfold message_sender_poll. apply (post_loop _ (fun s' => ms_total s'.1 = ms_total s.1)); [| done].
  intros s1 Hs1. eapply post_mono; [apply ms_iter_ok |]. simpl. intros [[[n|e]|]|] s2 Hs2; simpl in *.
  - by rewrite <- Hs1.
  - done.
  - by rewrite Hs2.
  - destruct Hs2 as [Hs2 _]. by rewrite Hs2.
Qed.

(** An echo server reports no error: it returns once the connection is closed and every stream it
    was given is dealt with, with the number of those that did not fail. *)
Definition es_step (s : ES) (r : flow (poll (result Z ConnectionError))) (s' : ES) : Prop :=
  es_streams_processed s.1 <= es_streams_processed s'.1 /\
  (es_connection_closed s.1 = true -> es_connection_closed s'.1 = true) /\
  match r with
  | Return (Ready (Ok n)) =>
      es_connection_closed s'.1 = true /\ fu_size (es_worker_streams s'.1) = 0%nat /\ n = es_streams_processed s'.1
  | Return (Ready (Err _)) => False
  | Return Pending | Next | Continue => True
  end.

Lemma es_drive_workers_ok cx s : post (es_drive_workers cx) (fun r s' => es_step s r s') s.
Proof.
  destruct s as [e w]. apply post_bind. unfold post at 1, es_poll_workers.
  destruct (fu_poll_next (poll_task cx) (es_worker_streams e) w) as [[[p q] w1]| |] eqn:E; simpl; [| done..].
  apply fu_poll_law in E. destruct p as [[[u|e1]|]|]; [| by apply post_ret | | by apply post_ret].
  - apply post_bind. unfold post at 1, gets. apply post_bind, post_lift. intros n Hn. apply post_bind.
    unfold post at 1, modify. apply post_ret. unfold add_, checked_add in Hn. destruct (_ <=? _); [| done].
    injection Hn as <-. unfold es_step. simpl. split_and!; [lia | done..].
  - apply post_bind. unfold post at 1, gets. apply post_ret. unfold es_step. simpl.
    destruct (es_connection_closed e) eqn:Hc; [| done]. split_and!; [lia | done | done | apply E | done].
Qed.

Lemma es_drive_connection_ok fuel cx s : post (es_drive_connection fuel cx) (fun r s' => es_step s r s') s.
Proof.
  destruct s as [e w]. apply post_bind, post_zoom. intros r [c w1].
  destruct r as [[[st|e1]|]|];
    [apply post_bind; unfold post at 1, modify; apply post_ret; unfold es_step; simpl; split_and!; [lia | done..] ..|].
  by apply post_ret.
Qed.

Lemma es_step_trans s1 s2 s3 r : es_step s1 Next s2 -> es_step s2 r s3 -> es_step s1 r s3.
Proof. intros (Hp1 & Hc1 & _) (Hp2 & Hc2 & Hr). split_and!; [lia | auto | exact Hr]. Qed.

Lemma echo_server_poll_ok fuel cx s : post (echo_server_poll fuel cx) (fun a s' => es_step s (Return a) s') s.
Proof.
  unfold echo_server_poll. apply (post_loop _ (fun s' => es_step s Next s')); [| by split_and!].
  intros s1 Hs1. apply post_bind, post_and_then. eapply post_mono; [apply es_drive_workers_ok |].
  assert (Hlift : forall r s2, es_step s1 r s2 ->
    post (mret (match r with Return a => Some a | Continue => None | Next => Some Pending end))
      (fun r' s' => match r' with Some a => es_step s (Return a) s' | None => es_step s Next s' end) s2).
  { intros r s2 Hr. apply post_ret. apply (es_step_trans s) in Hr; [| done]. by destruct r as [|a|]. }
  intros r s2 Hs2. destruct r as [|a|]; [by apply (Hlift Continue) | by apply (Hlift (Return a)) |].
  eapply post_mono; [apply es_drive_connection_ok |]. intros r s3 Hs3. apply Hlift. by eapply es_step_trans.
Qed.

(** A client that opens streams hands over its connection and exactly the number it was asked for, the
    ones it had among them; polled again, it panics. *)
Definition oc_step (s : OC) (r : flow (poll (result OpenStreams ConnectionError))) (s' : OC) : Prop :=
  match r with
  | Return (Ready (Ok (c, l))) =>
      zlen l = oc_to_open s.1 /\ oc_streams s.1 `prefix_of` l /\ oc_connection s'.1 = None /\ oc_streams s'.1 = []
  | _ => oc_to_open s'.1 = oc_to_open s.1 /\ oc_streams s.1 `prefix_of` oc_streams s'.1
  end.

Lemma oc_step_trans s1 s2 s3 r : oc_step s1 Next s2 -> oc_step s2 r s3 -> oc_step s1 r s3.
Proof.
  intros [Ht1 Hp1] Hr. destruct r as [|[[[c l]|e]|]|]; simpl in *; destruct Hr as [Ht2 Hr];
    (split; [congruence |]); try (by etrans).
  destruct Hr as (Hp2 & Hc & Hs). split_and!; [by etrans | done | done].
Qed.

Lemma oc_conn_frame {A} (m : M KS A) s :
  post (oc_conn m) (fun _ s' => oc_to_open s'.1 = oc_to_open s.1 /\ oc_streams s'.1 = oc_streams s.1) s.
Proof.
  destruct s as [o w]. unfold post, oc_conn. destruct (oc_connection o) as [c|]; simpl; [| done].
  by destruct (m (c, w)) as [[a [c1 w1]]| |].
Qed.

Lemma oc_drive_ok fuel cx s : post (oc_drive fuel cx) (fun r s' => oc_step s r s') s.
Proof.
  apply post_bind. eapply post_mono; [apply oc_conn_frame |].
  intros [[[st|e]|]|] s1 [Ht Hs]; [done | | done |]; apply post_ret; simpl; by rewrite Hs.
Qed.

Lemma oc_open_ok fuel cx s : post (oc_open fuel cx) (fun r s' => oc_step s r s') s.
Proof.
  apply post_bind. unfold post at 1, gets. destruct (_ <? _); [| by apply post_ret].
  apply post_bind. eapply post_mono; [apply oc_conn_frame |].
  intros [[st|e]|] s1 [Ht Hs]; [| by apply post_ret; simpl; rewrite Hs..].
  apply post_bind. unfold post at 1, modify. apply post_ret. simpl. rewrite Hs. split; [done | by eexists].
Qed.

Lemma oc_finish_ok s : post oc_finish (fun r s' => oc_step s r s') s.
Proof.
  destruct s as [o w]. unfold post, oc_finish. destruct (_ =? _) eqn:E; [| done].
  destruct (oc_connection o) as [c|]; simpl; [| done]. split_and!; [lia | done..].
Qed.

Lemma open_streams_poll_ok fuel cx s : post (open_streams_poll fuel cx) (fun a s' => oc_step s (Return a) s') s.
Proof.
  unfold open_streams_poll. apply (post_loop _ (fun s' => oc_step s Next s')); [| done].
  intros s1 Hs1.
  assert (Hlift : forall r s2, oc_step s1 r s2 ->
    post (mret (match r with Return a => Some a | Continue => None | Next => Some Pending end))
      (fun r' s' => match r' with Some a => oc_step s (Return a) s' | None => oc_step s Next s' end) s2).
  { intros r s2 Hr. apply post_ret. apply (oc_step_trans s) in Hr; [| done]. by destruct r as [|[]|]. }
  apply post_bind. eapply post_mono; [| exact Hlift].
  apply post_and_then. eapply post_mono; [apply oc_drive_ok |]. intros [|a|] s2 Hs2; [done | done |].
  apply post_and_then. eapply post_mono; [apply oc_open_ok |].
  intros [|a|] s3 Hs3; [by eapply oc_step_trans.. |].
  eapply post_mono; [apply oc_finish_ok |]. intros r s4 Hs4.
  eapply oc_step_trans; [| exact Hs4]. by eapply oc_step_trans.
Qed.
End harness.
