(* ===== verification/ConnStateSpec.v ===== *)
(** * Properties of the connection's state machine

    A connection never poisons itself and panics in no state; it leaves the active state for good,
    ends closed, reports the error that ended it exactly once, and its loops end. *)
From Stdlib Require Import ZArith Lia Strings.Byte.
From stdpp Require Import base option list gmap numbers.
From S2P Require Import Prelude.
From S2P Require Import Header.
From S2P Require Import Frame.
From S2P Require Import Config.
From S2P Require Import Command.
From S2P Require Import Rtt.
From S2P Require Import ChunkList.
From S2P Require Import FlowControl.
From S2P Require Import Shared.
From S2P Require Import Heap.
From S2P Require Import Channel.
From S2P Require Import TaggedStream.
From S2P Require Import StreamHandle.
From S2P Require Import FrameIo.
From S2P Require Import FrameIoSpec.
From S2P Require Import Connection.
From S2P Require Import ConnInvariant.
From S2P Require Import ConnSteps.
From S2P Require Import ConnHandlers.
From S2P Require Import ConnLoop.
From S2P Require Import Closing.
From S2P Require Import ClosingSpec.
From S2P Require Import ConnectionState.

Section state_spec.
Context `{Arch, Mpsc, SelectAllOps, FrameSocket, MapOrder}.
Context `{!MpscLaws, !SelectAllLaws, !FrameSocketLaws, !FrameSocketWire}.
Hypothesis usize_wide : u32_max + u32_max <= usize_max.
Variable cfg : Config.
Hypothesis streams_nonneg : 0 <= max_num_streams cfg.
Implicit Type E : positive -> nat.

(** What is left of the invariant when the map of streams is gone: only handles refer to streams. *)
Definition rest_ok E (w : World) : Prop :=
  mem_ok cfg (mem w) /\ refs_ok E (mem w) /\ net_ok (net w).

Definition state_ok E (st : ConnectionState) (w : World) : Prop :=
  match st with
  | StActive a => conn_ok cfg E a w
  | StClosing c => rest_ok E w /\ exists W, closing_ok W c (net w)
  | StCleanup u => rest_ok E w /\ exists e, cleanup_ok e u (net w)
  | StClosed => rest_ok E w
  | StPoisoned => False
  end.

(** The states that may come after another, or be it. *)
Definition may_follow (st st' : ConnectionState) : Prop :=
  match st, st' with
  | _, StPoisoned | StPoisoned, _ => False
  | StActive _, _ => True
  | StClosing _, (StClosing _ | StClosed) => True
  | StCleanup _, (StCleanup _ | StClosed) => True
  | StClosed, StClosed => True
  | _, _ => False
  end.

Definition state_rank (st : ConnectionState) : nat :=
  match st with
  | StActive _ => 3
  | StClosing _ | StCleanup _ => 2
  | StClosed => 1
  | StPoisoned => 0
  end.

Lemma may_follow_trans st1 st2 st3 : may_follow st1 st2 -> may_follow st2 st3 -> may_follow st1 st3.
Proof. by destruct st1, st2, st3. Qed.

Lemma may_follow_refl st : st <> StPoisoned -> may_follow st st.
Proof. by destruct st. Qed.

(** That the work of the inner loops is finite. *)
Definition finite_work : Prop := inhabited FiniteWork.

Lemma rest_ok_net E w n : rest_ok E w -> net_ok n -> rest_ok E (set_net n w).
Proof. by intros (Hm & Hr & _) Hn. Qed.

Lemma rest_ok_drained E a w : conn_ok cfg E (set_streams ∅ a) w -> rest_ok E w.
Proof.
  by intros [].
Qed.

(** ** The inner computations *)

Lemma run_closing_runs E W c w cx :
  rest_ok E w -> closing_ok W c (net w) ->
  runs finite_work (fun fuel => run_closing fuel cx c w) (fun '(r, c', w') =>
    rest_ok E w' /\ mem w' = mem w /\ closing_result W r c' (net w')).
Proof.
  intros Hrest Hok. unfold run_closing.
  eapply (runs_bind (fun fuel => closing_poll fuel cx (c, net w))).
  - exact (closing_poll_runs W c (net w) cx Hok).
  - intros [r [c' n']] Hr. apply runs_ret. split_and!; [by apply rest_ok_net, Hr | done | done].
Qed.

Lemma run_cleanup_runs E e u w cx :
  rest_ok E w -> cleanup_ok e u (net w) ->
  runs finite_work (fun fuel => run_cleanup fuel cx u w) (fun '(r, u', w') =>
    rest_ok E w' /\ mem w' = mem w /\ r = Ready e).
Proof.
  intros Hrest Hok. unfold run_cleanup.
  eapply (runs_bind (fun fuel => cleanup_poll fuel cx (u, net w)) _
            (fun '(r, (u', n')) => r = Ready e /\ net_ok n')).
  - apply (runs_loop (cleanup_iter cx)).
    + intros fuel. pose proof (cleanup_poll_safe e fuel u (net w) cx Hok) as Hs. unfold safe in *.
      fold (cleanup_poll fuel cx). by destruct (cleanup_poll fuel cx (u, net w)) as [[r []]| |].
    + intros [fw]. exists (S (cleanup_work fw u (net w))).
      pose proof (cleanup_poll_ok fw e (S (cleanup_work fw u (net w))) u (net w) cx Hok ltac:(lia)) as Hw.
      eapply wp_mono; [exact Hw |]. by intros r [].
  - intros [r [u' n']] [-> Hn]. apply runs_ret. split_and!; [by apply rest_ok_net | done | done].
Qed.

Lemma active_poll_runs E a w cx :
  conn_ok cfg E a w ->
  runs finite_work (fun fuel => active_poll fuel cx (a, w)) (fun '(r, (a', w')) => poll_ok cfg E r a' w').
Proof.
  intros Hok. apply (runs_loop _ (fun '(r, (a', w')) => poll_ok cfg E r a' w')).
  - intros fuel. pose proof (active_poll_safe usize_wide cfg E fuel a w cx Hok) as Hs. unfold safe in *.
    unfold active_poll in Hs. by destruct (loop _ _ _) as [[r []]| |].
  - intros [fw]. exists (S (work fw a w)).
    pose proof (active_poll_ok usize_wide cfg fw E (S (work fw a w)) a w cx Hok ltac:(lia)) as Hw.
    eapply wp_mono; [exact Hw |]. by intros r [].
Qed.

Lemma to_cleanup_ok E a w e :
  conn_ok cfg E a w ->
  returns (to_cleanup e (a, w)) (fun '(st, w') => exists u,
    st = StCleanup u /\ rest_ok E w' /\ cleanup_ok e u (net w') /\
    all_shut (map_drain (ac_streams a)) (mem w) (mem w')).
Proof.
  intros Hok. unfold to_cleanup.
  destruct (wp_returns _ _ _ (active_cleanup_ok cfg E a w e Hok streams_nonneg)) as (u & [a' w'] & -> & Hu).
  destruct Hu as (-> & Hok' & Hu & Hs). exists u. split_and!; try done; by eapply rest_ok_drained.
Qed.

(** ** The methods *)

(** What goes on around a method of a connection: the state moves on, a closed connection stays as
    it is, and the invariant is kept. *)
Definition moved (st : ConnectionState) (w : World) (st' : ConnectionState) (w' : World) : Prop :=
  may_follow st st' /\ (st = StClosed -> w' = w).

Lemma moved_refl E st w : state_ok E st w -> moved st w st w.
Proof. intros Hok. split; [by destruct st | done]. Qed.

Lemma moved_trans st0 w0 st1 w1 st2 w2 :
  moved st0 w0 st1 w1 -> moved st1 w1 st2 w2 -> moved st0 w0 st2 w2.
Proof.
  intros [Hf1 Hc1] [Hf2 Hc2]. split; [by eapply may_follow_trans |]. intros ->. rewrite <- Hc1 by done.
  apply Hc2. by destruct st1.
Qed.

(** A stream that is handed out, or not. *)
Definition outbound_result E (r : poll (result Stream ConnectionError)) (st' : ConnectionState) (w' : World)
    : Prop :=
  match r with
  | Ready (Ok s) => exists a, st' = StActive a /\ handed_out cfg E s a w'
  | Ready (Err _) => st' = StClosed /\ rest_ok E w'
  | Pending => st' <> StClosed /\ state_ok E st' w'
  end.

Definition inbound_result E (r : poll (option (result Stream ConnectionError))) (st' : ConnectionState)
    (w' : World) : Prop :=
  match r with
  | Ready (Some (Ok s)) => exists a, st' = StActive a /\ handed_out cfg E s a w'
  | Ready (Some (Err e)) => e <> ErrClosed /\ st' = StClosed /\ rest_ok E w'
  | Ready None => st' = StClosed /\ rest_ok E w'
  | Pending => st' <> StClosed /\ state_ok E st' w'
  end.

Definition close_result E (r : poll (result unit ConnectionError)) (st' : ConnectionState) (w' : World) : Prop :=
  match r with
  | Ready (Ok _) => st' = StClosed /\ rest_ok E w'
  | Ready (Err e) => (exists ioe, e = ErrIo ioe) /\ st' = StClosed /\ rest_ok E w'
  | Pending => (exists c, st' = StClosing c) /\ state_ok E st' w'
  end.

(** One iteration: a result, or a state further on. *)
Definition iter_result {A} E (P : poll A -> ConnectionState -> World -> Prop) (st : ConnectionState) (w : World)
    (r : option (poll A)) (st' : ConnectionState) (w' : World) : Prop :=
  moved st w st' w' /\
  match r with
  | Some r => P r st' w'
  | None => state_ok E st' w' /\ (state_rank st' < state_rank st)%nat
  end.

(** The loops around the iterations. *)
Lemma method_runs {A} (iter : nat -> M KS (option (poll A))) E (P : poll A -> ConnectionState -> World -> Prop) st w :
  (forall st w, state_ok E st w ->
     runs finite_work (fun fuel => iter fuel (st, w)) (fun '(r, (st', w')) => iter_result E P st w r st' w')) ->
  state_ok E st w ->
  runs finite_work (fun fuel => loop (iter fuel) fuel (st, w)) (fun '(r, (st', w')) => moved st w st' w' /\ P r st' w').
Proof.
  intros Hi Hok.
  apply (runs_loop_iter iter (fun s => state_ok E s.1 s.2 /\ moved st w s.1 s.2) (fun s => state_rank s.1)).
  2: { split; [done | by eapply moved_refl]. }
  intros [st1 w1] [Hok1 Hm1]. simpl in *. eapply runs_mono; [by apply Hi |].
  intros [r [st2 w2]] [Hm2 Hr]. assert (moved st w st2 w2) by (by eapply moved_trans).
  destruct r as [r|]; [done |]. simpl. by destruct Hr.
Qed.

Lemma closing_state E W r c w : rest_ok E w -> closing_result W r c (net w) -> r = Pending ->
  state_ok E (StClosing c) w.
Proof. intros Hrest [_ Hc] ->. split; [done | by exists W]. Qed.

Lemma new_outbound_iter_ok E st w cx :
  state_ok E st w ->
  runs finite_work (fun fuel => new_outbound_iter fuel cx (st, w))
    (fun '(r, (st', w')) => iter_result E (outbound_result E) st w r st' w').
Proof.
  destruct st as [a | c | u | |]; intros Hok; unfold new_outbound_iter; [| | | by apply runs_ret | done].
  - destruct (wp_returns _ _ _ (active_poll_new_outbound_ok cfg E a w cx Hok)) as (r & [a' w'] & -> & Hr).
    simpl. assert (Hfail : forall e, a' = a /\ w' = w -> r = Ready (Err e) ->
      runs finite_work (fun _ => s ← to_cleanup e (a', w'); Ret (@None (poll (result Stream ConnectionError)), s))
        (fun '(r, (st', w')) => iter_result E (outbound_result E) (StActive a) w r st' w')).
    { intros e [-> ->] _. eapply runs_returns_bind; [by apply to_cleanup_ok |].
      intros [st' w'] (u & -> & Hrest & Hu & _). apply runs_ret. split; [done |].
      split; [split; [done | by exists e] | simpl; lia]. }
    destruct (max_num_streams cfg <=? _); [destruct Hr as (-> & ?); by apply Hfail |].
    destruct (MAX_ACK_BACKLOG <=? _).
    { destruct Hr as (-> & -> & ->). apply runs_ret. split; [done |]. split; [done |].
      by apply conn_ok_outbound_waker. }
    destruct (u32_max <? _); [destruct Hr as (-> & ?); by apply Hfail |].
    destruct Hr as (s & -> & Hok' & _). apply runs_ret. split; [done |]. by exists a'.
  - destruct Hok as [Hrest [W Hc]].
    eapply (runs_bind (fun fuel => run_closing fuel cx c w)); [by eapply run_closing_runs |].
    intros [[r c'] w'] (Hrest' & _ & Hr). destruct r as [[[]|e]|]; apply runs_ret; (split; [done |]); [done.. |].
    split; [done |]. by eapply closing_state.
  - destruct Hok as [Hrest [e Hu]].
    eapply (runs_bind (fun fuel => run_cleanup fuel cx u w)); [by eapply run_cleanup_runs |].
    intros [[r u'] w'] (Hrest' & _ & ->). by apply runs_ret.
Qed.
Lemma next_inbound_iter_ok E st w cx :
  state_ok E st w ->
  runs finite_work (fun fuel => next_inbound_iter fuel cx (st, w))
    (fun '(r, (st', w')) => iter_result E (inbound_result E) st w r st' w').
Proof.
  destruct st as [a | c | u | |]; intros Hok; unfold next_inbound_iter; [| | | by apply runs_ret | done].
  - eapply (runs_bind (fun fuel => active_poll fuel cx (a, w))); [by eapply active_poll_runs |].
    intros [r [a' w']] Hr. destruct r as [[s|e]|]; simpl in Hr.
    + apply runs_ret. split; [done |]. by exists a'.
    + eapply runs_returns_bind; [by apply to_cleanup_ok |]. intros [st' w''] (u & -> & Hrest & Hu & _).
      apply runs_ret. split; [done |]. split; [split; [done | by exists e] | simpl; lia].
    + by apply runs_ret.
  - destruct Hok as [Hrest [W Hc]].
    eapply (runs_bind (fun fuel => run_closing fuel cx c w)); [by eapply run_closing_runs |].
    intros [[r c'] w'] (Hrest' & _ & Hr). destruct r as [[[]|e]|]; apply runs_ret; (split; [done |]).
    + done.
    + destruct Hr as [_ [ioe ->]]. by split.
    + split; [done |]. by eapply closing_state.
  - destruct Hok as [Hrest [e Hu]].
    eapply (runs_bind (fun fuel => run_cleanup fuel cx u w)); [by eapply run_cleanup_runs |].
    intros [[r u'] w'] (Hrest' & _ & ->). by destruct e; apply runs_ret.
Qed.

Lemma close_iter_ok E st w cx :
  state_ok E st w ->
  runs finite_work (fun fuel => close_iter fuel cx (st, w))
    (fun '(r, (st', w')) => iter_result E (close_result E) st w r st' w').
Proof.
  destruct st as [a | c | u | |]; intros Hok; unfold close_iter; [| | | by apply runs_ret | done].
  - destruct (wp_returns _ _ _ (active_close_ok cfg E a w Hok streams_nonneg)) as (c & [a' w'] & -> & Hc).
    destruct Hc as (-> & Hok' & Hc & _). apply runs_ret. split; [done |].
    split; [split; [by eapply rest_ok_drained | by eexists] | simpl; lia].
  - destruct Hok as [Hrest [W Hc]].
    eapply (runs_bind (fun fuel => run_closing fuel cx c w)); [by eapply run_closing_runs |].
    intros [[r c'] w'] (Hrest' & _ & Hr). destruct r as [[[]|e]|]; apply runs_ret; (split; [done |]).
    + split; [done | simpl; lia].
    + destruct Hr as [_ He]. by split.
    + split; [by exists c' |]. by eapply closing_state.
  - destruct Hok as [Hrest [e Hu]].
    eapply (runs_bind (fun fuel => run_cleanup fuel cx u w)); [by eapply run_cleanup_runs |].
    intros [[r u'] w'] (Hrest' & _ & ->). by apply runs_ret.
Qed.

Lemma poll_new_outbound_runs E st w cx :
  state_ok E st w ->
  runs finite_work (fun fuel => conn_poll_new_outbound fuel cx (st, w))
    (fun '(r, (st', w')) => moved st w st' w' /\ outbound_result E r st' w').
Proof. intros Hok. apply (method_runs _ E (outbound_result E)); [intros; by apply new_outbound_iter_ok | done]. Qed.

Lemma poll_next_inbound_runs E st w cx :
  state_ok E st w ->
  runs finite_work (fun fuel => conn_poll_next_inbound fuel cx (st, w))
    (fun '(r, (st', w')) => moved st w st' w' /\ inbound_result E r st' w').
Proof. intros Hok. apply (method_runs _ E (inbound_result E)); [intros; by apply next_inbound_iter_ok | done]. Qed.

Lemma poll_close_runs E st w cx :
  state_ok E st w ->
  runs finite_work (fun fuel => conn_poll_close fuel cx (st, w))
    (fun '(r, (st', w')) => moved st w st' w' /\ close_result E r st' w').
Proof. intros Hok. apply (method_runs _ E (close_result E)); [intros; by apply close_iter_ok | done]. Qed.

(** An error of the active connection, on its way through the cleanup. *)
Lemma next_inbound_error E a w cx fuel0 e a1 w1 :
  conn_ok cfg E a w -> active_poll fuel0 cx (a, w) = Ret (Ready (Err e), (a1, w1)) ->
  runs finite_work (fun fuel => conn_poll_next_inbound fuel cx (StActive a, w)) (fun '(r, (st', w')) =>
    st' = StClosed /\ r = Ready (match e with ErrClosed => None | _ => Some (Err e) end) /\
    all_shut (map_drain (ac_streams a1)) (mem w1) (mem w')).
Proof.
  intros Hok He.
  assert (Hok1 : conn_ok cfg E a1 w1).
  { pose proof (active_poll_safe usize_wide cfg E fuel0 a w cx Hok) as Hs. unfold safe in Hs. by rewrite He in Hs. }
  apply (runs_loop_iter (fun fuel => next_inbound_iter fuel cx) (fun s => s = (StActive a, w) \/
    exists u, s.1 = StCleanup u /\ rest_ok E s.2 /\ cleanup_ok e u (net s.2) /\
              all_shut (map_drain (ac_streams a1)) (mem w1) (mem s.2)) (fun s => state_rank s.1)); [| by left].
  intros [st2 w2] [[= -> ->] | (u & Hst & Hrest & Hu & Hs)]; unfold next_inbound_iter.
  - eapply (runs_bind (fun fuel => active_poll fuel cx (a, w))); [by eapply runs_loop_agree |].
    intros x ->. eapply runs_returns_bind; [by apply to_cleanup_ok |].
    intros [st' w'] (u & -> & Hrest & Hu & Hs). apply runs_ret. split; [right; by exists u | simpl; lia].
  - simpl in Hst, Hrest, Hu, Hs. subst st2.
    eapply (runs_bind (fun fuel => run_cleanup fuel cx u w2)); [by eapply run_cleanup_runs |].
    intros [[r u'] w'] (Hrest' & Hm & ->). rewrite <- Hm in Hs. by destruct e; apply runs_ret.
Qed.

Lemma conn_drop_ok E st w :
  state_ok E st w ->
  returns (conn_drop (st, w)) (fun w' => rest_ok E w' /\
    match st with
    | StActive a => all_shut (map_drain (ac_streams a)) (mem w) (mem w')
    | _ => w' = w
    end).
Proof.
  unfold conn_drop. destruct st as [a | c | u | |]; intros Hok; simpl; [| by destruct Hok.. | by split | done].
  destruct (wp_returns _ _ _ (drop_all_streams_ok cfg E a w Hok streams_nonneg)) as ([] & [a' w'] & -> & Hd).
  destruct Hd as (-> & Hok' & _ & Hs). simpl. split; [by eapply rest_ok_drained | done].
Qed.

(** A new connection satisfies the invariant. *)
Lemma connection_new_ok socket mode w :
  mem_ok cfg (mem w) -> refs_ok (fun _ => 0%nat) (mem w) -> net_ok (net w) -> sock_ok socket ->
  state_ok (fun _ => 0%nat) (connection_new socket cfg mode) w.
Proof.
  intros Hm Hr Hn Hs. split; try done; simpl.
  - by destruct mode.
  - apply select_all_default_law.
Qed.
End state_spec.
