(* ===== verification/FramedSocket.v ===== *)
(** * The framed socket: [Fuse<frame::Io<T>>]

    The framing layer of [frame/io.rs] behind the [Fuse] adapter of the futures crate is a socket as
    the connection needs it: the laws of [FrameSocketLaws] and [FrameSocketWire] hold of it for every
    byte stream, and it has finitely many frames to deliver when the byte stream has finitely many
    bytes. *)
From Stdlib Require Import ZArith Lia Strings.Byte.
From stdpp Require Import base option list gmap numbers.
From S2P Require Import Prelude.
From S2P Require Import Header.
From S2P Require Import Frame.
From S2P Require Import Config.
From S2P Require Import Command.
From S2P Require Import Heap.
From S2P Require Import Channel.
From S2P Require Import FrameIo.
From S2P Require Import FrameIoSpec.
From S2P Require Import Connection.
From S2P Require Import ConnInvariant.
From S2P Require Import Forward.
From S2P Require Import Transport.

Section framed.
Context `{Arch} `{Hio : AsyncIo}.

(** [Fuse]: once the stream has ended it is not polled again. The sink is passed through. *)
Record Fused : Type := mkFused {
  fu_io : Io;
  fu_done : bool;
}.

Definition on_inner {A} (m : M Io A) : M Fused A := zoom fu_io (fun i s => mkFused i (fu_done s)) m.

Definition fused_poll_next (cx : Waker) : M Fused (poll (option (result (Frame unit) FrameDecodeError))) :=
  over ← gets fu_done;
  if over : bool then mret (Ready None) else
  r ← on_inner (io_poll_next cx);
  match r with
  | Ready None => modify (fun s => mkFused (fu_io s) true) ≫= fun _ => mret (Ready None)
  | _ => mret r
  end.

#[export] Instance framed_socket : FrameSocket := {|
  FSock := Fused;
  sock_poll_ready := fun cx => on_inner (io_poll_ready cx);
  sock_start_send := fun f => on_inner (io_start_send f);
  sock_poll_flush := fun cx => on_inner (io_sink_flush cx);
  sock_poll_close := fun cx => on_inner (io_sink_close cx);
  sock_poll_next := fused_poll_next;
|}.

Definition framed_new (s : Socket) : FSock := mkFused (io_new s) false.

Context `{!AsyncIoLaws}.

(** The bytes of a frame that is not complete are the last that have arrived. *)
Definition io_ok (i : Io) : Prop :=
  (read_ok (read_state i) /\ reading (read_state i) `suffix_of` io_received (io i)) /\ write_ok (write_state i).

(** A frame that was parsed is one a peer can send. *)
Lemma parsed_sendable bs f rest : parse_frame bs = Parsed f rest -> frame_sendable f.
Proof.
  unfold parse_frame. destruct (Z.ltb_spec (zlen bs) HEADER_SIZE) as [| Hl]; [done |].
  unfold HEADER_SIZE in *. destruct (decode _) as [h|] eqn:Hd; [| done].
  destruct (decode_canonical (take (Z.to_nat 12) bs) h) as (_ & Ht & Hv); [| exact Hd |].
  { rewrite length_take. unfold zlen in Hl. lia. }
  unfold parse_body. case_decide as Htag.
  { intros [= <- <-]. split; [| done]. split_and!; try done. simpl. by case_decide. }
  destruct (Z.ltb_spec MAX_FRAME_BODY_LEN (len h)); [done |].
  set (b := drop _ bs). destruct (Z.ltb_spec (zlen b) (len h)); [done |]. intros [= <- <-].
  assert (Hlen : zlen (take (Z.to_nat (len h)) b) = len h).
  { destruct Ht as (_ & _ & _ & ?). zlen_lia. }
  split; simpl; [| lia]. split_and!; simpl; try done. case_decide; [done |].
  by destruct Htag.
Qed.

Lemma inner_rule {A} (m : M Io A) (P : A -> Io -> Prop) (Q : A -> Fused -> Prop) s :
  wp m P (fu_io s) -> (forall a i, P a i -> Q a (mkFused i (fu_done s))) -> wp (on_inner m) Q s.
Proof. intros Hm HQ. apply wp_zoom. eapply wp_mono; [exact Hm |]. exact (fun a i => HQ a i). Qed.

(** What an operation of the sink does to the socket. *)
Definition sink_step (s : Fused) (r : poll (result unit IoError)) (s' : Fused) : Prop :=
  io_ok (fu_io s') /\ on_wire (fu_io s') = on_wire (fu_io s) /\
  io_received (io (fu_io s')) = io_received (io (fu_io s)) /\
  read_state (fu_io s') = read_state (fu_io s) /\
  (r = Ready (Ok tt) -> write_state (fu_io s') = WriteInit).

Lemma write_rel_step s r i b : io_ok (fu_io s) -> write_rel (fu_io s) r i -> sink_step s r (mkFused i b).
Proof.
  intros [Hr _] Hw. pose proof (write_rel_sink _ _ _ Hw) as (Hok & Hrs & Hrc & Ho).
  destruct Hw as (_ & _ & _ & _ & _ & Hi). simpl in Ho. rewrite app_nil_r in Ho.
  split; [unfold io_ok; simpl; by rewrite Hrs, Hrc | by split_and!].
Qed.

Lemma framed_ready_ok cx s : io_ok (fu_io s) -> wp (sock_poll_ready cx) (sink_step s) s.
Proof.
  intros Hok. apply (inner_rule _ (write_rel (fu_io s))); [by apply io_poll_ready_ok, Hok |].
  intros r i Hw. by apply write_rel_step.
Qed.

Lemma framed_flush_ok cx s : io_ok (fu_io s) -> wp (sock_poll_flush cx) (sink_step s) s.
Proof.
  intros Hok. apply (inner_rule _ (write_rel (fu_io s))); [by apply io_sink_flush_ok, Hok |].
  intros r i Hw. by apply write_rel_step.
Qed.

Lemma framed_close_ok cx s : io_ok (fu_io s) -> wp (sock_poll_close cx) (sink_step s) s.
Proof.
  intros Hok. apply (inner_rule _ (write_rel (fu_io s))); [by apply io_sink_close_ok, Hok |].
  intros r i Hw. by apply write_rel_step.
Qed.

(** A frame of the crate fits into a [usize]. *)
Lemma frame_wf_fits (f : Frame unit) : frame_wf f -> zlen (body f) <= usize_max.
Proof.
  intros (Ht & _ & Hb). pose proof usize_max_u32. destruct Ht as (_ & _ & _ & Hl). case_decide; [lia |].
  rewrite Hb. rewrite zlen_nil. unfold u32_max in *. lia.
Qed.

Lemma framed_send_ok f s :
  io_ok (fu_io s) -> frame_wf f ->
  wp (sock_start_send f) (fun r s' =>
    r = Ok tt /\ io_ok (fu_io s') /\ read_state (fu_io s') = read_state (fu_io s) /\
    io (fu_io s') = io (fu_io s) /\
    (write_state (fu_io s) = WriteInit -> on_wire (fu_io s') = on_wire (fu_io s) ++ frame_wire f)) s.
Proof.
  intros [Hr Hw] Hf. simpl. unfold on_inner. apply wp_zoom. unfold io_start_send. wp_step. apply wp_modify.
  apply wp_ret. split; [done |]. split.
  { split; [done |]. simpl. split_and!; try (done || lia). by apply frame_wf_fits. }
  split_and!; try done. intros Hi. unfold on_wire. simpl. rewrite Hi. simpl. by rewrite app_nil_r.
Qed.

(** What is kept of the bytes that were found. *)
Lemma read_res_suffix bs r rs : read_res bs r rs -> reading rs `suffix_of` bs.
Proof.
  assert (Hsame : reading rs = bs -> reading rs `suffix_of` bs) by (intros ->; done).
  destruct r as [[[f|[e|e|n]]|]|]; simpl; intros [Hb Hr]; auto; [rewrite Hr; apply suffix_nil | rewrite Hr; apply suffix_nil].
Qed.

(** What reading does. *)
Lemma framed_next_ok cx s :
  io_ok (fu_io s) ->
  wp (sock_poll_next cx) (fun r s' =>
    io_ok (fu_io s') /\ on_wire (fu_io s') = on_wire (fu_io s) /\
    write_state (fu_io s') = write_state (fu_io s) /\
    exists d, io_received (io (fu_io s')) = io_received (io (fu_io s)) ++ d /\
      (s' = s /\ r = Ready None /\ d = [] \/
       read_res (reading (read_state (fu_io s)) ++ d) r (read_state (fu_io s')))) s.
Proof.
  intros [[Hr Hsf] Hw]. simpl. unfold fused_poll_next. wp_step. apply wp_gets.
  destruct (fu_done s) eqn:Hd.
  { apply wp_ret. split_and!; try done. exists []. rewrite app_nil_r. split; [done | by left]. }
  wp_step. apply (inner_rule _ (read_io_rel (fu_io s))); [by apply io_poll_next_ok |].
  intros r i (Hws & Hs & Hrok & d & Hrc & Hres).
  assert (Hgo : forall b, io_ok i /\ on_wire (fu_io (mkFused i b)) = on_wire (fu_io s) /\
    write_state (fu_io (mkFused i b)) = write_state (fu_io s)).
  { intros b. unfold io_ok, on_wire. simpl. rewrite Hws, Hs, Hrc. split_and!; try done.
    etrans; [by eapply read_res_suffix |]. by apply suffix_app. }
  destruct r as [[r|]|].
  - apply wp_ret. destruct (Hgo (fu_done s)) as (? & ? & ?). split_and!; try done. exists d. auto.
  - wp_step. apply wp_modify. apply wp_ret. destruct (Hgo true) as (? & ? & ?). split_and!; try done.
    exists d. auto.
  - apply wp_ret. destruct (Hgo (fu_done s)) as (? & ? & ?). split_and!; try done. exists d. auto.
Qed.

(** ** The laws *)

#[export] Instance framed_laws : FrameSocketLaws.
Proof.
  refine {| sock_ok := fun s : FSock => io_ok (fu_io s) |}.
  - intros cx s Hs. eapply wp_mono; [by apply framed_ready_ok |]. intros r s' Hstep. apply Hstep.
  - intros f s Hs Hf. eapply wp_mono; [by apply framed_send_ok |]. by intros r s' (_ & ? & _).
  - intros cx s Hs. eapply wp_mono; [by apply framed_flush_ok |]. intros r s' Hstep. apply Hstep.
  - intros cx s Hs. eapply wp_mono; [by apply framed_close_ok |]. intros r s' Hstep. apply Hstep.
  - intros cx s Hs. eapply wp_mono; [by apply framed_next_ok |].
    intros r s' (Hok & _ & _ & d & _ & Hres). split; [done |]. intros f ->.
    destruct Hres as [(_ & ? & _) | [Hp _]]; [done |]. by eapply parsed_sendable.
Defined.

Lemma wp_ret_inv {S A} (m : M S A) (Q : A -> S -> Prop) s a s' : wp m Q s -> m s = Ret (a, s') -> Q a s'.
Proof. unfold wp. intros Hw He. by rewrite He in Hw. Qed.

#[export] Instance framed_wire : FrameSocketWire.
Proof.
  refine {| sock_wire := fun s : FSock => on_wire (fu_io s);
            sock_idle := fun s : FSock => write_state (fu_io s) = WriteInit |}.
  - intros cx s r s' Hs He. destruct (wp_ret_inv _ _ _ _ _ (framed_ready_ok cx s Hs) He) as (_ & ? & _ & _ & ?).
    by split.
  - intros f s r s' Hs Hi Hf He.
    destruct (wp_ret_inv _ _ _ _ _ (framed_send_ok f s Hs Hf) He) as (? & _ & _ & _ & Hw). split; [done | by apply Hw].
  - intros cx s r s' Hs He. apply (wp_ret_inv _ _ _ _ _ (framed_flush_ok cx s Hs) He).
  - intros cx s r s' Hs He. apply (wp_ret_inv _ _ _ _ _ (framed_close_ok cx s Hs) He).
  - intros cx s r s' Hs He. apply (wp_ret_inv _ _ _ _ _ (framed_next_ok cx s Hs) He).
Defined.

(** The bytes of the frames that have been delivered: all that have arrived but those of a frame that is
    not complete. *)
Definition on_read (i : Io) : list byte :=
  take (length (io_received (io i)) - length (reading (read_state i))) (io_received (io i)).

Lemma on_read_app i bs : io_received (io i) = bs ++ reading (read_state i) -> on_read i = bs.
Proof.
  intros He. unfold on_read. rewrite He, length_app. apply take_app_length'. lia.
Qed.

Lemma on_read_sink s r s' : sink_step s r s' -> on_read (fu_io s') = on_read (fu_io s).
Proof. intros (_ & _ & Hrc & Hrs & _). unfold on_read. by rewrite Hrc, Hrs. Qed.

(** A parsed frame is its wire. *)
Lemma parsed_wire bs f rest : parse_frame bs = Parsed f rest -> bs = frame_wire f ++ rest.
Proof.
  unfold parse_frame. destruct (Z.ltb_spec (zlen bs) HEADER_SIZE) as [| Hl]; [done |].
  unfold HEADER_SIZE in *. destruct (decode _) as [h|] eqn:Hd; [| done].
  destruct (decode_canonical (take (Z.to_nat 12) bs) h) as (He & _ & _); [| exact Hd |].
  { rewrite length_take. unfold zlen in Hl. lia. }
  intros Hp. rewrite <- (take_drop (Z.to_nat 12) bs). rewrite <- He. unfold frame_wire. rewrite <- app_assoc.
  unfold parse_body in Hp. case_decide; [by injection Hp as <- <- |].
  destruct (_ <? _); [done |]. destruct (_ <? _); [done |]. injection Hp as <- <-. simpl. by rewrite take_drop.
Qed.

#[export] Instance framed_reads : FrameSocketReads.
Proof.
  refine {| sock_read := fun s : FSock => on_read (fu_io s) |}.
  - intros cx s r s' Hs He. eapply on_read_sink. exact (wp_ret_inv _ _ _ _ _ (framed_ready_ok cx s Hs) He).
  - intros f s r s' Hs Hf He. destruct (wp_ret_inv _ _ _ _ _ (framed_send_ok f s Hs Hf) He) as (_ & _ & Hr & Hi & _).
    unfold on_read. by rewrite Hr, Hi.
  - intros cx s r s' Hs He. eapply on_read_sink. exact (wp_ret_inv _ _ _ _ _ (framed_close_ok cx s Hs) He).
  - intros cx s r s' Hs He. eapply on_read_sink. exact (wp_ret_inv _ _ _ _ _ (framed_flush_ok cx s Hs) He).
  - intros cx s r s' Hs He. destruct (wp_ret_inv _ _ _ _ _ (framed_next_ok cx s Hs) He) as (_ & _ & _ & d & Hd & Hres).
    destruct Hs as [[_ [bs Hbs]] _]. rewrite (on_read_app _ _ Hbs). rewrite Hbs, <- app_assoc in Hd.
    destruct Hres as [(-> & -> & _) | Hres]; [by apply on_read_app |].
    destruct r as [[[f|e]|]|]; simpl in Hres; [| destruct e | |]; destruct Hres as [Hp Hr].
    + apply on_read_app. apply parsed_wire in Hp. by rewrite Hd, Hp, Hr, <- app_assoc.
    + apply on_read_app. by rewrite Hd, Hr.
    + apply on_read_app. by rewrite Hd, Hr.
    + apply on_read_app. by rewrite Hd, Hr.
    + apply on_read_app. by rewrite Hd, Hp, Hr.
    + apply on_read_app. by rewrite Hd, Hr.
Defined.

(** ** Finite input *)

(** A byte stream on which only so many bytes can still arrive: reading takes as many away as it
    gives, and nothing adds any. *)
Class FiniteInput : Type := {
  input_left : Socket -> nat;
  input_read_law : forall cx buf s,
    let '(_, _, s') := io_poll_read cx buf s in
    (input_left s' + length (io_received s') <= input_left s + length (io_received s))%nat;
  input_write_law : forall cx buf s, (input_left (io_poll_write cx buf s).2 <= input_left s)%nat;
  input_flush_law : forall cx s, (input_left (io_poll_flush cx s).2 <= input_left s)%nat;
}.

(** Computations that do not raise a measure. *)
Definition lowers {S A} (mu : S -> nat) (m : M S A) : Prop :=
  forall s a s', m s = Ret (a, s') -> (mu s' <= mu s)%nat.

Lemma lowers_ret {S A} (mu : S -> nat) (a : A) : lowers mu (mret a).
Proof. by intros s ? ? [= <- <-]. Qed.

Lemma lowers_bind {S A B} (mu : S -> nat) (m : M S A) (k : A -> M S B) :
  lowers mu m -> (forall a, lowers mu (k a)) -> lowers mu (m ≫= k).
Proof.
  intros Hm Hk s b s2. unfold mbind, M_bind. destruct (m s) as [[a s1]| |] eqn:He; [| done..].
  intros He2. specialize (Hm _ _ _ He). specialize (Hk _ _ _ _ He2). lia.
Qed.

Lemma lowers_lift {S A} (mu : S -> nat) (o : outcome A) : lowers mu (lift o).
Proof. intros s a s'. unfold lift. destruct o; [by intros [= <- <-] | done..]. Qed.

Lemma lowers_gets {S A} (mu : S -> nat) (f : S -> A) : lowers mu (gets f).
Proof. by intros s a s' [= <- <-]. Qed.

Lemma lowers_modify {S} (mu : S -> nat) (f : S -> S) : (forall s, mu (f s) <= mu s)%nat -> lowers mu (modify f).
Proof. intros Hf s a s' [= <- <-]. apply Hf. Qed.

Context `{!FiniteInput}.

(** The bytes that have arrived and those that can. *)
Definition input_total (i : Io) : nat := (input_left (io i) + length (io_received (io i)))%nat.

Lemma lowers_write cx buf : lowers input_total (on_io (io_poll_write cx buf)).
Proof.
  intros i r i'. unfold on_io. pose proof (input_write_law cx buf (io i)).
  pose proof (io_write_law cx buf (io i)) as Hl. destruct (io_poll_write cx buf (io i)) as [x s].
  intros [= <- <-]. destruct Hl as [Hl _]. unfold input_total. simpl in *. rewrite Hl. lia.
Qed.

Lemma lowers_flush cx : lowers input_total (on_io (io_poll_flush cx)).
Proof.
  intros i r i'. unfold on_io. pose proof (input_flush_law cx (io i)).
  pose proof (io_flush_law cx (io i)) as [Hl _]. destruct (io_poll_flush cx (io i)) as [x s].
  intros [= <- <-]. unfold input_total. simpl in *. rewrite Hl. lia.
Qed.

Lemma lowers_read_into cx off until buf : lowers input_total (read_into cx off until buf).
Proof.
  apply lowers_bind; [apply lowers_lift |]. intros dst. apply lowers_bind; [| intros []; apply lowers_ret].
  intros i r i'. unfold on_io. pose proof (input_read_law cx dst (io i)) as Hl.
  destruct (io_poll_read cx dst (io i)) as [[x d] s]. by intros [= <- <-].
Qed.

Ltac lowers_step :=
  lazymatch goal with
  | |- lowers _ (mret _) => apply lowers_ret
  | |- lowers _ (lift _) => apply lowers_lift
  | |- lowers _ (gets _) => apply lowers_gets
  | |- lowers _ (modify _) => apply lowers_modify; intros; reflexivity
  | |- lowers _ (read_into _ _ _ _) => apply lowers_read_into
  | |- lowers _ (on_io (io_poll_write _ _)) => apply lowers_write
  | |- lowers _ (_ ≫= _) => apply lowers_bind; [| intros ?]
  | |- lowers _ (match ?x with _ => _ end) => destruct x
  | |- lowers _ (if ?x then _ else _) => destruct x
  end.

Lemma lowers_poll_ready cx : lowers input_total (io_poll_ready cx).
Proof.
  intros i r i'. unfold io_poll_ready. generalize (S (length (unsent (write_state i)))) as fuel.
  intros fuel. revert i r i'. change (lowers input_total (poll_ready_loop fuel cx)).
  induction fuel as [|fuel IH]; simpl; repeat first [exact IH | lowers_step].
Qed.

Lemma lowers_poll_next cx : lowers input_total (io_poll_next cx).
Proof.
  unfold io_poll_next. generalize io_read_fuel as fuel. intros fuel.
  induction fuel as [|fuel IH]; simpl; repeat first [exact IH | lowers_step].
Qed.

(** The bytes from which frames can still come. *)
Definition framed_left (s : FSock) : nat :=
  (input_left (io (fu_io s)) + length (reading (read_state (fu_io s))))%nat.

Lemma framed_sink_left (m : M Io (poll (result unit IoError))) s r s' :
  lowers input_total m -> on_inner m s = Ret (r, s') -> sink_step s r s' -> (framed_left s' <= framed_left s)%nat.
Proof.
  intros Hm He (_ & _ & Hrc & Hrs & _). unfold on_inner, zoom in He.
  destruct (m (fu_io s)) as [[x i]| |] eqn:Hi; [| done..]. injection He as <- <-.
  specialize (Hm _ _ _ Hi). unfold input_total, framed_left in *. simpl in *. rewrite Hrs. rewrite Hrc in Hm. lia.
Qed.

Lemma framed_ready_left cx s r s' :
  io_ok (fu_io s) -> sock_poll_ready cx s = Ret (r, s') -> (framed_left s' <= framed_left s)%nat.
Proof.
  intros Hs He. eapply framed_sink_left; [apply lowers_poll_ready | exact He |].
  exact (wp_ret_inv _ _ _ _ _ (framed_ready_ok cx s Hs) He).
Qed.

Lemma framed_flush_left cx s r s' :
  io_ok (fu_io s) -> sock_poll_flush cx s = Ret (r, s') -> (framed_left s' <= framed_left s)%nat.
Proof.
  intros Hs He. eapply framed_sink_left; [| exact He | exact (wp_ret_inv _ _ _ _ _ (framed_flush_ok cx s Hs) He)].
  apply lowers_bind; [apply lowers_poll_ready |]. intros [[[]|e]|]; try apply lowers_ret. apply lowers_flush.
Qed.

Lemma framed_send_left f s r s' :
  io_ok (fu_io s) -> frame_wf f -> sock_start_send f s = Ret (r, s') -> (framed_left s' <= framed_left s)%nat.
Proof.
  intros Hs Hf He. destruct (wp_ret_inv _ _ _ _ _ (framed_send_ok f s Hs Hf) He) as (_ & _ & Hr & Hi & _).
  unfold framed_left. by rewrite Hr, Hi.
Qed.

Lemma parsed_nonempty bs f rest : parse_frame bs = Parsed f rest -> (0 < length bs)%nat.
Proof. by destruct bs; [| simpl; lia]. Qed.

Lemma framed_next_left cx s r s' :
  io_ok (fu_io s) -> sock_poll_next cx s = Ret (r, s') ->
  match r with
  | Ready (Some (Ok _)) => (framed_left s' < framed_left s)%nat
  | _ => (framed_left s' <= framed_left s)%nat
  end.
Proof.
  intros Hs He. destruct (wp_ret_inv _ _ _ _ _ (framed_next_ok cx s Hs) He) as (_ & _ & _ & d & Hd & Hres).
  destruct Hres as [(-> & -> & _) | Hres]; [done |].
  assert (Ht : (input_total (fu_io s') <= input_total (fu_io s))%nat).
  { assert (Hl : lowers (fun s => input_total (fu_io s)) (fused_poll_next cx)); [| by apply Hl in He].
    unfold fused_poll_next. repeat first [lowers_step | progress simpl].
    intros t x t' Ht. unfold on_inner, zoom in Ht. destruct (io_poll_next cx (fu_io t)) as [[y i]| |] eqn:Hi; [| done..].
    injection Ht as <- <-. by apply lowers_poll_next in Hi. }
  unfold input_total in Ht. rewrite Hd, length_app in Ht. unfold framed_left.
  destruct r as [[[f|[ioe|e|n]]|]|]; simpl in Hres; destruct Hres as [Hp Hr]; rewrite Hr; simpl;
    rewrite ?length_app; try lia.
  apply parsed_nonempty in Hp. rewrite length_app in Hp. lia.
Qed.
End framed.
