(* ===== verification/Fifo.v ===== *)
(** * One implementation of the channels

    The development is generic in the channels of the futures crate. This file gives the plainest
    implementation with their documented behaviour, bounded first-in-first-out queues and a list of
    receivers that are asked in turn, and shows that the laws hold of it: the theorems about
    connections apply to something, and their witnesses run on it. *)
From Stdlib Require Import ZArith Lia Strings.Byte.
From stdpp Require Import base option list gmap numbers.
From S2P Require Import Prelude.
From S2P Require Import Header.
From S2P Require Import Frame.
From S2P Require Import Config.
From S2P Require Import Command.
From S2P Require Import Heap.
From S2P Require Import Channel.
From S2P Require Import TaggedStream.
From S2P Require Import FrameIo.
From S2P Require Import FrameIoSpec.
From S2P Require Import Connection.
From S2P Require Import ConnInvariant.
From S2P Require Import ConnLoop.
From S2P Require Import FramedSocket.

(** ** Channels *)

Record Chan : Set := mkChan {
  ch_queue : list StreamCommand;
  ch_capacity : Z;
  ch_senders : nat;
  ch_closed : bool;
}.

(** All channels; the next number to give to one. *)
Record Chans : Set := mkChans {
  chans : gmap positive Chan;
  next_chan : positive;
}.

Definition chan_at (c : positive) (n : Chans) : Chan := default (mkChan [] 0 0 true) (chans n !! c).
Definition set_chan (c : positive) (x : Chan) (n : Chans) : Chans := mkChans (<[c := x]> (chans n)) (next_chan n).

Definition fifo_channel (k : Z) (n : Chans) : (positive * positive) * Chans :=
  ((next_chan n, next_chan n),
   mkChans (<[next_chan n := mkChan [] k 1 false]> (chans n)) (Pos.succ (next_chan n))).

Definition fifo_clone (c : positive) (n : Chans) : positive * Chans :=
  let x := chan_at c n in (c, set_chan c (mkChan (ch_queue x) (ch_capacity x) (S (ch_senders x)) (ch_closed x)) n).

(** There is room for the capacity and one more command for each sender. *)
Definition fifo_poll_ready (c : positive) (cx : Waker) (n : Chans) : poll (result unit unit) * Chans :=
  let x := chan_at c n in
  (if ch_closed x then Ready (Err tt)
   else if zlen (ch_queue x) <? ch_capacity x + Z.of_nat (ch_senders x) then Ready (Ok tt) else Pending, n).

Definition fifo_start_send (c : positive) (cmd : StreamCommand) (n : Chans) : result unit unit * Chans :=
  let x := chan_at c n in
  if ch_closed x then (Err tt, n)
  else (Ok tt, set_chan c (mkChan (ch_queue x ++ [cmd]) (ch_capacity x) (ch_senders x) false) n).

Definition fifo_poll_flush (c : positive) (cx : Waker) (n : Chans) : poll (result unit unit) * Chans :=
  match fifo_poll_ready c cx n with
  | (Ready (Err _), n) => (Ready (Ok tt), n)
  | r => r
  end.

Definition fifo_drop (c : positive) (n : Chans) : Chans :=
  let x := chan_at c n in set_chan c (mkChan (ch_queue x) (ch_capacity x) (pred (ch_senders x)) (ch_closed x)) n.

Definition fifo_poll_next (c : positive) (cx : Waker) (n : Chans) : poll (option StreamCommand) * Chans :=
  let x := chan_at c n in
  match ch_queue x with
  | cmd :: q => (Ready (Some cmd), set_chan c (mkChan q (ch_capacity x) (ch_senders x) (ch_closed x)) n)
  | [] => (if ch_closed x || (ch_senders x =? 0)%nat then Ready None else Pending, n)
  end.

Definition fifo_close (c : positive) (n : Chans) : Chans :=
  let x := chan_at c n in set_chan c (mkChan (ch_queue x) (ch_capacity x) (ch_senders x) true) n.

#[export] Instance fifo : Mpsc := {|
  Net := Chans;
  Sender := positive;
  Receiver := positive;
  mpsc_channel := fifo_channel;
  sender_clone := fifo_clone;
  sender_poll_ready := fifo_poll_ready;
  sender_start_send := fifo_start_send;
  sender_poll_flush := fifo_poll_flush;
  sender_is_closed := fun c n => ch_closed (chan_at c n);
  sender_drop := fifo_drop;
  receiver_poll_next := fifo_poll_next;
  receiver_close := fifo_close;
|}.

Definition net_new : @Net fifo := mkChans ∅ 1.

(** Every command in a queue is one that may be sent. *)
Definition chans_ok (n : Chans) : Prop := forall c, Forall cmd_ok (ch_queue (chan_at c n)).

Lemma chan_at_set c x n c' : chan_at c' (set_chan c x n) = if decide (c = c') then x else chan_at c' n.
Proof.
  unfold chan_at, set_chan. simpl. case_decide; subst; [by rewrite lookup_insert_eq | by rewrite lookup_insert_ne].
Qed.

Lemma chans_ok_set c x n : chans_ok n -> Forall cmd_ok (ch_queue x) -> chans_ok (set_chan c x n).
Proof. intros Hn Hx c'. rewrite chan_at_set. by case_decide. Qed.

#[export] Instance fifo_laws : MpscLaws.
Proof.
  refine {| net_ok := chans_ok : Net -> Prop |}; simpl.
  - intros k n Hn c. apply (chans_ok_set (next_chan n) (mkChan [] k 1 false) n Hn (List.Forall_nil _) c).
  - intros c n Hn. apply chans_ok_set; [done | apply Hn].
  - done.
  - intros c cmd n Hn Hc. unfold fifo_start_send. destruct (ch_closed _); [done |].
    apply chans_ok_set; [done |]. apply Forall_app. split; [apply Hn | by apply Forall_singleton].
  - intros c cx n Hn. unfold fifo_poll_flush. destruct (fifo_poll_ready c cx n) as [r n'] eqn:He.
    assert (n' = n) as -> by (unfold fifo_poll_ready in He; by injection He as _ <-).
    by destruct r as [[]|].
  - intros c n Hn. apply chans_ok_set; [done | apply Hn].
  - intros c cx n Hn. unfold fifo_poll_next. pose proof (Hn c) as Hq.
    destruct (ch_queue (chan_at c n)) as [|cmd q]; simpl.
    { split; [done |]. intros x. by destruct (_ || _). }
    inversion Hq; subst. split; [by apply chans_ok_set |]. by intros x [= <-].
  - intros c n Hn. apply chans_ok_set; [done | apply Hn].
Defined.

#[export] Instance fifo_ready : ReadySenders.
Proof.
  intros c cx n n1 cmd Hr. simpl in *. unfold fifo_poll_ready in Hr. unfold fifo_start_send.
  destruct (ch_closed (chan_at c n)) eqn:Hc; [done |]. injection Hr as _ <-. by rewrite Hc.
Qed.

(** ** The collection of receivers *)

Section select_all.
Context {S N Item : Type} (f : S -> N -> poll (option Item) * S * N).

(** Ask the members in turn; one that yields goes to the end, one that has ended is removed. *)
Fixpoint fair_poll (asked q : list S) (n : N) : poll (option Item) * list S * N :=
  match q with
  | [] => (match asked with [] => Ready None | _ => Pending end, asked, n)
  | s :: q =>
      let '(r, s, n) := f s n in
      match r with
      | Ready (Some a) => (Ready (Some a), asked ++ q ++ [s], n)
      | Ready None => fair_poll asked q n
      | Pending => fair_poll (asked ++ [s]) q n
      end
  end.
End select_all.

#[export] Instance fair : SelectAllOps := {|
  SelectAll := list;
  select_all_default := fun S => [];
  select_all_push := fun S s q => q ++ [s];
  select_all_poll_next := fun S N Item f q n => fair_poll f [] q n;
  select_all_for_each := fun S N f q n => foldl (fun n s => f s n) n q;
|}.

#[export] Instance fair_laws : SelectAllLaws.
Proof.
  refine {| select_all_all := fun S (P : S -> Prop) => (Forall P : SelectAll S -> Prop) |}; simpl.
  - intros S P. apply List.Forall_nil.
  - intros S P s q Hs Hq. apply Forall_app. split; [done | by apply Forall_singleton].
  - intros S N Item f P I Q Hf q n Hq Hn. generalize (@nil S) (List.Forall_nil P). intros asked Ha.
    revert asked n Ha Hn. induction Hq as [|s q Hs Hq IH]; intros asked n Ha Hn; simpl.
    { split_and!; try done. intros a. by destruct asked. }
    specialize (Hf s n Hs Hn). destruct (f s n) as [[r s'] n']. destruct Hf as (Hs' & Hn' & Ha').
    destruct r as [[a|]|]; [| by apply IH | apply IH; [| done]].
    + split_and!; [| done |].
      * apply Forall_app. split; [done |]. apply Forall_app. split; [done | by apply Forall_singleton].
      * intros x [= <-]. by apply Ha'.
    + apply Forall_app. split; [done | by apply Forall_singleton].
  - intros S N f I Hf q. induction q as [|s q IH]; intros n Hn; simpl; [done |]. by apply IH, Hf.
Defined.

(** ** Finite work *)

(** The commands, and the end, that a receiver still yields. *)
Definition tag_left (n : Chans) (t : TaggedStream Z positive) : nat :=
  if ts_reported_none t then 0 else S (length (ch_queue (chan_at (ts_inner t) n))).

Definition tags_left (q : list (TaggedStream Z positive)) (n : Chans) : nat := sum_list_with (tag_left n) q.

Lemma tags_left_mono q n n' :
  (forall t, tag_left n' t <= tag_left n t)%nat -> (tags_left q n' <= tags_left q n)%nat.
Proof. intros Hle. unfold tags_left. induction q as [|t q IH]; simpl; [done |]. specialize (Hle t). lia. Qed.

Lemma tags_left_app q q' n : tags_left (q ++ q') n = (tags_left q n + tags_left q' n)%nat.
Proof. unfold tags_left. by rewrite sum_list_with_app. Qed.

Lemma tag_left_set c x n t :
  (length (ch_queue x) <= length (ch_queue (chan_at c n)))%nat -> (tag_left (set_chan c x n) t <= tag_left n t)%nat.
Proof.
  intros Hx. unfold tag_left. destruct (ts_reported_none t); [done |]. rewrite chan_at_set.
  case_decide as Hc; [rewrite <- Hc; lia | done].
Qed.

(** A poll of a receiver takes away what it yields. *)
Definition takes_away (f : TaggedStream Z positive -> Chans ->
    poll (option (Z * option StreamCommand)) * TaggedStream Z positive * Chans) : Prop :=
  forall t n, let '(r, t', n') := f t n in
  (forall u, tag_left n' u <= tag_left n u)%nat /\
  match r with
  | Ready (Some _) => (tag_left n' t' < tag_left n t)%nat
  | _ => (tag_left n' t' <= tag_left n t)%nat
  end.

Lemma tagged_poll_left cx : takes_away (tagged_poll_next (receiver_poll cx)).
Proof.
  intros t n. unfold tagged_poll_next, receiver_poll. simpl. destruct (ts_reported_none t) eqn:Hr; [done |].
  unfold fifo_poll_next. destruct (ch_queue (chan_at (ts_inner t) n)) as [|cmd q] eqn:Hq; simpl.
  - destruct (_ || _); (split; [done |]); unfold tag_left; simpl; [rewrite Hr; lia |].
    rewrite Hr. lia.
  - split.
    + intros u. apply tag_left_set. rewrite Hq. simpl. lia.
    + unfold tag_left. simpl. rewrite Hr, chan_at_set, decide_True, Hq by done. simpl. lia.
Qed.

Lemma fair_poll_left f asked q n :
  takes_away f ->
  let '(r, q', n') := fair_poll f asked q n in
  match r with
  | Ready (Some _) => (tags_left q' n' < tags_left asked n + tags_left q n)%nat
  | _ => (tags_left q' n' <= tags_left asked n + tags_left q n)%nat
  end.
Proof.
  intros Hf. revert asked n. induction q as [|t q IH]; intros asked n; simpl.
  { destruct asked; simpl; unfold tags_left; simpl; lia. }
  pose proof (Hf t n) as Ht. destruct (f t n) as [[r t'] n'].
  destruct Ht as [Hall Hown].
  pose proof (tags_left_mono asked n n' Hall) as Ha. pose proof (tags_left_mono q n n' Hall) as Hq.
  unfold tags_left in *. destruct r as [[a|]|].
  - cbn beta iota. rewrite !sum_list_with_app. simpl. lia.
  - specialize (IH asked n'). destruct (fair_poll _ asked q n') as [[[[b|]|] q'] n2]; simpl in *; lia.
  - specialize (IH (asked ++ [t']) n'). rewrite sum_list_with_app in IH. simpl in IH.
    destruct (fair_poll _ (asked ++ [t']) q n') as [[[[b|]|] q'] n2]; simpl in *; lia.
Qed.

(** A connection over a finite byte stream, with these channels, has finitely much to do. *)
Section finite.
Context `{Arch} `{Hio : AsyncIo} `{!AsyncIoLaws} `{!FiniteInput}.

#[export] Instance fifo_finite : FiniteWork.
Proof.
  refine {| frames_left := framed_left : FSock -> nat; commands_left := tags_left : Receivers -> Net -> nat |}.
  - exact framed_ready_left.
  - exact framed_send_left.
  - exact framed_flush_left.
  - exact framed_next_left.
  - intros cx q n. pose proof (fair_poll_left _ [] q n (tagged_poll_left cx)) as Hf. simpl in *.
    by destruct (fair_poll _ [] q n) as [[[[a|]|] q'] n'].
  - intros q n. apply tags_left_mono. intros u. simpl. revert n.
    induction q as [|t q IH]; intros n; simpl; [done |]. etransitivity; [apply IH |].
    apply tag_left_set. simpl. lia.
Defined.
End finite.
