(* ===== verification/UnitTests.v ===== *)
(** * The test of [closing.rs], and the test harness at work

    The unit test of closing runs on a socket that takes every byte; the pollers of the harness run on
    a list of futures. *)
From Stdlib Require Import ZArith Lia Strings.Byte.
From stdpp Require Import base option list gmap numbers.
From S2P Require Import Prelude.
From S2P Require Import Header.
From S2P Require Import Frame.
From S2P Require Import Config.
From S2P Require Import Command.
From S2P Require Import Heap.
From S2P Require Import Channel.
From S2P Require Import TaggedStream.
From S2P Require Import StreamHandle.
From S2P Require Import FrameIo.
From S2P Require Import FrameRoundTrip.
From S2P Require Import Connection.
From S2P Require Import Closing.
From S2P Require Import ConnectionState.
From S2P Require Import Harness.
From S2P Require Import FramedSocket.
From S2P Require Import Fifo.

Module ClosingTest.

(** The socket: what has been written, whether it is closed, and whether one of its assertions has
    failed or an operation has been used that it does not implement. *)
Record TestSocket : Set := mkTestSocket {
  written : list byte;
  closed : bool;
  misused : bool;
}.

Definition misuse (s : TestSocket) : TestSocket := mkTestSocket (written s) (closed s) true.

Definition test_write (buf : list byte) (s : TestSocket) : poll (result Z IoError) * TestSocket :=
  if closed s then (Pending, misuse s)
  else (Ready (Ok (zlen buf)), mkTestSocket (written s ++ buf) (closed s) (misused s)).

Definition test_close (s : TestSocket) : poll (result unit IoError) * TestSocket :=
  if closed s then (Pending, misuse s) else (Ready (Ok tt), mkTestSocket (written s) true (misused s)).

#[local] Instance test_io : AsyncIo := {|
  Socket := TestSocket;
  io_poll_read := fun _ buf s => (Pending, buf, misuse s);
  io_poll_write := fun _ => test_write;
  io_poll_flush := fun _ s => (Pending, misuse s);
  io_poll_close := fun _ => test_close;
|}.

#[local] Instance test_arch : Arch := arch64.

(** The bytes of a frame. *)
Definition test_encode (f : Frame unit) : outcome (list byte) :=
  if bool_decide (tag (header f) = TagData) then d ← frame_into_data f; Ret (encode (header f) ++ body d)
  else Ret (encode (header f)).

(** A receiver with one command in its channel, whose sender is gone. *)
Definition test_receiver (id : Z) (command : StreamCommand) (n : Net) : outcome (TaggedStream Z Receiver * Net) :=
  let '((tx, rx), n) := mpsc_channel 1 n in
  let '(r, n) := sender_start_send tx command n in
  match r with Ok _ => Ret (tagged_new id rx, sender_drop tx n) | Err _ => Panic end.

Fixpoint test_encodes (fs : list (Frame unit)) : outcome (list byte) :=
  match fs with
  | [] => Ret []
  | f :: fs => a ← test_encode f; b ← test_encodes fs; Ret (a ++ b)
  end.

(** The socket of the future. *)
Definition test_socket (c : @Closing fifo fair framed_socket) : TestSocket := io (fu_io (cl_socket c)).

(** The test: the first poll of the future is done, and the three assertions. *)
Definition pending_frames (fuel : nat) (cx : Waker) (n : Net) : outcome bool :=
  frame_pending ← expect (frame_data 1 [x02]);
  data ← expect (frame_data 3 [x04]);
  let frame_close := frame_erase (frame_close_stream 5 false) in
  let frame_close_ack := frame_erase (frame_close_stream 6 true) in
  expected_written ← test_encodes
    [frame_erase frame_pending; frame_erase data; frame_close; frame_close_ack; frame_erase frame_term];
  frame_data ← frame_into_data (frame_erase data);
  '(r1, n) ← test_receiver 3 (SendFrame (frame_left WindowUpdate frame_data)) n;
  '(r2, n) ← test_receiver 5 (CloseStream false) n;
  '(r3, n) ← test_receiver 6 (CloseStream true) n;
  let stream_receivers := select_all_push r3 (select_all_push r2 (select_all_push r1 select_all_default)) in
  let socket := framed_new (mkTestSocket [] false false) in
  '(p, (closing, _)) ← closing_poll fuel cx (closing_new stream_receivers [frame_erase frame_pending] socket, n);
  let s := test_socket closing in
  Ret (match p with Ready (Ok _) => true | _ => false end && negb (misused s) &&
       bool_decide (cl_pending closing = []) && closed s && bool_decide (written s = expected_written)).

Example pending_frames_passes : pending_frames 40 1%positive net_new = Ret true.
Proof. vm_compute. reflexivity. Qed.
End ClosingTest.

(** [FuturesUnordered] as a list that is polled in order. *)
Fixpoint poll_list {F W A} (f : F -> M W (poll A * F)) (asked q : list F) : M W (poll (option A) * list F) :=
  match q with
  | [] => mret (match asked with [] => Ready None | _ => Pending end, asked)
  | x :: q =>
      '(p, x) ← f x;
      match p with
      | Ready a => mret (Ready (Some a), asked ++ q)
      | Pending => poll_list f (asked ++ [x]) q
      end
  end.

#[local] Instance list_futures : FuturesUnorderedOps := {|
  FuturesUnordered := list;
  fu_default := fun F => [];
  fu_push := fun F x q => q ++ [x];
  fu_is_empty := fun F q => bool_decide (length q = 0%nat);
  fu_poll_next := fun F W A f q => poll_list f [] q;
|}.

Lemma poll_list_law {F W A} (f : F -> M W (poll A * F)) q asked w p q' w' :
  poll_list f asked q w = Ret ((p, q'), w') ->
  match p with
  | Ready (Some _) => length (asked ++ q) = S (length q')
  | Ready None => length (asked ++ q) = 0%nat /\ length q' = 0%nat
  | Pending => length q' = length (asked ++ q) /\ (0 < length (asked ++ q))%nat
  end.
Proof.
  revert asked w. induction q as [|x q IH]; intros asked w; simpl; rewrite length_app; simpl.
  - intros [= <- <- _]. destruct asked; simpl; lia.
  - unfold mbind, M_bind. destruct (f x w) as [[[r x'] w1]| |]; [| done..]. destruct r as [a|].
    + intros [= <- <- _]. rewrite length_app. lia.
    + intros Hr. apply IH in Hr. rewrite !length_app in Hr. simpl in Hr. destruct p as [[|]|]; lia.
Qed.

#[local] Instance list_futures_laws : FuturesUnorderedLaws.
Proof.
  refine {| fu_size := fun F => (length : FuturesUnordered F -> nat) |}; simpl; [done | | |].
  - intros F x q. rewrite length_app. simpl. lia.
  - intros F q. by rewrite bool_decide_eq_true.
  - intros F W A f q w p q' w' Hr. apply (poll_list_law f q [] w p q' w' Hr).
Defined.

#[local] Instance run_arch : Arch := arch64.
#[local] Instance run_order : MapOrder := map_order_default.

(** Writing and reading in steps, each of which moves a byte at least. *)
Fixpoint run_write_all (fuel : nat) (buf : list byte) : Fut SW (IoResult unit) :=
  match fuel, buf with
  | Datatypes.S fuel, _ :: _ =>
      Await (fun cx => poll_write cx buf) (fun r =>
        match r with
        | Ok n => if n =? 0 then Done (Err WriteZero) else run_write_all fuel (drop (Z.to_nat n) buf)
        | Err e => Done (Err e)
        end)
  | _, _ => Done (Ok tt)
  end.

Fixpoint run_read_exact (fuel n : nat) (data : list byte) : Fut SW (IoResult (list byte)) :=
  match fuel, n with
  | O, _ | _, O => Done (Ok data)
  | Datatypes.S fuel, Datatypes.S _ =>
      Await (fun cx => '(p, buf) ← poll_read cx (replicate n x00); mret (match p with Ready r => Ready (r, buf) | Pending => Pending end))
        (fun '(r, buf) =>
          match r with
          | Ok k => if k =? 0 then Done (Err WriteZero)
                    else run_read_exact fuel (n - Z.to_nat k) (data ++ take (Z.to_nat k) buf)
          | Err e => Done (Err e)
          end)
  end.

(** Both halves one after the other, which is as good as at once while nothing waits; nothing is
    echoed here. *)
#[local] Instance run_io : FuturesIo := {|
  write_all := fun buf => run_write_all (length buf) buf;
  read_exact := fun n => run_read_exact n n [];
  close := Await stream_poll_close Done;
  copy := Done (Ok 0);
  join := fun A B f g => fut_bind (fun a => fut_bind (fun b => Done (a, b)) g) f;
  spawn := fun f => f;
|}.

Definition run_socket : FSock := framed_new (mkScript [[]; []] [] 100 []).
Definition run_sender : MessageSender :=
  with_strategy Send (message_sender_new (connection_new run_socket config_default Client) [[x01; x02]; [x03]] false).
Definition run_world : World := mkWorld (mem_new (fun _ => 0)) net_new.

Definition run_result (fuel : nat) : option (poll (result Z ConnectionError)) :=
  match message_sender_poll fuel 1%positive (run_sender, run_world) with Ret (r, _) => Some r | _ => None end.

(** Two messages on two streams, and the connection is closed. *)
Example run_sends : run_result 40 = Some (Ready (Ok 2)).
Proof. vm_compute. reflexivity. Qed.
