(* ===== verification/System.v ===== *)
(** * The connection and its stream handles together

    The tasks that hold stream handles and the one that polls the connection run in any order. A step
    relation interleaves their operations; the invariant of the whole is kept by every step, and no
    operation panics in a state that can be reached. *)
From Stdlib Require Import ZArith Lia Strings.Byte.
From stdpp Require Import base option list gmap numbers relations.
From S2P Require Import Prelude.
From S2P Require Import Header.
From S2P Require Import Frame.
From S2P Require Import Config.
From S2P Require Import Command.
From S2P Require Import Rtt.
From S2P Require Import ChunkList.
From S2P Require Import FlowControl.
From S2P Require Import Shared.
From S2P Require Import Heap.
From S2P Require Import Channel.
From S2P Require Import TaggedStream.
From S2P Require Import StreamHandle.
From S2P Require Import StreamSpec.
From S2P Require Import StreamWrite.
From S2P Require Import FrameIo.
From S2P Require Import FrameIoSpec.
From S2P Require Import Connection.
From S2P Require Import ConnInvariant.
From S2P Require Import ConnSteps.
From S2P Require Import ConnHandlers.
From S2P Require Import ConnLoop.
From S2P Require Import Closing.
From S2P Require Import ClosingSpec.
From S2P Require Import ConnectionState.
From S2P Require Import ConnStateSpec.

(** ** References from handles *)

Section handle_refs.
Context `{Mpsc}.

(** How many of the handles refer to [l]. *)
Definition handle_refs (hs : list Stream) (l : positive) : nat :=
  length (filter (fun s => st_shared s = l) hs).

Lemma handle_refs_cons s hs l : handle_refs (s :: hs) l = add_ref (st_shared s) (handle_refs hs) l.
Proof. unfold handle_refs, add_ref. rewrite filter_cons. by repeat case_decide. Qed.

Lemma handle_refs_delete hs i s l :
  hs !! i = Some s -> handle_refs hs l = add_ref (st_shared s) (handle_refs (delete i hs)) l.
Proof.
  intros Hi. rewrite <- handle_refs_cons. unfold handle_refs.
  by rewrite (delete_Permutation _ _ _ Hi) at 1.
Qed.

Lemma handle_refs_insert hs i s s' l :
  hs !! i = Some s -> st_shared s' = st_shared s -> handle_refs (<[i := s']> hs) l = handle_refs hs l.
Proof.
  intros Hi Hs. unfold handle_refs. revert i Hi.
  induction hs as [|x hs IH]; intros [|i] Hi; simplify_eq/=; rewrite !filter_cons; [repeat case_decide; simpl; congruence |].
  case_decide; simpl; by rewrite (IH i Hi).
Qed.

Lemma handle_refs_pos hs i s : hs !! i = Some s -> (0 < handle_refs hs (st_shared s))%nat.
Proof. intros Hi. rewrite (handle_refs_delete _ _ _ _ Hi). unfold add_ref. case_decide; [lia | done]. Qed.
End handle_refs.

Section system.
Context `{Arch, Mpsc, SelectAllOps, FrameSocket, MapOrder}.

(** ** Operations *)

(** What a task may do with a stream handle. *)
Inductive HandleOp : Set :=
| HRead (buf : list byte)
| HNext
| HWrite (buf : list byte)
| HFlush
| HClose.

(** What it reports: the bytes it has accepted from the caller, and those it has delivered. *)
Definition run_handle (cx : Waker) (op : HandleOp) : M SW (list byte * list byte) :=
  match op with
  | HRead buf =>
      '(r, buf) ← poll_read cx buf;
      mret (match r with Ready (Ok n) => ([], take (Z.to_nat n) buf) | _ => ([], []) end)
  | HNext =>
      r ← stream_poll_next cx;
      mret (match r with Ready (Some (Ok packet)) => ([], packet) | _ => ([], []) end)
  | HWrite buf =>
      r ← poll_write cx buf;
      mret (match r with Ready (Ok n) => (take (Z.to_nat n) buf, []) | _ => ([], []) end)
  | HFlush => stream_poll_flush cx ≫= fun _ => mret ([], [])
  | HClose => stream_poll_close cx ≫= fun _ => mret ([], [])
  end.

(** A slice has at most [usize::MAX] bytes. *)
Definition op_fits (op : HandleOp) : Prop :=
  match op with HRead buf | HWrite buf => zlen buf <= usize_max | _ => True end.

(** What the task that owns the connection may do, and the handles it gets. *)
Inductive ConnOp : Set :=
| CNewOutbound
| CNextInbound
| CClose.

Definition run_conn (fuel : nat) (cx : Waker) (op : ConnOp) (s : KS) : outcome (list Stream * KS) :=
  match op with
  | CNewOutbound =>
      '(r, s) ← conn_poll_new_outbound fuel cx s;
      Ret (match r with Ready (Ok st) => [st] | _ => [] end, s)
  | CNextInbound =>
      '(r, s) ← conn_poll_next_inbound fuel cx s;
      Ret (match r with Ready (Some (Ok st)) => [st] | _ => [] end, s)
  | CClose => '(_, s) ← conn_poll_close fuel cx s; Ret ([], s)
  end.

(** ** Steps *)

(** A connection, the memory and channels it shares with its handles, and the handles. *)
Record Sys : Type := mkSys {
  sy_state : ConnectionState;
  sy_world : World;
  sy_handles : list Stream;
}.

(** What an operation of a handle has reported: the stream, the bytes accepted, the bytes delivered. *)
Record Deed : Set := mkDeed {
  de_stream : Z;
  de_accepted : list byte;
  de_delivered : list byte;
}.

(** Any operation of any handle, dropping a handle, or any method of the connection. *)
Inductive sys_does : Sys -> option Deed -> Sys -> Prop :=
| does_handle cx op i s s' st w w' hs b b' :
    hs !! i = Some s -> op_fits op -> run_handle cx op (s, w) = Ret ((b, b'), (s', w')) ->
    sys_does (mkSys st w hs) (Some (mkDeed (st_id s) b b')) (mkSys st w' (<[i := s']> hs))
| does_drop i s st w w' hs :
    hs !! i = Some s -> stream_drop s w = Ret (tt, w') ->
    sys_does (mkSys st w hs) None (mkSys st w' (delete i hs))
| does_conn fuel cx op st st' w w' hs new :
    run_conn fuel cx op (st, w) = Ret (new, (st', w')) ->
    sys_does (mkSys st w hs) None (mkSys st' w' (new ++ hs)).

Definition sys_step (y y' : Sys) : Prop := exists d, sys_does y d y'.

(** A new connection without streams. *)
Definition sys_new (socket : FSock) (cfg : Config) (mode : Mode) (clk : nat -> Instant) (n : Net) : Sys :=
  mkSys (connection_new socket cfg mode) (mkWorld (mem_new clk) n) [].

(** ** The invariant *)

Context `{!MpscLaws, !SelectAllLaws, !FrameSocketLaws, !FrameSocketWire}.
Hypothesis usize_wide : u32_max + u32_max <= usize_max.
Variable cfg : Config.

Record sys_ok (y : Sys) : Prop := {
  so_state : state_ok cfg (handle_refs (sy_handles y)) (sy_state y) (sy_world y);
  so_handles : Forall (handle_wf cfg) (sy_handles y);
}.

Lemma state_ok_rest E st w : state_ok cfg E st w -> mem_ok cfg (mem w) /\ net_ok (net w).
Proof.
  destruct st as [a | c | u | |]; simpl.
  - by intros [].
  - by intros [(? & _ & ?) _].
  - by intros [(? & _ & ?) _].
  - by intros (? & _ & ?).
  - done.
Qed.

Lemma state_ok_config E st w : state_ok cfg E st w -> config_ok cfg.
Proof. intros Hok. apply state_ok_rest in Hok as [Hm _]. apply Hm. Qed.

(** Handles refer to live records, whatever the connection is doing. *)
Lemma state_ok_live E st w l :
  state_ok cfg E st w -> (0 < E l)%nat -> exists c, cells (mem w) !! l = Some c.
Proof.
  intros Hok Hl. destruct st as [a | c | u | |]; simpl in Hok.
  - by eapply handle_live.
  - destruct Hok as [(_ & Hr & _) _]. by eapply refs_ok_live.
  - destruct Hok as [(_ & Hr & _) _]. by eapply refs_ok_live.
  - destruct Hok as (_ & Hr & _). by eapply refs_ok_live.
  - done.
Qed.

Lemma rest_ok_ext E E' w : (forall l, E l = E' l) -> rest_ok cfg E w -> rest_ok cfg E' w.
Proof. intros HE (? & Hr & ?). split_and!; try done. by eapply refs_ok_proper; [intros l; symmetry; apply HE | done |]. Qed.

Lemma state_ok_ext E E' st w : (forall l, E l = E' l) -> state_ok cfg E st w -> state_ok cfg E' st w.
Proof.
  intros HE. destruct st; simpl; [by apply conn_ok_ext | | | by apply rest_ok_ext | done];
    (intros [Hr ?]; split; [by eapply rest_ok_ext | done]).
Qed.

(** A step of a handle on memory and channels keeps the invariant of the connection. *)
Lemma sends_ok n n' : sends n n' -> net_ok n -> net_ok n'.
Proof.
  induction 1 as [n | s cx n n' _ IH | s cx n n' _ IH | s c n n' Hc _ IH]; intros Hn; [done | | |]; apply IH.
  - by apply net_ready_law.
  - by apply net_flush_law.
  - by apply net_send_law.
Qed.
(** ** Handles *)

Lemma handle_of E st w s :
  state_ok cfg E st w -> handle_wf cfg s -> (0 < E (st_shared s))%nat ->
  exists sh, handle_ok cfg s w sh.
Proof.
  intros Hok [Hid Hcf] HE. destruct (state_ok_live _ _ _ _ Hok HE) as [[k sh] Hl].
  exists sh. split; [by eapply state_ok_rest |]. split; [done |]. split; [done |]. by exists k.
Qed.

Lemma run_handle_ok cx op s w sh :
  handle_ok cfg s w sh -> op_fits op -> wp (run_handle cx op) (fun _ '(s', w') => op_rel cfg s w s' w') (s, w).
Proof.
  intros Hh Hop. pose proof Hh as (Hm & _). pose proof (mo_config _ _ Hm) as (_ & _ & Hsp & _).
  destruct op as [buf | | buf | |]; simpl; wp_step.
  - eapply wp_mono; [by apply poll_read_ok |]. intros [r b] [s' w'] (sh' & (Hr & _) & _). by apply wp_ret.
  - eapply wp_mono; [by eapply stream_poll_next_ok |]. intros r [s' w'] (sh' & (Hr & _) & _). by apply wp_ret.
  - eapply wp_mono; [apply poll_write_ok; [done | lia] |]. intros r [s' w'] Hr. apply wp_ret.
    pose proof (sends_ask (st_sender s) cx (net w)) as Hn1.
    destruct (sender_poll_ready _ _ _) as [[[[]|[]]|] n1].
    + destruct (negb _); [destruct Hr as (_ & -> & ->); by apply op_rel_net |].
      destruct (_ =? 0); [by destruct Hr as (_ & _ & _ & Hr) |].
      cbv zeta in Hr. case_match. by destruct Hr as (_ & _ & _ & _ & _ & Hr).
    + destruct Hr as (_ & -> & ->). by apply op_rel_net.
    + destruct Hr as (_ & -> & ->). by apply op_rel_net.
  - unfold wp. rewrite stream_poll_flush_eval.
    assert (Hn : sends (net w) (sender_poll_flush (st_sender s) cx (net w)).2) by (eapply sends_flush, sends_refl).
    destruct (sender_poll_flush _ _ _) as [r n]. by apply op_rel_net.
  - eapply wp_mono; [by apply stream_poll_close_ok |]. intros r [s' w'] Hr. apply wp_ret.
    pose proof (sends_ask (st_sender s) cx (net w)) as Hn1.
    destruct (decide _); [destruct Hr as (_ & -> & ->); by apply op_rel_refl |].
    destruct (sender_poll_ready _ _ _) as [[[[]|[]]|] n1].
    + case_match. apply Hr.
    + destruct Hr as (_ & -> & ->). by apply op_rel_net.
    + destruct Hr as (_ & -> & ->). by apply op_rel_net.
Qed.

(** A step of a handle on memory and channels keeps the invariant of the connection. *)
Lemma state_ok_op E st w s s' w' :
  state_ok cfg E st w -> op_rel cfg s w s' w' -> state_ok cfg E st w'.
Proof.
  intros Hok [_ Hm Hr _ Hn]. pose proof (state_ok_rest _ _ _ Hok) as [_ Hnet].
  pose proof (sends_ok _ _ Hn Hnet) as Hnet'.
  assert (Hrest : rest_ok cfg E w -> rest_ok cfg E w').
  { intros (_ & Href & _). split_and!; [done | by eapply refs_ok_rel | done]. }
  destruct st as [a | c | u | |]; simpl in *; [| | | by apply Hrest | done].
  - replace w' with (set_net (net w') (set_mem (mem w') w)) by (by destruct w').
    apply conn_ok_net; [| done]. by eapply conn_ok_mem.
  - destruct Hok as [Hok [W []]]. split; [by apply Hrest |]. by exists W.
  - destruct Hok as [Hok [e (_ & ? & ?)]]. split; [by apply Hrest |]. by exists e.
Qed.

Lemma state_ok_drop E st w s :
  state_ok cfg (add_ref (st_shared s) E) st w ->
  exists w', stream_drop s w = Ret (tt, w') /\ state_ok cfg E st w'.
Proof.
  intros Hok. pose proof (state_ok_rest _ _ _ Hok) as [Hm Hnet].
  assert (Hnet' : net_ok (sender_drop (st_window_update_sender s) (sender_drop (st_sender s) (net w))))
    by (by apply net_drop_law, net_drop_law).
  assert (Hrest : rest_ok cfg (add_ref (st_shared s) E) w ->
    exists w', stream_drop s w = Ret (tt, w') /\ rest_ok cfg E w' /\
      net w' = sender_drop (st_window_update_sender s) (sender_drop (st_sender s) (net w))).
  { intros (_ & Hr & _). destruct (stream_drop_ok cfg E s w Hm Hr) as (m' & He & Hm' & Hr' & _).
    eexists. split; [exact He |]. split; [by split_and! | done]. }
  destruct st as [a | c | u | |]; simpl in *; [| | | | done].
  - assert (Hr : refs_ok (add_ref (st_shared s) (conn_refs a E)) (mem w)).
    { eapply refs_ok_proper; [| done | exact (co_refs _ _ _ _ Hok)].
      intros l'. unfold add_ref, conn_refs, add_ref. case_decide; lia. }
    destruct (stream_drop_ok cfg _ s w Hm Hr) as (m' & He & Hm' & Hr' & Hd).
    eexists. split; [exact He |].
    pose proof (drop_arc_ok cfg E a w (st_shared s) Hok) as Hda. unfold drop_arc in Hda.
    unfold wp, on_mem, zoom in Hda. simpl in Hda. unfold stream_drop in He.
    destruct (arc_drop (st_shared s) (mem w)) as [[[] m1]| |]; [| done..].
    destruct Hda as (_ & Hok' & _). injection He as <-.
    by apply (conn_ok_net cfg E a (set_mem m1 w)).
  - destruct Hok as [Hok [W []]]. destruct (Hrest Hok) as (w' & He & Hr & Hn). exists w'. split; [done |].
    split; [done |]. exists W. rewrite Hn. by split.
  - destruct Hok as [Hok [e (_ & ? & ?)]]. destruct (Hrest Hok) as (w' & He & Hr & Hn). exists w'. split; [done |].
    split; [done |]. exists e. by rewrite Hn.
  - destruct (Hrest Hok) as (w' & He & Hr & Hn). by exists w'.
Qed.
(** ** The connection *)

Lemma run_conn_runs hs op st w cx :
  state_ok cfg (handle_refs hs) st w ->
  runs finite_work (fun fuel => run_conn fuel cx op (st, w)) (fun '(new, (st', w')) =>
    state_ok cfg (handle_refs (new ++ hs)) st' w' /\ Forall (handle_wf cfg) new /\ moved st w st' w').
Proof.
  intros Hok. assert (Hmax : 0 <= max_num_streams cfg) by (by destruct (state_ok_config _ _ _ Hok) as (_ & [? _] & _)).
  assert (Hnew : forall s a w', handed_out cfg (handle_refs hs) s a w' ->
    state_ok cfg (handle_refs ([s] ++ hs)) (StActive a) w' /\ Forall (handle_wf cfg) [s]).
  { intros s a w' [Hs Hok']. split; [| by apply Forall_singleton]. simpl.
    eapply conn_ok_ext; [| exact Hok']. intros l. by rewrite handle_refs_cons. }
  destruct op; simpl.
  - eapply (runs_bind (fun fuel => conn_poll_new_outbound fuel cx (st, w))).
    { exact (poll_new_outbound_runs cfg Hmax (handle_refs hs) st w cx Hok). }
    intros [r [st' w']] [Hmv Hr]. apply runs_ret. destruct r as [[s|e]|].
    + destruct Hr as (a & -> & Hr). by destruct (Hnew _ _ _ Hr).
    + by destruct Hr as [-> Hr].
    + by destruct Hr as [_ Hr].
  - eapply (runs_bind (fun fuel => conn_poll_next_inbound fuel cx (st, w))).
    { exact (poll_next_inbound_runs usize_wide cfg Hmax (handle_refs hs) st w cx Hok). }
    intros [r [st' w']] [Hmv Hr]. apply runs_ret. destruct r as [[[s|e]|]|].
    + destruct Hr as (a & -> & Hr). by destruct (Hnew _ _ _ Hr).
    + by destruct Hr as (_ & -> & Hr).
    + by destruct Hr as [-> Hr].
    + by destruct Hr as [_ Hr].
  - eapply (runs_bind (fun fuel => conn_poll_close fuel cx (st, w))).
    { exact (poll_close_runs cfg Hmax (handle_refs hs) st w cx Hok). }
    intros [r [st' w']] [Hmv Hr]. apply runs_ret. destruct r as [[s|e]|].
    + by destruct Hr as [-> Hr].
    + by destruct Hr as (_ & -> & Hr).
    + by destruct Hr as [_ Hr].
Qed.

(** ** Every step *)

Lemma op_rel_wf s w s' w' : op_rel cfg s w s' w' -> handle_wf cfg s ->
  handle_wf cfg s' /\ st_shared s' = st_shared s.
Proof. intros [[-> | ->] _ _ _ _] Hw; done. Qed.

Lemma sys_handle y i s :
  sys_ok y -> sy_handles y !! i = Some s -> exists sh, handle_ok cfg s (sy_world y) sh.
Proof.
  intros [Hst Hhs] Hi. eapply handle_of; [exact Hst | by eapply (Forall_lookup_1 _ _ _ _ Hhs) |].
  by eapply handle_refs_pos.
Qed.

Lemma sys_step_ok y y' : sys_ok y -> sys_step y y' -> sys_ok y' /\ may_follow (sy_state y) (sy_state y').
Proof.
  intros Hok [d Hstep]. destruct Hstep as [cx op i s s' st w w' hs b b' Hi Hop He | i s st w w' hs Hi He
    | fuel cx op st st' w w' hs new He].
  - destruct (sys_handle _ _ _ Hok Hi) as [sh Hsh]. destruct Hok as [Hst Hhs]. simpl in *.
    pose proof (run_handle_ok cx op s w sh Hsh Hop) as Hr. unfold wp in Hr. rewrite He in Hr.
    destruct (op_rel_wf _ _ _ _ Hr (Forall_lookup_1 _ _ _ _ Hhs Hi)) as [Hw Hl].
    split; [split; simpl | by destruct st].
    + eapply state_ok_ext; [| by eapply state_ok_op]. intros l. symmetry. by eapply handle_refs_insert.
    + by apply Forall_insert.
  - destruct Hok as [Hst Hhs]. simpl in *. split; [| by destruct st].
    assert (Hst' : state_ok cfg (add_ref (st_shared s) (handle_refs (delete i hs))) st w)
      by (eapply state_ok_ext; [| exact Hst]; intros l; by eapply handle_refs_delete).
    destruct (state_ok_drop _ _ _ _ Hst') as (w1 & He1 & Hok1). rewrite He in He1. injection He1 as <-.
    split; [done |]. simpl. by apply Forall_delete.
  - destruct Hok as [Hst Hhs]. simpl in *.
    pose proof (runs_safe _ _ _ (run_conn_runs hs op st w cx Hst) fuel) as Hr. simpl in Hr. rewrite He in Hr.
    destruct Hr as (Hst' & Hnew & [Hm _]). split; [| done]. split; [done |]. simpl. by apply Forall_app.
Qed.

Lemma sys_steps_ok y y' : sys_ok y -> rtc sys_step y y' -> sys_ok y' /\ may_follow (sy_state y) (sy_state y').
Proof.
  intros Hok Hsteps. revert Hok. induction Hsteps as [y | y y1 y2 Hstep _ IH]; intros Hok.
  - split; [done |]. destruct Hok as [Hst _]. by destruct (sy_state y).
  - destruct (sys_step_ok _ _ Hok Hstep) as [Hok1 Hm1]. destruct (IH Hok1) as [Hok2 Hm2].
    split; [done | by eapply may_follow_trans].
Qed.

Lemma sys_new_ok socket mode clk n :
  config_ok cfg -> (forall i, instant_ok (clk i)) -> net_ok n -> sock_ok socket ->
  sys_ok (sys_new socket cfg mode clk n).
Proof.
  intros Hc Hk Hn Hs. pose proof Hc as (_ & [Hmax _] & _). split; [| done].
  apply connection_new_ok; try done. by apply mem_new_ok.
Qed.
End system.
