(* ===== verification/Servers.v ===== *)
(** * The servers and the sockets of the test harness: [test-harness/src/lib.rs]

    The three servers that are combinators of the futures crate ([echo_server], [dev_null_server],
    [noop_server]) and the functions that connect two peers over TCP. The combinators and the calls of
    tokio are parameters. A server that takes streams and drops them never panics and keeps the
    connection well-formed; two peers that are connected have the modes and configurations asked for. *)
From Stdlib Require Import ZArith Lia Strings.Byte.
From stdpp Require Import base option list numbers.
From S2P Require Import Prelude.
From S2P Require Import Header.
From S2P Require Import Frame.
From S2P Require Import Config.
From S2P Require Import Command.
From S2P Require Import Heap.
From S2P Require Import Channel.
From S2P Require Import StreamHandle.
From S2P Require Import FrameIo.
From S2P Require Import Connection.
From S2P Require Import ConnInvariant.
From S2P Require Import ConnLoop.
From S2P Require Import ConnectionState.
From S2P Require Import Harness.
From S2P Require Import ConnStateSpec.
From S2P Require Import FramedSocket.
From S2P Require Import System.

(** ** What an [async] block keeps *)

(** Between two polls of the block [I] holds, it never panics, and its value satisfies [Q]. *)
Fixpoint fut_keeps {S A} (I : S -> Prop) (Q : A -> S -> Prop) (f : Fut S A) (s : S) : Prop :=
  match f with
  | Done a => Q a s
  | Panics => False
  | Await m k => forall cx s, I s ->
      safe (m cx) (fun p s' => match p with Ready b => I s' /\ fut_keeps I Q (k b) s' | Pending => I s' end) s
  end.

Lemma fut_bind_keeps {S A B} (I : S -> Prop) (P : A -> S -> Prop) (Q : B -> S -> Prop) (k : A -> Fut S B) f s :
  (forall a s, I s -> P a s -> fut_keeps I Q (k a) s) -> I s -> fut_keeps I P f s -> fut_keeps I Q (fut_bind k f) s.
Proof.
  intros Hk. revert s. induction f as [a | | B' m k' IH]; intros s Hs; simpl; [by apply Hk | done |].
  intros Hf cx s1 H1. specialize (Hf cx s1 H1). unfold safe in *. destruct (m cx s1) as [[p s2]| |]; [| done..].
  destruct p as [b|]; [| done]. destruct Hf as [H2 Hf]. split; [done | by apply IH].
Qed.

(** Polling keeps it. *)
Lemma fut_poll_keeps {S A} (I : S -> Prop) (Q : A -> S -> Prop) cx (f : Fut S A) s :
  I s -> fut_keeps I Q f s ->
  safe (fut_poll cx f) (fun '(p, f') s' => I s' /\ match p with Ready a => Q a s' | Pending => fut_keeps I Q f' s' end) s.
Proof.
  revert s. induction f as [a | | B m k IH]; intros s Hs Hf; simpl in Hf; [by split | done |].
  simpl. unfold safe, mbind, M_bind. pose proof (Hf cx s Hs) as Hm. unfold safe in Hm.
  destruct (m cx s) as [[p s2]| |]; [| done..]. destruct p as [b|]; [| by split].
  destruct Hm as [H2 Hk]. by apply IH.
Qed.

(** What the values of a block satisfy, if it has one. *)
Fixpoint fut_gives {S A} (Q : A -> Prop) (f : Fut S A) : Prop :=
  match f with
  | Done a => Q a
  | Panics => True
  | Await m k => forall b, fut_gives Q (k b)
  end.

Lemma fut_gives_bind {S A B} (P : A -> Prop) (Q : B -> Prop) (k : A -> Fut S B) f :
  fut_gives P f -> (forall a, P a -> fut_gives Q (k a)) -> fut_gives Q (fut_bind k f).
Proof. intros Hf Hk. induction f as [a | | B' m k' IH]; simpl in *; auto. Qed.

Lemma fut_gives_all {S A} (Q : A -> Prop) (f : Fut S A) : (forall a, Q a) -> fut_gives Q f.
Proof. intros HQ. induction f; simpl; auto. Qed.

(** ** The combinators *)

Class StreamExt : Type := {
  (** [StreamExt::for_each]: a closure that makes a future for each item. *)
  for_each : forall {S T}, (Waker -> M S (poll (option T))) -> (T -> M S (Fut S unit)) -> Fut S unit;
  (** [TryStreamExt::try_for_each_concurrent]: the closure gives what is polled, concurrently with the
      others, until one fails. *)
  try_for_each_concurrent : forall {S T E F}, (Waker -> M S (poll (option (result T E)))) -> option nat ->
    (T -> F) -> (Waker -> F -> M S (poll (result unit E) * F)) -> Fut S (result unit E);
}.

(** [for_each] calls its closure with what it has just taken from the stream, and waits for the future. *)
Class StreamExtLaws `{StreamExt} : Prop :=
  for_each_law : forall S T (next : Waker -> M S (poll (option T))) (f : T -> M S (Fut S unit)) (I : S -> Prop) (J : T -> S -> Prop),
    (forall cx s, I s -> safe (next cx) (fun p s' => match p with Ready (Some x) => J x s' | _ => I s' end) s) ->
    (forall x s, J x s -> safe (f x) (fun g s' => I s' /\ fut_keeps I (fun _ => I) g s') s) ->
    forall s, I s -> fut_keeps I (fun _ => I) (for_each next f) s.

Section servers.
Context `{Arch, Mpsc, SelectAllOps, FrameSocket, MapOrder, FuturesUnorderedOps, !FuturesIo, StreamExt}.

(** [AsyncReadExt::read] into a buffer of so many bytes; what it puts there is not looked at. *)
Context (read : nat -> Fut SW (IoResult Z)).

Definition on_world {A} (m : M World A) : M KS A := zoom snd (fun w s => (fst s, w)) m.

(** A connection that was moved into a future is dropped at its end. *)
Definition drop_connection : M KS unit := fun s => w ← conn_drop s; Ret (tt, (StClosed, w)).
Definition owning {A} (f : Fut KS A) : Fut KS A :=
  fut_bind (fun a => Await (fun _ => drop_connection ≫= fun _ => mret (Ready tt)) (fun _ => Done a)) f.

(** [echo_server]. *)
Definition echo_server_block : Fut SW (result unit ConnectionError) :=
  fut_bind (fun _ => fut_try close (fun _ => Done (Ok tt)) ErrIo) (fut_unwrap copy).

Definition echo_server (fuel : nat) : Fut KS (result unit ConnectionError) :=
  owning (try_for_each_concurrent (conn_poll_next_inbound fuel) None
    (fun stream => mkTask stream echo_server_block) (fun cx t => on_world (poll_task cx t))).

(** [dev_null_server]: the loop that reads to the end takes fuel. *)
Fixpoint read_to_end (fuel : nat) : Fut SW unit :=
  match fuel with
  | O => Await (fun _ _ => OutOfFuel) Done
  | Datatypes.S fuel =>
      fut_bind (fun r =>
        match r with
        | Ok n => if n =? 0 then Done tt else read_to_end fuel
        | Err _ => Done tt
        end) (read 1024)
  end.

Definition dev_null_block (fuel : nat) : Fut SW (result unit ConnectionError) :=
  fut_bind (fun _ => fut_try close (fun _ => Done (Ok tt)) ErrIo) (read_to_end fuel).

Definition dev_null_server (fuel : nat) : Fut KS (result unit ConnectionError) :=
  owning (try_for_each_concurrent (conn_poll_next_inbound fuel) None
    (fun stream => mkTask stream (dev_null_block fuel)) (fun cx t => on_world (poll_task cx t))).

(** [noop_server]: the closure drops what it is given and returns a future that is ready. *)
Definition noop_server (c : Waker -> M KS (poll (option (result Stream ConnectionError)))) : Fut KS unit :=
  for_each c (fun maybe_stream =>
    match maybe_stream with Ok stream => on_world (stream_drop stream) | Err _ => mret tt end ≫= fun _ => mret (Done tt)).

(** ** What the servers keep *)

(** The block that reads to the end keeps what reading and closing keep, whatever these give. *)
Lemma dev_null_block_keeps fuel (I : SW -> Prop) s :
  (forall n s, I s -> fut_keeps I (fun _ _ => True) (read n) s) -> (forall s, I s -> fut_keeps I (fun _ _ => True) close s) ->
  I s -> fut_keeps I (fun _ _ => True) (dev_null_block fuel) s.
Proof.
  intros Hread Hclose Hs. eapply (fut_bind_keeps I (fun _ _ => True)); [| done |].
  - intros _ s1 Hs1 _. eapply fut_bind_keeps; [| exact Hs1 | by apply Hclose]. by intros [] s2 _ _.
  - revert s Hs. induction fuel as [|fuel IH]; intros s Hs; simpl; [by intros cx s1 Hs1 |].
    eapply fut_bind_keeps; [| done | by apply Hread]. intros [n|e] s1 Hs1 _; [| done].
    destruct (n =? 0); [done | by apply IH].
Qed.

Context `{!MpscLaws, !SelectAllLaws, !FrameSocketLaws, !FrameSocketWire, !StreamExtLaws}.
Hypothesis usize_wide : u32_max + u32_max <= usize_max.
Variable cfg : Config.

(** A connection, and the handles of its streams that programs hold. *)
Definition serving (hs : list Stream) (s : KS) : Prop := sys_ok cfg (mkSys s.1 s.2 hs).

Lemma next_inbound_serving fuel cx s :
  serving [] s ->
  safe (conn_poll_next_inbound fuel cx) (fun p s' => match p with Ready (Some (Ok stream)) => serving [stream] s' | _ => serving [] s' end) s.
Proof.
  destruct s as [st w]. intros [Hst _]. pose proof (runs_safe _ _ _ (run_conn_runs usize_wide cfg [] CNextInbound st w cx Hst) fuel) as Hr.
  unfold safe. simpl in Hr. destruct (conn_poll_next_inbound fuel cx (st, w)) as [[r [st' w']]| |]; [| done..].
  simpl in Hr. destruct Hr as (Hok & Hnew & _). destruct r as [[[stream|e]|]|]; by split.
Qed.

Lemma drop_stream_serving stream s : serving [stream] s -> safe (on_world (stream_drop stream)) (fun _ s' => serving [] s') s.
Proof.
  destruct s as [st w]. intros [Hst _].
  assert (Hst' : state_ok cfg (add_ref (st_shared stream) (handle_refs [])) st w)
    by (eapply state_ok_ext; [| exact Hst]; intros l; apply handle_refs_cons).
  destruct (state_ok_drop cfg _ _ _ _ Hst') as (w1 & He & Hok). unfold safe, on_world, zoom. simpl. rewrite He. by split.
Qed.

(** A server that drops every stream it is given never panics, and keeps the connection well-formed
    and without a handle. *)
Theorem noop_server_keeps fuel s :
  serving [] s -> fut_keeps (serving []) (fun _ => serving []) (noop_server (conn_poll_next_inbound fuel)) s.
Proof.
  apply (for_each_law _ _ _ _ _ (fun r => match r with Ok stream => serving [stream] | Err _ => serving [] end)).
  - intros cx s1 Hs1. pose proof (next_inbound_serving fuel cx s1 Hs1) as Hn. unfold safe in *.
    destruct (conn_poll_next_inbound _ _ _) as [[[[[]|]|] s2]| |]; done.
  - intros [stream|e] s1 Hs1; [| done]. pose proof (drop_stream_serving stream s1 Hs1) as Hd.
    unfold safe, mbind, M_bind in *. by destruct (on_world _ _) as [[u s2]| |].
Qed.

(** A future that owns its connection leaves none. *)
Lemma owning_keeps {A} (f : Fut KS A) s :
  serving [] s -> fut_keeps (serving []) (fun _ => serving []) f s ->
  fut_keeps (serving []) (fun _ s' => serving [] s' /\ s'.1 = StClosed) (owning f) s.
Proof.
  intros Hs Hf. eapply fut_bind_keeps; [| exact Hs | exact Hf]. intros a s1 _ _ cx [st w] [Hst _].
  assert (Hmax : 0 <= max_num_streams cfg) by (by destruct (state_ok_config _ _ _ _ Hst) as (_ & [? _] & _)).
  pose proof (conn_drop_ok cfg Hmax _ _ _ Hst) as (w1 & He & Hd)%returns_inv.
  unfold safe, mbind, M_bind, drop_connection. cbn [sy_state sy_world sy_handles fst snd] in *. rewrite He.
  assert (serving [] (StClosed, w1)) by (split; [apply Hd | done]). done.
Qed.
End servers.

(** ** Two peers over TCP *)

Definition SocketAddr : Type := list Z * Z.

(** [TcpBufferSizes]. *)
Record TcpBufferSizes : Set := mkTcpBufferSizes { send : Z; recv : Z; }.

(** What the harness calls of tokio, on a state of the operating system; [compat] makes a byte socket of
    a connected one. *)
Class Tokio `{AsyncIo} : Type := {
  Os : Type;
  TcpSocket : Type;
  TcpListener : Type;
  TcpStream : Type;
  compat : TcpStream -> Socket;
  new_v4 : M Os (result TcpSocket IoError);
  set_send_buffer_size : TcpSocket -> Z -> M Os (result unit IoError);
  set_recv_buffer_size : TcpSocket -> Z -> M Os (result unit IoError);
  tcp_bind : TcpSocket -> SocketAddr -> M Os (result unit IoError);
  tcp_listen : TcpSocket -> Z -> M Os (result TcpListener IoError);
  local_addr : TcpListener -> M Os (result SocketAddr IoError);
  tcp_accept : TcpListener -> Fut Os (result (TcpStream * SocketAddr) IoError);
  tcp_connect : TcpSocket -> SocketAddr -> Fut Os (result TcpStream IoError);
  (** [futures::future::try_join]. *)
  try_join : forall {A B}, Fut Os (result A IoError) -> Fut Os (result B IoError) -> Fut Os (result (A * B) IoError);
}.

(** Both values when both futures give one. *)
Class TokioLaws `{Tokio} : Prop :=
  try_join_law : forall A B (P : A -> Prop) (Q : B -> Prop) (f : Fut Os (result A IoError)) (g : Fut Os (result B IoError)),
    fut_gives (fun r => match r with Ok a => P a | Err _ => True end) f ->
    fut_gives (fun r => match r with Ok b => Q b | Err _ => True end) g ->
    fut_gives (fun r => match r with Ok (a, b) => P a /\ Q b | Err _ => True end) (try_join f g).

Section tcp.
Context `{Arch, Mpsc, SelectAllOps, Tokio}.

(** [?] on an [io::Result]. *)
Definition or_return {A B} (m : M Os (result A IoError)) (k : A -> M Os (result B IoError)) : M Os (result B IoError) :=
  r ← m; match r with Ok a => k a | Err e => mret (Err e) end.
Definition await_or_return {A B} (f : Fut Os (result A IoError)) (k : A -> Fut Os (result B IoError)) : Fut Os (result B IoError) :=
  fut_bind (fun r => match r with Ok a => k a | Err e => Done (Err e) end) f.
(** A call that does not wait. *)
Definition now {A} (m : M Os A) : Fut Os A := Await (fun _ => a ← m; mret (Ready a)) Done.

Definition new_socket (buffer_sizes : option TcpBufferSizes) : M Os (result TcpSocket IoError) :=
  or_return new_v4 (fun socket =>
    match buffer_sizes with
    | Some size =>
        or_return (set_send_buffer_size socket (send size)) (fun _ =>
        or_return (set_recv_buffer_size socket (recv size)) (fun _ => mret (Ok socket)))
    | None => mret (Ok socket)
    end).

Definition bind (buffer_sizes : option TcpBufferSizes) : M Os (result (TcpListener * SocketAddr) IoError) :=
  or_return (new_socket buffer_sizes) (fun socket =>
  or_return (tcp_bind socket ([127; 0; 0; 1], 0)) (fun _ =>
  or_return (tcp_listen socket 1024) (fun listener =>
  or_return (local_addr listener) (fun address => mret (Ok (listener, address)))))).

Definition connected_peers (server_config client_config : Config) (buffer_sizes : option TcpBufferSizes)
    : Fut Os (result (ConnectionState * ConnectionState) IoError) :=
  await_or_return (now (bind buffer_sizes)) (fun '(listener, addr) =>
  let server := await_or_return (tcp_accept listener) (fun '(stream, _) =>
    Done (Ok (connection_new (framed_new (compat stream)) server_config Server))) in
  let client := await_or_return (now (new_socket buffer_sizes)) (fun socket =>
    await_or_return (tcp_connect socket addr) (fun stream =>
    Done (Ok (connection_new (framed_new (compat stream)) client_config Client)))) in
  try_join server client).

Lemma await_gives {A B} (Q : result B IoError -> Prop) (f : Fut Os (result A IoError)) (k : A -> Fut Os (result B IoError)) :
  (forall e, Q (Err e)) -> (forall a, fut_gives Q (k a)) -> fut_gives Q (await_or_return f k).
Proof.
  intros He Hk. apply (fut_gives_bind (fun _ => True)); [by apply fut_gives_all |]. intros [a|e] _; [apply Hk | apply He].
Qed.

(** Two peers that are connected are new connections over connected sockets: a server with the first
    configuration, and a client with the second. *)
Theorem connected_peers_gives `{!TokioLaws} server_config client_config buffer_sizes :
  fut_gives (fun r => match r with
    | Ok (server, client) =>
        (exists x, server = connection_new (framed_new (compat x)) server_config Server) /\
        (exists x, client = connection_new (framed_new (compat x)) client_config Client)
    | Err _ => True
    end) (connected_peers server_config client_config buffer_sizes).
Proof.
  apply await_gives; [done |]. intros [listener addr]. apply try_join_law.
  - apply await_gives; [done |]. intros [stream a]. by exists stream.
  - apply await_gives; [done |]. intros socket. apply await_gives; [done |]. intros stream. by exists stream.
Qed.
End tcp.
