(* ===== verification/PeerSteps.v ===== *)
(** * One side of two connections that are joined

    The steps of a connection that is one side of [joined]: every part of [Active::poll], and opening a
    stream, keep it in step with a view of itself that stays joined to the view of the peer. *)
From Stdlib Require Import ZArith Lia Strings.Byte.
From stdpp Require Import base option list gmap relations numbers.
From S2P Require Import Prelude.
From S2P Require Import Header.
From S2P Require Import Frame.
From S2P Require Import Config.
From S2P Require Import Command.
From S2P Require Import Rtt.
From S2P Require Import ChunkList.
From S2P Require Import FlowControl.
From S2P Require Import Shared.
From S2P Require Import Heap.
From S2P Require Import Channel.
From S2P Require Import TaggedStream.
From S2P Require Import StreamHandle.
From S2P Require Import StreamSpec.
From S2P Require Import Link.
From S2P Require Import FrameIo.
From S2P Require Import FrameIoSpec.
From S2P Require Import Connection.
From S2P Require Import ConnInvariant.
From S2P Require Import ConnSteps.
From S2P Require Import ConnHandlers.
From S2P Require Import ConnLoop.
From S2P Require Import LinkRefine.
From S2P Require Import Joined.
From S2P Require Import Forward.
From S2P Require Import Transport.
From S2P Require Import PeerStore.
From S2P Require Import System.

Section side.
Context `{Arch, Mpsc, SelectAllOps, FrameSocket, MapOrder}.
Context `{!MpscLaws, !SelectAllLaws, !FrameSocketLaws, !FrameSocketWire}.
Context `{!FifoLaws, !ChannelLaws, !SelectAllTrace, !SelectAllMembers, !FrameSocketReads}.
Context `{!ReadySenders, EqDecision Receiver}.
Hypothesis usize_wide : u32_max + u32_max <= usize_max.
Variable cfg : Config.

(** ** In step with a view *)

(** What the connection itself holds: its socket, the pending frames and the outstanding ping. *)
Record session (v : View) (s : AS) : Prop := {
  se_mode : vw_mode v = ac_mode s.1;
  se_next : vw_next v = ac_next_id s.1;
  se_sent : sock_wire (ac_socket s.1) = wires (vw_sent v);
  se_got : sock_read (ac_socket s.1) = wires (vw_got v);
  se_pend : vw_pend v = ac_pending_write_frame s.1;
  se_pong : ac_pending_read_frame s.1 = answering <$> vw_pong v;
  se_asked : vw_asked v = match rtt_state (rtt (mem s.2)) with AwaitingPong _ n => Some n | Waiting _ => None end;
}.

Definition stored_in (hs : list Stream) (v : View) (ps : gmap Z (positive * Receiver)) (s : AS) : Prop :=
  stored hs (vw_streams v) ps (ac_streams s.1) (ac_receivers s.1) (cells (mem s.2)) (net s.2).

(** The view of the peer, and what the programs at this side have written and taken so far. *)
Context (y : View) (deeds : Z -> list byte * list byte).

Definition fits (v : View) : Prop := joined v y /\ forall id, (wrote_at v id, took_at v id) = deeds id.

Definition in_step (hs : list Stream) (s : AS) : Prop :=
  exists v ps, session v s /\ stored_in hs v ps s /\ fits v.

(** The bytes read are among those that the peer has written, or will have written when it has closed. *)
Definition causal (s : AS) : Prop := sock_read (ac_socket s.1) `prefix_of` wires (vw_sent y ++ [farewell]).

(** Another stream can be taken. *)
Definition roomy (s : AS) : Prop := Z.of_nat (size (ac_streams s.1)) < max_num_streams cfg.

Definition sound (hs : list Stream) (s : AS) : Prop :=
  writable (ac_socket s.1) /\ (causal s -> in_step hs s /\ roomy s).

(** What has been read: the frames that have been got, and perhaps the farewell of the peer. *)
Definition has_read (v : View) (bytes : list byte) : Prop :=
  bytes = wires (vw_got v) \/ bytes = wires (vw_got v ++ [farewell]).

(** What remains of that when the connection fails: what has been sent and read, and the streams. *)
Definition leaving (hs : list Stream) (s : AS) : Prop :=
  exists v ps, sock_wire (ac_socket s.1) = wires (vw_sent v) /\ has_read v (sock_read (ac_socket s.1)) /\
    stored_in hs v ps s /\ fits v.

Lemma in_step_leaving hs s : in_step hs s -> leaving hs s.
Proof. intros (v & ps & Hse & Hst & Hf). exists v, ps. split_and!; [apply Hse | left; apply Hse | done | done]. Qed.

Lemma sound_leaving hs s : sound hs s -> causal s -> leaving hs s.
Proof. intros [_ Hs] Hc. by apply in_step_leaving, Hs. Qed.

(** Deeds are those of the ends. *)
Lemma deeds_same v ss :
  (forall id, default ([], []) ((fun p => (en_wrote p.1, en_took p.1)) <$> ss !! id) =
              default ([], []) ((fun p => (en_wrote p.1, en_took p.1)) <$> vw_streams v !! id)) ->
  forall id, (wrote_at (with_streams ss v) id, took_at (with_streams ss v) id) = (wrote_at v id, took_at v id).
Proof.
  intros Hd id. specialize (Hd id). unfold wrote_at, took_at. simpl in *.
  destruct (ss !! id), (vw_streams v !! id); simpl in *; congruence.
Qed.

Lemma deeds_insert v id x q x' q' :
  vw_streams v !! id = Some (x, q) -> en_wrote x' = en_wrote x -> en_took x' = en_took x ->
  forall j, (wrote_at (with_streams (<[id := (x', q')]> (vw_streams v)) v) j,
             took_at (with_streams (<[id := (x', q')]> (vw_streams v)) v) j) = (wrote_at v j, took_at v j).
Proof.
  intros Hx Hw Ht. apply deeds_same. intros j. destruct (decide (j = id)) as [-> | Hj].
  - rewrite lookup_insert_eq, Hx. simpl. by rewrite Hw, Ht.
  - by rewrite lookup_insert_ne.
Qed.

Lemma deeds_new v id x q :
  vw_streams v !! id = None -> en_wrote x = [] -> en_took x = [] ->
  forall j, (wrote_at (with_streams (<[id := (x, q)]> (vw_streams v)) v) j,
             took_at (with_streams (<[id := (x, q)]> (vw_streams v)) v) j) = (wrote_at v j, took_at v j).
Proof.
  intros Hx Hw Ht. apply deeds_same. intros j. destruct (decide (j = id)) as [-> | Hj].
  - rewrite lookup_insert_eq, Hx. simpl. by rewrite Hw, Ht.
  - by rewrite lookup_insert_ne.
Qed.

(** ** Sending *)

(** What is left by a part of the loop: a result in step, or an error. *)
Definition part_sound (hs : list Stream) (r : flow PollResult) (s : AS) : Prop :=
  match r with
  | Return (Ready (Err _)) => causal s -> leaving hs s
  | Return (Ready (Ok st)) => writable (ac_socket s.1) /\ (causal s -> in_step (st :: hs) s)
  | _ => sound hs s
  end.

Definition keeps_step (hs : list Stream) (m : M AS (flow PollResult)) : Prop :=
  forall s, conn_ok cfg (handle_refs hs) s.1 s.2 -> sound hs s -> post m (part_sound hs) s.

(** A step of the socket that neither sends nor delivers a frame. *)
Lemma session_socket v a w s :
  session v (a, w) -> sock_wire s = sock_wire (ac_socket a) -> sock_read s = sock_read (ac_socket a) ->
  session v (set_socket s a, w).
Proof. intros [] Hw Hr. split; simpl in *; congruence. Qed.

Lemma sound_socket hs a w s :
  sound hs (a, w) -> sock_wire s = sock_wire (ac_socket a) -> sock_read s = sock_read (ac_socket a) ->
  writable s -> sound hs (set_socket s a, w).
Proof.
  intros [_ Hs] Hw Hr Hwr. split; [done |]. intros Hc. unfold causal in Hc. simpl in Hc. rewrite Hr in Hc.
  destruct (Hs Hc) as [(v & ps & Hse & Hst & Hf) Hroom]. split; [| done]. exists v, ps. split_and!; try done.
  by apply session_socket.
Qed.

(** Sending a frame. *)
Lemma send_sound (hs : list Stream) (a : Active) (w : World) f :
  sock_ok (ac_socket a) -> sock_idle (ac_socket a) -> frame_wf f -> writable (ac_socket a) ->
  (causal (a, w) -> forall s, sock_wire s = sock_wire (ac_socket a) ++ frame_wire f ->
     sock_read s = sock_read (ac_socket a) -> in_step hs (set_socket s a, w) /\ roomy (a, w)) ->
  post (send_and_continue f) (part_sound hs) (a, w).
Proof.
  intros Hok Hidle Hf Hwr HQ. apply post_bind, post_on_sock. intros r s Hs.
  destruct (wire_send_law _ _ _ _ Hok Hidle Hf Hs) as [-> Hws]. apply post_ret.
  pose proof (read_send_law _ _ _ _ Hok Hf Hs) as Hrd. split; [exact (writable_send_law _ _ _ _ Hok Hwr Hs) |].
  intros Hc. unfold causal in Hc. simpl in Hc. rewrite Hrd in Hc. by apply HQ.
Qed.

Lemma next_ping_step (s : AS) :
  post (on_mem mem_next_ping) (fun o s' => s'.1 = s.1 /\ net s'.2 = net s.2 /\ cells (mem s'.2) = cells (mem s.2) /\
    match o with
    | None => rtt (mem s'.2) = rtt (mem s.2)
    | Some f => exists n t t', frame_erase f = asking n /\ rtt_state (rtt (mem s.2)) = Waiting t /\
                               rtt_state (rtt (mem s'.2)) = AwaitingPong t' n
    end) s.
Proof.
  destruct s as [a w]. unfold post, on_mem, zoom, mem_next_ping, mbind, M_bind, read_clock, gets, modify. simpl.
  unfold next_ping. destruct (rtt_state (rtt (mem w))) eqn:E; simpl; [done |]. destruct (_ <? _); simpl; [done |].
  split_and!; [done.. |]. by do 3 eexists.
Qed.

(** The wires of one more frame. *)
Lemma wires_snoc fs f : wires (fs ++ [f]) = wires fs ++ frame_wire f.
Proof. by rewrite wires_app, wires_one. Qed.

Lemma poll_send_step hs cx : keeps_step hs (poll_send cx).
Proof.
  intros [a w] Hok Hsd. apply post_bind, post_on_sock. intros r s Hs.
  assert (Hsock : sock_ok (ac_socket a)) by apply (co_sock _ _ _ _ Hok). pose proof (sock_ready_law cx _ Hsock) as Hready.
  unfold wp in Hready. rewrite Hs in Hready. destruct (wire_ready_law _ _ _ _ Hsock Hs) as [Hw Hidle].
  pose proof (read_ready_law _ _ _ _ Hsock Hs) as Hrd.
  destruct (writable_ready_law _ _ _ _ Hsock (proj1 Hsd) Hs) as [Hwr Hne].
  pose proof (sound_socket hs a w s Hsd Hw Hrd Hwr) as Hsd1.
  assert (Hok1 : conn_ok cfg (handle_refs hs) (set_socket s a) w) by (by apply conn_ok_socket).
  destruct r as [[[]|e]|]; [| by destruct (Hne e) | by apply post_ret].
  specialize (Hidle eq_refl). simpl. apply post_bind.
  eapply post_mono; [apply post_wp; [by apply (mem_next_ping_ok cfg (handle_refs hs)) | apply next_ping_step] |].
  simpl. intros o [a2 w2] [(-> & Hok2 & _ & Ho) (_ & Hn & Hc & Hp)]. simpl in *.
  assert (Hstep : rtt (mem w2) = rtt (mem w) -> sound hs (set_socket s a, w2)).
  { intros Hr. split; [done |]. intros Hca. destruct (proj2 Hsd1 Hca) as [(v & ps & Hse & Hst & Hf) Hroom].
    split; [| done]. exists v, ps. split_and!; [| by unfold stored_in in *; simpl in *; rewrite Hc, Hn | done].
    destruct Hse. split; simpl in *; by rewrite ?Hr. }
  destruct o as [f|].
  { destruct Hp as (n & t & t' & Ef & R1 & R2). apply send_sound; [done.. | by apply frame_wf_erase, Ho | done |].
    intros Hca s2 Hw2 Hr2. destruct (proj2 Hsd1 Hca) as [(v & ps & Hse & Hst & Hj & Hd) Hroom]. split; [| done].
    exists (with_out (vw_sent v ++ [asking n]) (vw_pend v) (with_asked (Some n) v)), ps. unfold fits. split_and!.
    - destruct Hse as [A1 A2 A3 A4 A5 A6 A7]. split; simpl in *; try done; [| congruence | by rewrite R2].
      by rewrite Hw2, A3, wires_snoc, <- Ef.
    - by unfold stored_in in *; simpl in *; rewrite Hc, Hn.
    - apply joined_ask; [done | by rewrite (se_asked _ _ Hse); simpl; rewrite R1 | rewrite <- Ef; by apply frame_wf_erase, Ho].
    - exact Hd. }
  specialize (Hstep Hp). apply post_bind. unfold take_pending. apply post_bind. unfold post at 1, ac, gets. simpl.
  destruct (ac_pending_read_frame a) as [f|] eqn:Hr.
  - apply post_bind. unfold post at 1, upd, modify. apply post_ret.
    pose proof (co_read _ _ _ _ Hok _ Hr) as Hwf. apply send_sound; [done.. |]. simpl.
    intros Hca s2 Hw2 Hr2. destruct (proj2 Hstep Hca) as [(v & ps & Hse & Hst & Hj & Hd) Hroom]. split; [| done].
    destruct Hse as [A1 A2 A3 A4 A5 A6 A7]. simpl in *. rewrite Hr in A6.
    destruct (vw_pong v) as [n|] eqn:Ep; [| done]. injection A6 as Ef.
    exists (with_out (vw_sent v ++ [answering n]) (vw_pend v) (with_pong None v)), ps. unfold fits. split_and!; [| done | | exact Hd].
    + split; simpl in *; try done; [| congruence]. by rewrite Hw2, A3, wires_snoc, <- Ef.
    + apply joined_answer; [done | done | by rewrite <- Ef].
  - apply post_bind. unfold post at 1, ac, gets. apply post_bind. unfold post at 1, upd, modify. apply post_ret. simpl.
    destruct (ac_pending_write_frame a) as [f|] eqn:Hpw.
    + pose proof (co_write _ _ _ _ Hok _ Hpw) as Hwf. apply send_sound; [done.. |]. simpl.
      intros Hca s2 Hw2 Hr2. destruct (proj2 Hstep Hca) as [(v & ps & Hse & Hst & Hj & Hd) Hroom]. split; [| done].
      destruct Hse as [A1 A2 A3 A4 A5 A6 A7]. simpl in *.
      exists (with_out (vw_sent v ++ [f]) None v), ps. unfold fits. split_and!; [| done | | exact Hd].
      * split; simpl in *; try done; [| congruence]. by rewrite Hw2, A3, wires_snoc.
      * apply joined_send; [done | congruence | done].
    + apply post_ret. destruct a. simpl in *. subst. exact Hstep.
Qed.

Lemma poll_flush_step hs cx : keeps_step hs (poll_flush_socket cx).
Proof.
  intros [a w] Hok Hsd. apply post_bind, post_on_sock. intros r s Hs.
  assert (Hsock : sock_ok (ac_socket a)) by apply (co_sock _ _ _ _ Hok).
  pose proof (sound_socket hs a w s Hsd (wire_flush_law _ _ _ _ Hsock Hs) (read_flush_law _ _ _ _ Hsock Hs)
    (writable_flush_law _ _ _ _ Hsock (proj1 Hsd) Hs)) as Hsd1.
  destruct r as [[[]|e]|]; apply post_ret; [done | exact (sound_leaving _ _ Hsd1) | done].
Qed.

(** ** What leaves the socket alone *)

Section socket.
Context (x : FSock).

Definition has_socket (s : AS) : Prop := ac_socket s.1 = x.

Lemma socket_upd (f : Active -> Active) : (forall a, ac_socket (f a) = ac_socket a) -> preserves has_socket (upd f).
Proof. intros Hf. apply preserves_modify. intros [a w]. unfold has_socket. simpl. by rewrite Hf. Qed.
Lemma socket_mem {A} (m : M Mem A) : preserves has_socket (on_mem m).
Proof. apply preserves_zoom. by intros m' [a w]. Qed.
Lemma socket_world {A} (m : M World A) : preserves has_socket (on_world m).
Proof. apply preserves_zoom. by intros w' [a w]. Qed.
Lemma socket_net {A} (f : Net -> A * Net) : preserves has_socket (on_net f).
Proof. intros [a w] Hs. unfold post, on_net. by destruct (f _). Qed.
Lemma socket_ac {A} (f : Active -> A) : preserves has_socket (ac f).
Proof. apply preserves_gets. Qed.
Lemma socket_receivers cx : preserves has_socket (poll_receivers cx).
Proof. intros [a w] Hs. unfold post, poll_receivers. by destruct (select_all_poll_next _ _ _) as [[p rs] n]. Qed.
End socket.

Ltac socket :=
  walk ltac:(first [apply socket_ac | apply socket_mem | apply socket_net | apply socket_world | apply socket_receivers
                   | apply socket_upd; intros ?; reflexivity]).

Lemma socket_on_frame x f : preserves (has_socket x) (on_frame f).
Proof.
  unfold on_frame, on_data, on_window_update, on_ping, reset_stream, make_new_inbound_stream, terminate, wake_both,
    streams_insert, streams_remove, drop_arc, contains_key, streams_len, is_valid_remote_id. socket.
Qed.

Lemma socket_on_drop_stream x id : preserves (has_socket x) (on_drop_stream id).
Proof. unfold on_drop_stream, wake_both, streams_remove, drop_arc. socket. Qed.

(** The result of a part of the loop, when what has been read so far was sent by the peer. *)
Definition step_after (hs : list Stream) (r : flow PollResult) (s : AS) : Prop :=
  match r with
  | Return (Ready (Err _)) => leaving hs s
  | Return (Ready (Ok st)) => in_step (st :: hs) s
  | _ => in_step hs s /\ roomy s
  end.

Lemma same_socket_step hs (m : M AS (flow PollResult)) s :
  writable (ac_socket s.1) -> preserves (has_socket (ac_socket s.1)) m ->
  (causal s -> post m (step_after hs) s) -> post m (part_sound hs) s.
Proof.
  intros Hw Hm Hc. specialize (Hm s eq_refl). unfold post in *. destruct (m s) as [[r s']| |]; [| done..].
  unfold has_socket in Hm. unfold causal in *.
  destruct r as [|[[st|e]|]|]; simpl; unfold sound, causal; rewrite ?Hm; (split; [done |]) || done; exact Hc.
Qed.

(** ** Commands *)

(** Nothing has happened in the channels. *)
Definition channels_same (n n' : Net) : Prop :=
  forall r, known r n -> known r n' /\ queue r n' = queue r n /\ live r n' = live r n.

Lemma channels_same_trans n1 n2 n3 : channels_same n1 n2 -> channels_same n2 n3 -> channels_same n1 n3.
Proof. intros R1 R2 r Hr. destruct (R1 r Hr) as (K1 & Q1 & L1), (R2 r K1) as (K2 & Q2 & L2). split_and!; [done | congruence..]. Qed.

Lemma stored_same hs ss ps m rs rs' cs n n' :
  stored hs ss ps m rs cs n -> channels_same n n' -> select_all_all (member_of ps) rs' ->
  (forall id l r, ps !! id = Some (l, r) -> served rs' n' r) -> stored hs ss ps m rs' cs n'.
Proof.
  intros Hs Hn Hrs Hse. split; try apply Hs; [| | done | done].
  - intros id x q Hx. destruct (sd_strand _ _ _ _ _ _ _ Hs _ _ _ Hx) as (l & r & B1 & B2 & -> & B).
    destruct (Hn _ B2) as (K & Q & _). exists l, r. by rewrite Q.
  - intros h Hh. destruct (sd_handle _ _ _ _ _ _ _ Hs _ Hh) as (x & q & r & A1 & A2 & A).
    destruct (Hn _ (stored_known _ _ _ _ _ _ _ _ _ _ Hs A2)) as (_ & _ & L). exists x, q, r. by rewrite L.
Qed.

(** What a member yields. *)
Definition yielded (ps : gmap Z (positive * Receiver)) (n : Net) (item : Z * option StreamCommand) (n' : Net) : Prop :=
  exists l r, ps !! item.1 = Some (l, r) /\
    match item.2 with
    | Some c => queue r n = c :: queue r n' /\ channel_step r n n'
    | None => queue r n = [] /\ (forall k, live r n = Some k -> k = O) /\ channels_same n n'
    end.

Lemma member_yields ps cx t n :
  member_of ps t ->
  let '(r, t', n') := tagged_poll_next (receiver_poll cx) t n in
  member_of ps t' /\ match r with Ready (Some item) => yielded ps n item n' | _ => channels_same n n' end.
Proof.
  intros Ht. unfold tagged_poll_next, receiver_poll. destruct (ts_reported_none t); [done |].
  pose proof (fifo_next_law (ts_inner t) cx n) as Hl. pose proof (channel_next_law (ts_inner t) cx n) as Hv.
  destruct (receiver_poll_next (ts_inner t) cx n) as [p n']. destruct Hl as [Hk Hq], Hv as [Hlive Hend].
  assert (Hsame : queue (ts_inner t) n' = queue (ts_inner t) n -> channels_same n n').
  { intros He r' Hr'. destruct (Hk r' Hr') as [K Hne]. split_and!; [done | | by apply Hlive].
    destruct (decide (r' = ts_inner t)) as [-> | Hd]; [done | by apply Hne]. }
  destruct Ht as [l Hl]. destruct p as [[c|]|]; (split; [by exists l |]).
  - exists l, (ts_inner t). split; [done |]. simpl. split; [done |]. intros r' Hr'. destruct (Hk r' Hr').
    split_and!; [done | by apply Hlive | done].
  - exists l, (ts_inner t). split; [done |]. simpl. destruct (Hend eq_refl). split_and!; [done.. | by apply Hsame].
  - by apply Hsame.
Qed.

(** What the connection takes from its channels. *)
Lemma poll_receivers_step hs ss ps cx a w :
  stored hs ss ps (ac_streams a) (ac_receivers a) (cells (mem w)) (net w) ->
  post (poll_receivers cx) (fun p '(a', w') =>
    (exists rs, a' = set_receivers rs a /\ select_all_all (member_of ps) rs /\
       forall id l r, ps !! id = Some (l, r) -> served rs (net w') r) /\ mem w' = mem w /\
    match p with
    | Ready (Some item) => yielded ps (net w) item (net w')
    | _ => channels_same (net w) (net w')
    end) (a, w).
Proof.
  intros Hs. unfold post, poll_receivers. cbn [fst snd].
  pose proof (select_all_trace_law _ _ _ (tagged_poll_next (receiver_poll cx)) (member_of ps) channels_same (yielded ps)
    ltac:(done)) as Hlaw.
  specialize (Hlaw channels_same_trans (member_yields ps cx) (ac_receivers a) (net w) (sd_members _ _ _ _ _ _ _ Hs)).
  pose proof (fun id l r Hps => poll_served cx (ac_receivers a) (net w) r (stored_known _ _ _ _ _ _ _ id l r Hs Hps)
    (sd_served _ _ _ _ _ _ _ Hs id l r Hps)) as Hserved.
  destruct (select_all_poll_next _ _ _) as [[p rs] n]. destruct Hlaw as [Hall Hp]. simpl.
  split; [by exists rs |]. split; [done |]. destruct p as [[item|]|]; [| done..].
  destruct Hp as (n1 & R1 & l & r & Hps & Hy). exists l, r. split; [done |].
  assert (Hback : forall r', known r' (net w) -> known r' n1 /\ queue r' n1 = queue r' (net w) /\ live r' n1 = live r' (net w))
    by exact R1.
  destruct (Hback r (stored_known _ _ _ _ _ _ _ _ _ _ Hs Hps)) as (Kr & Qr & Lr). destruct item as [id [c|]]; simpl in *.
  - destruct Hy as [Hq Hy]. rewrite <- Qr. split; [done |]. intros r' Hr'. destruct (Hback r' Hr') as (K1 & Q1 & L1), (Hy r' K1) as (K2 & L2 & Q2).
    split_and!; [done | congruence |]. intros Hne. by rewrite (Q2 Hne), Q1.
  - destruct Hy as (Hq & Hl & Hy). rewrite <- Qr, <- Lr. split_and!; [done.. |].
    intros r' Hr'. destruct (Hback r' Hr') as (K1 & Q1 & L1), (Hy r' K1) as (K2 & Q2 & L2). split_and!; [done | congruence..].
Qed.

(** What stays the same in the session when only streams, channels or records change. *)
Lemma session_same v ss (a a' : Active) (w w' : World) :
  session v (a, w) -> ac_mode a' = ac_mode a -> ac_next_id a' = ac_next_id a -> ac_socket a' = ac_socket a ->
  ac_pending_read_frame a' = ac_pending_read_frame a -> rtt (mem w') = rtt (mem w) ->
  session (with_out (vw_sent v) (ac_pending_write_frame a') (with_streams ss v)) (a', w').
Proof. intros [] E1 E2 E3 E4 E5. split; simpl in *; by rewrite ?E1, ?E2, ?E3, ?E4, ?E5. Qed.

Lemma in_step_waker hs a w x : in_step hs (a, w) -> in_step hs (set_no_streams_waker x a, w).
Proof. intros (v & ps & [] & Hst & Hf). exists v, ps. split_and!; [by split | done..]. Qed.

(** A stream shrinks the map only. *)
Lemma elsewhere_roomy id l (s s' : AS) :
  elsewhere id l s s' -> is_Some (ac_streams s.1 !! id) -> roomy s -> roomy s'.
Proof.
  intros He Hid Hr. unfold roomy in *.
  assert (Hs : (size (ac_streams s'.1) <= size (ac_streams s.1))%nat); [| lia].
  rewrite <- !size_dom. apply subseteq_size. intros j Hj%elem_of_dom. apply elem_of_dom.
  destruct (decide (j = id)) as [-> | Hne]; [done |]. by rewrite <- (ew_stream _ _ _ _ He).
Qed.

(** The handle of a stream has been dropped, and its last command taken. *)
Lemma drop_step hs a w v ps id l r :
  conn_ok cfg (handle_refs hs) a w -> 0 <= id <= u32_max -> session v (a, w) -> stored_in hs v ps (a, w) -> fits v ->
  roomy (a, w) -> ac_pending_write_frame a = None -> ps !! id = Some (l, r) -> queue r (net w) = [] ->
  (forall k, live r (net w) = Some k -> k = O) ->
  post (on_drop_stream id) (fun o '(a', w') =>
    let a2 := match o with Some f => set_pending_write_frame (Some f) a' | None => a' end in
    in_step hs (a2, w') /\ roomy (a2, w')) (a, w).
Proof.
  intros Hok Hid Hse Hst [Hj Hd] Hroom Hpw Hps Hq Hl.
  destruct (sd_places _ _ _ _ _ _ _ Hst id ltac:(by rewrite Hps)) as [[x q] Hx].
  destruct (sd_strand _ _ _ _ _ _ _ Hst _ _ _ Hx) as (l1 & r1 & B1 & B2 & B3 & B4 & B5 & B6).
  rewrite Hps in B1. injection B1 as <- <-. simpl in B2, B3, B5, B6. rewrite Hq in B3. simpl in B3. subst q.
  pose proof (se_pend _ _ Hse) as Hpend. simpl in Hpend. rewrite Hpw in Hpend.
  destruct (decide (en_status x = Known)) as [Hkn | Hkn].
  - assert (Hat : at_end a w id l x) by (unfold at_end; rewrite Hkn; by apply B5).
    eapply post_mono; [apply wp_post, (on_drop_stream_drops cfg (handle_refs hs)); try done |].
    intros o [a' w'] (_ & Hew & [Hrs Hnet] & x' & Hdr & Hat'). simpl in *.
    assert (Hshape : exists a2, a2 = match o with Some f => set_pending_write_frame (Some f) a' | None => a' end /\
      ac_pending_write_frame a2 = o /\ ac_streams a2 = ac_streams a' /\ ac_receivers a2 = ac_receivers a' /\
      ac_mode a2 = ac_mode a' /\ ac_next_id a2 = ac_next_id a' /\ ac_socket a2 = ac_socket a' /\
      ac_pending_read_frame a2 = ac_pending_read_frame a').
    { destruct o; eexists; (split; [reflexivity |]); simpl; split_and!; try done.
      etrans; [exact (ew_write _ _ _ _ Hew) | exact Hpw]. }
    destruct Hshape as (a2 & <- & E1 & E2 & E3 & E4 & E5 & E6 & E7). split.
    + eexists (with_out (vw_sent v) o (with_streams (<[id := (x', [])]> (vw_streams v)) v)), ps. split_and!.
      * rewrite <- E1. apply (session_same v _ a a2 w w'); [done | | | | |].
        -- rewrite E4. apply (ew_mode _ _ _ _ Hew).
        -- rewrite E5. apply (ew_next _ _ _ _ Hew).
        -- rewrite E6. apply (ew_socket _ _ _ _ Hew).
        -- rewrite E7. apply (ew_read _ _ _ _ Hew).
        -- apply (ew_rtt _ _ _ _ Hew).
      * unfold stored_in. simpl. rewrite E2, E3, Hrs, Hnet. destruct Hdr as [sh' _]. destruct Hat' as [Hnm _].
        eapply (stored_touch _ _ _ _ _ _ _ id l r x []); try done.
        -- apply (ew_stream _ _ _ _ Hew).
        -- apply (ew_cell _ _ _ _ Hew).
        -- intros (h & -> & Hh)%list_elem_of_fmap. exfalso.
           destruct (sd_handle _ _ _ _ _ _ _ Hst _ Hh) as (x0 & q0 & r0 & _ & A2 & _ & _ & _ & _ & A7 & _).
           rewrite Hps in A2. injection A2 as _ <-. by apply Hl in A7.
      * split; [by eapply joined_drops |]. intros j. rewrite <- Hd. destruct Hdr as [sh' _].
        by apply (deeds_insert v id x []).
    + apply (elsewhere_roomy id l (a, w) (a', w')) in Hroom; [| done | simpl; destruct (B5 Hkn) as [-> _]; eauto].
      unfold roomy in *. simpl in *. by rewrite E2.
  - eapply post_mono; [apply wp_post, (on_drop_stream_ok cfg (handle_refs hs)); try done |].
    intros o [a' w'] (_ & (-> & _ & Hm) & ->). rewrite (B6 Hkn) in Hm |- *. subst w'. simpl.
    assert (Hdel : delete id (ac_streams a) = ac_streams a) by (apply delete_id, B6, Hkn).
    split.
    + exists v, ps. split_and!; [destruct Hse; by split | | done]. unfold stored_in in *. simpl in *. by rewrite Hdel.
    + unfold roomy in *. simpl in *. by rewrite Hdel.
Qed.

Lemma poll_commands_step hs cx : keeps_step hs (poll_commands cx).
Proof.
  intros [a w] Hok Hsd. apply same_socket_step; [apply Hsd | unfold poll_commands; socket; apply socket_on_drop_stream |].
  intros Hca. destruct (proj2 Hsd Hca) as [Hin Hroom]. unfold poll_commands. apply post_bind. unfold post at 1, ac, gets. simpl.
  destruct (ac_pending_write_frame a) as [f|] eqn:Hpw; [by apply post_ret |].
  destruct Hin as (v & ps & Hse & Hst & Hj & Hd). pose proof (se_pend _ _ Hse) as Hpend. simpl in Hpend. rewrite Hpw in Hpend.
  apply post_bind. eapply post_mono; [apply post_wp; [by apply (poll_receivers_ok cfg (handle_refs hs)) | by eapply poll_receivers_step] |].
  intros p [a1 w1] [(Hok1 & _ & _ & _ & _ & _ & Hit & _) ((rs & -> & Hrs & Hse') & Hmem & Hp)]. simpl in *.
  assert (Hnone : channels_same (net w) (net w1) -> in_step hs (set_receivers rs a, w1) /\ roomy (set_receivers rs a, w1)).
  { intros Hn. split; [| done]. exists v, ps. split_and!; [| | done].
    - destruct Hse. split; simpl in *; by rewrite ?Hmem.
    - unfold stored_in in *. simpl in *. rewrite Hmem. by eapply stored_same. }
  destruct p as [[[id [c|]]|]|]; [| | apply post_bind; unfold post at 1, upd, modify; apply post_ret; destruct (Hnone Hp); split; [by apply in_step_waker | done]
    | by apply post_ret, Hnone].
  - destruct Hp as (l & r & Hps & Hq & Hn). simpl in *. apply post_bind. unfold post at 1, upd, modify. apply post_ret. simpl.
    split; [| done]. destruct (sd_places _ _ _ _ _ _ _ Hst id ltac:(by rewrite Hps)) as [[x q] Hx].
    destruct (stored_take _ _ _ _ _ rs _ _ _ _ _ _ _ _ _ Hst Hx Hps Hq Hn Hrs Hse') as [Eq Hst'].
    eexists (with_out (vw_sent v) (Some (command_frame id c)) (with_streams _ v)), ps. split_and!.
    + by eapply (session_same v _ a (set_pending_write_frame (Some (command_frame id c)) (set_receivers rs a)) w w1); rewrite ?Hmem.
    + unfold stored_in. simpl. rewrite Hmem. exact Hst'.
    + split; [apply joined_take; [done | by rewrite Hx, Eq | done] |].
      intros j. rewrite <- Hd. by apply (deeds_insert v id x q).
  - destruct Hp as (l & r & Hps & Hq & Hl & Hn). simpl in *. destruct (Hit id None eq_refl) as [Hid _]. apply post_bind.
    eapply post_mono; [eapply (drop_step hs (set_receivers rs a) w1 v ps id l r); try done |].
    + destruct Hse. split; simpl in *; by rewrite ?Hmem.
    + unfold stored_in in *. simpl in *. rewrite Hmem. by eapply stored_same.
    + by destruct (Hn r (stored_known _ _ _ _ _ _ _ _ _ _ Hst Hps)) as (_ & -> & _).
    + intros k Hk. apply Hl. by destruct (Hn r (stored_known _ _ _ _ _ _ _ _ _ _ Hst Hps)) as (_ & _ & <-).
    + intros o [a2 w2] Ho. destruct o as [f|]; (apply post_bind; [unfold post at 1, upd, modify; apply post_ret; exact Ho]).
Qed.
End side.
