(* ===== verification/PeerFrames.v ===== *)
(** * What arrives at one of two connections that are joined

    Reading a frame of the peer keeps a connection in step; and so do the loop of [Active::poll] and
    opening a stream. *)
From Stdlib Require Import ZArith Lia Strings.Byte.
From stdpp Require Import base option list gmap relations numbers.
From S2P Require Import Prelude.
From S2P Require Import Header.
From S2P Require Import Frame.
From S2P Require Import Config.
From S2P Require Import Command.
From S2P Require Import Rtt.
From S2P Require Import ChunkList.
From S2P Require Import FlowControl.
From S2P Require Import Shared.
From S2P Require Import Heap.
From S2P Require Import Channel.
From S2P Require Import TaggedStream.
From S2P Require Import StreamHandle.
From S2P Require Import StreamSpec.
From S2P Require Import Link.
From S2P Require Import FrameIo.
From S2P Require Import FrameIoSpec.
From S2P Require Import Connection.
From S2P Require Import ConnInvariant.
From S2P Require Import ConnSteps.
From S2P Require Import ConnHandlers.
From S2P Require Import ConnLoop.
From S2P Require Import LinkRefine.
From S2P Require Import Joined.
From S2P Require Import Forward.
From S2P Require Import Transport.
From S2P Require Import PeerStore.
From S2P Require Import System.
From S2P Require Import PeerSteps.

Section side.
Context `{Arch, Mpsc, SelectAllOps, FrameSocket, MapOrder}.
Context `{!MpscLaws, !SelectAllLaws, !FrameSocketLaws, !FrameSocketWire}.
Context `{!FifoLaws, !ChannelLaws, !SelectAllTrace, !SelectAllMembers, !FrameSocketReads}.
Context `{!ReadySenders, EqDecision Receiver}.
Hypothesis usize_wide : u32_max + u32_max <= usize_max.
Variable cfg : Config.
Context (y : View) (deeds : Z -> list byte * list byte).

#[local] Abbreviation fits := (fits y deeds).
#[local] Abbreviation in_step := (in_step y deeds).
#[local] Abbreviation causal := (causal y).
#[local] Abbreviation leaving := (leaving y deeds).
#[local] Abbreviation roomy := (roomy cfg).
#[local] Abbreviation sound := (sound cfg y deeds).
#[local] Abbreviation part_sound := (part_sound cfg y deeds).
#[local] Abbreviation keeps_step := (keeps_step cfg y deeds).
#[local] Abbreviation step_after := (step_after cfg y deeds).

(** ** Frames *)

(** A frame has been read, and the connection has changed nothing else of its session. *)
Lemma session_got v ss f a s w a' w' :
  session v (a, w) -> sock_wire s = sock_wire (ac_socket a) -> sock_read s = sock_read (ac_socket a) ++ frame_wire f ->
  ac_mode a' = ac_mode a -> ac_next_id a' = ac_next_id a -> ac_socket a' = s ->
  ac_pending_read_frame a' = ac_pending_read_frame a -> ac_pending_write_frame a' = ac_pending_write_frame a ->
  rtt (mem w') = rtt (mem w) -> session (with_got f (with_streams ss v)) (a', w').
Proof.
  intros [A1 A2 A3 A4 A5 A6 A7] Hw Hr E1 E2 E3 E4 E5 E6. split; simpl in *; rewrite ?E1, ?E2, ?E3, ?E4, ?E5, ?E6; try done.
  - by rewrite Hw.
  - by rewrite Hr, A4, wires_snoc.
Qed.

Lemma session_heard v ss f a s w a' w' id l :
  session v (a, w) -> sock_wire s = sock_wire (ac_socket a) -> sock_read s = sock_read (ac_socket a) ++ frame_wire f ->
  elsewhere id l (set_socket s a, w) (a', w') -> session (with_got f (with_streams ss v)) (a', w').
Proof. intros Hse Hw Hr []. by eapply session_got. Qed.

(** What a frame leaves behind. *)
Definition frame_sound (hs : list Stream) (r : result (Action Stream) ConnectionError) (s : AS) : Prop :=
  match r with
  | Ok ActionNone => in_step hs s /\ roomy s
  | Ok (ActionNew st) => in_step (st :: hs) s
  | Ok (ActionPing f) => in_step hs (set_pending_read_frame (Some (frame_erase f)) s.1, s.2) /\ roomy s
  | Ok (ActionTerminate _) | Err _ => False
  end.

Section frame.
Context (hs : list Stream) (a : Active) (w : World) (s : FSock) (v : View) (ps : gmap Z (positive * Receiver)) (f : Frame unit).
Hypothesis conn : conn_ok cfg (handle_refs hs) (set_socket s a) w.
Hypothesis sendable : frame_sendable f.
Hypothesis sess : session v (a, w).
Hypothesis store : stored_in hs v ps (a, w).
Hypothesis fit : fits v.
Hypothesis room : roomy (a, w).
Hypothesis next : incoming v y f.
Hypothesis wired : sock_wire s = sock_wire (ac_socket a).
Hypothesis red : sock_read s = sock_read (ac_socket a) ++ frame_wire f.

#[local] Abbreviation id := (stream_id (header f)).

(** The record of a stream with a handle is in the memory. *)
Lemma handle_cell E w' a' l r :
  conn_ok cfg E a' w' -> (forall l, E l = handle_refs hs l) -> ps !! id = Some (l, r) -> id ∈ st_id <$> hs ->
  exists c, cells (mem w') !! l = Some c.
Proof.
  intros Hok HE Hps (h & Hi & Hh)%list_elem_of_fmap. eapply handle_live; [exact Hok |]. rewrite HE.
  destruct (sd_handle _ _ _ _ _ _ _ store _ Hh) as (x & q & r0 & _ & Hp & _). rewrite <- Hi, Hps in Hp. injection Hp as -> _.
  apply list_elem_of_lookup in Hh as [i Hh]. by eapply handle_refs_pos.
Qed.

(** A stream that the map has. *)
Lemma frame_known e q :
  stream_frame f -> vw_streams v !! id = Some (e, q) -> en_status e = Known ->
  post (on_frame f) (frame_sound hs) (set_socket s a, w).
Proof.
  intros Hsf Hx Hkn. destruct (sd_strand _ _ _ _ _ _ _ store _ _ _ Hx) as (l & r & B1 & B2 & B3 & B4 & B5 & B6).
  destruct (incoming_known _ _ _ _ _ next Hsf Hx) as [Hv Hsyn].
  eapply post_mono; [apply wp_post, (on_frame_hears usize_wide cfg (handle_refs hs) _ _ _ l e conn sendable Hsf) |].
  { unfold at_end. rewrite Hkn. by apply B5. }
  { by rewrite Hkn. }
  intros ro [a' w'] (Hok' & [[Hvi _] | (-> & Hew & [Hrs Hnet] & x' & Hh & Hat)]); [done |]. simpl in *.
  assert (Hx' : en_flag x' = en_flag e /\ en_status x' <> Unborn /\ en_status x' <> Dropped /\
    en_wrote x' = en_wrote e /\ en_took x' = en_took e).
  { destruct Hh as [Hd | sh' | sh']; [unfold dropped in Hd; by rewrite Hkn in Hd | |]; simpl; (split_and!; try done);
      by destruct (_ && _). }
  destruct Hx' as (E1 & E2 & E3 & E4 & E5). split.
  - exists (with_got f (with_streams (<[id := (x', q)]> (vw_streams v)) v)), ps. split_and!.
    + by eapply session_heard.
    + unfold stored_in. simpl. rewrite Hrs, Hnet. eapply stored_touch; try done.
      * apply (ew_stream _ _ _ _ Hew).
      * apply (ew_cell _ _ _ _ Hew).
      * intros E. unfold at_end in Hat. rewrite E in Hat. exact Hat.
      * intros E. unfold at_end in Hat. by destruct (en_status x'); [| | apply Hat | apply Hat].
      * intros Hin. split; [done |]. destruct (handle_cell _ _ _ _ _ Hok' ltac:(done) B1 Hin) as [[k sh] Hc].
        exists k. unfold at_end in Hat. destruct (en_status x'); [done | | |].
        -- destruct Hat as [_ [k' Hat]]. rewrite Hat in Hc. injection Hc as <- <-. done.
        -- destruct Hat as [_ Hat]. rewrite Hc. specialize (Hat _ Hc). simpl in Hat. by rewrite Hat.
        -- done.
    + split; [by apply (joined_hear v y f e q) | intros j; rewrite <- (proj2 fit); by apply (deeds_insert v id e q)].
  - eapply (elsewhere_roomy cfg _ l (set_socket s a, w)); [done | simpl; destruct (B5 Hkn) as [-> _]; eauto | done].
Qed.
(** A frame that the connection ignores: of a stream that it has forgotten, or does not know yet. *)
Lemma frame_unseen :
  stream_frame f -> ac_streams a !! id = None -> has_flag SYN f = false -> joined (with_got f v) y ->
  post (on_frame f) (frame_sound hs) (set_socket s a, w).
Proof.
  intros Hsf Hn Hsyn Hj. eapply post_mono; [by apply wp_post, (on_frame_unknown cfg (handle_refs hs)) |].
  intros ro [a' w'] (-> & -> & -> & _). split; [| by destruct (flags_contains _ ACK)].
  exists (with_got f (with_streams (vw_streams v) v)), ps. split_and!.
  - by eapply session_got; try done; destruct (flags_contains _ ACK).
  - unfold stored_in in *. by destruct (flags_contains _ ACK).
  - split; [by destruct v | apply fit].
Qed.

Lemma frame_forgotten e q :
  stream_frame f -> vw_streams v !! id = Some (e, q) -> en_status e <> Known ->
  post (on_frame f) (frame_sound hs) (set_socket s a, w).
Proof.
  intros Hsf Hx Hkn. destruct (sd_strand _ _ _ _ _ _ _ store _ _ _ Hx) as (l & r & _ & _ & _ & B4 & _ & B6).
  destruct (incoming_known _ _ _ _ _ next Hsf Hx) as [_ Hsyn]. apply frame_unseen; [done | by apply B6 | done |].
  pose proof (joined_hear v y f e q e next Hsf Hx) as Hj. rewrite insert_id in Hj by done. destruct v. apply Hj.
  apply hear_dropped. unfold dropped. by destruct (en_status e).
Qed.

(** The map has only streams of the view. *)
Lemma unknown_absent j : vw_streams v !! j = None -> ac_streams a !! j = None.
Proof.
  intros Hx. destruct (ac_streams a !! j) eqn:E; [| done].
  destruct (sd_map _ _ _ _ _ _ _ store j) as [? Hs]; [by simpl; rewrite E |]. by rewrite Hs in Hx.
Qed.

Lemma frame_ignored :
  stream_frame f -> vw_streams v !! id = None -> has_flag SYN f = false ->
  post (on_frame f) (frame_sound hs) (set_socket s a, w).
Proof. intros Hsf Hx Hsyn. apply frame_unseen; [done | by apply unknown_absent | done | by apply joined_ignore]. Qed.

(** A frame that opens a stream. *)
Lemma frame_opens :
  stream_frame f -> vw_streams v !! id = None -> has_flag SYN f = true ->
  post (on_frame f) (frame_sound hs) (set_socket s a, w).
Proof.
  intros Hsf Hx Hsyn. destruct (incoming_unknown _ _ _ next Hsf Hx Hsyn) as (Hrst & Hack & Hout & Hv).
  pose proof (unknown_absent _ Hx) as Hn. pose proof (se_mode _ _ sess) as Hmode. simpl in Hmode. rewrite Hmode in Hout.
  assert (Href : refuse_syn cfg (set_socket s a) id frame_internal_error = None).
  { unfold refuse_syn. simpl. rewrite Hout, Hn. unfold PeerSteps.roomy in room. simpl in room.
    by destruct (Z.eqb_spec (Z.of_nat (size (ac_streams a))) (max_num_streams cfg)); [lia |]. }
  eapply post_mono; [apply post_wp;
    [by apply (on_frame_learns usize_wide cfg (handle_refs hs)) | apply on_frame_registers] |].
  intros ro [a' w'] [[(st & -> & Hl) | [_ Hvi]] Hreg].
  2: { exfalso. by apply (Hv (shared_new DEFAULT_CREDIT DEFAULT_CREDIT cfg 0)), Hvi. }
  destruct Hl as (Hi & Hok' & Hfl & Hnew & Hew & sh & [Hm Hc] & Hh). simpl in *. specialize (Hreg st eq_refl).
  destruct (registers_channel _ _ _ _ Hreg) as (r & Hrs & T1 & T2 & Hk & K & Q & L & Hold). simpl in *.
  eexists (with_got f (with_streams (<[id := (mkEnd sh Known (st_flag st) [] [], [])]> (vw_streams v)) v)), _. split_and!.
  - by eapply session_heard.
  - unfold stored_in. simpl. rewrite <- Hi, Hrs in *. eapply stored_new; try done.
    + apply (ew_stream _ _ _ _ Hew).
    + apply (ew_cell _ _ _ _ Hew).
  - split; [by apply joined_learn | intros j; rewrite <- (proj2 fit); by apply deeds_new].
Qed.

(** Pings and answers. *)
Lemma frame_asking n : f = asking n -> ac_pending_read_frame a = None -> post (on_frame f) (frame_sound hs) (set_socket s a, w).
Proof.
  intros Ef Hr. rewrite Ef in next |- *. apply wp_post. eapply (on_frame_acked cfg (handle_refs hs)); [done |].
  unfold acked, dispatch. simpl. wp_step. apply as_ac. wp_step. apply wp_lift. rewrite frame_into_ping_ret by done. simpl. wp_step.
  eapply wp_mono; [by apply (on_ping_ok cfg (handle_refs hs)) |]. simpl.
  intros act [a' w'] (-> & _ & _ & _ & _ & -> & ->). apply wp_ret. split; [| done].
  pose proof (se_pong _ _ sess) as Hp. simpl in Hp. rewrite Hr in Hp. destruct (vw_pong v) eqn:Ep; [done |].
  exists (with_got (asking n) (with_pong (Some n) v)), ps. split_and!; [| done | split; [by apply joined_asked | apply fit]].
  destruct sess as [A1 A2 A3 A4 A5 A6 A7]. split; simpl in *; try done; [by rewrite wired |].
  by rewrite red, A4, wires_snoc, Ef.
Qed.

Lemma frame_answering n : f = answering n -> post (on_frame f) (frame_sound hs) (set_socket s a, w).
Proof.
  intros Ef. rewrite Ef in next |- *. destruct (joined_answered _ _ _ next) as [Hask Hj].
  apply wp_post. eapply (on_frame_acked cfg (handle_refs hs)); [done |].
  unfold acked, dispatch. simpl. wp_step. apply as_ac. wp_step. apply wp_lift. rewrite frame_into_ping_ret by done. simpl. wp_step.
  eapply wp_mono; [by apply (on_ping_ok cfg (handle_refs hs)) |]. simpl.
  intros act [a' w'] (-> & _ & Hnet & Hcells & _ & now & now' & Hpong). apply wp_ret.
  destruct sess as [A1 A2 A3 A4 A5 A6 A7]. simpl in *. unfold handle_pong in Hpong.
  destruct (rtt_state (rtt (mem w))) as [t k|]; [| congruence]. rewrite Hask in A7. injection A7 as <-.
  rewrite Z.eqb_refl in Hpong. simpl in Hpong. destruct (add_ _ _ _); [| done..]. injection Hpong as <- Hrtt. split; [| done].
  exists (with_got (answering n) (with_asked None v)), ps. split_and!; [| | split; [done | apply fit]].
  - split; simpl in *; try done; [by rewrite wired | by rewrite red, A4, wires_snoc, Ef | by rewrite <- Hrtt].
  - unfold stored_in in *. simpl in *. by rewrite Hnet, Hcells.
Qed.

Lemma frame_step : ac_pending_read_frame a = None -> post (on_frame f) (frame_sound hs) (set_socket s a, w).
Proof.
  intros Hr. destruct (incoming_courteous _ _ _ next) as [Hsf | [[n Hf] | [n Hf]]];
    [| by eapply frame_asking | by eapply frame_answering].
  destruct (vw_streams v !! id) as [[e q]|] eqn:Hx.
  - destruct (decide (en_status e = Known)); [by eapply frame_known | by eapply frame_forgotten].
  - destruct (has_flag SYN f) eqn:Hsyn; [by apply frame_opens | by apply frame_ignored].
Qed.
End frame.

(** The peer has closed. *)
Lemma frame_farewell (s : AS) : on_frame farewell s = Ret (Err ErrClosed, s).
Proof. by destruct s. Qed.

(** Reading. *)
Lemma poll_frames_step hs cx : keeps_step hs (poll_frames cx).
Proof.
  intros [a w] Hok Hsd. unfold poll_frames. apply post_bind. unfold post at 1, ac, gets. simpl.
  destruct (ac_pending_read_frame a) as [f|] eqn:Hpr; [by apply post_ret |].
  apply post_bind, post_on_sock. intros r s Hs. assert (Hsock : sock_ok (ac_socket a)) by apply (co_sock _ _ _ _ Hok).
  pose proof (sock_next_law cx _ Hsock) as Hnext. unfold wp in Hnext. rewrite Hs in Hnext. destruct Hnext as [Hs' Hf].
  pose proof (writable_next_law _ _ _ _ Hsock (proj1 Hsd) Hs) as Hwr.
  pose proof (wire_next_law _ _ _ _ Hsock Hs) as Hw. pose proof (read_next_law _ _ _ _ Hsock Hs) as Hr.
  assert (Hout : sock_read s = sock_read (ac_socket a) -> sound hs (set_socket s a, w)) by (intros Hr'; by apply sound_socket).
  destruct r as [[[f|e]|]|]; [| by apply post_ret; exact (sound_leaving _ _ _ _ _ (Hout Hr)).. | by apply post_ret, Hout].
  apply same_socket_step; [done | walk ltac:(first [apply socket_on_frame | by apply socket_upd]) |]. intros Hc. unfold PeerSteps.causal in Hc. simpl in Hc.
  assert (Hc0 : causal (a, w)) by (unfold PeerSteps.causal; simpl; rewrite Hr in Hc; by eapply prefix_app_l).
  destruct (proj2 Hsd Hc0) as [(v & ps & Hse & Hst & Hfit) Hroom]. specialize (Hf f eq_refl).
  assert (Hin : incoming v y f \/ f = farewell).
  { apply incoming_prefix; [apply Hfit | apply Hf |]. rewrite wires_snoc, <- (se_got _ _ Hse). simpl. by rewrite <- Hr. }
  destruct Hin as [Hin | ->].
  2: { apply post_bind. unfold post at 1. rewrite frame_farewell. apply post_ret. exists v, ps.
       split_and!; [by rewrite <- (se_sent _ _ Hse) | right; simpl; by rewrite Hr, wires_snoc, <- (se_got _ _ Hse) | done | done]. }
  apply post_bind. eapply post_mono; [eapply (frame_step hs a w s v ps f (conn_ok_socket _ _ _ _ s Hok Hs')); done |].
  intros [[| st | g | g]|e] [a1 w1] Hfs; [by apply post_ret.. | | done | done].
  apply post_bind. unfold post at 1, upd, modify. by apply post_ret.
Qed.

(** ** The loop *)

Lemma and_then_step hs f m :
  (forall a w, conn_ok cfg (handle_refs hs) a w -> wp f (fun r '(a', w') => flow_ok cfg (handle_refs hs) a w r a' w') (a, w)) ->
  keeps_step hs f -> keeps_step hs m -> keeps_step hs (and_then f m).
Proof.
  intros Hw Hf Hm [a w] Hok Hs. apply post_bind.
  eapply post_mono; [apply post_wp; [by apply Hw | by apply Hf] |]. intros r [a1 w1] [Hr Hs1].
  destruct r as [|p|]; [by apply post_ret.. |]. destruct Hr as [Hok1 _]. by apply Hm.
Qed.

Lemma poll_iter_step hs cx : keeps_step hs (poll_iter cx).
Proof.
  apply and_then_step; [intros; by apply poll_send_ok | apply poll_send_step |].
  apply and_then_step; [intros; by apply poll_flush_socket_ok | apply poll_flush_step |].
  apply and_then_step; [intros; by apply poll_commands_ok | apply poll_commands_step | apply poll_frames_step].
Qed.

Definition poll_sound (hs : list Stream) (r : PollResult) (s : AS) : Prop := part_sound hs (Return r) s.

Lemma active_poll_step hs fuel cx s :
  conn_ok cfg (handle_refs hs) s.1 s.2 -> sound hs s ->
  post (active_poll fuel cx) (poll_sound hs) s.
Proof.
  intros Hok Hs. unfold active_poll. apply (post_loop _ (fun s => conn_ok cfg (handle_refs hs) s.1 s.2 /\ sound hs s)); [| done].
  intros [a1 w1] [Hok1 Hs1]. apply post_bind.
  eapply post_mono; [apply post_wp; [by apply (poll_iter_ok usize_wide cfg) | by apply (poll_iter_step hs)] |].
  intros r [a2 w2] [Hr Hs2]. destruct r as [|p|]; apply post_ret; [by destruct Hr | done | done].
Qed.

(** ** Opening a stream *)

(** Parking the caller. *)
Lemma sound_waker hs a w x : sound hs (a, w) -> sound hs (set_new_outbound_stream_waker x a, w).
Proof.
  intros [Hw Hs]. split; [done |]. intros Hc. destruct (Hs Hc) as [(v & ps & [] & Hst & Hf) Hr].
  split; [| done]. exists v, ps. split_and!; [by split | done..].
Qed.

Lemma new_outbound_step hs cx s :
  conn_ok cfg (handle_refs hs) s.1 s.2 -> sound hs s -> post (active_poll_new_outbound cx) (poll_sound hs) s.
Proof.
  destruct s as [a w]. intros Hok Hs.
  eapply post_mono; [apply post_wp; [by apply (active_poll_new_outbound_ok cfg (handle_refs hs)) | apply new_outbound_registers] |].
  intros r [a' w'] [Hr Hreg]. simpl in *.
  destruct (_ <=? _) in Hr; [destruct Hr as (-> & -> & ->); exact (sound_leaving _ _ _ _ _ Hs) |].
  destruct (_ <=? _) in Hr; [destruct Hr as (-> & -> & ->); by apply sound_waker |].
  destruct (_ <? _) in Hr; [destruct Hr as (-> & -> & ->); exact (sound_leaving _ _ _ _ _ Hs) |].
  destruct Hr as (st & -> & _ & Hop). specialize (Hreg st eq_refl).
  destruct Hop as (Hi & _ & Hfl & Hn & Hfr & (now & Hc) & Hrt & _ & rs & ->). split; [apply Hs |]. intros Hca.
  destruct (proj2 Hs Hca) as [(v & ps & Hse & Hst & Hj & Hd) Hroom].
  destruct (registers_channel _ _ _ _ Hreg) as (r & Hrs & T1 & T2 & Hk & K & Q & L & Hold). simpl in *.
  pose proof (co_next _ _ _ _ Hok) as [_ Hout]. pose proof Hse as [A1 A2 A3 A4 A5 A6 A7]. simpl in *. rewrite <- A1, <- A2 in Hout.
  set (sh := shared_new DEFAULT_CREDIT DEFAULT_CREDIT cfg now) in *. assert (Hfresh : fresh sh) by (by split_and!).
  pose proof (next_unknown _ _ Hj Hout) as Hx.
  exists (with_next (vw_next v + 2) (with_streams (<[vw_next v := (mkEnd sh Known FlagSyn [] [], [])]> (vw_streams v)) v)).
  exists (<[st_id st := (st_shared st, r)]> ps). split_and!.
  - split; simpl; try done; [by rewrite A2 | by rewrite Hrt].
  - unfold stored_in in *. simpl in *. rewrite A2, <- Hi, <- Hfl, Hrs in *. eapply stored_new; try done.
    + by rewrite lookup_insert_eq.
    + intros j Hj'. by rewrite lookup_insert_ne.
    + rewrite Hc, lookup_insert_eq. by exists 2%nat.
    + intros l' Hl'. by rewrite Hc, lookup_insert_ne.
  - split; [by apply joined_open | intros j; rewrite <- Hd; by apply (deeds_new v (vw_next v))].
Qed.
End side.
