(* ===== verification/Parting.v ===== *)
(** * When a side leaves

    What remains of one side of two connections once its connection is closing or gone: its handles
    still give what had arrived; what it has sent is what its view has sent, with the final [GoAway]
    if it closed in order, and then nothing that its programs have written is left behind. *)
From Stdlib Require Import ZArith Lia Strings.Byte.
From stdpp Require Import base option list gmap relations numbers.
From S2P Require Import Prelude.
From S2P Require Import Header.
From S2P Require Import Frame.
From S2P Require Import Config.
From S2P Require Import Command.
From S2P Require Import Rtt.
From S2P Require Import ChunkList.
From S2P Require Import FlowControl.
From S2P Require Import Shared.
From S2P Require Import Heap.
From S2P Require Import Channel.
From S2P Require Import TaggedStream.
From S2P Require Import StreamHandle.
From S2P Require Import StreamSpec.
From S2P Require Import Link.
From S2P Require Import FrameIo.
From S2P Require Import FrameIoSpec.
From S2P Require Import Connection.
From S2P Require Import ConnInvariant.
From S2P Require Import ConnSteps.
From S2P Require Import ConnHandlers.
From S2P Require Import ConnLoop.
From S2P Require Import Closing.
From S2P Require Import ClosingSpec.
From S2P Require Import ConnectionState.
From S2P Require Import ConnStateSpec.
From S2P Require Import LinkRefine.
From S2P Require Import Joined.
From S2P Require Import Forward.
From S2P Require Import Transport.
From S2P Require Import PeerStore.
From S2P Require Import System.
From S2P Require Import PeerSteps.

(** ** What programs do *)

(** What the programs at one side have written to a stream, and taken from it. *)
Definition accepted_by (id : Z) (t : list Deed) : list byte :=
  mjoin (map de_accepted (filter (fun d => de_stream d = id) t)).
Definition delivered_by (id : Z) (t : list Deed) : list byte :=
  mjoin (map de_delivered (filter (fun d => de_stream d = id) t)).
Definition deeds_of (t : list Deed) (id : Z) : list byte * list byte := (accepted_by id t, delivered_by id t).

Lemma deeds_of_app t u id :
  deeds_of (t ++ u) id = (accepted_by id t ++ accepted_by id u, delivered_by id t ++ delivered_by id u).
Proof. unfold deeds_of, accepted_by, delivered_by. by rewrite list.filter_app, !map_app, !join_app. Qed.

(** ** What has arrived, and what has been written *)

(** The same ends, in other queues. *)
Definition alike (v v' : View) : Prop := forall id, fst <$> vw_streams v' !! id = fst <$> vw_streams v !! id.

Lemma alike_at v v' id : alike v v' -> wrote_at v' id = wrote_at v id /\ had_at v' id = had_at v id.
Proof.
  intros Ha. specialize (Ha id). unfold wrote_at, had_at.
  destruct (vw_streams v !! id) as [[e q]|], (vw_streams v' !! id) as [[e' q']|]; simpl in *; by simplify_eq.
Qed.

Lemma alike_queue v id x q q' fs p :
  vw_streams v !! id = Some (x, q) -> alike v (with_out fs p (with_streams (<[id := (x, q')]> (vw_streams v)) v)).
Proof.
  intros Hx j. simpl. destruct (decide (j = id)) as [-> | Hj]; [by rewrite lookup_insert_eq, Hx | by rewrite lookup_insert_ne].
Qed.

Lemma alike_trans v1 v2 v3 : alike v1 v2 -> alike v2 v3 -> alike v1 v3.
Proof. intros H1 H2 id. by rewrite H2, H1. Qed.

(** A run of an end keeps what has arrived, and adds to what has been written. *)
Lemma runs_had id e fs e' :
  runs id e fs e' -> en_took e' ++ unread (en_sh e') = en_took e ++ unread (en_sh e) /\ en_wrote e `prefix_of` en_wrote e'.
Proof.
  induction 1 as [e | e o e1 fs e2 Ha _ [IH1 IH2]]; [done |]. rewrite IH1.
  assert (Hone : en_took e1 ++ unread (en_sh e1) = en_took e ++ unread (en_sh e) /\ en_wrote e `prefix_of` en_wrote e1).
  { destruct Ha as [b sh' _ _ _ _ _ Hu _ | sh' _ Hu _ _ | k sh' _ _ _ Hu _ _ _ _ _ | b sh' _ Hu _]; simpl; rewrite ?Hu.
    - split; [done | by apply prefix_app_r].
    - done.
    - done.
    - by rewrite <- app_assoc. }
  destruct Hone as [-> Hp]. split; [done | by etrans].
Qed.

(** What emits nothing writes nothing. *)
Lemma runs_silent id e e' : runs id e [] e' -> en_wrote e' = en_wrote e.
Proof.
  remember [] as fs eqn:Hfs. induction 1 as [e | e o e1 fs e2 Ha _ IH]; [done |].
  destruct o as [f|]; [done |]. rewrite (IH Hfs). by inversion Ha.
Qed.

Section side.
Context `{Arch, Mpsc, SelectAllOps, FrameSocket, MapOrder}.
Context `{!MpscLaws, !SelectAllLaws, !FrameSocketLaws, !FrameSocketWire}.
Context `{!FifoLaws, !ChannelLaws, !ClosedChannels, !SelectAllTrace, !SelectAllMembers, !DrainLaws, !FrameSocketReads}.
Context `{!ReadySenders, EqDecision Receiver}.
Hypothesis usize_wide : u32_max + u32_max <= usize_max.
Variable cfg : Config.

(** ** Handles that outlive the connection *)

(** The programs have written at least what the ends have, and taken a part of what had arrived; what a
    handle has not taken yet is in its record. *)
Record settled (d : Z -> list byte * list byte) (v : View) (hs : list Stream) (cs : gmap positive Cell) : Prop := {
  st_wrote : forall id, wrote_at v id `prefix_of` (d id).1;
  st_took : forall id, (d id).2 `prefix_of` had_at v id;
  st_record : forall h, h ∈ hs -> exists c, cs !! st_shared h = Some c /\
    (d (st_id h)).2 ++ unread (contents c) = had_at v (st_id h);
  st_here : forall h, h ∈ hs -> exists x q, vw_streams v !! st_id h = Some (x, q) /\ en_status x <> Dropped;
  st_unique : NoDup (st_id <$> hs);
  st_apart : forall h g, h ∈ hs -> g ∈ hs -> st_shared h = st_shared g -> st_id h = st_id g;
}.

(** What is in the records at another time. *)
Definition same_unread (cs cs' : gmap positive Cell) (l : positive) : Prop :=
  forall c, cs !! l = Some c -> exists c', cs' !! l = Some c' /\ unread (contents c') = unread (contents c).

Lemma settled_records d v hs cs cs' :
  settled d v hs cs -> (forall h, h ∈ hs -> same_unread cs cs' (st_shared h)) -> settled d v hs cs'.
Proof.
  intros [Hw Ht Hr He Hu Ha] Hcs. split; try done. intros h Hh. destruct (Hr h Hh) as (c & Hc & Hd).
  destruct (Hcs h Hh c Hc) as (c' & Hc' & Hun). exists c'. by rewrite Hun.
Qed.

Lemma settled_alike d v v' hs cs : settled d v hs cs -> alike v v' -> settled d v' hs cs.
Proof.
  intros [Hw Ht Hr He Hu Hap] Ha. split; try done.
  - intros id. destruct (alike_at _ _ id Ha) as [-> _]. done.
  - intros id. destruct (alike_at _ _ id Ha) as [_ ->]. done.
  - intros h Hh. destruct (alike_at _ _ (st_id h) Ha) as [_ ->]. by apply Hr.
  - intros h Hh. destruct (He h Hh) as (x & q & Hx & Hnd). specialize (Ha (st_id h)). rewrite Hx in Ha.
    destruct (vw_streams v' !! st_id h) as [[x' q']|]; simpl in Ha; [| done]. injection Ha as ->. by exists x, q'.
Qed.

(** So it is when the connection is left. *)
Lemma stored_settled d v hs ps m rs cs n :
  stored hs (vw_streams v) ps m rs cs n -> (forall id, (wrote_at v id, took_at v id) = d id) -> settled d v hs cs.
Proof.
  intros Hs Hd. split.
  - intros id. by rewrite <- Hd.
  - intros id. rewrite <- Hd. apply took_had.
  - intros h Hh. destruct (sd_handle _ _ _ _ _ _ _ Hs _ Hh) as (x & q & r & Hx & _ & _ & _ & _ & _ & _ & k & Hc).
    eexists. split; [exact Hc |]. rewrite <- Hd. unfold took_at, had_at. by rewrite Hx.
  - intros h Hh. destruct (sd_handle _ _ _ _ _ _ _ Hs _ Hh) as (x & q & r & Hx & _ & _ & Hnd & _). by exists x, q.
  - apply Hs.
  - intros h g Hh Hg E.
    destruct (sd_handle _ _ _ _ _ _ _ Hs _ Hh) as (x & q & r & _ & Hp & _).
    destruct (sd_handle _ _ _ _ _ _ _ Hs _ Hg) as (x' & q' & r' & _ & Hp' & _). rewrite <- E in Hp'.
    by eapply (sd_apart _ _ _ _ _ _ _ Hs); [exact Hp | exact Hp' | apply handle_kept | apply handle_kept].
Qed.

(** An operation of a handle. *)
Lemma run_handle_does cx op s w sh :
  handle_ok cfg s w sh -> op_fits op ->
  wp (run_handle cx op) (fun '(b, b') '(s', w') => does cfg s w sh b b' s' w') (s, w).
Proof.
  intros Hh Hop. pose proof Hh as (Hm & _). pose proof (mo_config _ _ Hm) as (_ & _ & Hsp & _).
  destruct op as [buf | | buf | |]; simpl; wp_step.
  - eapply wp_mono; [by apply poll_read_does |]. intros [r b] [s' w'] Hd. apply wp_ret. by destruct r as [[n|e]|].
  - eapply wp_mono; [by apply stream_poll_next_does |]. intros r [s' w'] Hd. apply wp_ret. by destruct r as [[[p|e]|]|].
  - eapply wp_mono; [apply poll_write_does; [done | lia] |]. intros r [s' w'] Hd. apply wp_ret. by destruct r as [[n|e]|].
  - eapply wp_mono; [by apply stream_poll_flush_does |]. intros r [s' w'] Hd. by apply wp_ret.
  - eapply wp_mono; [by apply stream_poll_close_does |]. intros r [s' w'] Hd. by apply wp_ret.
Qed.

Lemma settled_handle t v hs w i h cx op b b' h' w' sh :
  settled (deeds_of t) v hs (cells (mem w)) -> hs !! i = Some h -> handle_ok cfg h w sh -> op_fits op ->
  run_handle cx op (h, w) = Ret ((b, b'), (h', w')) ->
  settled (deeds_of (t ++ [mkDeed (st_id h) b b'])) v (<[i := h']> hs) (cells (mem w')).
Proof.
  intros [Hw Ht Hr Hhere Hu Hap] Hi Hh Hop He. assert (Hin : h ∈ hs) by (by eapply list_elem_of_lookup_2).
  pose proof (run_handle_does cx op h w _ Hh Hop) as Hdo. unfold wp in Hdo. rewrite He in Hdo.
  pose proof (run_handle_ok cfg cx op h w _ Hh Hop) as Hrel. unfold wp in Hrel. rewrite He in Hrel.
  destruct Hrel as [Hs' _ Hrel _ _]. destruct Hdo as (sh' & cmds & (_ & _ & _ & k' & Hc') & _ & Hrun).
  destruct (runs_had _ _ _ _ (Hrun Known [] [])) as [Hhad _]. simpl in Hhad.
  assert (E : st_id h' = st_id h /\ st_shared h' = st_shared h) by (by destruct Hs' as [-> | ->]). destruct E as [E1 E2].
  destruct (Hr h Hin) as (c & Hc & Hcd). destruct Hh as (_ & _ & _ & k & Hk). rewrite Hk in Hc. injection Hc as <-. simpl in Hcd.
  assert (Hnew : delivered_by (st_id h) t ++ b' ++ unread sh' = had_at v (st_id h)) by (by rewrite <- Hcd, <- Hhad).
  assert (Hdeed : forall j, deeds_of (t ++ [mkDeed (st_id h) b b']) j =
    (accepted_by j t ++ (if decide (st_id h = j) then b else []), delivered_by j t ++ (if decide (st_id h = j) then b' else []))).
  { intros j. rewrite deeds_of_app. unfold accepted_by at 2, delivered_by at 2. rewrite filter_cons. simpl.
    case_decide; simpl; by rewrite ?app_nil_r. }
  assert (Hids : st_id <$> <[i := h']> hs = st_id <$> hs).
  { rewrite list_fmap_insert, E1. apply list_insert_id. by rewrite list_lookup_fmap, Hi. }
  assert (Hold : forall g, g ∈ <[i := h']> hs -> exists g0, g0 ∈ hs /\ st_id g = st_id g0 /\ st_shared g = st_shared g0).
  { intros g (j & Hj)%list_elem_of_lookup. destruct (decide (i = j)) as [<- | Hij].
    - rewrite list_lookup_insert_eq in Hj by (by eapply lookup_lt_Some). injection Hj as <-. by exists h.
    - rewrite list_lookup_insert_ne in Hj by done. exists g. split; [by eapply list_elem_of_lookup_2 | done]. }
  split.
  - intros j. rewrite Hdeed. simpl. apply prefix_app_r, Hw.
  - intros j. rewrite Hdeed. simpl. case_decide as E; [| rewrite app_nil_r; apply Ht].
    rewrite <- E, <- Hnew, app_assoc. by apply prefix_app_r.
  - intros g Hg. destruct (Hold g Hg) as (g0 & Hg0 & -> & ->). rewrite Hdeed. simpl. case_decide as E.
    + destruct (decide (st_shared g0 = st_shared h)) as [-> | Hne].
      * rewrite E2 in Hc'. exists (mkCell k' sh'). rewrite Hc', <- E, <- app_assoc. by split.
      * exfalso. apply Hne. assert (E' : g0 = h); [| by rewrite E'].
        apply list_elem_of_lookup in Hg0 as [j Hj]. assert (j = i) as ->; [| congruence].
        eapply (NoDup_lookup (st_id <$> hs)); [done | by rewrite list_lookup_fmap, Hj | rewrite list_lookup_fmap, Hi; simpl; by rewrite E].
    + destruct (Hr g0 Hg0) as (c0 & Hc0 & Hcd0). exists c0. rewrite app_nil_r. split; [| done].
      rewrite (mr_other _ _ _ Hrel); [done |]. intros E'. apply E. by apply Hap.
  - intros g Hg. destruct (Hold g Hg) as (g0 & Hg0 & -> & _). by apply Hhere.
  - by rewrite Hids.
  - intros g g' Hg Hg' E. destruct (Hold g Hg) as (g0 & Hg0 & -> & E3), (Hold g' Hg') as (g1 & Hg1 & -> & E4).
    apply Hap; congruence.
Qed.

(** A handle is dropped. *)
Lemma stream_drop_cells h w w' l : stream_drop h w = Ret (tt, w') -> l <> st_shared h -> cells (mem w') !! l = cells (mem w) !! l.
Proof.
  unfold stream_drop, arc_drop. intros He Hl. destruct (cells (mem w) !! st_shared h) as [[k sh]|] eqn:Hc; [| done].
  destruct k as [|[|k]]; [destruct (fc_drop _ _).. |]; try done; injection He as <-; simpl.
  - by rewrite lookup_delete_ne.
  - by rewrite lookup_delete_ne.
  - by rewrite lookup_insert_ne.
Qed.

Lemma settled_drop d v hs i h cs cs' :
  settled d v hs cs -> hs !! i = Some h -> (forall l, l <> st_shared h -> cs' !! l = cs !! l) ->
  settled d v (delete i hs) cs'.
Proof.
  intros [Hw Ht Hr Hhere Hu Hap] Hi Hcs.
  pose proof (fun g => delete_distinct hs i h g Hu Hi) as Hsub.
  split; try done.
  - intros g Hg. destruct (Hsub g Hg) as [Hgh Hne]. destruct (Hr g Hgh) as (c & Hc & Hd). exists c. split; [| done].
    rewrite Hcs; [done |]. intros E. apply Hne, Hap; [done | by eapply list_elem_of_lookup_2 | done].
  - intros g Hg. by apply Hhere, Hsub.
  - eapply sublist_NoDup; [exact Hu |]. apply fmap_sublist, sublist_delete.
  - intros g g' Hg Hg'. apply Hap; by apply Hsub.
Qed.

(** ** Channels that are closed *)

(** A handle whose commands are refused. *)
Definition shut (n : Net) (h : Stream) : Prop :=
  target (st_window_update_sender h) = target (st_sender h) /\
  known (target (st_sender h)) n /\ live (target (st_sender h)) n = None.
Definition shut_out (hs : list Stream) (n : Net) : Prop := forall h, h ∈ hs -> shut n h.

(** Nothing waits, neither in the channels nor to be sent. *)
Definition emptied (v : View) : Prop := vw_pend v = None /\ forall id, waiting_in v id = [].

(** Everything that has been written is with the view, and no more will be. *)
Definition sealed (d : Z -> list byte * list byte) (v : View) (hs : list Stream) (n : Net) : Prop :=
  (forall id, (d id).1 = wrote_at v id) /\ emptied v /\ shut_out hs n.

Lemma sealed_handle t v hs w i h cx op b b' h' w' sh :
  sealed (deeds_of t) v hs (net w) -> hs !! i = Some h -> handle_ok cfg h w sh -> op_fits op ->
  run_handle cx op (h, w) = Ret ((b, b'), (h', w')) ->
  sealed (deeds_of (t ++ [mkDeed (st_id h) b b'])) v (<[i := h']> hs) (net w').
Proof.
  intros (Hd & He & Hs) Hi Hh Hop Hr. assert (Hin : h ∈ hs) by (by eapply list_elem_of_lookup_2).
  pose proof (run_handle_does cx op h w _ Hh Hop) as Hdo. unfold wp in Hdo. rewrite Hr in Hdo.
  pose proof (run_handle_ok cfg cx op h w _ Hh Hop) as Hrel. unfold wp in Hrel. rewrite Hr in Hrel.
  destruct Hrel as [Hs' _ _ _ _]. destruct Hdo as (sh' & cmds & _ & Hem & Hrun).
  destruct (Hs h Hin) as (T & K & L).
  assert (Ht : forall s, own_sender h s -> target s = target (st_sender h)) by (by intros s [-> | ->]).
  pose proof (emits_shut _ _ _ _ _ Hem Ht K L) as ->. pose proof (emits_queue _ _ _ _ _ Hem Ht) as Hq.
  pose proof (runs_silent _ _ _ (Hrun Known [] [])) as Hb. simpl in Hb. subst b. split; [| split; [done |]].
  - intros id. rewrite deeds_of_app. simpl. unfold accepted_by at 2. rewrite filter_cons. simpl. rewrite <- Hd.
    case_decide; simpl; by rewrite app_nil_r.
  - assert (Hkeep : forall g, shut (net w) g -> shut (net w') g).
    { intros g (T' & K' & L'). destruct (Hq _ K') as (K2 & L2 & _). split_and!; [done | done | congruence]. }
    intros g (j & Hj)%list_elem_of_lookup. destruct (decide (i = j)) as [<- | Hij].
    + rewrite list_lookup_insert_eq in Hj by (by eapply lookup_lt_Some). injection Hj as <-.
      pose proof (Hkeep h (Hs h Hin)) as Hsh. unfold shut in *. by destruct Hs' as [-> | ->].
    + rewrite list_lookup_insert_ne in Hj by done. apply Hkeep, Hs. by eapply list_elem_of_lookup_2.
Qed.

Lemma stream_drop_net h w w' :
  stream_drop h w = Ret (tt, w') -> net w' = sender_drop (st_window_update_sender h) (sender_drop (st_sender h) (net w)).
Proof. unfold stream_drop. destruct (arc_drop _ _) as [[u m]| |]; [| done..]. by intros [= <-]. Qed.

Lemma sealed_drop d v hs w i h w' :
  sealed d v hs (net w) -> stream_drop h w = Ret (tt, w') -> sealed d v (delete i hs) (net w').
Proof.
  intros (Hd & He & Hs) Hr. split_and!; [done.. |]. intros g Hg.
  assert (Hgh : g ∈ hs) by (eapply elem_of_sublist; [exact Hg | apply sublist_delete]).
  destruct (Hs g Hgh) as (T & K & L). split; [done |].
  assert (Hone : forall c n, known (target (st_sender g)) n -> live (target (st_sender g)) n = None ->
    known (target (st_sender g)) (sender_drop c n) /\ live (target (st_sender g)) (sender_drop c n) = None).
  { intros c n K1 L1. destruct (fifo_drop_law c n _ K1) as [K2 _], (channel_drop_law c n) as [D1 D2]. split; [done |].
    destruct (decide (target (st_sender g) = target c)) as [E | E]; [| by rewrite D2]. rewrite E in L1 |- *. by rewrite D1, L1. }
  assert (net w' = sender_drop (st_window_update_sender h) (sender_drop (st_sender h) (net w))) as ->;
    [by apply stream_drop_net |]. destruct (Hone (st_sender h) _ K L) as [K1 L1]. by apply Hone.
Qed.

(** ** Closing *)

(** The view of the peer, and the handles that programs hold. *)
Context (y : View) (hs : list Stream).

(** A channel that has been closed stays so when receivers are polled. *)
Lemma tagged_poll_shut cx (t : TaggedStream Z Receiver) n :
  shut_out hs n -> let '(_, _, n') := tagged_poll_next (receiver_poll cx) t n in shut_out hs n'.
Proof.
  intros Hs. unfold tagged_poll_next, receiver_poll. destruct (ts_reported_none t); [done |].
  pose proof (fifo_next_law (ts_inner t) cx n) as Hl. pose proof (channel_next_law (ts_inner t) cx n) as Hv.
  destruct (receiver_poll_next (ts_inner t) cx n) as [p n']. destruct Hl as [Hk _], Hv as [Hlive _].
  assert (Hs' : shut_out hs n'); [| by destruct p as [[c|]|]].
  intros h Hh. destruct (Hs h Hh) as (T & K & L). split_and!; [done | by apply Hk | by rewrite Hlive].
Qed.

Lemma poll_shut cx (rs : Receivers) n : shut_out hs n ->
  let '(_, _, n') := select_all_poll_next (tagged_poll_next (receiver_poll cx)) rs n in shut_out hs n'.
Proof.
  intros Hs. pose proof (select_all_next_law _ _ _ (tagged_poll_next (K := Z) (receiver_poll cx)) (fun _ => True) (shut_out hs)
    (fun _ => True)) as Hlaw.
  assert (Hall : select_all_all (fun _ => True) rs) by (by apply in_all_law).
  specialize (Hlaw ltac:(intros t n1 _ Hn1; pose proof (tagged_poll_shut cx t n1 Hn1);
    by destruct (tagged_poll_next _ _ _) as [[p t'] n2]) rs n Hall Hs).
  destruct (select_all_poll_next _ _ _) as [[p rs'] n']. apply Hlaw.
Qed.

(** What a closing connection has sent or is to send is what its view has sent, and in the end the
    farewell. Its channels are those of the view, until they are drained. *)
Definition drains (v : View) (c : Closing) (n : Net) : Prop :=
  due c = wires (vw_sent v) /\ vw_pend v = None /\
  exists ps, select_all_all (member_of ps) (cl_receivers c) /\
    (forall id l r, ps !! id = Some (l, r) -> known r n /\ served (cl_receivers c) n r /\
       exists x, vw_streams v !! id = Some (x, map (command_frame id) (queue r n))) /\
    (forall id, is_Some (vw_streams v !! id) -> is_Some (ps !! id)) /\
    (forall id id' l l' r, ps !! id = Some (l, r) -> ps !! id' = Some (l', r) -> id = id').

Definition flushes (v : View) (c : Closing) : Prop :=
  due c = wires (vw_sent v ++ [farewell]) /\ (cl_state c = FlushingPendingFrames \/ cl_state c = ClosingSocket).

(** The commands of all handles are still asked for. *)
Definition open_to (rs : Receivers) (n : Net) : Prop :=
  forall h, h ∈ hs -> target (st_window_update_sender h) = target (st_sender h) /\
    known (target (st_sender h)) n /\ attended rs (target (st_sender h)).

(** How far the closing has come; [v0] is the view when it began. *)
Definition closing_at (v0 : View) (c : Closing) (n : Net) : Prop :=
  exists v, joined v y /\ alike v0 v /\ sock_read (cl_socket c) = wires (vw_got v) /\
    match cl_state c with
    | ClosingStreamReceiver => drains v c n /\ open_to (cl_receivers c) n
    | DrainingStreamReceiver => drains v c n /\ shut_out hs n
    | FlushingPendingFrames | ClosingSocket => flushes v c /\ emptied v /\ shut_out hs n
    end.

(** What is left when a poll of it ends. *)
Definition closing_left (v0 : View) (r : poll (result unit ConnectionError)) (c : Closing) (n : Net) : Prop :=
  exists v, joined v y /\ alike v0 v /\ sock_read (cl_socket c) = wires (vw_got v) /\ emptied v /\ shut_out hs n /\
    match r with
    | Pending => flushes v c
    | Ready _ => sock_wire (cl_socket c) `prefix_of` wires (vw_sent v ++ [farewell])
    end.

(** A command goes from its channel to the wire. *)
Lemma joined_take_send v id x f q :
  joined v y -> vw_streams v !! id = Some (x, f :: q) -> vw_pend v = None -> frame_wf f ->
  joined (with_out (vw_sent v ++ [f]) None (with_streams (<[id := (x, q)]> (vw_streams v)) v)) y.
Proof. intros Hj Hx Hp Hf. exact (joined_send _ _ f (joined_take _ _ _ _ _ _ Hj Hx Hp) eq_refl Hf). Qed.

(** What a step of the socket finds. *)
Lemma flushes_socket v c s : flushes v c -> sock_wire s = sock_wire (cl_socket c) -> flushes v (set_cl_socket s c).
Proof. unfold flushes, due. simpl. by intros Hd ->. Qed.

Lemma flushes_sent v c : flushes v c -> sock_wire (cl_socket c) `prefix_of` wires (vw_sent v ++ [farewell]).
Proof. unfold flushes, due. intros [<- _]. by apply prefix_app_r. Qed.

Lemma flushes_at v c n :
  joined v y -> flushes v c -> sock_read (cl_socket c) = wires (vw_got v) -> emptied v -> shut_out hs n -> closing_at v c n.
Proof. intros Hj Hf Hr He Hs. exists v. split_and!; [done | by intros id | done |]. by destruct (proj2 Hf) as [-> | ->]. Qed.

Lemma post_cl_sock {A} (m : M FSock A) (Q : A -> CS -> Prop) c n :
  (forall x s, m (cl_socket c) = Ret (x, s) -> Q x (set_cl_socket s c, n)) -> post (cl_sock m) Q (c, n).
Proof. intros HQ. unfold post, cl_sock, zoom. simpl. destruct (m _) as [[x s]| |] eqn:He; [by apply HQ | done..]. Qed.

(** The channels are closed, and keep what they hold. *)
Lemma close_drains v c n : drains v c n -> drains v (set_cl_state DrainingStreamReceiver c) (close_receivers (cl_receivers c) n).
Proof.
  intros (Hd & Hp & ps & Hm & Hq & Hdom & Ha).
  assert (Hk : forall r, known r n -> let n' := close_receivers (cl_receivers c) n in
    known r n' /\ queue r n' = queue r n /\ (live r n' = None \/ live r n' = live r n)).
  { unfold close_receivers.
    apply (select_all_each_law _ _ _ (fun n' => forall r, known r n ->
      known r n' /\ queue r n' = queue r n /\ (live r n' = None \/ live r n' = live r n))); [| by auto].
    intros t n' Hn r Hr. destruct (Hn r Hr) as (K & Q & L), (closed_close_law (ts_inner t) n' r K) as (K' & Q' & L1 & L2).
    split; [done |]. split; [congruence |]. destruct (decide (r = ts_inner t)) as [E | E]; [left; auto |]. by rewrite (L2 E). }
  split; [done |]. split; [done |]. exists ps. split_and!; [done | | done | done]. intros id l r Hps.
  destruct (Hq id l r Hps) as (K & S & Hx). destruct (Hk r K) as (K' & Q' & L'). rewrite Q'. split; [done |]. split; [| done].
  destruct S as [[F1 F2] | Ha']; [left | by right]. split; [by rewrite Q' |]. intros k Hk'. destruct L' as [E | E]; rewrite E in Hk'; [done | auto].
Qed.

Lemma close_shut rs n : open_to rs n -> shut_out hs (close_receivers rs n).
Proof.
  intros Ho h Hh. destruct (Ho h Hh) as (T & K & t & Ht & Hr & _). split; [done |].
  assert (Hkn : known (target (st_sender h)) (close_receivers rs n)).
  { unfold close_receivers. apply (select_all_each_law _ _ _ (known (target (st_sender h)))); [| done].
    intros t' n' Kn. by apply closed_close_law. }
  split; [done |].  unfold close_receivers. apply (in_each_law _ _ _ (known (target (st_sender h))) (fun n' => live (target (st_sender h)) n' = None) t); [done | | | done].
  - intros t' n' Kn. destruct (closed_close_law (ts_inner t') n' _ Kn) as (K' & _ & L1 & L2). split; [done |]. intros L.
    destruct (decide (target (st_sender h) = ts_inner t')) as [E | E]; [by apply L1 | by rewrite L2].
  - intros n' Kn. destruct (closed_close_law (ts_inner t) n' _ Kn) as (_ & _ & L1 & _). by apply L1.
Qed.

(** Where a poll of the channels leads. *)
Lemma drain_step cx v c n :
  drains v c n ->
  let '(p, rs, n') := select_all_poll_next (tagged_poll_next (receiver_poll cx)) (cl_receivers c) n in
  match p with
  | Ready (Some (id, Some cmd)) => frame_wf (command_frame id cmd) -> joined v y ->
      exists v', joined v' y /\ alike v v' /\ vw_got v' = vw_got v /\
        drains v' (mkClosing (cl_state c) rs (cl_pending c ++ [command_frame id cmd]) (cl_socket c)) n'
  | Ready (Some (_, None)) => drains v (mkClosing (cl_state c) rs (cl_pending c) (cl_socket c)) n'
  | _ => due c = wires (vw_sent v) /\ emptied v
  end.
Proof.
  intros (Hd & Hp & ps & Hm & Hq & Hdom & Hap).
  pose proof (select_all_trace_law _ _ _ (tagged_poll_next (receiver_poll cx)) (member_of ps) channels_same (yielded ps)
    ltac:(done)) as Hlaw.
  specialize (Hlaw channels_same_trans (member_yields ps cx) (cl_receivers c) n Hm).
  pose proof (drain_law cx (cl_receivers c) n) as Hdrain.
  assert (Hserved : forall id l r, ps !! id = Some (l, r) -> let '(_, rs, n') :=
    select_all_poll_next (tagged_poll_next (receiver_poll cx)) (cl_receivers c) n in served rs n' r)
    by (intros id l r Hps; by apply poll_served; apply (Hq id l r Hps)).
  destruct (select_all_poll_next _ _ _) as [[p rs] n']. destruct Hlaw as [Hall Hres].
  assert (Hend : (forall item, p <> Ready (Some item)) -> channels_same n n' -> emptied v).
  { intros Hno Hn. split; [done |]. intros id. unfold waiting_in. destruct (vw_streams v !! id) as [[x q]|] eqn:Hx; [| done].
    destruct (Hdom id ltac:(by rewrite Hx)) as [[l r] Hps]. destruct (Hq id l r Hps) as (K & S & x' & Hx').
    rewrite Hx in Hx'. injection Hx' as -> ->. simpl. destruct S as [[F _] | Ha]; [by rewrite F |].
    destruct (Hn r K) as (_ & Q & _). by rewrite <- Q, (Hdrain Hno r K Ha). }
  destruct p as [[[id o]|]|]; [| split; [done | by apply Hend]..].
  destruct Hres as (n1 & Hn1 & l & r & Hps & Hy). simpl in Hps, Hy. destruct o as [cmd|].
  - intros Hf Hj. destruct Hy as [Hqr Hch]. destruct (Hq id l r Hps) as (K & _ & x & Hx). destruct (Hn1 r K) as (K1 & Q1 & _).
    rewrite <- Q1, Hqr in Hx. simpl in Hx.
    eexists. split; [by apply (joined_take_send v id x _ _ Hj Hx Hp Hf) |]. split; [by eapply alike_queue |]. split; [done |].
    split; [| split; [done |]].
    { unfold due in *. simpl. by rewrite wires_snoc, wires_snoc, app_assoc, Hd. }
    exists ps. split_and!; [done | | | done].
    + intros j l' r' Hj'. destruct (Hq j l' r' Hj') as (Kj & _ & xj & Hxj).
      destruct (Hn1 r' Kj) as (K1j & Q1j & _), (Hch r' K1j) as (K2j & _ & Q2j). split; [done |]. split; [by eapply Hserved |]. simpl.
      destruct (decide (j = id)) as [-> | Hne].
      * rewrite Hps in Hj'. injection Hj' as <- <-. exists x. by rewrite lookup_insert_eq.
      * exists xj. rewrite lookup_insert_ne, Q2j, Q1j by first [done | intros ->; apply Hne; by eapply Hap]. done.
    + intros j Hj'. apply Hdom. simpl in Hj'. destruct Hj' as [b [[<- _] | [_ Hb]]%lookup_insert_Some]; [by rewrite Hx | by rewrite Hb].
  - destruct Hy as (_ & _ & Hch). split; [done |]. split; [done |]. exists ps. split_and!; [done | | done | done].
    intros j l' r' Hj'. destruct (Hq j l' r' Hj') as (Kj & _ & Hxj).
    destruct (channels_same_trans _ _ _ Hn1 Hch r' Kj) as (K' & -> & _). split; [done |]. split; [by eapply Hserved | done].
Qed.

(** What an iteration leaves. *)
Definition closing_moves (v0 : View) (r : option (poll (result unit ConnectionError))) (s : CS) : Prop :=
  match r with None => closing_at v0 s.1 s.2 | Some r => closing_left v0 r s.1 s.2 end.

Lemma closing_drain_at W v0 v cx c n :
  closing_ok W c n -> cl_state c = DrainingStreamReceiver -> joined v y -> alike v0 v ->
  sock_read (cl_socket c) = wires (vw_got v) -> drains v c n -> shut_out hs n ->
  post (closing_iter cx) (closing_moves v0) (c, n).
Proof.
  intros [Hn Hs Hr _ _ _] Hst Hj Hal Hrd Hc Hsh. unfold closing_iter. apply post_bind. unfold post at 1, cl, gets. simpl. rewrite Hst.
  pose proof (drain_ok cx _ _ Hr Hn) as Hdr. pose proof (drain_step cx v c n Hc) as Hstep.
  pose proof (poll_shut cx (cl_receivers c) n Hsh) as Hsh'.
  apply post_bind. unfold post at 1, cl_poll_receivers. cbn [fst snd]. rewrite Hst in *.
  destruct (select_all_poll_next _ _ _) as [[p rs] n1]. destruct Hdr as (_ & _ & Hitem).
  assert (Hend : due c = wires (vw_sent v) /\ emptied v ->
    closing_at v0 (mkClosing FlushingPendingFrames rs (cl_pending c ++ [frame_erase frame_term]) (cl_socket c)) n1).
  { intros [Hd He]. exists v. split_and!; [done.. |]. simpl. split; [| done]. split; [| by left]. unfold due in *. simpl in *.
    by rewrite !wires_snoc, app_assoc, Hd. }
  destruct p as [[[id [cmd|]]|]|].
  - destruct (Hitem id (Some cmd) eq_refl) as [Hid Hok].
    destruct (Hstep ltac:(apply command_frame_wf; [done | by apply Hok]) Hj) as (v' & Hj' & Hal' & Hg' & Hd').
    apply post_bind. unfold post at 1, push_pending, cl_upd, modify. simpl. apply post_ret. exists v'. rewrite Hg'.
    split_and!; [done | by eapply alike_trans | done..].
  - apply post_ret. by exists v.
  - apply post_bind. unfold post at 1, push_pending, cl_upd, modify. apply post_bind. unfold post at 1, cl_upd, modify.
    apply post_ret. by apply Hend.
  - apply post_bind. unfold post at 1, push_pending, cl_upd, modify. apply post_bind. unfold post at 1, cl_upd, modify.
    apply post_ret. by apply Hend.
Qed.

Lemma closing_flush_at W v0 v cx c n :
  closing_ok W c n -> cl_state c = FlushingPendingFrames -> joined v y -> alike v0 v ->
  sock_read (cl_socket c) = wires (vw_got v) -> flushes v c -> emptied v -> shut_out hs n ->
  post (closing_iter cx) (closing_moves v0) (c, n).
Proof.
  intros [Hn Hs _ Hp _ _] Hst Hj Hal Hrd Hc He Hsh. unfold closing_iter. apply post_bind. unfold post at 1, cl, gets. simpl. rewrite Hst.
  apply post_bind, post_cl_sock. intros r s Hrs.
  pose proof (sock_ready_law cx _ Hs) as Hs1. unfold wp in Hs1. rewrite Hrs in Hs1.
  destruct (wire_ready_law _ _ _ _ Hs Hrs) as [Hw Hidle]. pose proof (flushes_socket _ _ s Hc Hw) as Hf.
  pose proof (read_ready_law _ _ _ _ Hs Hrs) as Hr1. rewrite Hrd in Hr1.
  destruct r as [[[]|e]|]; [| apply post_ret; exists v; split_and!; [done.. |]; by apply flushes_sent | apply post_ret; by exists v].
  apply post_bind. unfold post at 1, cl, gets. simpl. destruct (cl_pending c) as [|f rest] eqn:Hpend.
  - apply post_bind. unfold post at 1, cl_upd, modify. apply post_ret. exists v. split_and!; [done.. |]. simpl.
    split_and!; [split; [apply Hf | by right] | done..].
  - apply post_bind. unfold post at 1, cl_upd, modify. simpl. apply post_bind, post_cl_sock. intros r s2 He2. simpl in He2.
    inversion Hp as [|? ? Hfw _]; subst. destruct (wire_send_law _ _ _ _ Hs1 (Hidle eq_refl) Hfw He2) as [-> Hw2].
    pose proof (read_send_law _ _ _ _ Hs1 Hfw He2) as Hr2. rewrite Hr1 in Hr2.
    apply post_ret. exists v. split_and!; [done.. |]. simpl. rewrite Hst. split; [| done]. destruct Hf as [Hf _]. split; [| by left].
    unfold due in *. simpl in *. rewrite Hw2, <- Hf, Hpend, wires_cons. by rewrite app_assoc.
Qed.

Lemma closing_iter_at W v0 cx c n : closing_ok W c n -> closing_at v0 c n -> post (closing_iter cx) (closing_moves v0) (c, n).
Proof.
  intros Hok (v & Hj & Hal & Hrd & Hc). destruct (cl_state c) eqn:Hst;
    [| by eapply closing_drain_at; try done; apply Hc | by eapply closing_flush_at; try done; apply Hc |];
    unfold closing_iter; apply post_bind; unfold post at 1, cl, gets; simpl; rewrite Hst.
  - do 2 (apply post_bind; unfold post at 1, modify, cl_upd). simpl. apply post_ret. exists v. split_and!; [done.. |].
    destruct Hc as [Hc Ho]. simpl. split; [by apply close_drains | by apply close_shut].
  - destruct Hc as (Hf & He & Hsh). apply post_bind, post_cl_sock. intros r s Hrs.
    pose proof (wire_close_law _ _ _ _ (clo_sock _ _ _ Hok) Hrs) as Hw.
    pose proof (read_close_law _ _ _ _ (clo_sock _ _ _ Hok) Hrs) as Hr. rewrite Hrd in Hr.
    pose proof (flushes_socket _ _ s Hf Hw) as Hf'.
    destruct r as [[[]|e]|]; apply post_ret; exists v; (split_and!; [done.. |]); [by apply flushes_sent | by apply flushes_sent | done].
Qed.

Lemma closing_poll_at W v0 fuel cx c n :
  closing_ok W c n -> closing_at v0 c n -> post (closing_poll fuel cx) (fun r s' => closing_left v0 r s'.1 s'.2) (c, n).
Proof.
  intros Hok Hc. apply (post_loop _ (fun s => closing_ok W s.1 s.2 /\ closing_at v0 s.1 s.2)); [| done].
  intros [c1 n1] [Hok1 Hc1]. eapply post_mono; [apply post_wp; [by apply closing_iter_ok | by eapply closing_iter_at] |].
  intros [r|] [c2 n2] [Hr Hc2]; [done |]. split; [apply Hr | done].
Qed.

(** ** The active connection is left *)

#[local] Abbreviation in_step := (in_step y).
#[local] Abbreviation leaving := (leaving y).

Lemma conn_max E a w : conn_ok cfg E a w -> 0 <= max_num_streams cfg.
Proof. intros Hok. by destruct (mo_config _ _ (co_mem _ _ _ _ Hok)) as (_ & [? _] & _). Qed.

(** The records of handles are still there. *)
Lemma handles_live st w : state_ok cfg (handle_refs hs) st w -> forall h, h ∈ hs -> is_Some (cells (mem w) !! st_shared h).
Proof.
  intros Hok h (i & Hi)%list_elem_of_lookup. eapply state_ok_live; [exact Hok |]. by eapply handle_refs_pos.
Qed.

Lemma shut_unread ps m m' l : all_shut ps m m' -> is_Some (cells m' !! l) -> same_unread (cells m) (cells m') l.
Proof.
  intros (_ & Hin & Hout) [c' Hc'] c Hc. exists c'. split; [done |]. destruct (decide (l ∈ ps.*2)) as [Hl | Hl].
  - destruct (Hin l c Hl Hc) as [_ Hs]. by rewrite (Hs _ Hc').
  - rewrite Hout in Hc' by done. by rewrite Hc in Hc'; injection Hc' as <-.
Qed.

(** What is left of a connection that has ended without closing. *)
Definition left_by (d : Z -> list byte * list byte) (a : Active) (w : World) : Prop :=
  exists v, joined v y /\ settled d v hs (cells (mem w)) /\ sock_wire (ac_socket a) = wires (vw_sent v) /\
    has_read v (sock_read (ac_socket a)).

Lemma leaving_settled d a w st w' ps :
  leaving d hs (a, w) -> state_ok cfg (handle_refs hs) st w' -> all_shut ps (mem w) (mem w') -> left_by d a w'.
Proof.
  intros (v & qs & Hw & Hrd & Hst & Hj & Hd) Hok Hs. exists v. split_and!; [done | | done | done].
  eapply settled_records; [by eapply stored_settled |]. intros h Hh. eapply shut_unread; [exact Hs |]. by eapply handles_live.
Qed.

(** The connection fails. *)
Lemma to_cleanup_step d a w e :
  conn_ok cfg (handle_refs hs) a w -> leaving d hs (a, w) ->
  returns (to_cleanup e (a, w)) (fun '(st, w') => (exists u, st = StCleanup u) /\ left_by d a w').
Proof.
  intros Hok Hl. pose proof (conn_max _ _ _ Hok) as Hmax.
  eapply returns_mono; [by apply (to_cleanup_ok cfg Hmax (handle_refs hs)) |]. intros [st w'] (u & -> & Hr & _ & Hs).
  split; [by exists u |]. by eapply (leaving_settled _ _ _ StClosed).
Qed.

(** The connection is dropped. *)
Lemma conn_drop_step d a w :
  conn_ok cfg (handle_refs hs) a w -> leaving d hs (a, w) -> returns (conn_drop (StActive a, w)) (left_by d a).
Proof.
  intros Hok Hl. pose proof (conn_max _ _ _ Hok) as Hmax.
  eapply returns_mono; [by apply (conn_drop_ok cfg Hmax (handle_refs hs)) |]. intros w' [Hr Hs].
  by eapply (leaving_settled _ _ _ StClosed).
Qed.

(** What waits to be sent goes first. *)
Lemma joined_pending v a w E :
  conn_ok cfg E a w -> session v (a, w) -> joined v y ->
  exists v', joined v' y /\ alike v v' /\ vw_streams v' = vw_streams v /\ vw_got v' = vw_got v /\ vw_pend v' = None /\
    wires (vw_sent v') = sock_wire (ac_socket a) ++
      wires (option_list (ac_pending_read_frame a) ++ option_list (ac_pending_write_frame a)).
Proof.
  intros Hok [A1 A2 A3 A4 A5 A6 A7] Hj. simpl in *.
  assert (Hv1 : exists v1, joined v1 y /\ vw_streams v1 = vw_streams v /\ vw_got v1 = vw_got v /\ vw_pend v1 = vw_pend v /\
    wires (vw_sent v1) = sock_wire (ac_socket a) ++ wires (option_list (ac_pending_read_frame a))).
  { destruct (vw_pong v) as [n|] eqn:Ep; simpl in A6; rewrite A6; simpl.
    - eexists. split; [eapply (joined_answer v y n); [done | done |] |]; [by apply (co_read _ _ _ _ Hok) |].
      split_and!; try done. simpl. by rewrite wires_snoc, wires_one, A3.
    - exists v. rewrite app_nil_r. by split_and!. }
  destruct Hv1 as (v1 & Hj1 & E1 & Eg & E2 & E3). rewrite wires_app, app_assoc, <- E3, <- A5, <- E2.
  destruct (vw_pend v1) as [f|] eqn:Ep; simpl.
  - eexists. split; [apply (joined_send v1 y f); [done | done |]; apply (co_write _ _ _ _ Hok); by rewrite <- A5, <- E2 |].
    split_and!; try done; simpl; [intros id; simpl; by rewrite E1 | by rewrite wires_snoc, wires_one].
  - exists v1. rewrite app_nil_r. split_and!; try done. intros id. by rewrite E1.
Qed.

(** The connection is closed. *)
Lemma active_close_step d a w :
  conn_ok cfg (handle_refs hs) a w -> in_step d hs (a, w) ->
  wp active_close (fun c '(a', w') => exists v W, closing_ok W c (net w') /\ closing_at v c (net w') /\
    settled d v hs (cells (mem w')) /\ forall id, (d id).1 = wrote_at v id) (a, w).
Proof.
  intros Hok (v & ps & Hse & Hst & Hj & Hd).
  pose proof (conn_max _ _ _ Hok) as Hmax.
  eapply wp_mono; [by apply (active_close_ok cfg (handle_refs hs)) |].
  intros c [a' w'] (-> & Hok' & Hc & -> & _ & Hcs & Hn). exists v. eexists. split; [exact Hc |]. split_and!.
  - destruct (joined_pending _ _ _ _ Hok Hse Hj) as (v' & Hj' & Hal & Hss & Hg & Hp & Hw). exists v'. split; [done |]. split; [done |].
    simpl. unfold stored_in in Hst. simpl in Hst. rewrite Hn. split; [rewrite Hg; apply Hse |]. split.
    + split; [by rewrite Hw |]. split; [done |]. exists ps. rewrite Hss. split_and!; [apply Hst | | | apply Hst].
      * intros id l r Hps. split; [by eapply stored_known |]. split; [exact (sd_served _ _ _ _ _ _ _ Hst _ _ _ Hps) |].
        destruct (sd_places _ _ _ _ _ _ _ Hst id ltac:(by rewrite Hps)) as [[x q] Hx]. exists x. rewrite Hx.
        destruct (sd_strand _ _ _ _ _ _ _ Hst _ _ _ Hx) as (l' & r' & Hp' & _ & -> & _). rewrite Hps in Hp'. by injection Hp' as <- <-.
      * intros id [[x q] Hx]. destruct (sd_strand _ _ _ _ _ _ _ Hst _ _ _ Hx) as (l' & r' & Hp' & _). by rewrite Hp'.
    + intros h Hh. destruct (handle_attended _ _ _ _ _ _ _ _ Hst Hh) as [Ha Ht]. split; [done |]. split; [| done].
      destruct (sd_handle _ _ _ _ _ _ _ Hst _ Hh) as (x & q & r & _ & Hp' & _ & _ & -> & _). by eapply stored_known.
  - eapply settled_records; [by eapply stored_settled |]. intros h Hh c0 Hc0.
    destruct (handles_live (StActive _) w' Hok' h Hh) as [c' Hc']. exists c'. split; [done |].
    destruct (Hcs _ _ Hc') as (c1 & Hc1 & E). simpl in Hc0. rewrite Hc0 in Hc1. injection Hc1 as <-. by rewrite E.
  - intros id. by rewrite <- Hd.
Qed.
End side.
