(* ===== verification/PeerMethods.v ===== *)
(** * The methods of one of two connections

    What the three polls of [Connection] make of a side that is joined to a peer, whatever state it is
    in: it stays in step as long as it is active, and settles when it closes or fails. *)
From Stdlib Require Import ZArith Lia Strings.Byte.
From stdpp Require Import base option list gmap relations numbers.
From S2P Require Import Prelude.
From S2P Require Import Header.
From S2P Require Import Frame.
From S2P Require Import Config.
From S2P Require Import Command.
From S2P Require Import Rtt.
From S2P Require Import ChunkList.
From S2P Require Import FlowControl.
From S2P Require Import Shared.
From S2P Require Import Heap.
From S2P Require Import Channel.
From S2P Require Import TaggedStream.
From S2P Require Import StreamHandle.
From S2P Require Import StreamSpec.
From S2P Require Import Link.
From S2P Require Import FrameIo.
From S2P Require Import FrameIoSpec.
From S2P Require Import Connection.
From S2P Require Import ConnInvariant.
From S2P Require Import ConnSteps.
From S2P Require Import ConnHandlers.
From S2P Require Import ConnLoop.
From S2P Require Import Closing.
From S2P Require Import ClosingSpec.
From S2P Require Import ConnectionState.
From S2P Require Import ConnStateSpec.
From S2P Require Import Joined.
From S2P Require Import Forward.
From S2P Require Import Transport.
From S2P Require Import PeerStore.
From S2P Require Import System.
From S2P Require Import PeerSteps.
From S2P Require Import PeerFrames.
From S2P Require Import Parting.

(** ** The socket at the end of a call *)

Section last_socket.
Context `{Arch, Mpsc, SelectAllOps, FrameSocket, MapOrder}.

Definition closing_socket (fuel : nat) (cx : Waker) (c : Closing) (w : World) : option FSock :=
  match run_closing fuel cx c w with Ret (_, c', _) => Some (cl_socket c') | _ => None end.

(** The socket as it is at the end of a call, or as it was when it was dropped within it. *)
Definition last_socket (fuel : nat) (cx : Waker) (op : ConnOp) (s : KS) : option FSock :=
  let '(st, w) := s in
  match st, op with
  | StActive a, CNewOutbound =>
      match active_poll_new_outbound cx (a, w) with Ret (_, (a', _)) => Some (ac_socket a') | _ => None end
  | StActive a, CNextInbound =>
      match active_poll fuel cx (a, w) with Ret (_, (a', _)) => Some (ac_socket a') | _ => None end
  | StActive a, CClose =>
      match active_close (a, w) with Ret (c, (_, w')) => closing_socket fuel cx c w' | _ => None end
  | StClosing c, _ => closing_socket fuel cx c w
  | _, _ => None
  end.
End last_socket.

(** With the bytes that have been written and read, which are those of the socket if it was used. *)
Definition after_socket `{FrameSocketReads} {A} (K : list byte -> list byte -> A) (wire read : list byte) (x : option FSock) : A :=
  match x with Some x => K (sock_wire x) (sock_read x) | None => K wire read end.

Section side.
Context `{Arch, Mpsc, SelectAllOps, FrameSocket, MapOrder}.
Context `{!MpscLaws, !SelectAllLaws, !FrameSocketLaws, !FrameSocketWire}.
Context `{!FifoLaws, !ChannelLaws, !ClosedChannels, !SelectAllTrace, !SelectAllMembers, !DrainLaws, !FrameSocketReads}.
Context `{!ReadySenders, EqDecision Receiver}.
Hypothesis usize_wide : u32_max + u32_max <= usize_max.
Variable cfg : Config.

(** ** A side in any state *)

(** What its programs have done is [d]; [wire] is what its socket has been given, and [read] what it has
    delivered. A connection that has sent its farewell has sent everything before. *)
Definition keeps (d : Z -> list byte * list byte) (hs : list Stream) (wire read : list byte) (v : View) (s : KS) : Prop :=
  match s.1 with
  | StActive a =>
      (wire = sock_wire (ac_socket a) /\ read = sock_read (ac_socket a)) /\ writable (ac_socket a) /\ session v (a, s.2) /\
      (exists ps, stored_in hs v ps (a, s.2)) /\ forall id, (wrote_at v id, took_at v id) = d id
  | StClosing c =>
      (wire = sock_wire (cl_socket c) /\ read = sock_read (cl_socket c) /\ read = wires (vw_got v) /\ flushes v c) /\
      settled d v hs (cells (mem s.2)) /\ sealed d v hs (net s.2)
  | StCleanup _ => wire = wires (vw_sent v) /\ has_read v read /\ settled d v hs (cells (mem s.2))
  | StClosed =>
      (wire `prefix_of` wires (vw_sent v ++ [farewell]) /\ has_read v read) /\ settled d v hs (cells (mem s.2)) /\
      (wire = wires (vw_sent v ++ [farewell]) -> sealed d v hs (net s.2))
  | StPoisoned => False
  end.

(** Without its farewell a connection has not sent everything. *)
Lemma not_farewell fs : wires fs <> wires (fs ++ [farewell]).
Proof. intros E. rewrite wires_snoc in E. apply (f_equal length) in E. rewrite length_app in E.
  assert (Hl : length (frame_wire farewell) = 12%nat) by reflexivity. lia. Qed.

(** Without an active connection only the handles matter. *)
Definition inactive (st : ConnectionState) : Prop := match st with StActive _ => False | _ => True end.

Lemma active_or_not st : (exists a, st = StActive a) \/ inactive st.
Proof. destruct st; simpl; eauto. Qed.

Lemma keeps_settled d hs wire read v st w :
  keeps d hs wire read v (st, w) -> inactive st -> settled d v hs (cells (mem w)).
Proof. unfold keeps. simpl. destruct st; [done | intros (_ & ? & _) _ | intros (_ & _ & ?) _ | intros (_ & ? & _) _ | done]; done. Qed.

Lemma keeps_other d hs wire read v st w d' hs' w' :
  keeps d hs wire read v (st, w) -> inactive st ->
  settled d' v hs' (cells (mem w')) -> (sealed d v hs (net w) -> sealed d' v hs' (net w')) -> keeps d' hs' wire read v (st, w').
Proof.
  unfold keeps. simpl. destruct st; [done | intros (Hc & _ & He) _ Hs Hse | intros (Hw & Hr & _) _ Hs _ | intros (Hw & _ & He) _ Hs Hse | done].
  - by split_and!; [apply Hc.. | | apply Hse].
  - done.
  - split; [done |]. split; [done |]. auto.
Qed.

Section methods.
Context (y : View) (d : Z -> list byte * list byte) (hs : list Stream).

Definition kept_joined (hs : list Stream) (wire read : list byte) (s : KS) : Prop :=
  exists v, joined v y /\ keeps d hs wire read v s.

Lemma in_step_keeps hs' a w :
  writable (ac_socket a) -> in_step y d hs' (a, w) -> kept_joined hs' (sock_wire (ac_socket a)) (sock_read (ac_socket a)) (StActive a, w).
Proof. intros Hw (v & ps & Hse & Hst & Hj & Hd). exists v. split; [done |]. split_and!; [done.. | by exists ps | done]. Qed.

Lemma keeps_in_step a w wire read v :
  keeps d hs wire read v (StActive a, w) -> joined v y -> writable (ac_socket a) /\ in_step y d hs (a, w).
Proof. intros (_ & Hw & Hse & [ps Hst] & Hd) Hj. split; [done |]. by exists v, ps. Qed.

(** ** Connections that are gone *)

(** The connection has no socket any more, and the memory is [m]. *)
Definition ended (m : Mem) (s : KS) : Prop :=
  match s.1 with StCleanup _ | StClosed => True | _ => False end /\ mem s.2 = m.

Lemma ended_keeps v wire read m s :
  joined v y -> ended m s -> settled d v hs (cells m) -> wire = wires (vw_sent v) -> has_read v read -> kept_joined hs wire read s.
Proof.
  intros Hj [Hs <-] Hst -> Hr. exists v. split; [done |]. unfold keeps. destruct (s.1); try done.
  split_and!; [rewrite wires_app; by apply prefix_app_r | done | done |]. by intros ?%not_farewell.
Qed.

(** What the iteration of a method makes of a connection that is gone, or that closes; [got] are the
    streams that the method hands out. *)
Record method {A} (fuel : nat) (cx : Waker) (iter : M KS (option (poll A))) (got : poll A -> list Stream) : Prop := {
  me_cleanup : forall u w, post iter (fun o s' => exists r u' w', run_cleanup fuel cx u w = Ret (r, u', w') /\
    ended (mem w') s' /\ forall x, o = Some x -> got x = []) (StCleanup u, w);
  me_closed : forall w, exists x, iter (StClosed, w) = Ret (Some x, (StClosed, w)) /\ got x = [];
  me_closing : forall c w, post iter (fun o s' => exists r c' w',
    run_closing fuel cx c w = Ret (r, c', w') /\
    s' = (match r with Pending => StClosing c' | Ready _ => StClosed end, w') /\
    (r = Pending -> o <> None) /\ forall x, o = Some x -> got x = []) (StClosing c, w);
}.

Definition got_outbound (r : poll (result Stream ConnectionError)) : list Stream :=
  match r with Ready (Ok st) => [st] | _ => [] end.
Definition got_inbound (r : poll (option (result Stream ConnectionError))) : list Stream :=
  match r with Ready (Some (Ok st)) => [st] | _ => [] end.

Lemma run_cleanup_mem fuel cx u w r u' w' : run_cleanup fuel cx u w = Ret (r, u', w') -> mem w' = mem w.
Proof. unfold run_cleanup. intros He. destruct (cleanup_poll _ _ _) as [[p [u1 n]]| |]; [| done..]. by injection He as _ _ <-. Qed.

(** By cases of what the future that is polled returns. *)
Ltac by_future :=
  intros; unfold post; simpl;
  match goal with |- context [match ?e ≫= _ with _ => _ end] =>
    let r := fresh "r" in destruct e as [[[r ?] ?]| |]; [| done..]; simpl; destruct r as [r|]; try destruct r
  end;
  simpl; do 3 eexists; (split; [reflexivity |]); (split; [done |]); first [split; [done |] | idtac]; by intros ? [= <-].

Lemma new_outbound_method fuel cx : method fuel cx (new_outbound_iter fuel cx) got_outbound.
Proof. split; [by_future | intros w; eexists; split; [reflexivity | done] | by_future]. Qed.

Lemma next_inbound_method fuel cx : method fuel cx (next_inbound_iter fuel cx) got_inbound.
Proof. split; [by_future | intros w; eexists; split; [reflexivity | done] | by_future]. Qed.

Lemma close_method fuel cx : method fuel cx (close_iter fuel cx) (fun _ => []).
Proof. split; [by_future | intros w; eexists; split; [reflexivity | done] | by_future]. Qed.

(** ** The loops *)

Lemma closed_loop {A} fuel cx (iter : M KS (option (poll A))) got f w r s' :
  method fuel cx iter got -> loop iter f (StClosed, w) = Ret (r, s') -> s' = (StClosed, w) /\ got r = [].
Proof.
  intros Hm He. apply loop_first in He as (o & s1 & Hi & Ho). destruct (me_closed _ _ _ _ Hm w) as (x & Hx & Hg).
  rewrite Hx in Hi. injection Hi as <- <-. by destruct Ho as [-> <-].
Qed.

Lemma ended_loop {A} fuel cx (iter : M KS (option (poll A))) got m f s r s' :
  method fuel cx iter got -> ended m s -> loop iter f s = Ret (r, s') -> ended m s' /\ got r = [].
Proof.
  intros Hm Hs He. pose proof (post_loop iter (ended m) (fun r s' => ended m s' /\ got r = []) f s) as Hp.
  unfold post at 2 in Hp. rewrite He in Hp. apply Hp; [| done]. intros [[a | c | u | |] w] [Hs1 <-]; try done.
  - eapply post_mono; [by apply (me_cleanup _ _ _ _ Hm) |]. intros o s2 (x & u' & w' & Hc & Hs2 & Ho).
    apply run_cleanup_mem in Hc. simpl in *. rewrite Hc in Hs2. destruct o as [b|]; [| done]. split; [done | by apply Ho].
  - destruct (me_closed _ _ _ _ Hm w) as (x & Hx & Hg). unfold post. by rewrite Hx.
Qed.

Lemma run_closing_at W v fuel cx c w r c' w' :
  closing_ok W c (net w) -> closing_at y hs v c (net w) -> run_closing fuel cx c w = Ret (r, c', w') ->
  closing_left y hs v r c' (net w') /\ mem w' = mem w.
Proof.
  intros Hok Hc He. unfold run_closing in He. pose proof (closing_poll_at y hs W v fuel cx c (net w) Hok Hc) as Hp. unfold post in Hp.
  destruct (closing_poll fuel cx (c, net w)) as [[p [c1 n1]]| |]; [| done..]. injection He as <- <- <-. done.
Qed.

Lemma closing_loop {A} fuel cx (iter : M KS (option (poll A))) got W v f c w r s' :
  method fuel cx iter got -> closing_ok W c (net w) -> closing_at y hs v c (net w) -> settled d v hs (cells (mem w)) ->
  (forall id, (d id).1 = wrote_at v id) -> loop iter f (StClosing c, w) = Ret (r, s') ->
  got r = [] /\ exists x, closing_socket fuel cx c w = Some x /\ kept_joined hs (sock_wire x) (sock_read x) s'.
Proof.
  intros Hm Hok Hc Hst Hd He. apply loop_first in He as (o & s1 & Hi & Ho).
  pose proof (me_closing _ _ _ _ Hm c w) as Hp. unfold post in Hp. rewrite Hi in Hp. destruct Hp as (p & c' & w' & Hr & -> & Hn & Hgot).
  destruct (run_closing_at _ _ _ _ _ _ _ _ _ Hok Hc Hr) as [(v' & Hj & Hal & Hrd & He & Hsh & Hl) Hmem]. rewrite <- Hmem in Hst.
  pose proof (settled_alike _ _ _ _ _ Hst Hal) as Hst'. unfold closing_socket. rewrite Hr.
  assert (Hse : sealed d v' hs (net w')).
  { split; [| done]. intros id. rewrite Hd. symmetry. by apply alike_at. }
  destruct p as [p|].
  - assert (Hend : s' = (StClosed, w') /\ got r = []).
    { destruct o as [b|]; [destruct Ho as [-> <-]; split; [done | by apply Hgot] |]. destruct Ho as [f' Ho]. by eapply closed_loop. }
    destruct Hend as [-> ->]. split; [done |]. eexists. split; [reflexivity |]. exists v'. split; [done |].
    split_and!; [done | by left | done | done].
  - destruct o as [b|]; [| by destruct (Hn eq_refl)]. destruct Ho as [-> <-]. split; [by apply Hgot |].
    eexists. split; [reflexivity |]. by exists v'.
Qed.

(** What the iteration of a method makes of an active connection, which it polls with [m]. *)
Definition polled {A} (got : poll A -> list Stream) (m : M AS PollResult) (iter : M KS (option (poll A))) : Prop :=
  forall a w, post iter (fun o s' => exists r a1 w1, m (a, w) = Ret (r, (a1, w1)) /\
    match r with
    | Ready (Err e) => o = None /\ to_cleanup e (a1, w1) = Ret s'
    | Ready (Ok st) => s' = (StActive a1, w1) /\ exists x, o = Some x /\ got x = [st]
    | Pending => s' = (StActive a1, w1) /\ exists x, o = Some x /\ got x = []
    end) (StActive a, w).

Ltac by_poll :=
  intros a w; unfold post; simpl;
  match goal with |- context [match ?e ≫= _ with _ => _ end] =>
    let r := fresh "r" in destruct e as [[r [? ?]]| |]; [| done..]; simpl; destruct r as [[?|?]|]
  end; simpl;
  [ do 3 eexists; split; [reflexivity |]; split; [done |]; by eexists
  | match goal with |- context [to_cleanup ?e ?s] => destruct (to_cleanup e s) eqn:?; [| done..] end; simpl;
    do 3 eexists; split; [reflexivity | by split]
  | do 3 eexists; split; [reflexivity |]; split; [done |]; by eexists ].

Lemma new_outbound_polled fuel cx : polled got_outbound (active_poll_new_outbound cx) (new_outbound_iter fuel cx).
Proof. by_poll. Qed.

Lemma next_inbound_polled fuel cx : polled got_inbound (active_poll fuel cx) (next_inbound_iter fuel cx).
Proof. by_poll. Qed.

Lemma polled_loop {A} fuel cx (iter : M KS (option (poll A))) got m f a w r s' p a1 w1 :
  method fuel cx iter got -> polled got m iter -> loop iter f (StActive a, w) = Ret (r, s') ->
  m (a, w) = Ret (p, (a1, w1)) -> poll_sound cfg y d hs p (a1, w1) -> causal y (a1, w1) ->
  ((exists e, p = Ready (Err e)) -> conn_ok cfg (handle_refs hs) a1 w1) ->
  kept_joined (got r ++ hs) (sock_wire (ac_socket a1)) (sock_read (ac_socket a1)) s'.
Proof.
  intros Hm Hpo He Hr Hs Hca Hok. apply loop_first in He as (o & s1 & Hi & Ho).
  specialize (Hpo a w). unfold post in Hpo. rewrite Hi in Hpo. destruct Hpo as (p0 & a0 & w0 & Hr0 & Hp).
  rewrite Hr in Hr0. injection Hr0 as -> -> ->. destruct p0 as [[st|e]|].
  - destruct Hp as (-> & x & -> & Hx). destruct Ho as [-> <-]. rewrite Hx. destruct Hs as [Hw Hs]. apply in_step_keeps; [done | by apply Hs].
  - destruct Hp as [-> Hcl]. destruct Ho as [f' Ho].
    pose proof (to_cleanup_step cfg y hs d a0 w0 e (Hok (ex_intro _ e eq_refl)) (Hs Hca)) as Hto. rewrite Hcl in Hto.
    destruct s1 as [st2 w2]. destruct Hto as ([u ->] & v & Hj & Hst & Hw & Hrd).
    destruct (ended_loop _ _ _ _ (mem w2) _ (StCleanup u, w2) _ _ Hm (conj I eq_refl) Ho) as [Hend ->].
    by eapply ended_keeps.
  - destruct Hp as (-> & x & -> & Hx). destruct Ho as [-> <-]. rewrite Hx. destruct Hs as [Hw Hs]. apply in_step_keeps; [done | by apply Hs].
Qed.

(** ** The methods *)

(** A connection that is not active. *)
Lemma method_rest {A} fuel cx (iter : M KS (option (poll A))) got op s r s' wire read v :
  method fuel cx iter got -> state_ok cfg (handle_refs hs) s.1 s.2 -> keeps d hs wire read v s -> joined v y ->
  inactive s.1 -> loop iter fuel s = Ret (r, s') ->
  after_socket (kept_joined (got r ++ hs)) wire read (last_socket fuel cx op s) s'.
Proof.
  intros Hm Hok Hk Hj Hna Hl. unfold after_socket. destruct s as [[a | c | u | |] w]; simpl in *; [done | | | | done].
  - destruct Hok as [_ [W Hc]], Hk as ((-> & -> & Hrd & Hf) & Hst & Hd & He & Hsh).
    destruct (closing_loop _ _ _ _ _ _ _ _ _ _ _ Hm Hc (flushes_at _ _ _ _ _ Hj Hf Hrd He Hsh) Hst Hd Hl) as [-> (x & -> & Hkj)]. done.
  - destruct Hk as (Hw & Hrd & Hst). destruct (ended_loop _ _ _ _ (mem w) _ (StCleanup u, w) _ _ Hm (conj I eq_refl) Hl) as [Hend ->].
    by eapply ended_keeps.
  - destruct (closed_loop _ _ _ _ _ _ _ _ Hm Hl) as [-> ->]. by exists v.
Qed.

Lemma loop_polled {A} (iter : M KS (option (poll A))) got m f a w r s' :
  polled got m iter -> loop iter f (StActive a, w) = Ret (r, s') -> exists p a1 w1, m (a, w) = Ret (p, (a1, w1)).
Proof.
  intros Hpo He. apply loop_first in He as (o & s1 & Hi & _). specialize (Hpo a w). unfold post in Hpo. rewrite Hi in Hpo.
  destruct Hpo as (p & a1 & w1 & Hr & _). by exists p, a1, w1.
Qed.

(** Closing an active connection. *)
Lemma close_active fuel cx a w r s' :
  conn_ok cfg (handle_refs hs) a w -> in_step y d hs (a, w) -> loop (close_iter fuel cx) fuel (StActive a, w) = Ret (r, s') ->
  exists x, last_socket fuel cx CClose (StActive a, w) = Some x /\ kept_joined hs (sock_wire x) (sock_read x) s'.
Proof.
  intros Hok Hs He. apply loop_first in He as (o & s1 & Hi & Ho).
  destruct (wp_returns _ _ _ (active_close_step cfg y hs d a w Hok Hs)) as (c & [a' w'] & Hc & v & W & Hcl & Hat & Hst & Hd).
  simpl in Hi |- *. rewrite Hc in Hi |- *. simpl in Hi. injection Hi as <- <-. destruct Ho as [f Ho].
  by destruct (closing_loop _ _ _ _ _ _ _ _ _ _ _ (close_method fuel cx) Hcl Hat Hst Hd Ho) as [_ Hx].
Qed.

(** Any method, in any state. *)
Lemma conn_step fuel cx op s new s' wire read v :
  state_ok cfg (handle_refs hs) s.1 s.2 -> keeps d hs wire read v s -> joined v y ->
  (forall a, s.1 = StActive a -> roomy cfg (a, s.2)) -> run_conn fuel cx op s = Ret (new, s') ->
  (forall x, last_socket fuel cx op s = Some x -> sock_read x `prefix_of` wires (vw_sent y ++ [farewell])) ->
  after_socket (kept_joined (new ++ hs)) wire read (last_socket fuel cx op s) s'.
Proof.
  intros Hok Hk Hj Hroom He Hread. destruct op; simpl in He.
  - destruct (conn_poll_new_outbound fuel cx s) as [[r s1]| |] eqn:Hl; [| done..]. injection He as <- <-.
    destruct s as [[a | c | u | |] w]; try (by apply (method_rest fuel cx _ _ _ _ _ _ _ _ _ (new_outbound_method fuel cx) Hok Hk Hj)).
    destruct (keeps_in_step _ _ _ _ _ Hk Hj) as [Hw Hs]. simpl in Hok.
    destruct (loop_polled _ _ _ _ _ _ _ _ (new_outbound_polled fuel cx) Hl) as (p & a1 & w1 & Hp).
    pose proof (new_outbound_step cfg y d hs cx (a, w) Hok (conj Hw (fun _ => conj Hs (Hroom a eq_refl)))) as Hsd.
    unfold post in Hsd. rewrite Hp in Hsd.
    pose proof (active_poll_new_outbound_ok cfg (handle_refs hs) a w cx Hok) as Hno. unfold wp in Hno. rewrite Hp in Hno.
    simpl in Hread |- *. rewrite Hp in Hread |- *.
    apply (polled_loop fuel cx _ got_outbound _ _ _ _ _ _ _ _ _ (new_outbound_method fuel cx) (new_outbound_polled fuel cx) Hl Hp Hsd);
      [by apply Hread |]. intros [e ->].
    destruct (_ <=? _) in Hno; [by destruct Hno as (_ & -> & ->) |]. destruct (_ <=? _) in Hno; [by destruct Hno as [? _] |].
    destruct (_ <? _) in Hno; [by destruct Hno as (_ & -> & ->) |]. by destruct Hno as (st & ? & _).
  - destruct (conn_poll_next_inbound fuel cx s) as [[r s1]| |] eqn:Hl; [| done..]. injection He as <- <-.
    destruct s as [[a | c | u | |] w]; try (by apply (method_rest fuel cx _ _ _ _ _ _ _ _ _ (next_inbound_method fuel cx) Hok Hk Hj)).
    destruct (keeps_in_step _ _ _ _ _ Hk Hj) as [Hw Hs]. simpl in Hok.
    destruct (loop_polled _ _ _ _ _ _ _ _ (next_inbound_polled fuel cx) Hl) as (p & a1 & w1 & Hp).
    pose proof (active_poll_step usize_wide cfg y d hs fuel cx (a, w) Hok (conj Hw (fun _ => conj Hs (Hroom a eq_refl)))) as Hsd.
    unfold post in Hsd. rewrite Hp in Hsd.
    pose proof (active_poll_safe usize_wide cfg (handle_refs hs) fuel a w cx Hok) as Hno. unfold safe in Hno. rewrite Hp in Hno.
    simpl in Hread |- *. rewrite Hp in Hread |- *.
    apply (polled_loop fuel cx _ got_inbound _ _ _ _ _ _ _ _ _ (next_inbound_method fuel cx) (next_inbound_polled fuel cx) Hl Hp Hsd);
      [by apply Hread |]. by intros [e ->].
  - destruct (conn_poll_close fuel cx s) as [[r s1]| |] eqn:Hl; [| done..]. injection He as <- <-.
    destruct s as [[a | c | u | |] w]; try (by apply (method_rest fuel cx _ (fun _ => []) CClose _ r s1 _ _ _ (close_method fuel cx) Hok Hk Hj)).
    destruct (keeps_in_step _ _ _ _ _ Hk Hj) as [Hw Hs].
    by destruct (close_active fuel cx a w r s1 Hok Hs Hl) as (x & -> & Hx).
Qed.
End methods.
End side.
