(* ===== verification/Peers.v ===== *)
(** * Two connections and their programs

    A client and a server, each a connection with the programs that hold its stream handles, joined by a
    pair of byte streams. A step is any operation of a handle of either side, or any method of its
    connection, which may close, fail or be dropped while handles are left; what its socket has read
    up to then is part of what the socket of the other side has been given. *)
From Stdlib Require Import ZArith Lia Strings.Byte.
From stdpp Require Import base option list gmap relations numbers.
From S2P Require Import Prelude.
From S2P Require Import Header.
From S2P Require Import Frame.
From S2P Require Import Config.
From S2P Require Import Command.
From S2P Require Import Rtt.
From S2P Require Import ChunkList.
From S2P Require Import FlowControl.
From S2P Require Import Shared.
From S2P Require Import Heap.
From S2P Require Import Channel.
From S2P Require Import TaggedStream.
From S2P Require Import StreamHandle.
From S2P Require Import StreamSpec.
From S2P Require Import StreamWrite.
From S2P Require Import Link.
From S2P Require Import FrameIo.
From S2P Require Import FrameIoSpec.
From S2P Require Import Connection.
From S2P Require Import ConnInvariant.
From S2P Require Import ConnSteps.
From S2P Require Import ConnHandlers.
From S2P Require Import ConnLoop.
From S2P Require Import Closing.
From S2P Require Import ClosingSpec.
From S2P Require Import ConnectionState.
From S2P Require Import ConnStateSpec.
From S2P Require Import LinkRefine.
From S2P Require Import Joined.
From S2P Require Import Forward.
From S2P Require Import Transport.
From S2P Require Import PeerStore.
From S2P Require Import System.
From S2P Require Import PeerSteps.
From S2P Require Import PeerFrames.
From S2P Require Import Parting.
From S2P Require Import PeerMethods.

Section side.
Context `{Arch, Mpsc, SelectAllOps, FrameSocket, MapOrder}.
Context `{!MpscLaws, !SelectAllLaws, !FrameSocketLaws, !FrameSocketWire}.
Context `{!FifoLaws, !ChannelLaws, !SelectAllTrace, !SelectAllMembers, !FrameSocketReads}.
Context `{!ReadySenders, EqDecision Receiver}.
Hypothesis usize_wide : u32_max + u32_max <= usize_max.
Variable cfg : Config.

(** ** Handles *)

(** A run of an end, in the view. *)
Lemma joined_runs x y id e q fs e' :
  joined x y -> vw_streams x !! id = Some (e, q) -> runs id e fs e' ->
  joined (with_streams (<[id := (e', q ++ fs)]> (vw_streams x)) x) y.
Proof.
  intros Hj Hx Hr. revert x q Hj Hx. induction Hr as [e | e o e1 fs e2 Ha _ IH]; intros x q Hj Hx.
  - rewrite app_nil_r, insert_id by done. by destruct x.
  - specialize (IH _ (q ++ option_list o) (joined_acts _ _ _ _ _ _ _ Hj Hx Ha) (lookup_insert_eq _ _ _)).
    unfold with_streams in *. simpl in *. by rewrite insert_insert_eq, <- app_assoc in IH.
Qed.

(** An operation of a handle. *)
Lemma handle_step y t hs a w i h cx op b b' h' w' :
  conn_ok cfg (handle_refs hs) a w -> in_step y (deeds_of t) hs (a, w) -> hs !! i = Some h -> handle_wf cfg h ->
  op_fits op -> run_handle cx op (h, w) = Ret ((b, b'), (h', w')) ->
  in_step y (deeds_of (t ++ [mkDeed (st_id h) b b'])) (<[i := h']> hs) (a, w').
Proof.
  intros Hok (v & ps & Hse & Hst & Hj & Hd) Hi [Hid Hcf] Hop He.
  assert (Hin : h ∈ hs) by (by eapply list_elem_of_lookup_2).
  destruct (sd_handle _ _ _ _ _ _ _ Hst _ Hin) as (x & q & r & A1 & A2 & A3 & A4 & A5 & A6 & A7 & k & A8).
  assert (Hh : handle_ok cfg h w (en_sh x)) by (split; [apply Hok |]; split; [done |]; split; [done |]; by exists k).
  pose proof (run_handle_does cfg cx op h w _ Hh Hop) as Hdo. unfold wp in Hdo. rewrite He in Hdo.
  pose proof (run_handle_ok cfg cx op h w _ Hh Hop) as Hrel. unfold wp in Hrel. rewrite He in Hrel.
  destruct Hrel as [Hs' _ Hrel Hrtt _]. destruct Hdo as (sh' & cmds & (_ & _ & _ & k' & Hc') & Hem & Hrun).
  specialize (Hrun (en_status x) (en_wrote x) (en_took x)).
  destruct (sd_strand _ _ _ _ _ _ _ Hst _ _ _ A1) as (l1 & r1 & B1 & B2 & B3 & _).
  rewrite A2 in B1. injection B1 as <- <-.
  pose proof (emits_queue (own_sender h) r _ _ _ Hem ltac:(by intros ? [-> | ->])) as Hq.
  destruct (Hq r B2) as (_ & _ & Hqr & _). specialize (Hqr eq_refl). simpl in *.
  assert (Ex : mkEnd (en_sh x) (en_status x) (st_flag h) (en_wrote x) (en_took x) = x) by (rewrite <- A3; by destruct x).
  rewrite Ex in Hrun. set (x' := mkEnd sh' (en_status x) (st_flag h') (en_wrote x ++ b) (en_took x ++ b')) in *.
  assert (Eq : q ++ map (command_frame (st_id h)) cmds = map (command_frame (st_id h)) (queue r (net w')))
    by (by rewrite Hqr, map_app, <- B3).
  pose proof (joined_runs _ _ _ _ _ _ _ Hj A1 Hrun) as Hj'. rewrite Eq in Hj'.
  exists (with_streams (<[st_id h := (x', map (command_frame (st_id h)) (queue r (net w')))]> (vw_streams v)) v), ps.
  assert (Hsame : st_id h' = st_id h /\ st_shared h' = st_shared h /\ st_sender h' = st_sender h /\
    st_window_update_sender h' = st_window_update_sender h) by (by destruct Hs' as [-> | ->]).
  destruct Hsame as (E1 & E2 & E3 & E4). split_and!; [| | split; [done |]].
  - destruct Hse. split; simpl in *; by rewrite ?Hrtt.
  - unfold stored_in in *. simpl in *. eapply (stored_handle hs _ ps _ _ _ _ i h h' x q r x'); try done.
    + intros l Hl. apply (mr_other _ _ _ Hrel). congruence.
    + rewrite <- E2. by exists k'.
    + intros r' Hr'. destruct (Hq r' Hr') as (K & L & _ & Q). by split_and!.
  - intros j. rewrite deeds_of_app. specialize (Hd j). injection Hd as D1 D2. rewrite <- D1, <- D2.
    unfold accepted_by at 1, delivered_by at 1, wrote_at, took_at. rewrite filter_cons. simpl.
    destruct (decide (st_id h = j)) as [<- | Hne].
    + rewrite lookup_insert_eq, A1. simpl. by rewrite !app_nil_r.
    + rewrite lookup_insert_ne by done. simpl. by rewrite !app_nil_r.
Qed.

(** A handle is dropped. *)
Lemma drop_handle_step y d hs a w i h w' :
  conn_ok cfg (handle_refs hs) a w -> conn_ok cfg (handle_refs (delete i hs)) a w' -> in_step y d hs (a, w) ->
  hs !! i = Some h -> stream_drop h w = Ret (tt, w') -> in_step y d (delete i hs) (a, w').
Proof.
  intros Hok Hok' (v & ps & Hse & Hst & Hf) Hi He. assert (Hin : h ∈ hs) by (by eapply list_elem_of_lookup_2).
  destruct (sd_handle _ _ _ _ _ _ _ Hst _ Hin) as (x & q & r & A1 & A2 & A3 & A4 & A5 & A6 & A7 & k & A8).
  assert (Hr : refs_ok (add_ref (st_shared h) (conn_refs a (handle_refs (delete i hs)))) (mem w)).
  { eapply refs_ok_proper; [| done | exact (co_refs _ _ _ _ Hok)].
    intros l. unfold conn_refs, add_ref. rewrite (handle_refs_delete _ _ _ l Hi). unfold add_ref. case_decide; lia. }
  destruct (stream_drop_ok cfg _ h w (co_mem _ _ _ _ Hok) Hr) as (m' & He' & _ & _ & [M1 M2 _ M4 _]).
  rewrite He in He'. injection He' as ->. exists v, ps. split_and!; [| | done].
  - destruct Hse. split; simpl in *; by rewrite ?M4.
  - unfold stored_in in *. simpl in *. eapply (stored_drop hs _ ps _ _ _ _ i h r); try done.
    + intros l Hl. by apply M1.
    + intros Hm. destruct (conn_live _ _ _ _ _ _ Hok' Hm) as [c Hc]. by exists c.
    + intros r' Hr'. destruct (fifo_drop_law (st_sender h) (net w) r' Hr') as [K1 Q1].
      destruct (fifo_drop_law (st_window_update_sender h) _ r' K1) as [K2 Q2].
      split_and!; [done | congruence |]. intros Hne.
      destruct (channel_drop_law (st_sender h) (net w)) as [_ L1].
      destruct (channel_drop_law (st_window_update_sender h) (sender_drop (st_sender h) (net w))) as [_ L2].
      rewrite L2, L1; congruence.
Qed.
End side.

(** ** Both sides *)

Section peers.
Context `{Arch, Mpsc, SelectAllOps, FrameSocket, MapOrder}.
Context `{!MpscLaws, !SelectAllLaws, !FrameSocketLaws, !FrameSocketWire}.
Context `{!FifoLaws, !ChannelLaws, !SelectAllTrace, !SelectAllMembers, !FrameSocketReads}.

(** A side: the system, what its programs have done so far, and the bytes that its socket has been
    given, and those it has delivered, as long as it was there. *)
Record Side : Type := mkSide {
  sd_sys : Sys;
  sd_trace : list Deed;
  sd_wire : list byte;
  sd_read : list byte;
}.

Record Peers : Type := mkPeers {
  pr_client : Side;
  pr_server : Side;
}.

Definition side (m : Mode) (p : Peers) : Side := match m with Client => pr_client p | Server => pr_server p end.
Definition with_side (m : Mode) (x : Side) (p : Peers) : Peers :=
  match m with Client => mkPeers x (pr_server p) | Server => mkPeers (pr_client p) x end.

(** What one side can do when the bytes [arrived] may have arrived: an operation of a handle, dropping a
    handle; a method of the connection, which when it is active has room for another stream; dropping
    the connection. *)
Inductive side_step (cfg : Config) (arrived : list byte) : Side -> Side -> Prop :=
| side_handle cx op i h h' st w w' hs b b' t o u :
    hs !! i = Some h -> op_fits op -> run_handle cx op (h, w) = Ret ((b, b'), (h', w')) ->
    side_step cfg arrived (mkSide (mkSys st w hs) t o u)
      (mkSide (mkSys st w' (<[i := h']> hs)) (t ++ [mkDeed (st_id h) b b']) o u)
| side_drop i h st w w' hs t o u :
    hs !! i = Some h -> stream_drop h w = Ret (tt, w') ->
    side_step cfg arrived (mkSide (mkSys st w hs) t o u) (mkSide (mkSys st w' (delete i hs)) t o u)
| side_conn fuel cx op st st' w w' hs new t o u :
    (forall a, st = StActive a -> roomy cfg (a, w)) ->
    run_conn fuel cx op (st, w) = Ret (new, (st', w')) ->
    (forall s, last_socket fuel cx op (st, w) = Some s -> sock_read s `prefix_of` arrived) ->
    side_step cfg arrived (mkSide (mkSys st w hs) t o u)
      (after_socket (mkSide (mkSys st' w' (new ++ hs)) t) o u (last_socket fuel cx op (st, w)))
| side_abandon st w w' hs t o u :
    conn_drop (st, w) = Ret w' ->
    side_step cfg arrived (mkSide (mkSys st w hs) t o u) (mkSide (mkSys StClosed w' hs) t o u).

Variable cfg : Mode -> Config.

(** One side does something; the bytes that have arrived are among those that the peer has sent. *)
Inductive peer_step (p : Peers) : Peers -> Prop :=
| peer_moves m x : side_step (cfg m) (sd_wire (side (peer m) p)) (side m p) x -> peer_step p (with_side m x p).

(** Two new connections. *)
Definition peers_new (socket : Mode -> FSock) (clk : Mode -> nat -> Instant) (n : Mode -> Net) : Peers :=
  let new m := mkSide (sys_new (socket m) (cfg m) m (clk m) (n m)) [] [] [] in mkPeers (new Client) (new Server).

(** ** The invariant *)

(** What a side is to the outside. *)
Record seen_as (m : Mode) (v : View) (x : Side) : Prop := {
  sa_ok : sys_ok (cfg m) (sd_sys x);
  sa_keeps : keeps (deeds_of (sd_trace x)) (sy_handles (sd_sys x)) (sd_wire x) (sd_read x) v (sy_state (sd_sys x), sy_world (sd_sys x));
}.

Definition peers_ok (p : Peers) : Prop :=
  exists v : Mode -> View, (forall m, joined (v m) (v (peer m))) /\ forall m, seen_as m (v m) (side m p).

Lemma peers_new_ok socket clk n :
  (forall m, config_ok (cfg m)) -> (forall m i, instant_ok (clk m i)) -> (forall m, net_ok (n m)) ->
  (forall m, sock_ok (socket m) /\ writable (socket m) /\ sock_wire (socket m) = [] /\ sock_read (socket m) = []) ->
  peers_ok (peers_new socket clk n).
Proof.
  intros Hc Hk Hn Hs. exists view_new. split; [intros m; apply joined_new |]. intros m.
  destruct (Hs m) as (Hok & Hw & Hwire & Hread).
  assert (Hside : side m (peers_new socket clk n) = mkSide (sys_new (socket m) (cfg m) m (clk m) (n m)) [] [] []) by (by destruct m).
  rewrite Hside. split; [by apply sys_new_ok |]. simpl. split_and!; [by symmetry | by symmetry | done | | exists ∅; apply stored_empty | by intros id].
  split; simpl; by rewrite ?Hwire, ?Hread.
Qed.

(** What a side has sent is what its view has sent, and perhaps the farewell. *)
Lemma seen_wire m v x : seen_as m v x -> sd_wire x `prefix_of` wires (vw_sent v ++ [farewell]).
Proof.
  intros [_ Hk]. unfold keeps in Hk. simpl in Hk. destruct (sy_state (sd_sys x)) as [a | c | u | |]; [| | | | done].
  - destruct Hk as ([-> _] & _ & Hse & _). rewrite (se_sent _ _ Hse : sock_wire (ac_socket a) = _), wires_app. by apply prefix_app_r.
  - destruct Hk as ((-> & _ & _ & Hf) & _). by apply flushes_sent.
  - destruct Hk as [-> _]. rewrite wires_app. by apply prefix_app_r.
  - apply Hk.
Qed.

(** What it has read is what its view has got, and perhaps the farewell of the peer. *)
Lemma seen_read m v x : seen_as m v x -> has_read v (sd_read x).
Proof.
  intros [_ Hk]. unfold keeps in Hk. simpl in Hk. destruct (sy_state (sd_sys x)) as [a | c | u | |]; [| | apply Hk | apply Hk | done].
  - destruct Hk as ([_ ->] & _ & Hse & _). left. apply Hse.
  - destruct Hk as ((_ & _ & -> & _) & _). by left.
Qed.

(** What a side has been given to send ends with the farewell of its connection. *)
Definition farewelled (x : Side) : Prop := exists fs, Forall frame_wf fs /\ sd_wire x = wires (fs ++ [farewell]).

(** Then everything that its programs have written has been sent. *)
Lemma farewelled_sealed m v y x : seen_as m v x -> joined v y -> farewelled x ->
  sd_wire x = wires (vw_sent v ++ [farewell]) /\
  sealed (deeds_of (sd_trace x)) v (sy_handles (sd_sys x)) (net (sy_world (sd_sys x))).
Proof.
  intros Hs (fx & fy & [_ [_ Hc _ _ _] _ _]) (fs & Hfs & E). pose proof (seen_wire _ _ _ Hs) as Hw. rewrite E in Hw |- *.
  pose proof (wires_farewell _ _ Hfs Hc Hw) as ->. split; [done |].
  destruct Hs as [_ Hk]. unfold keeps in Hk. simpl in Hk. destruct (sy_state (sd_sys x)) as [a | c | u | |]; [| apply Hk | | | done].
  - destruct Hk as ([E' _] & _ & Hse & _). rewrite E' in E. rewrite (se_sent _ _ Hse : sock_wire (ac_socket a) = _) in E.
    by destruct (not_farewell _ E).
  - destruct Hk as [E' _]. rewrite E' in E. by destruct (not_farewell _ E).
  - destruct Hk as (_ & _ & Hse). by apply Hse.
Qed.

(** When all that a side has sent has been read, its view and that of its peer have nothing on the way. *)
Lemma all_read x y fx fy bytes :
  half x y fx fy -> has_read y bytes -> bytes = wires (vw_sent x) \/ bytes = wires (vw_sent x ++ [farewell]) -> fx = [].
Proof.
  intros Hh Hr Hb. pose proof (half_way _ _ _ _ Hh) as Hc. destruct Hh as [Hw _ _ _ _]. rewrite Hw in Hb.
  destruct fx as [|f fx]; [done |]. exfalso. apply Forall_cons_1 in Hc as [[Hf Hcf] _].
  assert (Hlong : forall gs, wires (vw_got y) <> wires ((vw_got y ++ f :: fx) ++ gs)).
  { intros gs E. rewrite <- app_assoc, wires_app in E. rewrite <- (app_nil_r (wires (vw_got y))) in E at 1.
    apply app_inv_head in E. symmetry in E. by apply wires_nil in E. }
  assert (Hfare : forall gs, wires (vw_got y ++ [farewell]) <> wires ((vw_got y ++ f :: fx) ++ gs)).
  { intros gs E. rewrite <- app_assoc, !wires_app in E. apply app_inv_head in E. rewrite wires_one, wires_cons, <- app_assoc in E.
    rewrite <- (app_nil_r (frame_wire farewell)) in E. apply (farewell_last _ Hcf).
    by eapply frame_wire_inj; [| apply farewell_wf | symmetry; exact E]. }
  rewrite <- (app_nil_r (vw_got y ++ f :: fx)) in Hb at 1.
  destruct Hr as [E | E]; destruct Hb as [E' | E']; rewrite E in E'; first [by apply Hlong in E' | by apply Hfare in E'].
Qed.

(** A handle, in the view. *)
Lemma seen_handle m v x i h c :
  seen_as m v x -> sy_handles (sd_sys x) !! i = Some h -> cells (mem (sy_world (sd_sys x))) !! st_shared h = Some c ->
  exists e q, vw_streams v !! st_id h = Some (e, q) /\ en_status e <> Dropped /\
    en_took e ++ unread (en_sh e) = delivered_by (st_id h) (sd_trace x) ++ unread (contents c).
Proof.
  intros [_ Hk] Hi Hc. assert (Hin : h ∈ sy_handles (sd_sys x)) by (by eapply list_elem_of_lookup_2). unfold keeps in Hk. simpl in Hk.
  assert (Hst : settled (deeds_of (sd_trace x)) v (sy_handles (sd_sys x)) (cells (mem (sy_world (sd_sys x)))) ->
    exists e q, vw_streams v !! st_id h = Some (e, q) /\ en_status e <> Dropped /\
      en_took e ++ unread (en_sh e) = delivered_by (st_id h) (sd_trace x) ++ unread (contents c)).
  { intros Hst. destruct (st_here _ _ _ _ Hst h Hin) as (e & q & He & Hnd). exists e, q. split; [done |]. split; [done |].
    destruct (st_record _ _ _ _ Hst h Hin) as (c' & Hc' & E). rewrite Hc in Hc'. injection Hc' as <-.
    unfold had_at in E. rewrite He in E. by symmetry. }
  destruct (sy_state (sd_sys x)) as [a | cl | u | |]; [| apply Hst, Hk.. | done].
  destruct Hk as (_ & _ & _ & [ps Hs] & Hd). destruct (sd_handle _ _ _ _ _ _ _ Hs _ Hin) as (e & q & r & He & _ & _ & Hnd & _ & _ & _ & k & Hc').
  simpl in Hc'. rewrite Hc in Hc'. injection Hc' as ->. exists e, q. split; [done |]. split; [done |].
  specialize (Hd (st_id h)). unfold took_at in Hd. rewrite He in Hd. by injection Hd as _ <-.
Qed.

(** What the programs of a side have done, against the ends of its view. *)
Lemma seen_deeds m v x id :
  seen_as m v x -> wrote_at v id `prefix_of` accepted_by id (sd_trace x) /\ delivered_by id (sd_trace x) `prefix_of` had_at v id.
Proof.
  intros [_ Hk]. unfold keeps in Hk. simpl in Hk.
  assert (Hst : settled (deeds_of (sd_trace x)) v (sy_handles (sd_sys x)) (cells (mem (sy_world (sd_sys x)))) ->
    wrote_at v id `prefix_of` accepted_by id (sd_trace x) /\ delivered_by id (sd_trace x) `prefix_of` had_at v id).
  { intros Hst. split; [apply (st_wrote _ _ _ _ Hst) | apply (st_took _ _ _ _ Hst)]. }
  destruct (sy_state (sd_sys x)) as [a | c | u | |]; [| apply Hst, Hk.. | done].
  destruct Hk as (_ & _ & _ & _ & Hd). specialize (Hd id). injection Hd as <- <-. split; [done | apply took_had].
Qed.

Context `{!ClosedChannels, !DrainLaws, !ReadySenders, EqDecision Receiver}.
Hypothesis usize_wide : u32_max + u32_max <= usize_max.

Lemma side_step_ok m x x' arrived : sys_ok (cfg m) (sd_sys x) -> side_step (cfg m) arrived x x' -> sys_ok (cfg m) (sd_sys x').
Proof.
  intros Hok Hs.
  assert (Hsys : forall d, sys_does (sd_sys x) d (sd_sys x') -> sys_ok (cfg m) (sd_sys x')).
  { intros d Hd. by destruct (sys_step_ok usize_wide (cfg m) _ _ Hok ltac:(by exists d)). }
  destruct Hs as [| | fuel cx op st st' w w' hs new t o u _ He _ | st w w' hs t o u He].
  - eapply Hsys. by econstructor.
  - eapply Hsys. by eapply does_drop.
  - eapply Hsys. unfold after_socket. destruct (last_socket _ _ _ _); by eapply does_conn.
  - destruct Hok as [Hst Hhs]. split; [| exact Hhs].
    assert (Hmax : 0 <= max_num_streams (cfg m)) by (by destruct (state_ok_config _ _ _ _ Hst) as (_ & [? _] & _)).
    apply (conn_drop_ok (cfg m) Hmax), returns_inv in Hst as (w1 & E & Hd).
    change (conn_drop (st, w) = Ret w1) in E. rewrite He in E. injection E as <-. apply Hd.
Qed.

(** A side whose connection is not active. *)
Lemma rest_moves m v x hs' t' w' :
  seen_as m v x -> inactive (sy_state (sd_sys x)) ->
  (settled (deeds_of (sd_trace x)) v (sy_handles (sd_sys x)) (cells (mem (sy_world (sd_sys x)))) ->
   settled (deeds_of t') v hs' (cells (mem w'))) ->
  (sealed (deeds_of (sd_trace x)) v (sy_handles (sd_sys x)) (net (sy_world (sd_sys x))) ->
   sealed (deeds_of t') v hs' (net w')) ->
  sys_ok (cfg m) (mkSys (sy_state (sd_sys x)) w' hs') ->
  seen_as m v (mkSide (mkSys (sy_state (sd_sys x)) w' hs') t' (sd_wire x) (sd_read x)).
Proof.
  intros [_ Hk] Hna Hst Hse Hok. split; [done |]. simpl. eapply keeps_other; [exact Hk | done | | done]. by eapply Hst, keeps_settled.
Qed.

(** A side whose connection is active. *)
Lemma active_moves m v y x a w' hs' t' :
  seen_as m v x -> joined v y -> sy_state (sd_sys x) = StActive a ->
  (in_step y (deeds_of (sd_trace x)) (sy_handles (sd_sys x)) (a, sy_world (sd_sys x)) -> in_step y (deeds_of t') hs' (a, w')) ->
  sys_ok (cfg m) (mkSys (StActive a) w' hs') ->
  exists v', joined v' y /\ seen_as m v' (mkSide (mkSys (StActive a) w' hs') t' (sd_wire x) (sd_read x)).
Proof.
  intros [_ Hk] Hj Ha Hs Hok. rewrite Ha in Hk. destruct (keeps_in_step y _ _ _ _ _ _ _ Hk Hj) as [Hw Hin].
  destruct (in_step_keeps y _ _ a w' Hw (Hs Hin)) as (v' & Hj' & Hk'). exists v'. split; [done |]. split; [done |]. simpl.
  destruct Hk as ([E1 E2] & _). by rewrite E1, E2.
Qed.

(** A side whose connection is dropped. *)
Lemma side_abandons m v y x w' :
  seen_as m v x -> joined v y -> conn_drop (sy_state (sd_sys x), sy_world (sd_sys x)) = Ret w' ->
  exists v', joined v' y /\ keeps (deeds_of (sd_trace x)) (sy_handles (sd_sys x)) (sd_wire x) (sd_read x) v' (StClosed, w').
Proof.
  destruct x as [[st w hs] t o u]. intros [Hok Hk] Hj He. simpl in *. pose proof (so_state _ _ Hok : state_ok _ _ st w) as Hst.
  destruct (active_or_not st) as [[a ->] | Hna].
  - destruct (keeps_in_step y _ _ _ _ _ _ _ Hk Hj) as [Hw Hin]. destruct Hk as ([-> ->] & _).
    pose proof (conn_drop_step (cfg m) y hs _ a w Hst (in_step_leaving _ _ _ _ Hin)) as Hd.
    apply returns_inv in Hd as (w1 & E & Hd). change (conn_drop (StActive a, w) = Ret w') in He.
    rewrite He in E. injection E as <-. destruct Hd as (v' & Hj' & Hse & Hwire & Hrd).
    by apply (ended_keeps y _ hs v' _ _ (mem w') (StClosed, w')).
  - assert (Ew : w' = w) by (destruct st; [done | by injection He..]). subst w'. exists v. split; [done |].
    unfold keeps in *. simpl in *. destruct st as [a | c | uc | |]; [done | | | done | done].
    + destruct Hk as ((-> & -> & Hr & Hf) & Hs1 & Hs2). split_and!; [by apply flushes_sent | by left | done | done].
    + destruct Hk as (-> & Hr & Hs1). split_and!; [rewrite wires_app; by apply prefix_app_r | done | done | by intros ?%not_farewell].
Qed.

(** What a side does keeps it joined to its peer. *)
Lemma side_moves m v y x x' arrived :
  seen_as m v x -> joined v y -> arrived `prefix_of` wires (vw_sent y ++ [farewell]) -> side_step (cfg m) arrived x x' ->
  exists v', joined v' y /\ seen_as m v' x'.
Proof.
  intros Hseen Hj Harr Hs. pose proof (side_step_ok _ _ _ _ (sa_ok _ _ _ Hseen) Hs) as Hok'.
  pose proof (sa_ok _ _ _ Hseen) as Hok. pose proof (sa_keeps _ _ _ Hseen) as Hk.
  destruct Hs as [cx op i h h' st w w' hs b b' t o u Hi Hop He | i h st w w' hs t o u Hi He
    | fuel cx op st st' w w' hs new t o u Hroom He Hread | st w w' hs t o u He].
  - destruct (active_or_not st) as [[a ->] | Hna].
    + eapply (active_moves m v y (mkSide (mkSys (StActive a) w hs) t o u)); try done. simpl. intros Hin.
      eapply handle_step; [apply (so_state _ _ Hok) | exact Hin | exact Hi | | exact Hop | exact He].
      by eapply (Forall_lookup_1 _ _ _ _ (so_handles _ _ Hok)).
    + exists v. split; [done |]. destruct (sys_handle (cfg m) _ _ _ Hok Hi) as [sh Hh].
      apply (rest_moves m v (mkSide (mkSys st w hs) t o u)); try done; simpl; intros Hst;
        [by eapply (settled_handle (cfg m)) | by eapply (sealed_handle (cfg m))].
  - destruct (active_or_not st) as [[a ->] | Hna].
    + eapply (active_moves m v y (mkSide (mkSys (StActive a) w hs) t o u)); try done. simpl. intros Hin.
      eapply drop_handle_step; [apply (so_state _ _ Hok) | apply (so_state _ _ Hok') | exact Hin | exact Hi | exact He].
    + exists v. split; [done |]. apply (rest_moves m v (mkSide (mkSys st w hs) t o u)); try done; simpl; intros Hst;
        [| by eapply sealed_drop]. eapply settled_drop; [exact Hst | exact Hi |]. intros l Hl. by eapply stream_drop_cells.
  - pose proof (conn_step usize_wide (cfg m) y (deeds_of t) hs fuel cx op (st, w) new (st', w') o u v (so_state _ _ Hok) Hk Hj
      Hroom He (fun s Hs => transitivity (Hread s Hs) Harr)) as Hkj.
    unfold after_socket in *. destruct (last_socket fuel cx op (st, w)); destruct Hkj as (v' & Hj' & Hk'); by exists v'.
  - destruct (side_abandons m v y _ _ Hseen Hj He) as (v' & Hj' & Hk'). by exists v'.
Qed.

Lemma peer_step_ok p p' : peers_ok p -> peer_step p p' -> peers_ok p'.
Proof.
  intros (v & Hj & Hs) [m x Hst].
  destruct (side_moves m (v m) _ _ x _ (Hs m) (Hj m) (seen_wire _ _ _ (Hs (peer m))) Hst) as (v' & Hj' & Hs').
  exists (fun k => if decide (k = m) then v' else v k).
  destruct m; (split; [intros [] | intros []]); simpl; repeat case_decide; try done; by apply joined_sym || apply (Hs Server) || apply (Hs Client).
Qed.

Lemma peers_steps_ok p p' : peers_ok p -> rtc peer_step p p' -> peers_ok p'.
Proof. intros Hp Hr. induction Hr; [done | by eauto using peer_step_ok]. Qed.
End peers.

(** ** Running them *)

Section run.
Context `{Arch, Mpsc, SelectAllOps, FrameSocket, MapOrder}.
Context `{!MpscLaws, !SelectAllLaws, !FrameSocketLaws, !FrameSocketWire, !FifoLaws, !FrameSocketReads}.

(** One operation of a side. *)
Inductive Turn : Set :=
| THandle (i : nat) (op : HandleOp)
| TDrop (i : nat)
| TConn (op : ConnOp)
| TAbandon.

Definition fits_in (op : HandleOp) : bool :=
  match op with HRead buf | HWrite buf => zlen buf <=? usize_max | _ => true end.

Definition roomy_state (cfg : Config) (st : ConnectionState) : bool :=
  match st with StActive a => Z.of_nat (size (ac_streams a)) <? max_num_streams cfg | _ => true end.

Definition side_turn (cfg : Config) (fuel : nat) (cx : Waker) (arrived : list byte) (o : Turn) (x : Side) : option Side :=
  let '(mkSide (mkSys st w hs) t wire read) := x in
  match o with
  | THandle i op =>
      h ← hs !! i;
      if fits_in op then
        match run_handle cx op (h, w) with
        | Ret ((b, b'), (h', w')) => Some (mkSide (mkSys st w' (<[i := h']> hs)) (t ++ [mkDeed (st_id h) b b']) wire read)
        | _ => None
        end
      else None
  | TDrop i =>
      h ← hs !! i;
      match stream_drop h w with
      | Ret (tt, w') => Some (mkSide (mkSys st w' (delete i hs)) t wire read)
      | _ => None
      end
  | TConn op =>
      if roomy_state cfg st then
        match run_conn fuel cx op (st, w) with
        | Ret (new, (st', w')) =>
            match last_socket fuel cx op (st, w) with
            | Some s =>
                if bool_decide (sock_read s `prefix_of` arrived)
                then Some (mkSide (mkSys st' w' (new ++ hs)) t (sock_wire s) (sock_read s)) else None
            | None => Some (mkSide (mkSys st' w' (new ++ hs)) t wire read)
            end
        | _ => None
        end
      else None
  | TAbandon =>
      match conn_drop (st, w) with
      | Ret w' => Some (mkSide (mkSys StClosed w' hs) t wire read)
      | _ => None
      end
  end.

Lemma side_turn_step cfg fuel cx arrived o x x' : side_turn cfg fuel cx arrived o x = Some x' -> side_step cfg arrived x x'.
Proof.
  destruct x as [[st w hs] t wire read]. destruct o as [i op | i | op |]; simpl; intros He.
  - apply bind_Some in He as (h & Hi & He). destruct (fits_in op) eqn:Hf; [| done].
    destruct (run_handle _ _ _) as [[[b b'] [h' w']]| |] eqn:Hr; [| done..]. injection He as <-.
    eapply side_handle; [done | | exact Hr]. destruct op; simpl in *; try done; by apply Z.leb_le.
  - apply bind_Some in He as (h & Hi & He). destruct (stream_drop _ _) as [[[] w']| |] eqn:Hr; [| done..].
    injection He as <-. by apply (side_drop _ _ _ h).
  - destruct (roomy_state _ _) eqn:Hroom; [| done].
    destruct (run_conn _ _ _ _) as [[new [st' w']]| |] eqn:Hr; [| done..].
    assert (Hro : forall a, st = StActive a -> roomy cfg (a, w)) by (intros a ->; by apply Z.ltb_lt).
    pose proof (side_conn cfg arrived fuel cx op st st' w w' hs new t wire read Hro Hr) as Hstep.
    change (match st with StActive _ => _ | _ => _ end) with (last_socket fuel cx op (st, w)) in He.
    destruct (last_socket fuel cx op (st, w)) as [s|].
    + case_bool_decide as Hp; [| done]. injection He as <-. apply Hstep. by intros ? [= <-].
    + injection He as <-. by apply Hstep.
  - destruct (conn_drop (st, w)) as [w'| |] eqn:Hd; [| by simpl in Hd; rewrite Hd in He..].
    assert (Some (mkSide (mkSys StClosed w' hs) t wire read) = Some x') as [= <-] by (by simpl in Hd; rewrite Hd in He).
    by apply side_abandon.
Qed.

Variable cfg : Mode -> Config.

(** One step of the two, if it is one. *)
Definition peers_turn (fuel : nat) (cx : Waker) (t : Mode * Turn) (p : Peers) : option Peers :=
  let '(m, o) := t in
  x ← side_turn (cfg m) fuel cx (sd_wire (side (peer m) p)) o (side m p); Some (with_side m x p).

Lemma peers_turn_step fuel cx t p p' : peers_turn fuel cx t p = Some p' -> peer_step cfg p p'.
Proof.
  destruct t as [m o]. unfold peers_turn. intros (x & Ht & [= <-])%bind_Some. apply peer_moves. by eapply side_turn_step.
Qed.

Fixpoint peers_run (fuel : nat) (cx : Waker) (ts : list (Mode * Turn)) (p : Peers) : option Peers :=
  match ts with
  | [] => Some p
  | t :: ts => p' ← peers_turn fuel cx t p; peers_run fuel cx ts p'
  end.

Lemma peers_run_steps fuel cx ts p p' : peers_run fuel cx ts p = Some p' -> rtc (peer_step cfg) p p'.
Proof.
  revert p. induction ts as [|t ts IH]; intros p He; simpl in He; [injection He as <-; apply rtc_refl |].
  apply bind_Some in He as (p1 & Ht & He). eapply rtc_l; [by eapply peers_turn_step | by apply IH].
Qed.
End run.
