(* ===== verification/Example.v ===== *)
(** * A connection that runs

    A server over a scripted byte stream, with the channels of [Fifo.v]: the states on which the
    theorems about connections and handles are tried. *)
From Stdlib Require Import ZArith Lia Strings.Byte.
From stdpp Require Import base option list gmap numbers relations.
From S2P Require Import Prelude.
From S2P Require Import Header.
From S2P Require Import Frame.
From S2P Require Import Config.
From S2P Require Import Command.
From S2P Require Import Rtt.
From S2P Require Import ChunkList.
From S2P Require Import FlowControl.
From S2P Require Import Shared.
From S2P Require Import Heap.
From S2P Require Import Channel.
From S2P Require Import TaggedStream.
From S2P Require Import StreamHandle.
From S2P Require Import StreamSpec.
From S2P Require Import StreamWrite.
From S2P Require Import FrameIo.
From S2P Require Import FrameIoSpec.
From S2P Require Import FrameRoundTrip.
From S2P Require Import Connection.
From S2P Require Import ConnInvariant.
From S2P Require Import ConnSteps.
From S2P Require Import ConnHandlers.
From S2P Require Import ConnLoop.
From S2P Require Import Closing.
From S2P Require Import ClosingSpec.
From S2P Require Import ConnectionState.
From S2P Require Import ConnStateSpec.
From S2P Require Import FramedSocket.
From S2P Require Import Fifo.
From S2P Require Import System.

(** A scripted byte stream is finite. *)
#[export] Instance script_finite : FiniteInput.
Proof.
  refine {| input_left := (fun s => length (concat (incoming s))) : Socket -> nat |}; [| done..].
  intros cx buf s. simpl. unfold script_read. destruct (incoming s) as [|c q] eqn:Hin; simpl; [by rewrite Hin |].
  destruct c as [|b c]; [done |]. set (n := Nat.min (length buf) (length (b :: c))). simpl.
  rewrite length_app, length_take. case_decide as Hd.
  - rewrite length_app. simpl in *. lia.
  - cbn [concat]. rewrite !length_app, length_drop. simpl in *. lia.
Defined.

#[export] Instance ex_arch : Arch := arch64.
#[export] Instance ex_order : MapOrder := map_order_default.

Lemma ex_wide : u32_max + u32_max <= usize_max.
Proof. vm_compute. discriminate. Qed.

(** ** Runs *)

(** The value and the state a run ends with. *)
Definition final {S A} (m : M S A) (s : S) : S := match m s with Ret (_, s') => s' | _ => s end.

Lemma final_ok {S A} (m : M S A) (Q : A -> S -> Prop) s : wp m Q s -> exists a, m s = Ret (a, final m s) /\ Q a (final m s).
Proof. unfold wp, final. destruct (m s) as [[a s']| |]; [eauto | done..]. Qed.

(** ** The states *)

Definition ex_cfg : Config := config_default.
Definition ex_clock (i : nat) : Instant := Z.min (1000 * Z.of_nat i) 1000000.

Lemma ex_cfg_ok : config_ok ex_cfg.
Proof. apply config_default_ok. Qed.

Lemma ex_clock_ok i : instant_ok (ex_clock i).
Proof.
  unfold instant_ok, ex_clock. assert (1000000 + duration_secs 10 <= instant_max) by (vm_compute; discriminate). lia.
Qed.

(** What the remote, a client, sends: it opens two streams, the first with credit, sends some bytes
    on the first and closes the second. *)
Definition ex_bytes : list byte := [x01; x02; x03; x04; x05].
Definition ex_syn : Frame unit := frame_erase (frame_new (header_syn (header_window_update 1 100))).
Definition ex_syn_data : Frame Data := mkFrame (header_syn (header_data 3 5)) ex_bytes.
Definition ex_data : Frame Data := mkFrame (header_data 1 5) ex_bytes.
Definition ex_script : list (Frame unit) := [ex_syn; frame_erase ex_data; frame_erase ex_syn_data].

Definition ex_socket : FSock := framed_new (mkScript [wires ex_script; []] [] 100 []).

Definition ex_sys : Sys := sys_new ex_socket ex_cfg Server ex_clock net_new.

Definition ex_active : Active := active_new ex_socket ex_cfg Server.
Definition ex_world : World := sy_world ex_sys.

Definition no_refs : positive -> nat := fun _ => 0%nat.

Lemma net_new_ok : net_ok net_new.
Proof. intros c. apply List.Forall_nil. Qed.

Lemma ex_sys_ok : sys_ok ex_cfg ex_sys.
Proof. apply sys_new_ok; [apply ex_cfg_ok | apply ex_clock_ok | apply net_new_ok | by split]. Qed.

Lemma ex_conn_ok : conn_ok ex_cfg no_refs ex_active ex_world.
Proof. apply (so_state _ _ ex_sys_ok). Qed.

(** After the first frame: the stream 1 is open, and one handle refers to it. *)
Definition ex_one : AS := final (on_frame ex_syn) (ex_active, ex_world).
Definition ex_loc : positive := default 1%positive (ac_streams (fst ex_one) !! 1).
Definition ex_refs : positive -> nat := add_ref ex_loc no_refs.

(** The handle that a frame has opened. *)
Definition new_handle (m : M AS (result (Action Stream) ConnectionError)) (s : AS) : option Stream :=
  match m s with Ret (Ok (ActionNew st), _) => Some st | _ => None end.

Lemma new_handle_ok m s st : new_handle m s = Some st -> m s = Ret (Ok (ActionNew st), final m s).
Proof. unfold new_handle, final. by destruct (m s) as [[[[]|] s']| |]; intros [= ->]. Qed.

Definition ex_handle : Stream :=
  default (mkStream 0 ex_cfg 1%positive 1%positive FlagNone 1%positive)
    (new_handle (on_frame ex_syn) (ex_active, ex_world)).

Lemma ex_syn_sendable : frame_sendable ex_syn.
Proof.
  split; [| vm_compute; discriminate].
  split; [| done]. unfold header_typed. vm_compute. intuition discriminate.
Qed.

Lemma ex_one_new : on_frame ex_syn (ex_active, ex_world) = Ret (Ok (ActionNew ex_handle), ex_one).
Proof. apply new_handle_ok. vm_compute. reflexivity. Qed.

Lemma ex_one_ok : conn_ok ex_cfg ex_refs (fst ex_one) (snd ex_one).
Proof.
  pose proof (on_frame_ok ex_wide ex_cfg no_refs _ _ ex_syn ex_conn_ok ex_syn_sendable) as Hw.
  unfold wp in Hw. rewrite ex_one_new in Hw. destruct ex_one as [a w] eqn:He. destruct Hw as [_ Hok].
  assert (Hl : st_shared ex_handle = ex_loc) by (vm_compute; reflexivity). rewrite Hl in Hok. exact Hok.
Qed.

Lemma ex_one_stream : ac_streams (fst ex_one) !! 1 = Some ex_loc.
Proof. vm_compute. reflexivity. Qed.

Definition ex_cell : Cell := default (mkCell 0 (shared_new 0 0 ex_cfg 0)) (cells (mem (snd ex_one)) !! ex_loc).

Lemma ex_one_cell : cells (mem (snd ex_one)) !! ex_loc = Some ex_cell.
Proof. vm_compute. reflexivity. Qed.

(** After the second frame: five bytes are unread. *)
Definition ex_two : AS := final (on_frame (frame_erase ex_data)) ex_one.

Lemma ex_data_sendable : frame_sendable (frame_erase ex_data).
Proof.
  split; [| vm_compute; discriminate].
  split; [| done]. unfold header_typed. vm_compute. intuition discriminate.
Qed.

Lemma ex_two_none : exists w', on_frame (frame_erase ex_data) ex_one = Ret (Ok ActionNone, w').
Proof.
  assert (Hn : match on_frame (frame_erase ex_data) ex_one with Ret (Ok ActionNone, _) => true | _ => false end = true)
    by (vm_compute; reflexivity).
  destruct (on_frame (frame_erase ex_data) ex_one) as [[[[]|] s']| |]; [by exists s' | done..].
Qed.

Lemma ex_two_ok : conn_ok ex_cfg ex_refs (fst ex_two) (snd ex_two).
Proof.
  pose proof (on_frame_ok ex_wide ex_cfg ex_refs _ _ _ ex_one_ok ex_data_sendable) as Hw.
  destruct ex_two_none as [s Hs]. unfold ex_two, final. rewrite <- surjective_pairing in Hw. unfold wp in Hw.
  rewrite Hs in Hw |- *. destruct s. apply Hw.
Qed.

Definition ex_two_cell : Cell := default ex_cell (cells (mem (snd ex_two)) !! ex_loc).

Lemma ex_two_lookup : cells (mem (snd ex_two)) !! ex_loc = Some ex_two_cell.
Proof. vm_compute. reflexivity. Qed.

Lemma ex_two_unread : unread (contents ex_two_cell) = ex_bytes.
Proof. vm_compute. reflexivity. Qed.

(** The handle of the stream, in both states. *)
Lemma ex_handle_shared : st_shared ex_handle = ex_loc.
Proof. vm_compute. reflexivity. Qed.

Lemma ex_handle_ok a w c :
  conn_ok ex_cfg ex_refs a w -> cells (mem w) !! ex_loc = Some c -> handle_ok ex_cfg ex_handle w (contents c).
Proof.
  intros Hok Hc. split; [apply Hok |]. split; [vm_compute; split; discriminate |].
  split; [vm_compute; reflexivity |]. exists (strong c). rewrite ex_handle_shared, Hc. by destruct c.
Qed.

Lemma ex_one_handle : handle_ok ex_cfg ex_handle (snd ex_one) (contents ex_cell).
Proof. eapply ex_handle_ok; [apply ex_one_ok | apply ex_one_cell]. Qed.

Lemma ex_two_handle : handle_ok ex_cfg ex_handle (snd ex_two) (contents ex_two_cell).
Proof. eapply ex_handle_ok; [apply ex_two_ok | apply ex_two_lookup]. Qed.
