(* ===== verification/StreamProps.v ===== *)
(** * What stream handles promise

    The theorems about reading, writing and closing through a handle, each tried on the stream of
    [Example.v]. *)
From Stdlib Require Import ZArith Lia Strings.Byte.
From stdpp Require Import base option list gmap numbers.
From S2P Require Import Prelude.
From S2P Require Import Header.
From S2P Require Import Frame.
From S2P Require Import Config.
From S2P Require Import Command.
From S2P Require Import Rtt.
From S2P Require Import ChunkList.
From S2P Require Import FlowControl.
From S2P Require Import Shared.
From S2P Require Import Heap.
From S2P Require Import Channel.
From S2P Require Import StreamHandle.
From S2P Require Import StreamSpec.
From S2P Require Import StreamWrite.
From S2P Require Import Connection.
From S2P Require Import Fifo.
From S2P Require Import Example.

Section handles.
Context `{Arch, Mpsc}.

(** C33: the read loop terminates, never panics, and reads the byte queue: from a well-formed
    buffer it moves as many unread bytes as fit to the front of the caller's buffer, in order and
    across chunk boundaries, leaves the rest of the caller's buffer alone, and leaves exactly the
    remaining bytes. *)
Theorem read_loop_spec buf cs :
  chunks_ok cs -> zlen buf <= usize_max ->
  let k := Z.min (zlen (chunks_rest cs)) (zlen buf) in
  exists cs', read_loop (read_fuel cs) 0 buf cs
              = Ret (k, take (Z.to_nat k) (chunks_rest cs) ++ drop (Z.to_nat k) buf, cs') /\
    chunks_ok cs' /\ chunks_rest cs' = drop (Z.to_nat k) (chunks_rest cs).
Proof. apply read_loop_ok. Qed.

(** C18: reading a live stream never panics and is exact. A successful read moves
    [min (unread bytes) (length of the buffer)] bytes, in order, from the front of the stream to
    the front of the caller's buffer; it reads 0 bytes only at the end of the stream or, when
    configured so, after the connection is gone. [Pending] leaves all bytes in place and parks the
    reader, and it is returned only when there is nothing to copy. An error is a closed channel
    and loses no byte. Nothing else in the shared memory changes but this stream's windows: before
    it reads, it sends a window update exactly when at least half of the window has been read since
    the last one, the stream can still be read and the channel has room, and none otherwise. *)
Theorem poll_read_spec cfg s w sh cx buf :
  handle_ok cfg s w sh -> zlen buf <= usize_max ->
  wp (poll_read cx buf) (fun '(r, buf') '(s', w') => exists sh',
    read_rel cfg s w sh s' w' sh' /\
    let k := Z.min (zlen (unread sh)) (zlen buf) in
    match r with
    | Ready (Ok n) =>
        (n = k /\ buf' = take (Z.to_nat k) (unread sh) ++ drop (Z.to_nat k) buf /\
         unread sh' = drop (Z.to_nat k) (unread sh) /\ granted cx w s sh s' w' sh' /\
         (n = 0 -> can_read (sh_state sh) = false)) \/
        (n = 0 /\ buf' = buf /\ sh' = sh /\ s' = s /\ w' = w /\ read_after_close cfg = false /\
         sender_is_closed (st_sender s) (net w) = true)
    | Ready (Err e) => e = WriteZero /\ buf' = buf /\ unread sh' = unread sh /\
        (stopped (net w) s sh s' (sh_flow_controller sh') (net w') \/ refused (st_window_update_sender s) cx (net w))
    | Pending => k = 0 /\ buf' = buf /\ unread sh' = unread sh /\ granted cx w s sh s' w' sh' /\
                 can_read (sh_state sh) = true /\ sh_reader sh' = Some cx
    end) (s, w).
Proof. apply poll_read_ok. Qed.

(** Reading by packets is exact. A packet is a prefix of the unread bytes and the rest stays
    unread, so packets and [poll_read] can be mixed without losing or repeating a byte; the end of
    the stream is reported only when everything has been read and no more can come, or, when
    configured so, after the connection is gone; otherwise the reader is parked. The window is updated
    as by [poll_read]. *)
Theorem stream_poll_next_spec cfg s w sh cx :
  handle_ok cfg s w sh ->
  wp (stream_poll_next cx) (fun r '(s', w') => exists sh',
    read_rel cfg s w sh s' w' sh' /\
    match r with
    | Ready (Some (Ok packet)) => unread sh = packet ++ unread sh' /\ granted cx w s sh s' w' sh'
    | Ready (Some (Err e)) => e = WriteZero /\ unread sh' = unread sh /\
        (stopped (net w) s sh s' (sh_flow_controller sh') (net w') \/ refused (st_window_update_sender s) cx (net w))
    | Ready None =>
        (unread sh = [] /\ unread sh' = [] /\ can_read (sh_state sh) = false /\ granted cx w s sh s' w' sh') \/
        (sh' = sh /\ s' = s /\ w' = w /\ read_after_close cfg = false /\ sender_is_closed (st_sender s) (net w) = true)
    | Pending => unread sh = [] /\ unread sh' = [] /\ can_read (sh_state sh) = true /\
                 granted cx w s sh s' w' sh' /\ sh_reader sh' = Some cx
    end) (s, w).
Proof. apply stream_poll_next_ok. Qed.

(** C19: writing is exact on every branch. Without room in the channel nothing happens; on a
    stream whose sending half is closed it fails; without credit the writer is parked; otherwise
    it takes [write_amount] bytes, spends exactly that credit, and hands the connection one
    well-formed data frame with these bytes and the flag that was pending, which is then used
    up. It panics on no branch: the [expect]s are justified. *)
Theorem poll_write_spec cfg s w sh cx buf :
  handle_ok cfg s w sh -> 0 <= split_send_size cfg ->
  wp (poll_write cx buf) (fun r '(s', w') =>
    let '(ready, n1) := sender_poll_ready (st_sender s) cx (net w) in
    match ready with
    | Pending => r = Pending /\ s' = s /\ w' = set_net n1 w
    | Ready (Err _) => r = Ready (Err WriteZero) /\ s' = s /\ w' = set_net n1 w
    | Ready (Ok _) =>
        if negb (can_write (sh_state sh)) then
          r = Ready (Err WriteZero) /\ s' = s /\ w' = set_net n1 w
        else if send_window sh =? 0 then
          r = Pending /\ s' = s /\
          w' = mkWorld (put (st_shared s) (set_writer (Some cx) sh) (mem w)) n1 /\
          op_rel cfg s w s' w'
        else
          let k := write_amount cfg sh buf in
          let f := data_frame s (take (Z.to_nat k) buf) in
          let '(sent, n2) := sender_start_send (st_sender s) (SendFrame f) n1 in
          r = Ready (match sent with Ok _ => Ok k | Err _ => Err WriteZero end) /\
          s' = set_flag FlagNone s /\
          w' = mkWorld (put (st_shared s) (written s k sh) (mem w)) n2 /\
          frame_wf f /\ 0 <= k <= zlen buf /\ op_rel cfg s w s' w'
    end) (s, w).
Proof. apply poll_write_ok. Qed.

(** C31: closing is exact on every branch. A closed stream is closed at once, without a message.
    Otherwise, once the channel has room, exactly one [CloseStream] is sent, which acknowledges
    an inbound stream that has sent nothing yet, and if it could be sent the sending half is
    closed, also when the remote has closed its half before. No branch panics. *)
Theorem stream_poll_close_spec cfg s w sh cx :
  handle_ok cfg s w sh ->
  wp (stream_poll_close cx) (fun r '(s', w') =>
    if decide (sh_state sh = Closed) then r = Ready (Ok tt) /\ s' = s /\ w' = w else
    let '(ready, n1) := sender_poll_ready (st_sender s) cx (net w) in
    match ready with
    | Pending => r = Pending /\ s' = s /\ w' = set_net n1 w
    | Ready (Err _) => r = Ready (Err WriteZero) /\ s' = s /\ w' = set_net n1 w
    | Ready (Ok _) =>
        let '(sent, n2) := sender_start_send (st_sender s)
                             (CloseStream (bool_decide (st_flag s = FlagAck))) n1 in
        s' = set_flag (if decide (st_flag s = FlagAck) then FlagNone else st_flag s) s /\
        op_rel cfg s w s' w' /\
        match sent with
        | Err _ => r = Ready (Err WriteZero) /\ w' = set_net n2 w
        | Ok _ => r = Ready (Ok tt) /\
            handle_ok cfg s' w' (set_state (state_update (sh_state sh) SendClosed) sh) /\
            net w' = n2
        end
    end) (s, w).
Proof. apply stream_poll_close_ok. Qed.

End handles.

(** ** On the example *)

Lemma read_loop_spec_witness :
  exists cs, read_loop (read_fuel (sh_buffer (contents ex_two_cell))) 0 [x00; x00; x00] (sh_buffer (contents ex_two_cell))
             = Ret (3, [x01; x02; x03], cs) /\ chunks_rest cs = [x04; x05].
Proof.
  destruct (read_loop_spec [x00; x00; x00] (sh_buffer (contents ex_two_cell))) as (cs & Hl & _ & Hr).
  - exact (proj1 (handle_ok_shared _ _ _ _ ex_two_handle)).
  - vm_compute. discriminate.
  - exists cs. fold (unread (contents ex_two_cell)) in Hl, Hr. rewrite ex_two_unread in Hl, Hr. exact (conj Hl Hr).
Defined.

Lemma poll_read_spec_witness :
  wp (poll_read 7%positive [x00; x00; x00]) (fun _ '(s', w') => exists sh',
    read_rel ex_cfg ex_handle (snd ex_two) (contents ex_two_cell) s' w' sh') (ex_handle, snd ex_two).
Proof.
  eapply wp_mono; [apply (poll_read_spec ex_cfg ex_handle (snd ex_two) _ 7%positive [x00; x00; x00] ex_two_handle);
                     vm_compute; discriminate |].
  intros [r b] [s' w'] (sh' & Hr & _). exists sh'. exact Hr.
Defined.

Lemma stream_poll_next_spec_witness :
  wp (stream_poll_next 7%positive) (fun _ '(s', w') => exists sh',
    read_rel ex_cfg ex_handle (snd ex_two) (contents ex_two_cell) s' w' sh') (ex_handle, snd ex_two).
Proof.
  eapply wp_mono; [apply (stream_poll_next_spec ex_cfg ex_handle (snd ex_two) _ 7%positive ex_two_handle) |].
  intros r [s' w'] (sh' & Hr & _). exists sh'. exact Hr.
Defined.

Lemma ex_room : exists n, sender_poll_ready (st_sender ex_handle) 7%positive (net (snd ex_two)) = (Ready (Ok tt), n).
Proof. eexists. apply injective_projections; [vm_compute; reflexivity | reflexivity]. Qed.

Lemma ex_two_state :
  sh_state (contents ex_two_cell) = Open false /\ (send_window (contents ex_two_cell) =? 0) = false.
Proof. vm_compute. split; reflexivity. Qed.

Lemma poll_write_spec_witness :
  wp (poll_write 7%positive ex_bytes) (fun r '(s', w') =>
    r <> Pending /\ st_flag s' = FlagNone) (ex_handle, snd ex_two).
Proof.
  eapply wp_mono; [apply (poll_write_spec ex_cfg ex_handle (snd ex_two) _ 7%positive ex_bytes ex_two_handle);
                     vm_compute; discriminate |].
  intros r [s' w'] Hr. destruct ex_room as [n Hn]. rewrite Hn in Hr. destruct ex_two_state as [Hs Hw].
  rewrite Hs, Hw in Hr. cbv zeta in Hr. simpl negb in Hr. cbv iota in Hr.
  destruct (sender_start_send _ _ _) in Hr. destruct Hr as (-> & -> & _). split; [discriminate | reflexivity].
Defined.

Lemma stream_poll_close_spec_witness :
  wp (stream_poll_close 7%positive) (fun r _ => r <> Pending) (ex_handle, snd ex_two).
Proof.
  eapply wp_mono; [apply (stream_poll_close_spec ex_cfg ex_handle (snd ex_two) _ 7%positive ex_two_handle) |].
  intros r [s' w'] Hr. destruct ex_room as [n Hn]. rewrite Hn in Hr. destruct ex_two_state as [Hs _].
  destruct (decide _) as [Hc | _] in Hr; [rewrite Hs in Hc; discriminate |].
  destruct (sender_start_send _ _ _) as [[|]] in Hr; destruct Hr as (_ & _ & -> & _); discriminate.
Defined.
