(* ===== verification/ConnProps.v ===== *)
(** * What an active connection promises

    The theorems about the handling of inbound frames, about new and dropped streams, and about the
    end of all streams, each tried on the connection of [Example.v]. *)
From Stdlib Require Import ZArith Lia Strings.Byte.
From stdpp Require Import base option list gmap numbers.
From S2P Require Import Prelude.
From S2P Require Import Header.
From S2P Require Import Frame.
From S2P Require Import Config.
From S2P Require Import Command.
From S2P Require Import Rtt.
From S2P Require Import ChunkList.
From S2P Require Import FlowControl.
From S2P Require Import Shared.
From S2P Require Import Heap.
From S2P Require Import Channel.
From S2P Require Import TaggedStream.
From S2P Require Import StreamHandle.
From S2P Require Import StreamSpec.
From S2P Require Import StreamWrite.
From S2P Require Import Link.
From S2P Require Import FrameIo.
From S2P Require Import FrameIoSpec.
From S2P Require Import FrameRoundTrip.
From S2P Require Import Connection.
From S2P Require Import ConnInvariant.
From S2P Require Import ConnSteps.
From S2P Require Import ConnHandlers.
From S2P Require Import ConnLoop.
From S2P Require Import Wakeups.
From S2P Require Import FramedSocket.
From S2P Require Import Fifo.
From S2P Require Import Example.

Section active.
Context `{Arch, Mpsc, SelectAllOps, FrameSocket, MapOrder}.
Context `{!MpscLaws, !SelectAllLaws, !FrameSocketLaws}.
Hypothesis usize_wide : u32_max + u32_max <= usize_max.
Variable cfg : Config.
Variable E : positive -> nat.

(** C13: a data frame for a known stream is accounted for exactly. A body within the receive window
    spends that much of it, is appended to the unread bytes, and wakes the reader; a FIN closes the
    remote half, and forgets the stream when that closes it for good. A body beyond the window
    changes nothing and asks for a protocol error. The invariant is kept and nothing panics. *)
Theorem data_for_known_stream a w id l c (frame : Frame Data) :
  conn_ok cfg E a w -> ac_streams a !! id = Some l -> cells (mem w) !! l = Some c ->
  stream_id (header frame) = id -> zlen (body frame) <= u32_max ->
  flags_contains (flags (header frame)) RST = false -> flags_contains (flags (header frame)) SYN = false ->
  let fin := flags_contains (flags (header frame)) FIN in
  wp (on_data frame) (fun act '(a', w') =>
    conn_ok cfg E a' w' /\
    if zlen (body frame) <=? fc_receive_window (sh_flow_controller (contents c)) then
      act = ActionNone /\ exists sh', received fin (body frame) (contents c) sh' /\
        touch_rel a w id l fin sh' (option_list (sh_reader (contents c))) a' w'
    else act = ActionTerminate frame_protocol_error /\ a' = a /\ w' = w) (a, w).
Proof. by apply on_data_known_ok. Qed.

(** C25: a window update for a known stream adds exactly its credit to the send window and wakes
    the writer, and the reader when a FIN came with it; credit that the 32-bit window cannot hold
    changes nothing and asks for a protocol error. *)
Theorem credit_for_known_stream a w id l c (frame : Frame WindowUpdate) :
  conn_ok cfg E a w -> ac_streams a !! id = Some l -> cells (mem w) !! l = Some c ->
  stream_id (header frame) = id -> 0 <= len (header frame) ->
  flags_contains (flags (header frame)) RST = false -> flags_contains (flags (header frame)) SYN = false ->
  let fin := flags_contains (flags (header frame)) FIN in
  let k := len (header frame) in
  wp (on_window_update frame) (fun act '(a', w') =>
    conn_ok cfg E a' w' /\
    if send_window (contents c) + k <=? u32_max then
      act = ActionNone /\
      touch_rel a w id l fin (credited fin k (contents c))
        ((if fin then option_list (sh_reader (contents c)) else []) ++ option_list (sh_writer (contents c))) a' w'
    else act = ActionTerminate frame_protocol_error /\ a' = a /\ w' = w) (a, w).
Proof. by apply on_window_update_known_ok. Qed.

(** C26: a SYN on a data frame opens a stream, or is refused, exactly as the guards say: the
    identifier must be one of the remote's and new, there must be room for one more stream, and the
    body must fit the default window. A refusal changes nothing; otherwise there is one new record
    with the body unread, shared by the map and the handle that is returned. *)
Theorem syn_with_data a w (frame : Frame Data) :
  conn_ok cfg E a w -> 0 <= stream_id (header frame) <= u32_max ->
  flags_contains (flags (header frame)) RST = false -> flags_contains (flags (header frame)) SYN = true ->
  let id := stream_id (header frame) in
  let fin := flags_contains (flags (header frame)) FIN in
  wp (on_data frame) (fun act '(a', w') =>
    match refuse_data cfg a id (body frame) with
    | Some f => act = ActionTerminate f /\ a' = a /\ w' = w
    | None => exists st, act = ActionNew st /\ conn_ok cfg (add_ref (st_shared st) E) a' w' /\
                accepted cfg a w id DEFAULT_CREDIT fin (body frame) st a' w'
    end) (a, w).
Proof. by apply on_data_syn_ok. Qed.

(** A SYN on a window update opens a stream whose send window is the default plus the credit
    of the frame, or is refused: for the identifier, for the number of streams, or because the
    window would not fit 32 bits. *)
Theorem syn_with_credit a w (frame : Frame WindowUpdate) :
  conn_ok cfg E a w -> 0 <= stream_id (header frame) <= u32_max -> 0 <= len (header frame) ->
  flags_contains (flags (header frame)) RST = false -> flags_contains (flags (header frame)) SYN = true ->
  let id := stream_id (header frame) in
  let k := len (header frame) in
  let fin := flags_contains (flags (header frame)) FIN in
  wp (on_window_update frame) (fun act '(a', w') =>
    match refuse_window_update cfg a id k with
    | Some f => act = ActionTerminate f /\ a' = a /\ w' = w
    | None => exists st, act = ActionNew st /\ conn_ok cfg (add_ref (st_shared st) E) a' w' /\
                accepted cfg a w id (k + DEFAULT_CREDIT) fin [] st a' w'
    end) (a, w).
Proof. by apply on_window_update_syn_ok. Qed.

(** C29: a reset closes. Whatever else a data frame or a window update with RST carries, a known
    stream is closed for handles that still hold it, its parked reader and writer are woken, it is
    forgotten and the map's reference is dropped; an unknown stream changes nothing. *)
Theorem reset_by_remote a w (d : Frame Data) (u : Frame WindowUpdate) :
  conn_ok cfg E a w ->
  flags_contains (flags (header d)) RST = true -> flags_contains (flags (header u)) RST = true ->
  wp (on_data d) (fun act '(a', w') =>
    act = ActionNone /\ conn_ok cfg E a' w' /\ reset_rel a w (stream_id (header d)) a' w') (a, w) /\
  wp (on_window_update u) (fun act '(a', w') =>
    act = ActionNone /\ conn_ok cfg E a' w' /\ reset_rel a w (stream_id (header u)) a' w') (a, w).
Proof.
  intros Hok Hd Hu. unfold on_data, on_window_update. rewrite Hd, Hu. split; by apply reset_stream_ok.
Qed.

(** C22: no wake-up is lost. Whatever frame arrives, a task that is parked on a stream that still
    lives either has nothing new to do, being parked as before with the same bytes to read, or the
    same credit to write with, and the same halves open, or it has been woken. *)
Theorem no_lost_wakeups a w (frame : Frame unit) :
  conn_ok cfg E a w -> frame_sendable frame ->
  wp (on_frame frame) (fun _ '(a', w') => no_lost (mem w) (mem w')) (a, w).
Proof. by apply on_frame_no_lost. Qed.

(** Data and window updates for streams that are not known, SYN apart, are ignored: no action,
    no answer, and no change but that an ACK wakes the task that waits to open a stream. *)
Theorem unknown_stream_ignored a w (frame : Frame unit) :
  conn_ok cfg E a w -> ac_streams a !! stream_id (header frame) = None ->
  is_stream_tag (tag (header frame)) = true -> flags_contains (flags (header frame)) SYN = false ->
  let ack := flags_contains (flags (header frame)) ACK in
  wp (on_frame frame) (fun r '(a', w') =>
    r = Ok ActionNone /\
    a' = (if ack then set_new_outbound_stream_waker None a else a) /\
    w' = (if ack then set_mem (wake_all (option_list (ac_new_outbound_stream_waker a)) (mem w)) w else w) /\
    conn_ok cfg E a' w')
    (a, w).
Proof. apply on_frame_unknown. Qed.

(** A ping is answered with its own number when it is for the session or for a known stream
    and is ignored otherwise; a pong goes to the round-trip measurement. No stream is touched. *)
Theorem ping_answered a w (frame : Frame Ping) :
  conn_ok cfg E a w ->
  let known := bool_decide (is_Some (ac_streams a !! stream_id (header frame))) in
  wp (on_ping frame) (fun act '(a', w') =>
    a' = a /\ conn_ok cfg E a w' /\ net w' = net w /\ cells (mem w') = cells (mem w) /\
    woken (mem w') = woken (mem w) /\
    if flags_contains (flags (header frame)) ACK then
      exists now now', handle_pong (len (header frame)) now now' (rtt (mem w)) = Ret (act, rtt (mem w'))
    else w' = w /\
      act = if is_session (stream_id (header frame)) || known
            then ActionPing (frame_new (header_ack (header_ping (len (header frame))))) else ActionNone)
    (a, w).
Proof. by apply on_ping_ok. Qed.

(** No frame that the framing layer can deliver makes the connection panic. Every one keeps
    the invariant and leaves what waits to be sent alone, every answer is well formed, and only a
    [GoAway] ends the connection. *)
Theorem on_frame_safe a w (frame : Frame unit) :
  conn_ok cfg E a w -> frame_sendable frame ->
  wp (on_frame frame) (fun r '(a', w') =>
    match r with
    | Ok act => action_ok cfg E a w act a' w'
    | Err e => e = ErrClosed /\ tag (header frame) = TagGoAway /\ conn_ok cfg E a' w'
    end) (a, w).
Proof. by apply on_frame_ok. Qed.

(** C27: opening a stream is exact. With as many streams as allowed it fails; with 256 streams
    unacknowledged it waits; with no identifier left it fails; otherwise it takes the next
    identifier of this side, which no stream of the map has, and makes one new record with both
    default windows for a handle that still owes the SYN. *)
Theorem new_outbound_exact a w cx :
  conn_ok cfg E a w ->
  wp (active_poll_new_outbound cx) (fun r '(a', w') =>
    if max_num_streams cfg <=? Z.of_nat (size (ac_streams a)) then
      r = Ready (Err TooManyStreams) /\ a' = a /\ w' = w
    else if MAX_ACK_BACKLOG <=? backlog a w then
      r = Pending /\ a' = set_new_outbound_stream_waker (Some cx) a /\ w' = w
    else if u32_max <? ac_next_id a + 2 then
      r = Ready (Err NoMoreStreamIds) /\ a' = a /\ w' = w
    else exists st, r = Ready (Ok st) /\ handed_out cfg E st a' w' /\ opened cfg a w st a' w') (a, w).
Proof. by apply active_poll_new_outbound_ok. Qed.

(** C30: when a handle has been dropped, the stream is closed, whoever is parked is woken, the map
    forgets it, and the frame that is due is exactly this: a reset if both halves were open, a FIN if the
    remote had closed its half, and none if we had closed ours (also when the remote is still writing),
    if both were closed or if the stream is unknown. *)
Theorem dropped_handle_exact a w id :
  conn_ok cfg E a w -> 0 <= id <= u32_max ->
  wp (on_drop_stream id) (fun o '(a', w') =>
    conn_ok cfg E a' w' /\ reset_rel a w id a' w' /\
    o = match ac_streams a !! id with
        | Some l => match cells (mem w) !! l with
                    | Some c => drop_frame id (sh_state (contents c))
                    | None => None
                    end
        | None => None
        end) (a, w).
Proof. by apply on_drop_stream_ok. Qed.
End active.

(** ** On the example *)

Lemma data_for_known_stream_witness :
  wp (on_data ex_data) (fun act '(a', w') =>
    act = ActionNone /\ conn_ok ex_cfg ex_refs a' w' /\
    exists sh', received false ex_bytes (contents ex_cell) sh') (fst ex_one, snd ex_one).
Proof.
  eapply wp_mono.
  - apply (data_for_known_stream ex_wide ex_cfg ex_refs _ _ 1 ex_loc ex_cell ex_data ex_one_ok ex_one_stream ex_one_cell);
      [reflexivity | vm_compute; discriminate | reflexivity | reflexivity].
  - intros act [a' w'] [Hok Hr].
    replace (zlen (body ex_data) <=? fc_receive_window (sh_flow_controller (contents ex_cell))) with true in Hr
      by (vm_compute; reflexivity).
    destruct Hr as (-> & sh' & Hr & _). split; [reflexivity |]. split; [exact Hok |]. exists sh'. exact Hr.
Defined.

Lemma credit_for_known_stream_witness :
  wp (on_window_update (frame_window_update 1 50)) (fun act '(a', w') =>
    act = ActionNone /\ conn_ok ex_cfg ex_refs a' w') (fst ex_one, snd ex_one).
Proof.
  eapply wp_mono.
  - apply (credit_for_known_stream ex_cfg ex_refs _ _ 1 ex_loc ex_cell (frame_window_update 1 50)
             ex_one_ok ex_one_stream ex_one_cell); [reflexivity | vm_compute; discriminate | reflexivity | reflexivity].
  - intros act [a' w'] [Hok Hr].
    replace (send_window (contents ex_cell) + len (header (frame_window_update 1 50)) <=? u32_max) with true in Hr
      by (vm_compute; reflexivity).
    exact (conj (proj1 Hr) Hok).
Defined.

Lemma syn_with_data_witness :
  wp (on_data ex_syn_data) (fun act '(a', w') => exists st,
    act = ActionNew st /\ accepted ex_cfg (fst ex_one) (snd ex_one) 3 DEFAULT_CREDIT false ex_bytes st a' w')
    (fst ex_one, snd ex_one).
Proof.
  eapply wp_mono.
  - apply (syn_with_data ex_wide ex_cfg ex_refs _ _ ex_syn_data ex_one_ok);
      [vm_compute; split; discriminate | reflexivity | reflexivity].
  - intros act [a' w'] Hr. cbv zeta in Hr.
    replace (refuse_data ex_cfg (fst ex_one) (stream_id (header ex_syn_data)) (body ex_syn_data))
      with (@None (Frame GoAway)) in Hr by (vm_compute; reflexivity).
    destruct Hr as (st & Ha & _ & Hacc). exists st. exact (conj Ha Hacc).
Defined.

Lemma syn_with_credit_witness :
  wp (on_window_update (frame_new (header_syn (header_window_update 1 100)))) (fun act '(a', w') => exists st,
    act = ActionNew st /\ accepted ex_cfg ex_active ex_world 1 (100 + DEFAULT_CREDIT) false [] st a' w')
    (ex_active, ex_world).
Proof.
  eapply wp_mono.
  - apply (syn_with_credit ex_cfg no_refs _ _ (frame_new (header_syn (header_window_update 1 100))) ex_conn_ok);
      [vm_compute; split; discriminate | vm_compute; discriminate | reflexivity | reflexivity].
  - intros act [a' w'] Hr. cbv zeta in Hr.
    replace (refuse_window_update ex_cfg ex_active _ _) with (@None (Frame GoAway)) in Hr by (vm_compute; reflexivity).
    destruct Hr as (st & Ha & _ & Hacc). exists st. exact (conj Ha Hacc).
Defined.

Definition ex_rst_data : Frame Data := mkFrame (header_rst (header_data 1 5)) ex_bytes.
Definition ex_rst_update : Frame WindowUpdate := frame_new (header_rst (header_window_update 1 5)).

Lemma reset_by_remote_witness :
  wp (on_data ex_rst_data) (fun act '(a', w') =>
    act = ActionNone /\ reset_rel (fst ex_one) (snd ex_one) 1 a' w') (fst ex_one, snd ex_one).
Proof.
  eapply wp_mono.
  - exact (proj1 (reset_by_remote ex_cfg ex_refs _ _ ex_rst_data ex_rst_update ex_one_ok eq_refl eq_refl)).
  - intros act [a' w'] (Ha & _ & Hr). exact (conj Ha Hr).
Defined.

(** The reader of the first stream, parked. *)
Definition ex_parked : World := set_mem (put ex_loc (set_reader (Some 9%positive) (contents ex_cell)) (mem (snd ex_one))) (snd ex_one).

Lemma ex_parked_ok : conn_ok ex_cfg ex_refs (fst ex_one) ex_parked.
Proof.
  eapply (conn_ok_mem _ _ _ _ (eq ex_loc)); [apply ex_one_ok | |].
  - eapply mem_ok_put_meta; [apply ex_one_ok | apply ex_one_cell | reflexivity | reflexivity].
  - eapply mem_rel_put_same; [apply ex_one_cell | reflexivity].
Qed.

Lemma no_lost_wakeups_witness :
  wp (on_frame (frame_erase ex_data)) (fun _ '(a', w') => no_lost (mem ex_parked) (mem w')) (fst ex_one, ex_parked).
Proof. exact (no_lost_wakeups ex_wide ex_cfg ex_refs _ _ (frame_erase ex_data) ex_parked_ok ex_data_sendable). Defined.

Lemma unknown_stream_ignored_witness :
  wp (on_frame (frame_erase ex_data)) (fun r '(a', w') =>
    r = Ok ActionNone /\ a' = ex_active /\ w' = ex_world /\ conn_ok ex_cfg no_refs a' w') (ex_active, ex_world).
Proof.
  exact (unknown_stream_ignored ex_cfg no_refs _ _ (frame_erase ex_data) ex_conn_ok eq_refl eq_refl eq_refl).
Defined.

Lemma ping_answered_witness :
  wp (on_ping (frame_ping 9)) (fun act _ => act = ActionPing (frame_new (header_ack (header_ping 9))))
    (ex_active, ex_world).
Proof.
  eapply wp_mono; [apply (ping_answered ex_cfg no_refs _ _ (frame_ping 9) ex_conn_ok) |].
  intros act [a' w'] (_ & _ & _ & _ & _ & _ & Hr). exact Hr.
Defined.

Lemma on_frame_safe_witness :
  wp (on_frame ex_syn) (fun r '(a', w') =>
    match r with
    | Ok act => action_ok ex_cfg no_refs ex_active ex_world act a' w'
    | Err e => e = ErrClosed
    end) (ex_active, ex_world).
Proof.
  eapply wp_mono; [apply (on_frame_safe ex_wide ex_cfg no_refs _ _ ex_syn ex_conn_ok ex_syn_sendable) |].
  intros [act|e] [a' w'] Hr; [exact Hr | exact (proj1 Hr)].
Defined.

Lemma new_outbound_exact_witness :
  wp (active_poll_new_outbound 7%positive) (fun r '(a', w') => exists st,
    r = Ready (Ok st) /\ opened ex_cfg (fst ex_one) (snd ex_one) st a' w') (fst ex_one, snd ex_one).
Proof.
  eapply wp_mono; [apply (new_outbound_exact ex_cfg ex_refs _ _ 7%positive ex_one_ok) |].
  intros r [a' w'] Hr.
  replace (max_num_streams ex_cfg <=? _) with false in Hr by (vm_compute; reflexivity).
  replace (MAX_ACK_BACKLOG <=? _) with false in Hr by (vm_compute; reflexivity).
  replace (u32_max <? _) with false in Hr by (vm_compute; reflexivity).
  destruct Hr as (st & Hr & _ & Ho). exists st. exact (conj Hr Ho).
Defined.

Lemma dropped_handle_exact_witness :
  wp (on_drop_stream 1) (fun o '(a', w') =>
    o = drop_frame 1 (Open false) /\ reset_rel (fst ex_one) (snd ex_one) 1 a' w') (fst ex_one, snd ex_one).
Proof.
  eapply wp_mono; [apply (dropped_handle_exact ex_cfg ex_refs _ _ 1 ex_one_ok); vm_compute; split; discriminate |].
  intros o [a' w'] (_ & Hr & Ho). rewrite ex_one_stream, ex_one_cell in Ho. exact (conj Ho Hr).
Defined.
