(* ===== verification/SystemProps.v ===== *)
(** * What the connection and the whole promise

    The theorems about closing, about the states of a connection, and about every interleaving of the
    connection with its stream handles, each tried on the connection of [Example.v]. *)
From Stdlib Require Import ZArith Lia Strings.Byte.
From stdpp Require Import base option list gmap numbers relations.
From S2P Require Import Prelude.
From S2P Require Import Header.
From S2P Require Import Frame.
From S2P Require Import Config.
From S2P Require Import Command.
From S2P Require Import Rtt.
From S2P Require Import ChunkList.
From S2P Require Import FlowControl.
From S2P Require Import Shared.
From S2P Require Import Heap.
From S2P Require Import Channel.
From S2P Require Import TaggedStream.
From S2P Require Import StreamHandle.
From S2P Require Import StreamSpec.
From S2P Require Import StreamWrite.
From S2P Require Import FrameIo.
From S2P Require Import FrameIoSpec.
From S2P Require Import FrameRoundTrip.
From S2P Require Import Connection.
From S2P Require Import ConnInvariant.
From S2P Require Import ConnSteps.
From S2P Require Import ConnHandlers.
From S2P Require Import ConnLoop.
From S2P Require Import Closing.
From S2P Require Import ClosingSpec.
From S2P Require Import ConnectionState.
From S2P Require Import ConnStateSpec.
From S2P Require Import FramedSocket.
From S2P Require Import Fifo.
From S2P Require Import System.
From S2P Require Import Example.

Section connection.
Context `{Arch, Mpsc, SelectAllOps, FrameSocket, MapOrder}.
Context `{!MpscLaws, !SelectAllLaws, !FrameSocketLaws, !FrameSocketWire}.
Hypothesis usize_wide : u32_max + u32_max <= usize_max.
Variable cfg : Config.
Hypothesis streams_nonneg : 0 <= max_num_streams cfg.
Implicit Type E : positive -> nat.

(** [Active::close] hands the socket, the receivers and the two pending frames, the answer to
    an inbound frame first, to the closing future, and forgets all streams. It wakes no parked
    reader or writer, and a stream that a handle still holds stays in the state it was in. *)
Theorem close_hands_over E a w :
  conn_ok cfg E a w ->
  wp active_close (fun c '(a', w') =>
    a' = set_streams ∅ a /\
    c = closing_new (ac_receivers a)
          (option_list (ac_pending_read_frame a) ++ option_list (ac_pending_write_frame a)) (ac_socket a) /\
    closing_ok (sock_wire (ac_socket a) ++ wires (cl_pending c)) c (net w') /\
    woken (mem w') = woken (mem w) /\
    (forall l c', cells (mem w') !! l = Some c' ->
       exists c, cells (mem w) !! l = Some c /\ contents c' = contents c)) (a, w).
Proof.
  intros Hok. eapply wp_mono; [by eapply active_close_ok |].
  intros c [a' w'] (-> & _ & Hc & -> & Hw & Hs & _). done.
Qed.

(** C20: the methods of a connection keep their contract. In every state that satisfies the invariant,
    whatever the fuel, none of the three polls panics, and each returns, with enough fuel, if the socket
    and the channels hold finitely much ([finite_work]; a socket that always has another frame can keep
    [Active::poll] going); the state moves only forward, active, then closing or cleaning up, then
    closed, and never becomes poisoned; a stream is handed out only by an active connection, an error or
    end is reported exactly when the connection is closed, and a closed connection is left as it is. *)
Theorem connection_methods E st w cx :
  state_ok cfg E st w ->
  runs finite_work (fun fuel => conn_poll_new_outbound fuel cx (st, w))
    (fun '(r, (st', w')) => moved st w st' w' /\ outbound_result cfg E r st' w') /\
  runs finite_work (fun fuel => conn_poll_next_inbound fuel cx (st, w))
    (fun '(r, (st', w')) => moved st w st' w' /\ inbound_result cfg E r st' w') /\
  runs finite_work (fun fuel => conn_poll_close fuel cx (st, w))
    (fun '(r, (st', w')) => moved st w st' w' /\ close_result cfg E r st' w').
Proof.
  intros Hok. split_and!; [by apply poll_new_outbound_runs | by apply poll_next_inbound_runs | by apply poll_close_runs].
Qed.

(** C21: an error ends everything at once. When the loop of an active connection ends with an error,
    the same call of [poll_next_inbound] closes every stream, wakes everybody who is parked on
    one, closes the connection, and reports the error, or the end if the remote has gone away. *)
Theorem connection_error_ends E a w cx fuel0 e a1 w1 :
  conn_ok cfg E a w -> active_poll fuel0 cx (a, w) = Ret (Ready (Err e), (a1, w1)) ->
  runs finite_work (fun fuel => conn_poll_next_inbound fuel cx (StActive a, w)) (fun '(r, (st', w')) =>
    st' = StClosed /\
    r = Ready (match e with ErrClosed => None | _ => Some (Err e) end) /\
    all_shut (map_drain (ac_streams a1)) (mem w1) (mem w')).
Proof. intros Hok He. by eapply next_inbound_error. Qed.

(** Dropping a connection panics in no state; an active one closes all its streams and wakes
    everybody who is parked on one, any other leaves the memory as it is. *)
Theorem connection_dropped E st w :
  state_ok cfg E st w ->
  returns (conn_drop (st, w)) (fun w' =>
    match st with
    | StActive a => all_shut (map_drain (ac_streams a)) (mem w) (mem w')
    | _ => w' = w
    end).
Proof. intros Hok. eapply returns_mono; [by apply (conn_drop_ok cfg streams_nonneg E) |]. by intros w' [_ Hr]. Qed.
End connection.

Section whole.
Context `{Arch, Mpsc, SelectAllOps, FrameSocket, MapOrder}.
Context `{!MpscLaws, !SelectAllLaws, !FrameSocketLaws, !FrameSocketWire}.
Hypothesis usize_wide : u32_max + u32_max <= usize_max.

(** A state that some interleaving reaches from a new connection. *)
Definition reachable (cfg : Config) (y : Sys) : Prop :=
  exists socket mode clk n,
    config_ok cfg /\ (forall i, instant_ok (clk i)) /\ net_ok n /\ sock_ok socket /\
    rtc sys_step (sys_new socket cfg mode clk n) y.

Lemma reachable_ok cfg y : reachable cfg y -> sys_ok cfg y.
Proof.
  intros (socket & mode & clk & n & Hc & Hk & Hn & Hs & Hsteps).
  by eapply (sys_steps_ok usize_wide cfg); [apply sys_new_ok |].
Qed.

(** C1: nothing panics, in any interleaving. In every reachable state every operation of every
    handle returns, every handle can be dropped, no poll of the connection panics however long it
    runs, and each one returns when the socket and the channels hold finitely much. *)
Theorem system_never_panics cfg y :
  reachable cfg y ->
  (forall i s cx op, sy_handles y !! i = Some s -> op_fits op ->
     exists r s' w', run_handle cx op (s, sy_world y) = Ret (r, (s', w'))) /\
  (forall i s, sy_handles y !! i = Some s -> exists w', stream_drop s (sy_world y) = Ret (tt, w')) /\
  (forall fuel cx op, run_conn fuel cx op (sy_state y, sy_world y) <> Panic) /\
  (finite_work -> forall cx op, exists fuel x, run_conn fuel cx op (sy_state y, sy_world y) = Ret x).
Proof.
  intros Hok%reachable_ok. pose proof (sys_handle cfg y) as Hh. split_and!.
  - intros i s cx op Hi Hop. destruct (Hh i s Hok Hi) as [sh Hsh].
    destruct (wp_returns _ _ _ (run_handle_ok cfg cx op s _ sh Hsh Hop)) as (r & [s' w'] & He & _). eauto.
  - intros i s Hi. destruct y as [st w hs]. destruct Hok as [Hst _]. simpl in *.
    destruct (state_ok_drop cfg (handle_refs (delete i hs)) st w s) as (w' & He & _); [| by exists w'].
    eapply state_ok_ext; [| exact Hst]. intros l. by apply handle_refs_delete.
  - intros fuel cx op He. destruct Hok as [Hst _].
    pose proof (runs_safe _ _ _ (run_conn_runs usize_wide cfg _ op _ _ cx Hst) fuel) as Hs. simpl in Hs.
    by rewrite He in Hs.
  - intros Hf cx op. destruct Hok as [Hst _].
    destruct (runs_total _ _ _ (run_conn_runs usize_wide cfg _ op _ _ cx Hst) Hf) as (fuel & x & He).
    exists fuel, x. by apply He.
Qed.

(** C2: the limits hold in every interleaving. In every reachable state the shared counter is the
    sum of what the live streams have grown beyond the default window, and together with the default
    window of all streams it is within the connection limit; the unread bytes and the credit of the
    remote never exceed a stream's window; and an active connection has at most the configured
    number of streams, at most 256 of which wait for an acknowledgement. *)
Theorem system_limits cfg y :
  reachable cfg y ->
  let m := mem (sy_world y) in
  acc m = map_sum (fun c => fc_max_receive_window (sh_flow_controller (contents c)) - DEFAULT_CREDIT) (cells m) /\
  acc m + max_num_streams cfg * DEFAULT_CREDIT <= default usize_max (max_connection_receive_window cfg) /\
  (forall l c, cells m !! l = Some c ->
     let fc := sh_flow_controller (contents c) in
     0 <= fc_receive_window fc <= u32_max /\ 0 <= fc_send_window fc <= u32_max /\
     zlen (unread (contents c)) + fc_receive_window fc <= fc_max_receive_window fc) /\
  match sy_state y with
  | StActive a => Z.of_nat (size (ac_streams a)) <= max_num_streams cfg /\ backlog a (sy_world y) <= MAX_ACK_BACKLOG
  | _ => True
  end.
Proof.
  intros Hok%reachable_ok m. destruct Hok as [Hst _]. destruct (state_ok_rest _ _ _ _ Hst) as [Hm _]. split_and!.
  - apply (mo_acc _ _ Hm).
  - pose proof (mo_budget _ _ Hm) as Hb. unfold config_budget in Hb. unfold m. lia.
  - intros l c Hl fc. destruct (mo_cells _ _ Hm _ _ Hl) as ([_ Hf] & _).
    destruct Hf as (Hr & Hb & Hsum & Hmax & Hsw & _). fold fc in Hr, Hsum, Hmax, Hsw. unfold unread in *.
    split_and!; lia.
  - destruct (sy_state y) as [a | | | |]; [| done..]. split; apply Hst.
Qed.

End whole.

(** ** On the example *)

Lemma ex_nonneg : 0 <= max_num_streams ex_cfg.
Proof. vm_compute. discriminate. Qed.

Lemma ex_finite : finite_work.
Proof. exact (inhabits fifo_finite). Qed.

Lemma ex_socket_ok : sock_ok ex_socket.
Proof. by split. Qed.

Lemma close_hands_over_witness :
  wp active_close (fun c '(a', w') =>
    a' = set_streams ∅ (fst ex_one) /\ woken (mem w') = woken (mem (snd ex_one)) /\ cl_pending c = [])
    (fst ex_one, snd ex_one).
Proof.
  eapply wp_mono; [apply (close_hands_over ex_cfg ex_nonneg ex_refs _ _ ex_one_ok) |].
  intros c [a' w'] (Ha & -> & _ & Hw & _). split; [exact Ha |]. split; [exact Hw |]. vm_compute. reflexivity.
Defined.

Lemma ex_one_state : state_ok ex_cfg ex_refs (StActive (fst ex_one)) (snd ex_one).
Proof. exact ex_one_ok. Qed.

Lemma connection_methods_witness :
  exists fuel r st w, conn_poll_close fuel 7%positive (StActive (fst ex_one), snd ex_one) = Ret (r, (st, w)).
Proof.
  destruct (connection_methods ex_wide ex_cfg ex_nonneg ex_refs _ _ 7%positive ex_one_state) as (_ & _ & Hc).
  destruct (runs_total _ _ _ Hc ex_finite) as (fuel & [r [st w]] & He).
  exists fuel, r, st, w. exact (He fuel (le_n fuel)).
Defined.

(** A connection whose remote is gone. *)
Definition ex_gone : Active := set_socket (framed_new (mkScript [] [] 100 [])) (fst ex_one).

Lemma ex_gone_ok : conn_ok ex_cfg ex_refs ex_gone (snd ex_one).
Proof. apply conn_ok_socket; [apply ex_one_ok | by split]. Qed.

Lemma ex_gone_run : exists s, active_poll 10 7%positive (ex_gone, snd ex_one) = Ret (Ready (Err ErrClosed), s).
Proof.
  assert (Hr : match active_poll 10 7%positive (ex_gone, snd ex_one) with
               | Ret (Ready (Err ErrClosed), _) => true | _ => false end = true) by (vm_compute; reflexivity).
  destruct (active_poll _ _ _) as [[[[|[]]|] s]| |]; try done. by exists s.
Qed.

Lemma connection_error_ends_witness :
  exists fuel st w, conn_poll_next_inbound fuel 7%positive (StActive ex_gone, snd ex_one) = Ret (Ready None, (st, w)) /\
    st = StClosed.
Proof.
  destruct ex_gone_run as [[a1 w1] He].
  pose proof (connection_error_ends ex_wide ex_cfg ex_nonneg ex_refs _ _ _ _ _ _ _ ex_gone_ok He) as Hr.
  destruct (runs_total _ _ _ Hr ex_finite) as (fuel & [r [st w]] & Hf).
  pose proof (runs_safe _ _ _ Hr fuel) as Hs. specialize (Hf fuel (le_n fuel)). simpl in Hs, Hf. rewrite Hf in Hs.
  destruct Hs as (Hst & -> & _). exists fuel, st, w. exact (conj Hf Hst).
Defined.

Lemma connection_dropped_witness :
  returns (conn_drop (StActive (fst ex_one), snd ex_one)) (fun w' =>
    all_shut (map_drain (ac_streams (fst ex_one))) (mem (snd ex_one)) (mem w')).
Proof. exact (connection_dropped ex_cfg ex_nonneg ex_refs _ _ ex_one_state). Defined.

(** The server accepts its first stream. *)
Definition ex_run : outcome (list Stream * KS) := run_conn 30 7%positive CNextInbound (sy_state ex_sys, sy_world ex_sys).

Definition ex_next : Sys := match ex_run with Ret (new, (st, w)) => mkSys st w new | _ => ex_sys end.

Lemma ex_run_new : match ex_run with Ret ([_], _) => true | _ => false end = true.
Proof. vm_compute. reflexivity. Qed.

Lemma ex_next_steps : rtc sys_step ex_sys ex_next.
Proof.
  pose proof ex_run_new as Hr. unfold ex_next, ex_run in *.
  destruct (run_conn _ _ _ _) as [[new [st w]]| |] eqn:He; [| done..].
  apply rtc_once. exists None. pose proof (does_conn _ _ _ _ _ _ _ (sy_handles ex_sys) _ He) as Hs.
  simpl in Hs. rewrite app_nil_r in Hs. exact Hs.
Qed.

Lemma ex_next_handles : exists s, sy_handles ex_next = [s].
Proof.
  pose proof ex_run_new as Hr. unfold ex_next in *. destruct ex_run as [[[|s []] [st w]]| |]; try done. by exists s.
Qed.

Lemma ex_next_reachable : reachable ex_cfg ex_next.
Proof.
  exists ex_socket, Server, ex_clock, net_new.
  split_and!; [apply ex_cfg_ok | apply ex_clock_ok | apply net_new_ok | apply ex_socket_ok | apply ex_next_steps].
Qed.

Lemma system_never_panics_witness :
  exists s r s' w', sy_handles ex_next = [s] /\
    run_handle 7%positive (HWrite ex_bytes) (s, sy_world ex_next) = Ret (r, (s', w')).
Proof.
  destruct (system_never_panics ex_wide ex_cfg ex_next ex_next_reachable) as (Hop & _).
  destruct ex_next_handles as [s Hs].
  destruct (Hop 0%nat s 7%positive (HWrite ex_bytes)) as (r & s' & w' & He); [rewrite Hs; reflexivity | vm_compute; discriminate |].
  exists s, r, s', w'. exact (conj Hs He).
Defined.

Lemma system_limits_witness :
  acc (mem (sy_world ex_next)) + max_num_streams ex_cfg * DEFAULT_CREDIT <= GIB.
Proof. exact (proj1 (proj2 (system_limits ex_wide ex_cfg ex_next ex_next_reachable))). Defined.

