(* ===== verification/LinkProps.v ===== *)
(** * Two ends of a stream

    The theorems about a stream between two ends: the operations of handles and connections run the
    machine of [Link.v], and what follows for two peers that both run this code. *)
From Stdlib Require Import ZArith Lia Strings.Byte.
From stdpp Require Import base option list gmap relations numbers.
From S2P Require Import Prelude.
From S2P Require Import Header.
From S2P Require Import Frame.
From S2P Require Import Config.
From S2P Require Import Command.
From S2P Require Import Rtt.
From S2P Require Import ChunkList.
From S2P Require Import FlowControl.
From S2P Require Import Shared.
From S2P Require Import Heap.
From S2P Require Import Channel.
From S2P Require Import StreamHandle.
From S2P Require Import StreamSpec.
From S2P Require Import StreamWrite.
From S2P Require Import Link.
From S2P Require Import FrameIo.
From S2P Require Import FrameIoSpec.
From S2P Require Import FrameRoundTrip.
From S2P Require Import Connection.
From S2P Require Import ConnInvariant.
From S2P Require Import ConnSteps.
From S2P Require Import ConnHandlers.
From S2P Require Import LinkRefine.
From S2P Require Import FramedSocket.
From S2P Require Import Fifo.
From S2P Require Import Example.

(** ** The code runs the machine *)

Section refinement.
Context `{Arch, Mpsc, !ReadySenders}.

(** C10: the operations of a stream handle refine the machine. Whatever one of them returns, errors
    included, what it has done to the shared record and to the handle, and the commands it has passed
    to the connection through the handle's own senders, are actions of the end, which accept and
    deliver the very bytes that the operation reports. *)
Theorem handles_keep_contract cfg s w sh cx buf :
  handle_ok cfg s w sh -> zlen buf <= usize_max -> 0 <= split_send_size cfg ->
  wp (poll_write cx buf) (fun r '(s', w') =>
    match r with
    | Ready (Ok n) => does cfg s w sh (take (Z.to_nat n) buf) [] s' w'
    | _ => does cfg s w sh [] [] s' w'
    end) (s, w) /\
  wp (poll_read cx buf) (fun '(r, buf') '(s', w') =>
    match r with
    | Ready (Ok n) => does cfg s w sh [] (take (Z.to_nat n) buf') s' w'
    | _ => does cfg s w sh [] [] s' w'
    end) (s, w) /\
  wp (stream_poll_next cx) (fun r '(s', w') =>
    match r with
    | Ready (Some (Ok packet)) => does cfg s w sh [] packet s' w'
    | _ => does cfg s w sh [] [] s' w'
    end) (s, w) /\
  wp (stream_poll_close cx) (fun _ '(s', w') => does cfg s w sh [] [] s' w') (s, w) /\
  wp (stream_poll_flush cx) (fun _ '(s', w') => does cfg s w sh [] [] s' w') (s, w).
Proof.
  intros Hh Hb Hs. split_and!; [by apply poll_write_does | by apply poll_read_does |
    by apply stream_poll_next_does | by apply stream_poll_close_does | by apply stream_poll_flush_does].
Qed.

(** C23: a reader that is parked has not used up the remote's credit. When [poll_read] with room in
    the buffer is [Pending] there is nothing to read, the reader is parked, and the remote may still
    send more than half of the window, unless the channel to the connection was full, which wakes
    the task when it is not. *)
Theorem parked_reader_keeps_credit cfg s w sh cx buf :
  handle_ok cfg s w sh -> 0 < zlen buf <= usize_max ->
  wp (poll_read cx buf) (fun '(r, _) '(s', w') =>
    r = Pending -> exists sh', handle_ok cfg s' w' sh' /\ unread sh' = [] /\ sh_reader sh' = Some cx /\
      (max_window sh' / 2 < recv_window sh' \/
       (sender_poll_ready (st_window_update_sender s) cx (net w)).1 = Pending)) (s, w).
Proof.
  intros Hh Hb. eapply wp_mono; [apply (poll_read_ok cfg); [done | lia] |].
  intros [r buf'] [s' w'] (sh' & (_ & Hh' & Hs & _) & Hr) ->.
  destruct Hr as (Hk & _ & Hu & (cmds & _ & Hg) & Hcr & Hrd). exists sh'.
  assert (Hnil : unread sh = []).
  { destruct (unread sh) as [|b bs]; [done |]. rewrite zlen_cons in Hk. pose proof (zlen_nonneg bs). lia. }
  split_and!; [done | by rewrite Hu | done |].
  destruct (handle_ok_shared _ _ _ _ Hh) as [_ (_ & _ & _ & Hmax & _)].
  unfold max_window, recv_window, window_used in *. unfold unread in Hnil.
  pose proof (Z.div_mod (fc_max_receive_window (sh_flow_controller sh)) 2 ltac:(lia)).
  pose proof (Z.mod_pos_bound (fc_max_receive_window (sh_flow_controller sh)) 2 ltac:(lia)).
  inversion Hg as [Hdue E1 E2 E3 | Hroom E1 E2 E3 | k fc Hc1 Hc2 Hc3 Hc4 Hc5 Hc6 Hc7 E1 E2 E3].
  - left. specialize (Hdue Hcr). unfold window_used in Hdue. rewrite Hnil, zlen_nil in Hdue. lia.
  - by right.
  - left. rewrite Hnil, zlen_nil in Hc7. unfold DEFAULT_CREDIT, KIB in *.
    pose proof (Z.div_lt (fc_max_receive_window (sh_flow_controller sh')) 2). lia.
Qed.
End refinement.

Section connection.
Context `{Arch, Mpsc, SelectAllOps, FrameSocket, MapOrder}.
Context `{!MpscLaws, !SelectAllLaws, !FrameSocketLaws}.
Hypothesis usize_wide : u32_max + u32_max <= usize_max.
Variable cfg : Config.
Variable E : positive -> nat.

(** C11: a connection refines the machine. A data frame or a window update for a stream that it knows or
    has forgotten, a reset included, is answered with a protocol error only if it violates what the end
    has granted; otherwise the end is, in the memory and in the map of streams, what it is after hearing
    the frame, and no other stream is touched. A SYN from the remote with neither RST nor ACK, when the
    connection takes another stream, makes a new end that has heard the frame, or else violates as well.
    And a dropped handle ends the stream as the machine says, with the frame that it owes. *)
Theorem connection_keeps_contract a w f id l x :
  conn_ok cfg E a w ->
  (frame_sendable f -> is_stream_tag (tag (header f)) = true -> at_end a w (stream_id (header f)) l x ->
   (forgotten (en_status x) = true -> has_flag SYN f = false) ->
   wp (on_frame f) (frame_outcome cfg E f l x (a, w)) (a, w)) /\
  (frame_sendable f -> is_stream_tag (tag (header f)) = true ->
   has_flag RST f = false -> has_flag ACK f = false -> has_flag SYN f = true ->
   refuse_syn cfg a (stream_id (header f)) frame_internal_error = None ->
   wp (on_frame f) (fun r '(a', w') =>
     (exists st, r = Ok (ActionNew st) /\ learned cfg E f (a, w) a' w' st) \/
     ((exists g, r = Ok (ActionTerminate g)) /\
      forall sh0, fresh sh0 -> violates f (mkEnd sh0 Unborn FlagAck [] []))) (a, w)) /\
  (0 <= id <= u32_max -> en_status x = Known -> at_end a w id l x ->
   wp (on_drop_stream id) (fun o s =>
     conn_ok cfg E s.1 s.2 /\ elsewhere id l (a, w) s /\ calm (a, w) s /\
     exists x', drops id x o x' /\ at_end s.1 s.2 id l x') (a, w)).
Proof.
  intros Hok. split_and!; [intros; by apply on_frame_hears | intros; by apply on_frame_learns |].
  intros; by apply on_drop_stream_drops.
Qed.
End connection.

(** ** Two peers *)

(** Two peers that run this code never break each other's rules. However the actions at both
    ends and the deliveries of frames interleave, no frame that is about to arrive carries more data
    than the receive window of its receiver, more credit than 32 bits hold, or a second SYN. *)
Theorem peers_never_violate id k f fs :
  linked id k ->
  (lk_out k = f :: fs -> ~ violates f (lk_there k)) /\ (lk_in k = f :: fs -> ~ violates f (lk_here k)).
Proof. intros Hl. apply (link_no_violation _ _ fs). by eapply linked_ok. Qed.

(** Both directions of a link, seen from either end. *)
Lemma linked_dirs id k x y out inn :
  linked id k -> k = mkLink x y out inn \/ k = mkLink y x inn out -> dir_ok x y out inn /\ dir_ok y x inn out.
Proof. intros Hl Hk. destruct Hk as [-> | ->]; apply linked_ok in Hl as [Ho Hi _ _ _ _]; by split. Qed.

(** A stream is two reliable byte pipes. In every state of a stream between two peers, and in
    either direction, the bytes that the writer has handed over are, in order, those that the reader
    has taken, those it can take, and those under way; none is lost, repeated or reordered, and
    there are never more outstanding than the reader's maximal window. Once the reader can
    receive no more, all has arrived: the end of the stream, or a reset, comes after the last byte. A
    reader that has dropped its handle has taken a beginning of what was written. *)
Theorem stream_delivers id k x y out inn :
  linked id k -> k = mkLink x y out inn \/ k = mkLink y x inn out ->
  en_took y ++ unread (en_sh y) `prefix_of` en_wrote x /\
  zlen (unread (en_sh y)) + zlen (data_under_way out) <= max_window (en_sh y) /\
  (en_status y <> Dropped ->
     en_wrote x = en_took y ++ unread (en_sh y) ++ data_under_way out /\
     (can_read (sh_state (en_sh y)) = false -> en_wrote x = en_took y ++ unread (en_sh y))).
Proof.
  intros Hl Hk. destruct (linked_dirs _ _ _ _ _ _ Hl Hk) as [Ho Hi].
  destruct (do_window _ _ _ _ Ho) as (Hs & _), (do_window _ _ _ _ Hi) as (_ & _ & Hw & _).
  pose proof (do_bound _ _ _ _ Ho) as Hb.
  pose proof (credit_under_way_nonneg _ (do_frames _ _ _ _ Hi)). split_and!; [apply Ho | lia |].
  intros Hy. pose proof (do_bytes _ _ _ _ Ho Hy) as Hby. split; [done |].
  intros Hcr. by rewrite Hby, (do_eof _ _ _ _ Ho Hy Hcr), !app_nil_r.
Qed.

Section liveness.
Context `{Arch}.

(** Flow control does not deadlock. A writer without credit, whose remote has not dropped its
    handle, is owed something: data are under way, or credit is, or the reader's window is used up;
    and a used-up window of which no more than half is still unread is renewed by the reader's next
    update, with credit for at least half of it. *)
Theorem no_credit_deadlock id k x y out inn :
  linked id k -> k = mkLink x y out inn \/ k = mkLink y x inn out -> en_status y <> Dropped ->
  can_write (sh_state (en_sh x)) = true -> send_window (en_sh x) = 0 ->
  data_under_way out <> [] \/ 0 < credit_under_way inn \/
  (recv_window (en_sh y) = 0 /\
   forall r now now' acc sh,
     same_windows (en_sh y) sh -> shared_ok r sh -> acc_ok acc (sh_flow_controller sh) -> rtt_sane r ->
     zlen (unread sh) <= max_window sh / 2 ->
     exists credit fc acc',
       next_window_update r now now' acc (zlen (unread sh)) (sh_flow_controller sh) = Ret (Some credit, fc, acc') /\
       max_window sh / 2 <= credit).
Proof.
  intros Hl Hk Hy Hw Hs. destruct (linked_dirs _ _ _ _ _ _ Hl Hk) as [Ho Hi].
  destruct (dir_no_deadlock x y out inn Ho Hi Hy Hw Hs) as [Hd | [Hc | Hz]]; [by left | by right; left |].
  right. right. split; [done |]. intros r now now' acc sh (_ & Hrw & _) Hok Ha Hr Hu.
  apply used_window_renewed; try done. by rewrite Hrw.
Qed.
End liveness.

(** ** On the example *)

Lemma handles_keep_contract_witness :
  wp (poll_write 7%positive ex_bytes) (fun r '(s', w') =>
    match r with
    | Ready (Ok n) => does ex_cfg ex_handle (snd ex_two) (contents ex_two_cell) (take (Z.to_nat n) ex_bytes) [] s' w'
    | _ => does ex_cfg ex_handle (snd ex_two) (contents ex_two_cell) [] [] s' w'
    end) (ex_handle, snd ex_two).
Proof.
  assert (Hb : zlen ex_bytes <= usize_max) by (vm_compute; discriminate).
  assert (Hs : 0 <= split_send_size ex_cfg) by (vm_compute; discriminate).
  exact (proj1 (handles_keep_contract ex_cfg ex_handle (snd ex_two) _ 7%positive ex_bytes ex_two_handle Hb Hs)).
Defined.

Lemma parked_reader_keeps_credit_witness :
  wp (poll_read 7%positive [x00]) (fun '(r, _) '(s', w') =>
    r = Pending -> exists sh', handle_ok ex_cfg s' w' sh' /\ unread sh' = [] /\ sh_reader sh' = Some 7%positive /\
      (max_window sh' / 2 < recv_window sh' \/
       (sender_poll_ready (st_window_update_sender ex_handle) 7%positive (net (snd ex_one))).1 = Pending))
    (ex_handle, snd ex_one).
Proof.
  apply (parked_reader_keeps_credit ex_cfg ex_handle (snd ex_one) _ 7%positive [x00] ex_one_handle).
  vm_compute. split; [reflexivity | discriminate].
Defined.

(** The first stream of the example, seen as an end, and a SYN for another stream. *)
Definition ex_end : End := mkEnd (contents ex_cell) Known FlagAck [] [].

Lemma ex_at_end : at_end (fst ex_one) (snd ex_one) 1 ex_loc ex_end.
Proof.
  split; [exact ex_one_stream |]. exists (strong ex_cell). change (en_sh ex_end) with (contents ex_cell).
  rewrite ex_one_cell. by destruct ex_cell.
Qed.

Lemma connection_keeps_contract_witness :
  wp (on_frame (frame_erase ex_data))
    (frame_outcome ex_cfg ex_refs (frame_erase ex_data) ex_loc ex_end (fst ex_one, snd ex_one)) (fst ex_one, snd ex_one).
Proof.
  destruct (connection_keeps_contract ex_wide ex_cfg ex_refs _ _ (frame_erase ex_data) 1 ex_loc ex_end ex_one_ok) as [Hh _].
  apply Hh; [exact ex_data_sendable | reflexivity | exact ex_at_end | discriminate].
Defined.

(** A stream on which five bytes have been written, which then arrive. *)
Definition ex_fresh : Shared := shared_new DEFAULT_CREDIT DEFAULT_CREDIT ex_cfg 0.
Definition ex_spent (n : Z) : Shared := set_flow_controller (with_send_window (DEFAULT_CREDIT - n) (sh_flow_controller ex_fresh)) ex_fresh.
Definition ex_got : Shared :=
  mkShared (Open false) (with_receive_window (DEFAULT_CREDIT - 5) (sh_flow_controller ex_fresh))
    (match chunks_push ex_bytes chunks_new with Ret cs => cs | _ => chunks_new end) None None.
Definition ex_msg : Frame unit := data_msg 1 FlagSyn ex_bytes.
Definition ex_y : End := mkEnd ex_fresh Unborn FlagAck [] [].

Lemma ex_link_new : link_new (mkLink (mkEnd ex_fresh Known FlagSyn [] []) ex_y [] []).
Proof. exists ex_fresh, ex_fresh. split; [by split_and! |]. split; [by split_and! | done]. Qed.

(** Any number of bytes within the window. *)
Lemma ex_writes b :
  zlen b <= DEFAULT_CREDIT ->
  linked 1 (mkLink (mkEnd (ex_spent (zlen b)) Known FlagNone b []) ex_y [data_msg 1 FlagSyn b] []).
Proof.
  intros Hb. eexists. split; [exact ex_link_new |]. apply rtc_once, step_here.
  apply (step_acts 1 _ (Some (data_msg 1 FlagSyn b)) _ ex_y [] []); [done |].
  apply (act_write 1 (mkEnd ex_fresh Known FlagSyn [] []) b (ex_spent (zlen b))); try done. by left.
Qed.

Lemma ex_link_one : linked 1 (mkLink (mkEnd (ex_spent 5) Known FlagNone ex_bytes []) ex_y [ex_msg] []).
Proof. apply (ex_writes ex_bytes). vm_compute. discriminate. Qed.

Lemma ex_link_two :
  linked 1 (mkLink (mkEnd (ex_spent 5) Known FlagNone ex_bytes []) (mkEnd ex_got Known FlagAck [] []) [] []).
Proof.
  destruct ex_link_one as (k0 & Hn & Hs). exists k0. split; [done |]. eapply rtc_r; [exact Hs |].
  apply step_here. apply (step_hear 1 ex_msg). apply (hear_known ex_msg ex_y ex_got); [done | done | | done].
  unfold violates. vm_compute. intuition discriminate.
Qed.

Lemma peers_never_violate_witness : ~ violates ex_msg ex_y.
Proof.
  exact (proj1 (peers_never_violate 1 (mkLink (mkEnd (ex_spent 5) Known FlagNone ex_bytes []) ex_y [ex_msg] []) ex_msg []
    ex_link_one) eq_refl).
Defined.

Lemma stream_delivers_witness : ex_bytes = [] ++ unread ex_got ++ data_under_way [].
Proof.
  destruct (stream_delivers 1 _ _ _ _ _ ex_link_two (or_introl eq_refl)) as (_ & _ & Hb).
  exact (proj1 (Hb ltac:(discriminate))).
Defined.

(** The whole window is written before anything arrives. *)
Lemma no_credit_deadlock_witness :
  let b := replicate (Z.to_nat DEFAULT_CREDIT) x00 in
  data_under_way [data_msg 1 FlagSyn b] <> [] \/ 0 < credit_under_way [] \/ recv_window ex_fresh = 0.
Proof.
  intros b. assert (Hb : zlen b = DEFAULT_CREDIT).
  { unfold b, zlen. rewrite length_replicate, Z2Nat.id; [reflexivity | vm_compute; discriminate]. }
  assert (Hl : linked 1 (mkLink (mkEnd (ex_spent (zlen b)) Known FlagNone b []) ex_y [data_msg 1 FlagSyn b] []))
    by (apply ex_writes; rewrite Hb; apply Z.le_refl).
  rewrite Hb in Hl.
  destruct (no_credit_deadlock 1 _ _ _ _ _ Hl (or_introl eq_refl) ltac:(discriminate)) as [Hd | [Hd | Hd]]; [reflexivity.. | | |].
  - left. exact Hd.
  - right. left. exact Hd.
  - right. right. exact (proj1 Hd).
Defined.
