(* ===== verification/ForwardProps.v ===== *)
(** * From the channels to the wire: the property

    The laws of [Forward.v] hold of the channels of [Fifo.v] and of framed sockets over a byte stream
    that does not fail; the theorem, and a connection on which it is tried. *)
From Stdlib Require Import ZArith Lia Strings.Byte.
From stdpp Require Import base option list gmap numbers.
From S2P Require Import Prelude.
From S2P Require Import Header.
From S2P Require Import Frame.
From S2P Require Import Config.
From S2P Require Import Command.
From S2P Require Import Shared.
From S2P Require Import Heap.
From S2P Require Import Channel.
From S2P Require Import TaggedStream.
From S2P Require Import StreamHandle.
From S2P Require Import FrameIo.
From S2P Require Import FrameIoSpec.
From S2P Require Import FrameRoundTrip.
From S2P Require Import Connection.
From S2P Require Import ConnInvariant.
From S2P Require Import ConnSteps.
From S2P Require Import ConnHandlers.
From S2P Require Import ConnLoop.
From S2P Require Import Forward.
From S2P Require Import FramedSocket.
From S2P Require Import Fifo.
From S2P Require Import System.
From S2P Require Import Example.

(** ** The laws hold *)

#[export] Instance fifo_fifo : FifoLaws.
Proof.
  refine {| queue := (fun r n => ch_queue (chan_at r n)) : Receiver -> Net -> _;
            known := (fun r n => (r < next_chan n)%positive) : Receiver -> Net -> Prop |}; simpl.
  - intros k n. split; [lia |]. intros r' Hr. split; [lia |]. unfold chan_at. simpl.
    by rewrite lookup_insert_ne by lia.
  - intros c n r Hr. split; [done |]. rewrite chan_at_set. by case_decide; subst.
  - intros c n r Hr. split; [done |]. unfold fifo_drop. rewrite chan_at_set. by case_decide; subst.
  - intros r cx n. unfold fifo_poll_next. destruct (ch_queue (chan_at r n)) as [|cmd q] eqn:E; simpl.
    + split; [done |]. by destruct (_ || _).
    + split; [intros r' Hr'; split; [done |]; intros Hne; rewrite chan_at_set; by rewrite decide_False by congruence |].
      by rewrite chan_at_set, decide_True.
  - intros r cx n. unfold fifo_poll_next. by destruct (ch_queue (chan_at r n)).
Defined.

#[export] Instance fair_trace : SelectAllTrace.
Proof.
  intros S N Item f P R Y Hrefl Htrans Hf q n Hq. simpl in *.
  assert (Hgen : forall asked n, Forall P asked ->
    let '(p, q', n') := fair_poll f asked q n in
    Forall P q' /\ match p with Ready (Some a) => exists n1, R n n1 /\ Y n1 a n' | _ => R n n' end).
  { clear n. induction Hq as [|s q Hs Hq IH]; intros asked n Ha; simpl; [by destruct asked |].
    specialize (Hf s n Hs). destruct (f s n) as [[r s'] n']. destruct Hf as [Hs' Hr].
    assert (Hgo : forall asked, Forall P asked -> R n n' ->
      let '(p, q', n2) := fair_poll f asked q n' in
      Forall P q' /\ match p with Ready (Some a) => exists n1, R n n1 /\ Y n1 a n2 | _ => R n n2 end).
    { intros asked' Ha' Hr'. specialize (IH asked' n' Ha'). destruct (fair_poll f asked' q n') as [[p q'] n2].
      destruct IH as [Hq' Hp]. split; [done |].
      destruct p as [[a|]|]; [| by eapply Htrans..].
      destruct Hp as (n1 & R1 & Hy). exists n1. split; [by eapply Htrans | done]. }
    destruct r as [[a|]|].
    - split; [| by exists n]. apply Forall_app. split; [done |]. apply Forall_app. split; [done | by apply Forall_singleton].
    - by apply Hgo.
    - apply Hgo; [| done]. apply Forall_app. split; [done | by apply Forall_singleton]. }
  by apply Hgen.
Qed.

(** A byte stream that does not fail: a write takes a byte at least, unless it has to wait. *)
Class ReliableIo `{AsyncIo} : Prop :=
  reliable_write : forall cx buf s, buf <> [] ->
    (io_poll_write cx buf s).1 <> Ready (Ok 0) /\ forall e, (io_poll_write cx buf s).1 <> Ready (Err e).

#[export] Instance script_reliable : ReliableIo.
Proof. intros cx buf s Hb. simpl. destruct buf as [|b buf]; [done |]. simpl. split; [intros [= Hz]; lia | done]. Qed.

Section reliable.
Context `{Arch} `{Hio : AsyncIo} `{!AsyncIoLaws, !ReliableIo}.

(** One write of what is left of [v]. *)
Lemma reliable_iter cx off (v : list byte) i k :
  0 <= off < zlen v -> zlen v <= usize_max ->
  (forall n s, 0 < n <= zlen v - off -> post (k (off + n)) (fun r _ => forall e, r <> Ready (Err e)) (set_io s i)) ->
  post (src ← lift (slice_from off v);
        r ← on_io (io_poll_write cx src);
        match r with
        | Pending => mret Pending
        | Ready (Err e) => mret (Ready (Err e))
        | Ready (Ok n) =>
            if n =? 0 then mret (Ready (Err WriteZero)) else
            offset ← lift (add_ usize_max off n);
            if zlen v <? offset then
              modify (set_write_state WritePoisoned) ≫= fun _ => mret (Ready (Err InvalidWriteCount))
            else k offset
        end) (fun (r : poll (result unit IoError)) _ => forall e, r <> Ready (Err e)) i.
Proof.
  intros Ho Hv Hk. apply post_bind, post_lift. rewrite slice_from_ret by lia. intros src [= <-]. apply post_bind.
  assert (Hl : zlen (drop (Z.to_nat off) v) = zlen v - off) by zlen_lia.
  assert (Hne : drop (Z.to_nat off) v <> []).
  { intros He. rewrite He in Hl. change (zlen []) with 0 in Hl. lia. }
  destruct (reliable_write cx _ (io i) Hne) as [Hz He].
  pose proof (io_write_law cx (drop (Z.to_nat off) v) (io i)) as Hlaw. rewrite Hl in Hlaw.
  unfold post at 1, on_io. destruct (io_poll_write _ _ _) as [[[n|e]|] s]; simpl in *; [| by destruct (He e) | done].
  destruct Hlaw as (_ & Hn & _). destruct (Z.eqb_spec n 0) as [-> |]; [done |].
  apply post_bind, post_lift. rewrite add_ret by lia. intros offset [= <-].
  destruct (Z.ltb_spec (zlen v) (off + n)); [lia |]. apply Hk. lia.
Qed.

Lemma ready_reliable fuel cx i :
  write_ok (write_state i) -> write_state i <> WritePoisoned ->
  post (poll_ready_loop fuel cx) (fun r _ => forall e, r <> Ready (Err e)) i.
Proof.
  revert i. induction fuel as [|fuel IH]; intros i Hok Hp; [done |].
  simpl. apply post_bind. unfold post at 1, gets. pose proof usize_max_u32 as Hu. unfold u32_max in Hu.
  destruct (write_state i) as [|h b off|b off|] eqn:Hws; [by apply post_ret | | | done].
  - destruct Hok as (Hh & Ho & Hb). unfold HEADER_SIZE in *. apply reliable_iter; [lia | lia |]. intros n s Hn.
    destruct (Z.eqb_spec (off + n) (zlen h)); apply post_bind; unfold post at 1, modify; apply IH; simpl;
      [case_decide; simpl; [done |] | by case_decide | unfold HEADER_SIZE; lia | done].
    destruct b as [|x b]; [done |]. rewrite zlen_cons in *. pose proof (zlen_nonneg b). lia.
  - destruct Hok as (Ho & Hb). apply reliable_iter; [lia | done |]. intros n s Hn.
    destruct (Z.eqb_spec (off + n) (zlen b)); apply post_bind; unfold post at 1, modify; apply IH; simpl; (done || lia).
Qed.

(** A sink that is not poisoned stays so. *)
Lemma inner_poison {A} (m : M Io A) s r s' (Q : A -> Io -> Prop) :
  on_inner m s = Ret (r, s') -> wp m Q (fu_io s) ->
  (forall i, Q r i -> write_state i = WritePoisoned -> write_state (fu_io s) = WritePoisoned) ->
  write_state (fu_io s) <> WritePoisoned -> write_state (fu_io s') <> WritePoisoned.
Proof.
  intros Hm Hw HQ Hp. unfold on_inner, zoom in Hm. unfold wp in Hw.
  destruct (m (fu_io s)) as [[a i]| |]; [| done..]. injection Hm as <- <-. intros Hi. by apply Hp, (HQ i).
Qed.

Lemma framed_writable (s : Fused) : write_state (fu_io s) <> WritePoisoned -> writable s.
Proof.
  intros Hs. exists (fun s : Fused => write_state (fu_io s) <> WritePoisoned). split; [exact Hs |]. clear s Hs. split.
  - intros cx s r s' Hp Hok Hs. simpl in *. split.
    + eapply inner_poison; [exact Hs | by apply io_poll_ready_ok, Hok | | done]. intros i (_ & _ & _ & Hi & _). apply Hi.
    + unfold on_inner, zoom in Hs. pose proof (ready_reliable (S (length (unsent (write_state (fu_io s))))) cx _ (proj2 Hok) Hp) as Hr.
      unfold post in Hr. unfold io_poll_ready in Hs. destruct (poll_ready_loop _ _ _) as [[a i]| |]; [| done..].
      by injection Hs as <- <-.
  - intros f s r s' Hp Hok Hs. simpl in *. unfold on_inner, zoom in Hs. simpl in Hs. by injection Hs as <- <-.
  - intros cx s r s' Hp Hok Hs. simpl in *.
    eapply inner_poison; [exact Hs | by apply io_sink_flush_ok, Hok | | done]. intros i (_ & _ & _ & Hi & _). apply Hi.
  - intros cx s r s' Hp Hok Hs. pose proof (framed_next_ok cx s Hok) as Hn. unfold wp in Hn. rewrite Hs in Hn.
    destruct Hn as (_ & _ & Hw & _). by rewrite Hw.
Qed.
End reliable.

(** ** The property *)

(** C12: what the streams hand to their channels reaches the wire, and nothing else does. On a socket to
    which writes do not fail, whatever a poll of an active connection does that does not end in an
    error, and however many frames it reads and handles: the frames it has sent and the one that is
    pending are, apart from pings and other frames of the connection itself, exactly the one that was
    pending before and those of a sequence of events, in this order. An event is a command that was
    taken from one of the channels of the connection, sent under the identifier of the stream of that
    channel; or it is the end of the channel of a stream that was open, whose frame is a reset or a FIN
    without data: every command that was in that channel comes before it, and a stream ends once. What
    has been taken from each channel is what was at the front of its queue. ([tidy]: every receiver of
    the connection is one of [own], its tag is the identifier [name] of its stream, and a frame that
    answers the remote is a ping or a [GoAway].) *)
Theorem commands_reach_the_wire `{Arch, Mpsc, SelectAllOps, FrameSocket, MapOrder}
    `{!MpscLaws, !SelectAllLaws, !FrameSocketLaws, !FrameSocketWire}
    `{!FifoLaws, !SelectAllTrace, EqDecision Receiver}
    (usize_wide : u32_max + u32_max <= usize_max) cfg E fuel cx a w own name :
  conn_ok cfg E a w -> tidy own name (a, w) ->
  post (active_poll fuel cx) (fun p '(a', w') => (forall e, p <> Ready (Err e)) ->
    exists (ev : list event) (out : list sent),
      sock_wire (ac_socket a') = sock_wire (ac_socket a) ++ wires (map sent_frame out) /\
      omap sent_event out ++ option_list (ac_pending_write_frame a') =
        option_list (ac_pending_write_frame a) ++ map event_frame ev /\
      Forall sent_ok out /\
      (forall r, known r (net w) -> queue r (net w) = taken r ev ++ queue r (net w')) /\
      (forall r id c, Took r id c ∈ ev -> own r /\ id = name r) /\
      (forall ev1 r id f ev2, ev = ev1 ++ Shut r id f :: ev2 ->
        (own r /\ id = name r /\ shut_frame id f) /\
        is_Some (ac_streams a !! id) /\ queue r (net w) = taken r ev1) /\
      NoDup (shut_ids ev)) (a, w).
Proof.
  intros Hok Ht. eapply post_mono; [by apply (active_poll_forwards usize_wide own name cfg E) |].
  intros p [a' w'] Hf Hne.
  assert (Hev : exists ev, forwards own name ev (a, w) (a', w')).
  { destruct p as [[st|e]|]; [exact Hf | by destruct (Hne e) | destruct Hf as (ev & F & _); by exists ev]. }
  destruct Hev as (ev & [(out & Hw & Hp & Ho) Hq He Hl Hn Hs]). exists ev, out. rewrite Forall_forall in He.
  split_and!; try done.
  - intros r Hr. by apply Hq.
  - intros r id c Hin. apply list_elem_of_In in Hin. by apply (He _ Hin).
  - intros ev1 r id f ev2 ->. split; [apply (He (Shut r id f)), in_elt |]. split; [apply Hs | by eapply Hl].
    rewrite shut_ids_app. apply elem_of_app. right. by left.
Qed.

(** ** A connection with a command to send *)

(** The stream of the example has asked to be closed. *)
Definition fw_world : @World fifo :=
  set_net (sender_start_send (st_sender ex_handle) (CloseStream true) (net (snd ex_one))).2 (snd ex_one).
Definition fw_name : @Receiver fifo -> Z := fun _ => 1.

Lemma fw_conn_ok : conn_ok ex_cfg ex_refs (fst ex_one) fw_world.
Proof. apply conn_ok_net; [apply ex_one_ok |]. apply net_send_law; [apply ex_one_ok | exact I]. Qed.

Definition fw_own (r : @Receiver fifo) : Prop := r = 1%positive.

Lemma fw_tidy : tidy fw_own fw_name (fst ex_one, fw_world).
Proof.
  split.
  - assert (Hr : ac_receivers (fst ex_one) = [mkTagged 1 (1%positive : @Receiver fifo) false]) by (vm_compute; reflexivity).
    simpl. rewrite Hr. by apply Forall_singleton.
  - assert (Hr : ac_pending_read_frame (fst ex_one) = None) by (vm_compute; reflexivity). simpl. by rewrite Hr.
  - apply framed_writable. vm_compute. discriminate.
  - intros r ->. vm_compute. reflexivity.
Qed.

(** A poll that takes the command and sends its frame. *)
Lemma commands_reach_the_wire_witness :
  exists p a' w', active_poll 20 5%positive (fst ex_one, fw_world) = Ret (p, (a', w')) /\
    exists ev out,
      sock_wire (ac_socket a') = sock_wire (ac_socket (fst ex_one)) ++ wires (map sent_frame out) /\
      omap sent_event out ++ option_list (ac_pending_write_frame a') = map event_frame ev /\
      [CloseStream true] = taken (1%positive : @Receiver fifo) ev.
Proof.
  pose proof (commands_reach_the_wire ex_wide ex_cfg ex_refs 20 5%positive _ _ fw_own fw_name fw_conn_ok fw_tidy) as Hp.
  assert (Hrun : match active_poll 20 5%positive (fst ex_one, fw_world) with
    | Ret (Ready (Err _), _) => false
    | Ret (_, (_, w')) => bool_decide (queue (1%positive : @Receiver fifo) (net w') = [])
    | _ => false end = true) by (vm_compute; reflexivity).
  unfold post in Hp. destruct (active_poll 20 5%positive (fst ex_one, fw_world)) as [[p [a' w']]| |]; [| done..].
  exists p, a', w'. split; [done |]. destruct Hp as (ev & out & Hw & Ho & _ & Hq & _).
  { intros e ->. discriminate Hrun. }
  exists ev, out. split; [exact Hw |]. split.
  { rewrite Ho. assert (Hn : ac_pending_write_frame (fst ex_one) = None) by (vm_compute; reflexivity). by rewrite Hn. }
  pose proof (Hq (1%positive : @Receiver fifo) ltac:(vm_compute; reflexivity)) as Hq1.
  assert (Hempty : queue (1%positive : @Receiver fifo) (net w') = []).
  { destruct p as [[]|]; [by apply bool_decide_eq_true in Hrun | discriminate Hrun | by apply bool_decide_eq_true in Hrun]. }
  assert (Hfront : queue (1%positive : @Receiver fifo) (net fw_world) = [CloseStream true]) by (vm_compute; reflexivity).
  rewrite Hempty, Hfront, app_nil_r in Hq1. exact Hq1.
Defined.
