(* ===== verification/PeersProps.v ===== *)
(** * Two connections: the properties

    What the programs at both sides rely on when a client and a server talk over a pair of byte streams,
    in every interleaving of their operations; the laws of [Transport.v] for the channels of [Fifo.v]; and
    clients that send bytes to a server, and close, on which the theorems are tried. *)
From Stdlib Require Import ZArith Lia Strings.Byte.
From stdpp Require Import base option list gmap relations numbers.
From S2P Require Import Prelude.
From S2P Require Import Header.
From S2P Require Import Frame.
From S2P Require Import Config.
From S2P Require Import Command.
From S2P Require Import ChunkList.
From S2P Require Import FlowControl.
From S2P Require Import Shared.
From S2P Require Import Heap.
From S2P Require Import Channel.
From S2P Require Import TaggedStream.
From S2P Require Import StreamHandle.
From S2P Require Import StreamSpec.
From S2P Require Import Link.
From S2P Require Import FrameIo.
From S2P Require Import FrameIoSpec.
From S2P Require Import FrameRoundTrip.
From S2P Require Import Connection.
From S2P Require Import ConnInvariant.
From S2P Require Import ConnLoop.
From S2P Require Import ConnectionState.
From S2P Require Import Forward.
From S2P Require Import FramedSocket.
From S2P Require Import Fifo.
From S2P Require Import System.
From S2P Require Import Example.
From S2P Require Import ForwardProps.
From S2P Require Import Joined.
From S2P Require Import Transport.
From S2P Require Import PeerStore.
From S2P Require Import PeerSteps.
From S2P Require Import Parting.
From S2P Require Import PeerMethods.
From S2P Require Import Peers.

(** ** The laws hold *)

#[export] Instance fifo_channels : ChannelLaws.
Proof.
  refine {| target := (fun c => c) : Sender -> Receiver;
            live := (fun r n => if ch_closed (chan_at r n) then None else Some (ch_senders (chan_at r n))) : Receiver -> Net -> _ |};
    simpl.
  - intros k n. unfold fifo_channel. simpl. assert (Hnew : forall r', (r' < next_chan n)%positive -> r' <> next_chan n) by (intros r' Hr ->; lia).
    split_and!; [done | lia | | |]; unfold chan_at; simpl; rewrite ?lookup_insert_eq; try done.
    intros r' Hr. by rewrite lookup_insert_ne by (apply not_eq_sym, Hnew, Hr).
  - intros c n. unfold fifo_clone. split_and!; [done | |].
    + rewrite chan_at_set, decide_True by done. simpl. by destruct (ch_closed _).
    + intros r Hr. by rewrite chan_at_set, decide_False by congruence.
  - intros c n. unfold fifo_drop. split.
    + rewrite chan_at_set, decide_True by done. simpl. by destruct (ch_closed _).
    + intros r Hr. by rewrite chan_at_set, decide_False by congruence.
  - done.
  - intros c cx n r Hr. unfold fifo_poll_flush. destruct (fifo_poll_ready c cx n) as [p n'] eqn:He.
    assert (n' = n) as -> by (unfold fifo_poll_ready in He; by injection He as _ <-). by destruct p as [[]|].
  - intros c cmd n r Hr. unfold fifo_start_send. destruct (ch_closed (chan_at c n)) eqn:Hc; [done |]. intros _. simpl.
    rewrite chan_at_set. split_and!; [done | | |]; case_decide as E; try done; subst; simpl; by rewrite ?Hc.
  - intros r cx n. unfold fifo_poll_next. destruct (ch_queue (chan_at r n)) as [|c q] eqn:E.
    + split; [done |]. intros Hp. split; [done |]. intros k. destruct (ch_closed (chan_at r n)); [done |].
      intros [= <-]. simpl in Hp. destruct (Nat.eqb_spec (ch_senders (chan_at r n)) 0); done.
    + split; [| done]. intros r' Hr. rewrite chan_at_set. case_decide as E'; [by subst | done].
Defined.

#[export] Instance fifo_closed : ClosedChannels.
Proof.
  split; simpl.
  - intros r n r' Hr. unfold fifo_close. rewrite chan_at_set.
    split_and!; [done | by case_decide; [subst |] | intros ->; by rewrite decide_True | intros Hne; by rewrite decide_False by congruence].
  - intros c cmd n. unfold fifo_start_send. by destruct (ch_closed (chan_at c n)).
Qed.

(** A member that is asked stays until it has ended. *)
Lemma fair_in {S N Item : Type} (f : S -> N -> poll (option Item) * S * N) (P : S -> Prop) (I E : N -> Prop) :
  (forall s n, I n -> let '(_, s', n') := f s n in I n' /\ (E n -> E n')) ->
  (forall s n, P s -> I n -> let '(r, s', n') := f s n in E n' \/ P s' /\ r <> Ready None) ->
  forall q asked n, I n -> E n \/ (exists s, s ∈ asked ++ q /\ P s) ->
    let '(p, q', n') := fair_poll f asked q n in E n' \/ (exists s, s ∈ q' /\ P s).
Proof.
  intros HI HP q. induction q as [|s q IH]; intros asked n Hn Hs; simpl; [by rewrite app_nil_r in Hs |].
  specialize (HI s n Hn). specialize (HP s n). destruct (f s n) as [[r s'] n']. destruct HI as [Hn' HE].
  assert (Hs' : E n' \/ (exists t, t ∈ asked ++ q /\ P t) \/ P s' /\ r <> Ready None).
  { destruct Hs as [He | (t & Ht & HPt)]; [left; auto |]. apply elem_of_app in Ht as [Ht | [-> | Ht]%elem_of_cons].
    - right; left. exists t. split; [apply elem_of_app; by left | done].
    - destruct (HP HPt Hn); auto.
    - right; left. exists t. split; [apply elem_of_app; by right | done]. }
  destruct r as [[a|]|].
  - destruct Hs' as [| [(t & Ht & HPt) | [HPs _]]]; [by left | right..].
    + exists t. split; [| done]. rewrite !elem_of_app in *. tauto.
    + exists s'. split; [| done]. rewrite !elem_of_app. right. right. by apply list_elem_of_singleton.
  - apply IH; [done |]. destruct Hs' as [| [| [_ ?]]]; [by left | by right | done].
  - apply IH; [done |]. destruct Hs' as [| [(t & Ht & HPt) | [HPs _]]]; [by left | right..].
    + exists t. split; [| done]. rewrite !elem_of_app in *. tauto.
    + exists s'. split; [| done]. rewrite !elem_of_app. left. right. by apply list_elem_of_singleton.
Qed.

#[export] Instance fair_members : SelectAllMembers.
Proof.
  refine {| select_all_in := fun S (s : S) (q : SelectAll S) => s ∈ (q : list S) |}; simpl.
  - intros S P q. apply list.Forall_forall.
  - intros S s s' q Hs. apply elem_of_app. destruct Hs as [-> | Hs]; [right; by apply list_elem_of_singleton | by left].
  - intros S N Item f P I E HI HP q n Hn Hs. by apply (fair_in f P I E).
  - intros S N f I J s q n Hs HI HJ. revert n. induction q as [|t q IH]; intros n Hn; [by apply not_elem_of_nil in Hs |].
    simpl. apply elem_of_cons in Hs as [<- | Hs]; [| apply IH; [done | by apply HI]].
    assert (Hj : I (f s n) /\ J (f s n)) by (split; [by apply HI | by apply HJ]). revert Hj. generalize (f s n). clear -HI.
    induction q as [|t q IH]; intros n [Hn Hj]; simpl; [done |]. apply IH. destruct (HI t n Hn). auto.
Defined.

(** Asking all receivers in turn, none of which holds a command in the end. *)
Lemma fair_drain cx (q asked : list (TaggedStream Z Receiver)) n p q' n' :
  fair_poll (tagged_poll_next (receiver_poll cx)) asked q n = (p, q', n') -> (forall item, p <> Ready (Some item)) ->
  n' = n /\ forall t, t ∈ q -> ts_reported_none t = false -> queue (ts_inner t) n = [].
Proof.
  revert asked. induction q as [|s q IH]; intros asked He Hp; simpl in He.
  { injection He as _ _ <-. split; [done |]. by intros t ?%not_elem_of_nil. }
  match type of He with match ?e with _ => _ end = _ => destruct e as [[r s'] n1] eqn:Hr end.
  assert (Hs : (forall a, r <> Ready (Some a)) -> n1 = n /\ (ts_reported_none s = false -> queue (ts_inner s) n = [])).
  { destruct s as [k c []]; unfold tagged_poll_next, receiver_poll in Hr; simpl in Hr; [by injection Hr as <- _ <- |].
    unfold fifo_poll_next in Hr. destruct (ch_queue (chan_at c n)) as [|cmd l] eqn:Hq.
    - intros Ha. split; [| done]. by destruct (ch_closed _ || _); simplify_eq.
    - intros Ha. simplify_eq. by destruct (Ha (k, Some cmd)). }
  assert (Hgo : (forall a, r <> Ready (Some a)) -> forall l,
    fair_poll (tagged_poll_next (receiver_poll cx)) l q n1 = (p, q', n') ->
    n' = n /\ forall t, t ∈ s :: q -> ts_reported_none t = false -> queue (ts_inner t) n = []).
  { intros Ha l Hl. destruct (Hs Ha) as [-> Hq]. destruct (IH l Hl Hp) as [-> Hq']. split; [done |].
    by intros t [-> | Ht]%elem_of_cons; [| apply Hq']. }
  destruct r as [[a|]|]; [injection He as <- _ _; by destruct (Hp a) | by eapply Hgo..].
Qed.

#[export] Instance fifo_drain : DrainLaws.
Proof.
  intros cx rs n. destruct (select_all_poll_next _ rs n) as [[p q'] n'] eqn:He. intros Hp r _ (t & Ht & <- & Hn).
  destruct (fair_drain cx rs [] n p q' n' He Hp) as [-> Hq]. by apply Hq.
Qed.

(** ** The properties *)

Section peers.
Context `{Arch, Mpsc, SelectAllOps, FrameSocket, MapOrder}.
Context `{!MpscLaws, !SelectAllLaws, !FrameSocketLaws, !FrameSocketWire}.
Context `{!FifoLaws, !ChannelLaws, !SelectAllTrace, !SelectAllMembers, !FrameSocketReads}.
Context `{!ClosedChannels, !DrainLaws, !ReadySenders, EqDecision Receiver}.
Hypothesis usize_wide : u32_max + u32_max <= usize_max.
Variable cfg : Mode -> Config.

(** A state that some interleaving reaches from two new connections. *)
Definition met (p : Peers) : Prop :=
  exists socket clk n,
    (forall m, config_ok (cfg m)) /\ (forall m i, instant_ok (clk m i)) /\ (forall m, net_ok (n m)) /\
    (forall m, sock_ok (socket m) /\ writable (socket m) /\ sock_wire (socket m) = [] /\ sock_read (socket m) = []) /\
    rtc (peer_step cfg) (peers_new cfg socket clk n) p.

Lemma met_ok p : met p -> peers_ok cfg p.
Proof.
  intros (socket & clk & n & Hc & Hk & Hn & Hs & Hr). by eapply (peers_steps_ok cfg usize_wide); [apply peers_new_ok |].
Qed.

(** C3: reliable delivery, end to end. A client and a server run over a pair of byte streams to which no
    write fails, each a connection with any number of programs that open, read, write, close and drop
    streams in any order; a connection that is active is polled only while it has room for one more
    stream, that is, fewer streams than its limit. Either connection may be closed or dropped, or may
    fail because of what it reads, at any time, while its programs go on with their handles. In every
    interleaving of the two, what the programs at one side have taken from a stream is a beginning of
    what those at the other side have written to it: no byte is lost in between, repeated, reordered,
    made up or given to another stream, in either direction. (A write that fails is another matter:
    [Active::poll] ignores the error, and may then write over a frame of which it has sent a part.) *)
Theorem peers_deliver p m id :
  met p -> delivered_by id (sd_trace (side m p)) `prefix_of` accepted_by id (sd_trace (side (peer m) p)).
Proof.
  intros (v & Hj & Hs)%met_ok. destruct (seen_deeds _ _ _ _ id (Hs m)) as [_ Hd], (seen_deeds _ _ _ _ id (Hs (peer m))) as [Ha _].
  etrans; [exact Hd |]. etrans; [by apply joined_had |]. exact Ha.
Qed.

(** Both connections are active. *)
Definition both_active (p : Peers) : Prop := forall m, exists a, sy_state (sd_sys (side m p)) = StActive a.

Lemma seen_active m v x a :
  seen_as cfg m v x -> sy_state (sd_sys x) = StActive a ->
  exists ps, sd_wire x = sock_wire (ac_socket a) /\ session v (a, sy_world (sd_sys x)) /\
    stored_in (sy_handles (sd_sys x)) v ps (a, sy_world (sd_sys x)) /\
    forall id, (wrote_at v id, took_at v id) = deeds_of (sd_trace x) id.
Proof. intros [_ Hk] Ha. rewrite Ha in Hk. destruct Hk as ([-> _] & _ & Hse & [ps Hst] & Hd). by exists ps. Qed.

(** A side whose programs' writes are all with its view: its connection is active, or has closed in order. *)
Definition faithful (x : Side) : Prop := (exists a, sy_state (sd_sys x) = StActive a) \/ farewelled x.

Lemma faithful_wrote m v y x id :
  seen_as cfg m v x -> joined v y -> faithful x -> wrote_at v id = accepted_by id (sd_trace x).
Proof.
  intros Hs Hj [[a Ha] | Hf].
  - destruct (seen_active _ _ _ _ Hs Ha) as (ps & _ & _ & _ & Hd). specialize (Hd id). by injection Hd as -> _.
  - destruct (farewelled_sealed _ _ _ _ _ Hs Hj Hf) as (_ & Hd & _). by rewrite <- Hd.
Qed.

(** C4: the end of a stream is the end. Over byte streams to which no write fails, between connections
    that are polled while active only with room for one more stream, and with [read_after_close] set at
    the reader: when a read into a buffer with room returns no bytes, then everything that the other
    side has written to the stream has been delivered, whether the writer has closed the stream, reset
    it or dropped its handle, and in whatever order that has arrived with the data, as long as the
    connection of the reader is active and that of the writer is so too or has closed in order. *)
Theorem peers_complete p m a i h cx buf buf' s' :
  met p -> sy_state (sd_sys (side m p)) = StActive a -> faithful (side (peer m) p) ->
  read_after_close (cfg m) = true -> sy_handles (sd_sys (side m p)) !! i = Some h ->
  buf <> [] -> zlen buf <= usize_max ->
  poll_read cx buf (h, sy_world (sd_sys (side m p))) = Ret ((Ready (Ok 0), buf'), s') ->
  delivered_by (st_id h) (sd_trace (side m p)) = accepted_by (st_id h) (sd_trace (side (peer m) p)).
Proof.
  intros (v & Hj & Hs)%met_ok Ha Hfa Hrac Hi Hne Hbuf He.
  destruct (sys_handle (cfg m) _ _ _ (sa_ok _ _ _ _ (Hs m)) Hi) as [sh Hh]. pose proof Hh as (_ & _ & _ & k & Hc). simpl in Hc.
  destruct (seen_active _ _ _ _ (Hs m) Ha) as (ps & _ & _ & Hst & _).
  destruct (sd_handle _ _ _ _ _ _ _ Hst _ ltac:(by eapply list_elem_of_lookup_2)) as (x & q & r & Hx & _ & _ & Hnd & _ & _ & _ & k' & Hc').
  simpl in Hc'. rewrite Hc in Hc'. injection Hc' as _ Hsh.
  destruct (seen_handle cfg _ _ _ _ _ _ (Hs m) Hi Hc) as (x' & q' & Hx' & _ & Hdel). rewrite Hx in Hx'. injection Hx' as <- <-.
  pose proof (poll_read_ok (cfg m) h _ _ cx buf Hh Hbuf) as Hr. unfold wp in Hr. rewrite He in Hr. destruct s' as [h' w'].
  destruct Hr as (sh' & _ & [(Hk & _ & _ & _ & Hcr) | (_ & _ & _ & _ & _ & Hno & _)]); [| congruence].
  specialize (Hcr eq_refl). rewrite Hsh in Hcr. pose proof (joined_complete _ _ _ _ _ (Hj m) Hx Hnd Hcr) as Hall.
  assert (Hu : unread sh = []).
  { destruct buf as [|b0 buf]; [done |]. rewrite zlen_cons in Hk. pose proof (zlen_nonneg buf).
    destruct (unread sh) as [|b bs]; [done |]. rewrite zlen_cons in Hk. pose proof (zlen_nonneg bs). lia. }
  rewrite <- (faithful_wrote _ _ _ _ _ (Hs (peer m)) (joined_sym _ _ (Hj m)) Hfa), Hall, Hdel. simpl. by rewrite Hu, app_nil_r.
Qed.

(** C6: two connections never complain about each other, as long as no write to their byte streams fails
    and each of them is polled, while it is active, only when it has room for one more stream (one that
    is full answers a new stream with a [GoAway]). What a connection gives to its socket, in every such
    interleaving of the two sides, whether it stays active, closes, fails or is dropped, is a sequence
    of well-formed frames, each of which belongs to a stream, asks for a ping or answers one, and
    perhaps the one [GoAway] of a connection that closes in order, or a part of it, and nothing after
    that: the connection never finds a window exceeded, an unexpected SYN or an unsolicited pong. What
    an active connection still holds back is of this kind too. *)
Theorem peers_polite p m :
  met p ->
  exists fs, Forall (fun f => frame_wf f /\ courteous f) fs /\
    sd_wire (side m p) `prefix_of` wires fs ++ frame_wire (frame_erase frame_term) /\
    forall a, sy_state (sd_sys (side m p)) = StActive a ->
      sock_wire (ac_socket a) = wires fs /\
      (forall f, ac_pending_read_frame a = Some f -> exists n, f = answering n) /\
      (forall f, ac_pending_write_frame a = Some f -> stream_frame f).
Proof.
  intros (v & Hj & Hs)%met_ok. destruct (Hj m) as (fx & fy & [_ [Hw Hf Hp _ _] _ _]). exists (vw_sent (v m)).
  split; [done |]. split; [rewrite <- wires_snoc; by eapply seen_wire |]. intros a Ha.
  destruct (seen_active _ _ _ _ (Hs m) Ha) as (ps & _ & [A1 A2 A3 A4 A5 A6 A7] & _). simpl in *. split_and!; [done | |].
  - intros f Hf'. rewrite A6 in Hf'. destruct (vw_pong (v m)) as [n|]; [| done]. injection Hf' as <-. by exists n.
  - intros f Hf'. apply Hp. congruence.
Qed.

(** The end of a stream that a handle is for. *)
Definition end_at (e : End) (c : Cell) (h : Stream) (t : list Deed) : Prop :=
  en_sh e = contents c /\ en_flag e = st_flag h /\
  en_wrote e = accepted_by (st_id h) t /\ en_took e = delivered_by (st_id h) t.

Lemma view_end m v x i h c a :
  seen_as cfg m v x -> sy_state (sd_sys x) = StActive a -> sy_handles (sd_sys x) !! i = Some h -> cells (mem (sy_world (sd_sys x))) !! st_shared h = Some c ->
  exists e q, vw_streams v !! st_id h = Some (e, q) /\ en_status e <> Dropped /\ end_at e c h (sd_trace x).
Proof.
  intros Hs Ha Hi Hc. destruct (seen_active _ _ _ _ Hs Ha) as (ps & _ & _ & Hst & Hd).
  assert (Hin : h ∈ sy_handles (sd_sys x)) by (by eapply list_elem_of_lookup_2).
  destruct (sd_handle _ _ _ _ _ _ _ Hst _ Hin) as (e & q & r & Hx & _ & Hf & Hnd & _ & _ & _ & k & Hc').
  simpl in Hc'. rewrite Hc in Hc'. injection Hc' as ->. exists e, q. split; [done |]. split; [done |].
  specialize (Hd (st_id h)). unfold wrote_at, took_at in Hd. rewrite Hx in Hd. by injection Hd as ? ?.
Qed.

(** The frames of the stream of [h] that its side has under way: those on the wire, the one that the
    connection holds back, and those that the commands in the channel of the handle ask for. *)
Definition under_way (m : Mode) (p : Peers) (h : Stream) (fs : list (Frame unit)) : Prop :=
  exists a wire, sy_state (sd_sys (side m p)) = StActive a /\ Forall frame_wf wire /\
    sd_wire (side m p) = sd_read (side (peer m) p) ++ wires wire /\
    fs = of_stream (st_id h) wire ++ of_stream (st_id h) (option_list (ac_pending_write_frame a)) ++
         map (command_frame (st_id h)) (queue (target (st_sender h)) (net (sy_world (sd_sys (side m p))))).

Lemma seen_under_way p m (v : Mode -> View) fx fy i h :
  (forall m, seen_as cfg m (v m) (side m p)) -> both_active p -> joined_by (v m) (v (peer m)) fx fy ->
  sy_handles (sd_sys (side m p)) !! i = Some h -> under_way m p h (outgoing (v m) fx (st_id h)).
Proof.
  intros Hs Hact Hby Hi. destruct (Hact m) as [a Ha], (Hact (peer m)) as [b Hb]. exists a, fx.
  destruct (seen_active _ _ _ _ (Hs m) Ha) as (ps & Hw & Hse & Hst & _).
  pose proof (half_way _ _ _ _ (jo_here _ _ _ _ Hby)) as Hfx. destruct Hby as [_ [Hway _ _ _ _] _ _].
  assert (Hrd : sd_read (side (peer m) p) = wires (vw_got (v (peer m)))).
  { destruct (Hs (peer m)) as [_ Hk]. rewrite Hb in Hk. destruct Hk as ([_ ->] & _ & Hse' & _). apply Hse'. }
  assert (Hin : h ∈ sy_handles (sd_sys (side m p))) by (by eapply list_elem_of_lookup_2).
  destruct (sd_handle _ _ _ _ _ _ _ Hst _ Hin) as (x & q & r & Hx & Hp & _ & _ & <- & _).
  destruct (sd_strand _ _ _ _ _ _ _ Hst _ _ _ Hx) as (l' & r' & Hp' & _ & Hq & _). rewrite Hp in Hp'. injection Hp' as _ <-.
  split_and!; [done | eapply Forall_impl; [| exact Hfx]; by intros f [? _] | |].
  - rewrite Hw, Hrd, <- wires_app, <- Hway. apply (se_sent _ _ Hse).
  - unfold outgoing, waiting_in. rewrite Hx, (se_pend _ _ Hse). simpl. by rewrite Hq.
Qed.

(** Both ends of a stream, each with a handle. *)
Lemma peers_ends p m i j h h' c c' :
  peers_ok cfg p -> both_active p -> sy_handles (sd_sys (side m p)) !! i = Some h -> sy_handles (sd_sys (side (peer m) p)) !! j = Some h' ->
  st_id h' = st_id h ->
  cells (mem (sy_world (sd_sys (side m p)))) !! st_shared h = Some c ->
  cells (mem (sy_world (sd_sys (side (peer m) p)))) !! st_shared h' = Some c' ->
  exists a e e' out inn, sy_state (sd_sys (side m p)) = StActive a /\
    linked (st_id h) (oriented (ac_mode a) (st_id h) (mkLink e e' out inn)) /\
    end_at e c h (sd_trace (side m p)) /\ end_at e' c' h' (sd_trace (side (peer m) p)) /\
    under_way m p h out /\ under_way (peer m) p h' inn.
Proof.
  intros (v & Hj & Hs) Hact Hi Hj' Hid Hc Hc'. destruct (Hact m) as [a Ha], (Hact (peer m)) as [b Hb].
  destruct (view_end _ _ _ _ _ _ _ (Hs m) Ha Hi Hc) as (x & q & Hx & _ & Ex).
  destruct (view_end _ _ _ _ _ _ _ (Hs (peer m)) Hb Hj' Hc') as (x' & q' & Hx' & _ & Ex').
  destruct (Hj m) as (fx & fy & Hby). pose proof (seen_under_way p m v fx fy i h Hs Hact Hby Hi) as Hout.
  assert (Hby' : joined_by (v (peer m)) (v (peer (peer m))) fy fx) by (rewrite peer_peer; by apply joined_by_sym).
  pose proof (seen_under_way p (peer m) v fy fx j h' Hs Hact Hby' Hj') as Hinn.
  rewrite Hid in Hx', Hinn. destruct Hby as [_ _ _ Hst].
  destruct (paired_known _ _ _ _ _ _ _ (Hst (st_id h)) Hx) as (_ & e' & He' & Hl).
  unfold end_of in He'. rewrite Hx' in He'. destruct He' as [-> _].
  destruct (seen_active _ _ _ _ (Hs m) Ha) as (ps & _ & Hse & _). rewrite (se_mode _ _ Hse) in Hl.
  by exists a, x, x', (outgoing (v m) fx (st_id h)), (outgoing (v (peer m)) fy (st_id h)).
Qed.

(** C7: a stream of two connections is one run of the machine of [Link]. In every interleaving over byte
    streams on which no write fails, as long as both connections are active, each of which is polled
    only while it has room for one more stream: the records of a stream at the two sides, with the
    flags of the handles and all that has been written and taken so far, are the two ends of a state
    that the machine reaches from a new stream. What is under way in it, in each direction, are the
    frames of this stream among those that make up the bytes that one socket has been given and the
    other has not yet delivered, then the one that the connection holds back, and then those that the
    commands in the channel of the handle ask for, in this order. *)
Theorem peers_linked p m i j h h' c c' :
  met p -> both_active p -> sy_handles (sd_sys (side m p)) !! i = Some h -> sy_handles (sd_sys (side (peer m) p)) !! j = Some h' ->
  st_id h' = st_id h ->
  cells (mem (sy_world (sd_sys (side m p)))) !! st_shared h = Some c ->
  cells (mem (sy_world (sd_sys (side (peer m) p)))) !! st_shared h' = Some c' ->
  exists a e e' out inn, sy_state (sd_sys (side m p)) = StActive a /\
    linked (st_id h) (oriented (ac_mode a) (st_id h) (mkLink e e' out inn)) /\
    end_at e c h (sd_trace (side m p)) /\ end_at e' c' h' (sd_trace (side (peer m) p)) /\
    under_way m p h out /\ under_way (peer m) p h' inn.
Proof. intros Hp%met_ok. by apply peers_ends. Qed.

(** C8: flow control, end to end. In every interleaving over byte streams to which no write fails, as
    long as both connections are active, each of which is polled only while it has room for one more
    stream: however the frames of many streams are mixed on the wire, the credit that a writer has for a
    stream never exceeds the receive window of its reader at the other side. *)
Theorem peers_windows p m i j h h' c c' :
  met p -> both_active p -> sy_handles (sd_sys (side m p)) !! i = Some h -> sy_handles (sd_sys (side (peer m) p)) !! j = Some h' ->
  st_id h' = st_id h ->
  cells (mem (sy_world (sd_sys (side m p)))) !! st_shared h = Some c ->
  cells (mem (sy_world (sd_sys (side (peer m) p)))) !! st_shared h' = Some c' ->
  send_window (contents c) <= recv_window (contents c').
Proof.
  intros Hp%met_ok Hact Hi Hj Hid Hc Hc'.
  destruct (peers_ends p m i j h h' c c' Hp Hact Hi Hj Hid Hc Hc') as (a & e & e' & out & inn & _ & Hl & E & E' & _).
  destruct (linked_sides _ _ _ _ _ _ Hl) as (Hd & Hd' & _). destruct E as [<- _], E' as [<- _].
  pose proof (do_bound _ _ _ _ Hd). pose proof (credit_under_way_nonneg _ (do_frames _ _ _ _ Hd')).
  pose proof (zlen_nonneg (data_under_way out)). lia.
Qed.
(** *** Nothing under way *)

(** All that its programs have written has been sent: nothing waits, or its connection has closed in
    order. *)
Definition all_sent (m : Mode) (p : Peers) : Prop :=
  (exists a, sy_state (sd_sys (side m p)) = StActive a /\ ac_pending_write_frame a = None /\
     forall r, known r (net (sy_world (sd_sys (side m p)))) -> queue r (net (sy_world (sd_sys (side m p)))) = []) \/
  farewelled (side m p).

Lemma all_sent_outgoing p m (v : Mode -> View) fx fy :
  all_sent m p -> sd_read (side (peer m) p) = sd_wire (side m p) -> (forall m, seen_as cfg m (v m) (side m p)) ->
  joined_by (v m) (v (peer m)) fx fy -> forall id, outgoing (v m) fx id = [].
Proof.
  intros Has Hr Hs Hby id. pose proof (seen_read _ _ _ _ (Hs (peer m))) as Hrd.
  assert (He : emptied (v m) /\ (sd_read (side (peer m) p) = wires (vw_sent (v m)) \/
    sd_read (side (peer m) p) = wires (vw_sent (v m) ++ [farewell]))).
  { rewrite Hr. destruct Has as [(a & Ha & Hp & Hq) | Hf].
    - destruct (seen_active _ _ _ _ (Hs m) Ha) as (ps & Hw & Hse & Hst & _). split; [split | left].
      + by rewrite (se_pend _ _ Hse).
      + intros j. unfold waiting_in. destruct (vw_streams (v m) !! j) as [[x q]|] eqn:Hx; [| done].
        destruct (sd_strand _ _ _ _ _ _ _ Hst _ _ _ Hx) as (l & r & _ & Hk & -> & _). simpl in *. by rewrite Hq.
      + rewrite Hw. apply (se_sent _ _ Hse).
    - destruct (farewelled_sealed _ _ _ (v (peer m)) _ (Hs m) ltac:(by exists fx, fy) Hf) as (Hw & _ & He & _). split; [done | by right]. }
  destruct He as [[Hp Hq] Hb]. pose proof (all_read _ _ _ _ _ (jo_here _ _ _ _ Hby) Hrd Hb) as ->.
  unfold outgoing. by rewrite Hp, Hq.
Qed.

(** C5: nothing is lost. Take two connections over byte streams to which no write fails, each of which
    is polled, while it is active, only with room for one more stream. When all that the programs at one
    side have written has been sent, because nothing waits there or because its connection has closed in
    order, and all that has been sent has been read by the other connection, then of every stream that
    the other side holds the bytes that have been written are exactly those that have been taken and
    those that can still be read there, also after that connection has ended. *)
Theorem peers_lossless p m i h c :
  met p -> all_sent m p -> sd_read (side (peer m) p) = sd_wire (side m p) ->
  sy_handles (sd_sys (side (peer m) p)) !! i = Some h ->
  cells (mem (sy_world (sd_sys (side (peer m) p)))) !! st_shared h = Some c ->
  accepted_by (st_id h) (sd_trace (side m p)) =
    delivered_by (st_id h) (sd_trace (side (peer m) p)) ++ unread (contents c).
Proof.
  intros (v & Hj & Hs)%met_ok Has Hr Hi Hc. destruct (seen_handle cfg _ _ _ _ _ _ (Hs (peer m)) Hi Hc) as (x & q & Hx & Hnd & <-).
  destruct (Hj m) as (fx & fy & Hby). pose proof (all_sent_outgoing _ _ _ _ _ Has Hr Hs Hby (st_id h)) as Hout.
  assert (Hfa : faithful (side m p)) by (destruct Has as [(a & Ha & _) | Hf]; [left; by exists a | by right]).
  rewrite <- (faithful_wrote _ _ _ _ _ (Hs m) (Hj m) Hfa).
  destruct Hby as [Hm _ _ Hst]. pose proof (paired_sym _ _ _ _ _ Hm (Hst (st_id h))) as Hp.
  destruct (paired_known _ _ _ _ _ _ _ Hp Hx) as (_ & e' & He' & Hl). rewrite Hout in Hl.
  destruct (linked_sides _ _ _ _ _ _ Hl) as (_ & Hd & _). pose proof (do_bytes _ _ _ _ Hd Hnd) as Hb.
  rewrite app_nil_r in Hb. rewrite <- Hb. unfold wrote_at, end_of in *.
  destruct (vw_streams (v m) !! st_id h) as [[e0 q0]|]; [by destruct He' as [-> _] | by destruct He' as (sh & _ & ->)].
Qed.

(** Both connections are active, and what this one has sent has arrived. *)
Definition idle (m : Mode) (p : Peers) : Prop := both_active p /\ all_sent m p /\ sd_read (side (peer m) p) = sd_wire (side m p).

(** C9: a writer and a reader never wait for each other. Take two connections over byte streams to which
    no write fails, each of which is polled, while active, only with room for one more stream. When both
    are active and nothing is under way in either direction (no frame is pending, every channel is empty,
    and all that was sent has been read), a stream can still be written, and the reader at the other
    side, with room in its channel, finds nothing to read, then the writer has credit, or this very read
    has sent it some. *)
Theorem peers_no_deadlock p m i j h h' c cx buf buf' h2 w2 :
  met p -> idle m p -> idle (peer m) p ->
  sy_handles (sd_sys (side m p)) !! i = Some h -> sy_handles (sd_sys (side (peer m) p)) !! j = Some h' ->
  st_id h' = st_id h ->
  cells (mem (sy_world (sd_sys (side m p)))) !! st_shared h = Some c -> can_write (sh_state (contents c)) = true ->
  0 < zlen buf <= usize_max ->
  poll_read cx buf (h', sy_world (sd_sys (side (peer m) p))) = Ret ((Pending, buf'), (h2, w2)) ->
  (sender_poll_ready (st_window_update_sender h') cx (net (sy_world (sd_sys (side (peer m) p))))).1 <> Pending ->
  0 < send_window (contents c) \/
  exists k, 0 < k /\ emits (own_sender h') (net (sy_world (sd_sys (side (peer m) p)))) [SendFrame (update_frame h' k)] (net w2).
Proof.
  intros Hp%met_ok Hi1 Hi2 Hi Hj Hid Hc Hcw Hbuf He Hroom. pose proof Hp as (v & Hjo & Hs).
  destruct Hi1 as (Hact & Hs1 & Hr1), Hi2 as (_ & Hs2 & Hr2). destruct (Hact m) as [a Ha], (Hact (peer m)) as [b0 Hb].
  destruct (sys_handle (cfg (peer m)) _ _ _ (sa_ok _ _ _ _ (Hs (peer m))) Hj) as [sh Hh].
  pose proof Hh as (_ & _ & _ & k' & Hc').
  destruct (view_end _ _ _ _ _ _ _ (Hs m) Ha Hi Hc) as (x & q & Hx & _ & E & _).
  destruct (view_end _ _ _ _ _ _ _ (Hs (peer m)) Hb Hj Hc') as (x' & q' & Hx' & Hnd & E' & _). simpl in E'. rewrite Hid in Hx'.
  destruct (Hjo m) as (fx & fy & Hby). pose proof (all_sent_outgoing _ _ _ _ _ Hs1 Hr1 Hs Hby (st_id h)) as Ho1.
  assert (Ho2 : outgoing (v (peer m)) fy (st_id h) = []).
  { destruct Hby as [Hm Hh1 Hh2 Hst]. eapply (all_sent_outgoing p (peer m) v fy fx Hs2 Hr2 Hs). rewrite peer_peer.
    split; [by rewrite Hm, peer_peer | done | done |]. intros id. by apply paired_sym. }
  destruct Hby as [_ _ _ Hst]. destruct (paired_known _ _ _ _ _ _ _ (Hst (st_id h)) Hx) as (_ & e' & He' & Hl).
  unfold end_of in He'. rewrite Hx' in He'. destruct He' as [-> _]. rewrite Ho1, Ho2 in Hl.
  destruct (linked_sides _ _ _ _ _ _ Hl) as (Hd & _). rewrite <- E in *.
  pose proof (do_exact _ _ _ _ Hd Hcw Hnd) as Hw. rewrite E' in Hw. unfold data_under_way, credit_under_way in Hw. simpl in Hw.
  rewrite zlen_nil in Hw.
  pose proof (poll_read_ok (cfg (peer m)) h' _ sh cx buf Hh ltac:(lia)) as Hr. unfold wp in Hr. rewrite He in Hr.
  destruct Hr as (sh' & _ & Hk & _ & _ & (cmds & Hem & Hg) & Hcr & _).
  assert (Hnil : unread sh = []).
  { destruct (unread sh) as [|b bs]; [done |]. rewrite zlen_cons in Hk. pose proof (zlen_nonneg bs). lia. }
  destruct (handle_ok_shared _ _ _ _ Hh) as [_ (_ & _ & _ & Hmax & _)].
  unfold recv_window, window_used in *. pose proof (Z.div_mod (fc_max_receive_window (sh_flow_controller sh)) 2 ltac:(lia)).
  pose proof (Z.mod_pos_bound (fc_max_receive_window (sh_flow_controller sh)) 2 ltac:(lia)). unfold unread in Hnil.
  unfold DEFAULT_CREDIT, KIB in Hmax.
  inversion Hg as [Hdue E1 E2 E3 | Hroom' E1 E2 E3 | k fc _ Hdue Hk3 _ Hk5 _ Hk7 E1 E2 E3]; subst; [| by destruct (Hroom Hroom') |].
  - left. specialize (Hdue Hcr). unfold window_used in Hdue. rewrite Hnil, zlen_nil in Hdue. lia.
  - right. exists k. split; [| done]. rewrite Hnil, zlen_nil in *. unfold window_used in Hdue. rewrite Hnil, zlen_nil in Hdue.
    simpl in *. lia.
Qed.
End peers.

(** ** A client and a server *)

(** A framed socket at the beginning. *)
Lemma new_ready (s : @Socket script_io) : arrived s = [] -> departed s = [] ->
  sock_ok (framed_new s) /\ writable (framed_new s) /\ sock_wire (framed_new s) = [] /\ sock_read (framed_new s) = [].
Proof.
  destruct s as [q got k sent]. simpl. intros -> ->. split; [by split |]. split; [by apply framed_writable | done].
Qed.

Definition pw_cfg (m : Mode) : Config := ex_cfg.

(** What the client does: it opens a stream, writes the five bytes, closes the stream, and lets its
    connection send all this. *)
Definition pw_client : list (Mode * Turn) :=
  [(Client, TConn CNewOutbound); (Client, THandle 0 (HWrite ex_bytes)); (Client, THandle 0 HClose);
   (Client, TConn CNextInbound)].

Definition pw_quiet : @Socket script_io := mkScript [[]; []; []; []; []; []] [] 100 [].
Definition pw_start (sent : list byte) : Peers :=
  peers_new pw_cfg (fun m => framed_new (match m with Client => pw_quiet | Server => mkScript [sent; []; []; []] [] 100 [] end))
    (fun _ => ex_clock) (fun _ => net_new).

(** The bytes that its socket is given. *)
Definition pw_sent : list byte :=
  match peers_run pw_cfg 40 7%positive pw_client (pw_start []) with
  | Some p => sd_wire (side Client p)
  | None => []
  end.

(** The server accepts the stream, reads what arrives, and its program reads the bytes. *)
Definition pw_server : list (Mode * Turn) :=
  [(Server, TConn CNextInbound); (Server, TConn CNextInbound); (Server, THandle 0 (HRead (replicate 8 x00)))].

Definition pw_end : Peers := default (pw_start []) (peers_run pw_cfg 40 7%positive (pw_client ++ pw_server) (pw_start pw_sent)).
Definition pw_handle (m : Mode) : Stream := default ex_handle (sy_handles (sd_sys (side m pw_end)) !! 0%nat).
Definition pw_cell (m : Mode) : Cell :=
  default (mkCell 0 (shared_new 0 0 ex_cfg 0)) (cells (mem (sy_world (sd_sys (side m pw_end)))) !! st_shared (pw_handle m)).

Lemma default_some {A} (d : A) (o : option A) : match o with Some _ => true | None => false end = true -> o = Some (default d o).
Proof. by destruct o. Qed.

Lemma pw_ran : peers_run pw_cfg 40 7%positive (pw_client ++ pw_server) (pw_start pw_sent) = Some pw_end.
Proof. apply default_some. vm_compute. reflexivity. Qed.

Lemma pw_met : met pw_cfg pw_end.
Proof.
  eexists _, _, _. split_and!; [intros m; apply ex_cfg_ok | intros m; apply ex_clock_ok | intros m; apply net_new_ok | |
    exact (peers_run_steps _ _ _ _ _ _ pw_ran)].
  intros []; by apply new_ready.
Qed.

Lemma pw_handles m : sy_handles (sd_sys (side m pw_end)) !! 0%nat = Some (pw_handle m).
Proof. apply default_some. destruct m; vm_compute; reflexivity. Qed.

Lemma pw_cells m : cells (mem (sy_world (sd_sys (side m pw_end)))) !! st_shared (pw_handle m) = Some (pw_cell m).
Proof. apply default_some. destruct m; vm_compute; reflexivity. Qed.

Lemma pw_same : st_id (pw_handle Server) = st_id (pw_handle Client).
Proof. vm_compute. reflexivity. Qed.

Lemma pw_active m : exists a, sy_state (sd_sys (side m pw_end)) = StActive a.
Proof.
  assert (Hr : match sy_state (sd_sys (side m pw_end)) with StActive _ => true | _ => false end = true)
    by (destruct m; vm_compute; reflexivity).
  destruct (sy_state _) as [a | | | |]; try discriminate Hr. by exists a.
Qed.

Definition pw_read := poll_read 7%positive [x00] (pw_handle Server, sy_world (sd_sys (side Server pw_end))).

Lemma pw_read_end : exists buf' s', pw_read = Ret ((Ready (Ok 0), buf'), s').
Proof.
  assert (Hr : match pw_read with Ret ((Ready (Ok 0), _), _) => true | _ => false end = true) by (vm_compute; reflexivity).
  destruct pw_read as [[[[[[]|]|] buf'] s']| |]; try discriminate Hr. by exists buf', s'.
Qed.

Lemma peers_complete_witness :
  delivered_by (st_id (pw_handle Server)) (sd_trace (side Server pw_end)) =
  accepted_by (st_id (pw_handle Server)) (sd_trace (side Client pw_end)).
Proof.
  destruct pw_read_end as (buf' & s' & Hr), (pw_active Server) as [a Ha].
  refine (peers_complete ex_wide pw_cfg pw_end Server a 0 (pw_handle Server) 7%positive [x00] buf' s'
    pw_met Ha (or_introl (pw_active Client)) eq_refl (pw_handles Server) _ _ Hr); vm_compute; discriminate.
Defined.

Lemma peers_linked_witness :
  exists a e e' out inn, sy_state (sd_sys (side Client pw_end)) = StActive a /\
    linked (st_id (pw_handle Client)) (oriented (ac_mode a) (st_id (pw_handle Client)) (mkLink e e' out inn)) /\
    en_sh e = contents (pw_cell Client) /\ en_sh e' = contents (pw_cell Server) /\
    under_way Client pw_end (pw_handle Client) out /\ under_way Server pw_end (pw_handle Server) inn.
Proof.
  destruct (peers_linked ex_wide pw_cfg pw_end Client 0 0 _ _ _ _ pw_met pw_active (pw_handles Client) (pw_handles Server) pw_same
    (pw_cells Client) (pw_cells Server)) as (a & e & e' & out & inn & Ha & Hl & E & E' & U & U').
  exists a, e, e', out, inn. exact (conj Ha (conj Hl (conj (proj1 E) (conj (proj1 E') (conj U U'))))).
Defined.

Lemma peers_windows_witness : send_window (contents (pw_cell Client)) <= recv_window (contents (pw_cell Server)).
Proof.
  exact (peers_windows ex_wide pw_cfg pw_end Client 0 0 _ _ _ _ pw_met pw_active (pw_handles Client) (pw_handles Server) pw_same
    (pw_cells Client) (pw_cells Server)).
Defined.

(** ** Until nothing is under way *)

(** A client and a server with what arrives at each, and the bytes that a side has sent in a run. *)
Definition pi_start (arrive : Mode -> list (list byte)) : Peers :=
  peers_new pw_cfg (fun m => framed_new (mkScript (arrive m) [] 100 [])) (fun _ => ex_clock) (fun _ => net_new).
Definition pi_run (arrive : Mode -> list (list byte)) (ts : list (Mode * Turn)) : Peers :=
  default (pi_start arrive) (peers_run pw_cfg 40 7%positive ts (pi_start arrive)).
Definition pi_sent (m : Mode) (p : Peers) : list byte := sd_wire (side m p).

Definition of_mode {A} (c s : A) (m : Mode) : A := match m with Client => c | Server => s end.

(** The client opens a stream and writes, the server accepts it and answers the ping, the client answers
    the ping of the server, and the server reads all this, and its program the bytes. *)
Definition pi_first : list (Mode * Turn) :=
  [(Client, TConn CNewOutbound); (Client, THandle 0 (HWrite ex_bytes)); (Client, TConn CNextInbound)].
Definition pi_second : list (Mode * Turn) := [(Server, TConn CNextInbound); (Server, TConn CNextInbound)].
Definition pi_third : list (Mode * Turn) := [(Client, TConn CNextInbound)].
Definition pi_fourth : list (Mode * Turn) :=
  [(Server, TConn CNextInbound); (Server, THandle 0 (HRead (replicate 8 x00)))].

Definition pi_out1 : list byte := pi_sent Client (pi_run (of_mode [[]; []] []) pi_first).
Definition pi_out2 : list byte := pi_sent Server (pi_run (of_mode [[]; []] [pi_out1; []; []]) (pi_first ++ pi_second)).
Definition pi_out3 : list byte :=
  pi_sent Client (pi_run (of_mode [[]; pi_out2; []; []] [pi_out1; []; []]) (pi_first ++ pi_second ++ pi_third)).
Definition pi_arrive : Mode -> list (list byte) :=
  of_mode [[]; pi_out2; []; []] [pi_out1; []; drop (length pi_out1) pi_out3; []; []].
Definition pi_end : Peers := pi_run pi_arrive (pi_first ++ pi_second ++ pi_third ++ pi_fourth).

Lemma pi_ran : peers_run pw_cfg 40 7%positive (pi_first ++ pi_second ++ pi_third ++ pi_fourth) (pi_start pi_arrive) = Some pi_end.
Proof. apply default_some. vm_compute. reflexivity. Qed.

Lemma pi_met : met pw_cfg pi_end.
Proof.
  eexists _, _, _. split_and!; [intros m; apply ex_cfg_ok | intros m; apply ex_clock_ok | intros m; apply net_new_ok | |
    exact (peers_run_steps _ _ _ _ _ _ pi_ran)].
  intros []; by apply new_ready.
Qed.

(** Whether nothing is under way, with the channels of [Fifo.v]. *)
Definition is_idle (m : Mode) (p : Peers) : bool :=
  match sy_state (sd_sys (side m p)), sy_state (sd_sys (side (peer m) p)) with
  | StActive a, StActive b =>
      bool_decide (sd_read (side (peer m) p) = sd_wire (side m p)) && bool_decide (ac_pending_write_frame a = None) &&
      forallb (fun x => bool_decide (ch_queue x.2 = [])) (map_to_list (chans (net (sy_world (sd_sys (side m p))))))
  | _, _ => false
  end.

Lemma is_idle_ok m p : is_idle m p = true -> idle m p.
Proof.
  unfold is_idle, idle. destruct (sy_state (sd_sys (side m p))) as [a | | | |] eqn:Ha; try done.
  destruct (sy_state (sd_sys (side (peer m) p))) as [b | | | |] eqn:Hb; try done.
  intros [[H1%bool_decide_eq_true H2%bool_decide_eq_true]%andb_true_iff H3]%andb_true_iff. split_and!; [| | done].
  { intros k. destruct m, k; simpl in *; eauto. }
  left. exists a. split_and!; [done.. |]. set (n := net (sy_world (sd_sys (side m p)))) in *.
  assert (Hq : forall r : positive, ch_queue (chan_at r n) = []); [| intros r _; apply (Hq r)].
  intros r. unfold chan_at. destruct (chans n !! r) as [x|] eqn:E; [| done]. simpl.
  rewrite forallb_forall in H3. specialize (H3 (r, x)). apply elem_of_map_to_list, list_elem_of_In in E.
  by apply (bool_decide_eq_true _), (H3 E).
Qed.

Lemma pi_idle m : idle m pi_end.
Proof. apply is_idle_ok. destruct m; vm_compute; reflexivity. Qed.

Definition pi_handle (m : Mode) : Stream := default ex_handle (sy_handles (sd_sys (side m pi_end)) !! 0%nat).
Definition pi_cell (m : Mode) : Cell :=
  default (mkCell 0 (shared_new 0 0 ex_cfg 0)) (cells (mem (sy_world (sd_sys (side m pi_end)))) !! st_shared (pi_handle m)).

Lemma pi_handles m : sy_handles (sd_sys (side m pi_end)) !! 0%nat = Some (pi_handle m).
Proof. apply default_some. destruct m; vm_compute; reflexivity. Qed.

Lemma pi_cells m : cells (mem (sy_world (sd_sys (side m pi_end)))) !! st_shared (pi_handle m) = Some (pi_cell m).
Proof. apply default_some. destruct m; vm_compute; reflexivity. Qed.

Definition pi_read := poll_read 7%positive [x00] (pi_handle Server, sy_world (sd_sys (side Server pi_end))).

Lemma pi_read_pending : exists buf' s' w', pi_read = Ret ((Pending, buf'), (s', w')).
Proof.
  assert (Hr : match pi_read with Ret ((Pending, _), _) => true | _ => false end = true) by (vm_compute; reflexivity).
  destruct pi_read as [[[[|] buf'] [s' w']]| |]; try discriminate Hr. by exists buf', s', w'.
Qed.

Lemma pi_same : st_id (pi_handle Server) = st_id (pi_handle Client).
Proof. vm_compute. reflexivity. Qed.

Lemma peers_no_deadlock_witness :
  exists buf' s' w', pi_read = Ret ((Pending, buf'), (s', w')) /\
    (0 < send_window (contents (pi_cell Client)) \/
     exists k, 0 < k /\ emits (own_sender (pi_handle Server)) (net (sy_world (sd_sys (side Server pi_end))))
                          [SendFrame (update_frame (pi_handle Server) k)] (net w')).
Proof.
  destruct pi_read_pending as (buf' & s' & w' & Hr). exists buf', s', w'. split; [exact Hr |].
  refine (peers_no_deadlock ex_wide pw_cfg pi_end Client 0 0 (pi_handle Client) (pi_handle Server) (pi_cell Client) 7%positive
    [x00] buf' s' w' pi_met (pi_idle Client) (pi_idle Server) (pi_handles Client) (pi_handles Server) pi_same (pi_cells Client)
    _ _ Hr _).
  - vm_compute. reflexivity.
  - split; vm_compute; [reflexivity | discriminate].
  - vm_compute. discriminate.
Defined.

(** ** When the connections end *)

(** The client opens a stream, writes, and closes its connection. *)
Definition pe_client : list (Mode * Turn) :=
  [(Client, TConn CNewOutbound); (Client, THandle 0 (HWrite ex_bytes)); (Client, TConn CClose)].
Definition pe_sent : list byte := pi_sent Client (pi_run (of_mode [[]; []] []) pe_client).

(** The server accepts the stream; what arrives ends with a [GoAway], by which its connection ends; its
    program reads all the same. *)
Definition pe_server : list (Mode * Turn) :=
  [(Server, TConn CNextInbound); (Server, TConn CNextInbound); (Server, THandle 0 (HRead (replicate 8 x00)))].
Definition pe_arrive : Mode -> list (list byte) := of_mode [[]; []] [pe_sent; []; []].
Definition pe_end : Peers := pi_run pe_arrive (pe_client ++ pe_server).

Lemma pe_ran : peers_run pw_cfg 40 7%positive (pe_client ++ pe_server) (pi_start pe_arrive) = Some pe_end.
Proof. apply default_some. vm_compute. reflexivity. Qed.

Lemma pe_met : met pw_cfg pe_end.
Proof.
  eexists _, _, _. split_and!; [intros m; apply ex_cfg_ok | intros m; apply ex_clock_ok | intros m; apply net_new_ok | |
    exact (peers_run_steps _ _ _ _ _ _ pe_ran)].
  intros []; by apply new_ready.
Qed.

Lemma pe_closed m : sy_state (sd_sys (side m pe_end)) = StClosed.
Proof.
  assert (Hr : match sy_state (sd_sys (side m pe_end)) with StClosed => true | _ => false end = true)
    by (destruct m; vm_compute; reflexivity).
  destruct (sy_state _); try discriminate Hr. reflexivity.
Qed.

(** Both connections are closed, and the server has delivered what the client has written. *)
Lemma peers_deliver_witness :
  (forall m, sy_state (sd_sys (side m pe_end)) = StClosed) /\ delivered_by 1 (sd_trace (side Server pe_end)) = ex_bytes /\
  delivered_by 1 (sd_trace (side Server pe_end)) `prefix_of` accepted_by 1 (sd_trace (side Client pe_end)).
Proof.
  split; [exact pe_closed |]. split; [vm_compute; reflexivity |].
  exact (peers_deliver ex_wide pw_cfg pe_end Server 1 pe_met).
Defined.

(** What the client has sent before its [GoAway]. *)
Definition pe_frame : Frame unit := mkFrame (mkHeader 0 TagData SYN 1 5) ex_bytes.
Definition pe_handle : Stream := default ex_handle (sy_handles (sd_sys (side Server pe_end)) !! 0%nat).
Definition pe_cell : Cell :=
  default (mkCell 0 (shared_new 0 0 ex_cfg 0)) (cells (mem (sy_world (sd_sys (side Server pe_end)))) !! st_shared pe_handle).

Lemma pe_farewelled : farewelled (side Client pe_end).
Proof.
  exists [pe_frame]. split; [| vm_compute; reflexivity]. apply Forall_singleton. split_and!; by vm_compute.
Qed.

Lemma pe_handle_at : sy_handles (sd_sys (side Server pe_end)) !! 0%nat = Some pe_handle.
Proof. apply default_some. vm_compute. reflexivity. Qed.

Lemma pe_cell_at : cells (mem (sy_world (sd_sys (side Server pe_end)))) !! st_shared pe_handle = Some pe_cell.
Proof. apply default_some. vm_compute. reflexivity. Qed.

Lemma pe_read : sd_read (side Server pe_end) = sd_wire (side Client pe_end).
Proof. vm_compute. reflexivity. Qed.

(** Both connections are closed, and nothing is lost. *)
Lemma peers_lossless_witness :
  accepted_by (st_id pe_handle) (sd_trace (side Client pe_end)) =
    delivered_by (st_id pe_handle) (sd_trace (side Server pe_end)) ++ unread (contents pe_cell).
Proof.
  exact (peers_lossless ex_wide pw_cfg pe_end Client 0 pe_handle pe_cell pe_met (or_intror pe_farewelled) pe_read
    pe_handle_at pe_cell_at).
Defined.

Lemma peers_polite_witness :
  exists fs, sd_wire (side Client pe_end) `prefix_of` wires fs ++ frame_wire (frame_erase frame_term) /\
    Forall (fun f => frame_wf f /\ courteous f) fs.
Proof.
  destruct (peers_polite ex_wide pw_cfg pe_end Client pe_met) as (fs & Hf & Hw & _). exists fs. exact (conj Hw Hf).
Defined.
