(* ===== verification/ClosingProps.v ===== *)
(** * Closing, exactly

    What the closing future sends: what was pending, all the commands that are left in the channels of
    the streams, each channel in order, and one [GoAway]. The theorem, and a connection that is closed
    with a command in a channel. *)
From Stdlib Require Import ZArith Lia Strings.Byte.
From stdpp Require Import base option list gmap numbers.
From S2P Require Import Prelude.
From S2P Require Import Header.
From S2P Require Import Frame.
From S2P Require Import Config.
From S2P Require Import Command.
From S2P Require Import Shared.
From S2P Require Import Heap.
From S2P Require Import Channel.
From S2P Require Import TaggedStream.
From S2P Require Import StreamHandle.
From S2P Require Import FrameIo.
From S2P Require Import FrameIoSpec.
From S2P Require Import FrameRoundTrip.
From S2P Require Import Connection.
From S2P Require Import ConnInvariant.
From S2P Require Import ConnLoop.
From S2P Require Import Closing.
From S2P Require Import ClosingSpec.
From S2P Require Import Forward.
From S2P Require Import Transport.
From S2P Require Import PeerSteps.
From S2P Require Import Parting.
From S2P Require Import ConnStateSpec.
From S2P Require Import FramedSocket.
From S2P Require Import Fifo.
From S2P Require Import System.
From S2P Require Import Example.
From S2P Require Import SystemProps.
From S2P Require Import ForwardProps.
From S2P Require Import PeersProps.

Section closing_exact.
Context `{Arch, Mpsc, SelectAllOps, FrameSocket, MapOrder}.
Context `{!MpscLaws, !SelectAllLaws, !FrameSocketLaws, !FrameSocketWire}.
Context `{!FifoLaws, !ChannelLaws, !ClosedChannels, !SelectAllTrace, !SelectAllMembers, !DrainLaws}.
Context `{EqDecision Receiver}.

(** The receivers of the connection, and the identifiers of their streams. *)
Variable own : Receiver -> Prop.
Variable name : Receiver -> Z.

(** The receivers [rs] are among them, and each of them is asked for commands, or it is empty and will
    stay so. *)
Record closable (rs : Receivers) (n : Net) : Prop := {
  cb_named : select_all_all (named own name) rs;
  cb_known : forall r, own r -> known r n;
  cb_served : forall r, own r -> served rs n r;
}.

(** What has been taken from the channels, in order; the frames of it; and what came from [r]. *)
Definition Taken : Type := list (Receiver * StreamCommand).
Definition taken_frames (tk : Taken) : list (Frame unit) := map (fun x => command_frame (name x.1) x.2) tk.
Definition taken_from (r : Receiver) (tk : Taken) : list StreamCommand :=
  omap (fun x => if decide (x.1 = r) then Some x.2 else None) tk.

(** No command can be sent to [r] any more. *)
Definition dead (r : Receiver) (n : Net) : Prop := forall k, live r n = Some k -> k = O.

(** All of [F] is to be sent. *)
Definition owes (F : list byte) (c : Closing) (n : Net) : Prop :=
  (exists W, closing_ok W c n) /\ due c = F /\ (cl_state c = FlushingPendingFrames \/ cl_state c = ClosingSocket).

(** How a poll ends that is to send [F]. *)
Definition ends_with (F : list byte) (r : poll (result unit ConnectionError)) (c : Closing) (n : Net) : Prop :=
  match r with
  | Pending => owes F c n
  | Ready (Ok _) => sock_wire (cl_socket c) = F
  | Ready (Err e) => (exists ioe, e = ErrIo ioe) /\ sock_wire (cl_socket c) `prefix_of` F
  end.

(** ** Flushing *)

Lemma owes_iter F cx c n :
  owes F c n -> post (closing_iter cx) (fun r s => match r with None => owes F s.1 s.2 | Some r => ends_with F r s.1 s.2 end) (c, n).
Proof.
  intros ([W Hok] & Hd & Hst). pose proof Hok as [_ Hs _ Hp _ Hdone].
  assert (Hpost : post (closing_iter cx) (fun r s => match r with
    | None => due s.1 = F /\ (cl_state s.1 = FlushingPendingFrames \/ cl_state s.1 = ClosingSocket)
    | Some Pending => due s.1 = F /\ (cl_state s.1 = FlushingPendingFrames \/ cl_state s.1 = ClosingSocket)
    | Some (Ready (Ok _)) => sock_wire (cl_socket s.1) = F
    | Some (Ready (Err e)) => (exists ioe, e = ErrIo ioe) /\ sock_wire (cl_socket s.1) `prefix_of` F end) (c, n)).
  { unfold closing_iter. apply post_bind. unfold post at 1, cl, gets. simpl.
    destruct Hst as [Hst | Hst]; rewrite Hst; apply post_bind, post_cl_sock; intros r s Hrs.
    - pose proof (sock_ready_law cx _ Hs) as Hs1. unfold wp in Hs1. rewrite Hrs in Hs1.
      destruct (wire_ready_law _ _ _ _ Hs Hrs) as [Hw Hidle].
      destruct r as [[[]|e]|].
      + apply post_bind. unfold post at 1, cl, gets. simpl. destruct (cl_pending c) as [|f rest] eqn:Hpend.
        * apply post_bind. unfold post at 1, cl_upd, modify. apply post_ret. simpl. split; [| by right].
          unfold due in *. simpl. by rewrite Hw.
        * apply post_bind. unfold post at 1, cl_upd, modify. simpl. apply post_bind, post_cl_sock. intros r s2 He2. simpl in He2.
          inversion Hp as [|? ? Hfw _]; subst. destruct (wire_send_law _ _ _ _ Hs1 (Hidle eq_refl) Hfw He2) as [-> Hw2].
          apply post_ret. simpl. split; [| by left]. unfold due in *. simpl in *. by rewrite Hw2, Hw, Hpend, wires_cons, app_assoc.
      + apply post_ret. split; [by exists e |]. simpl. rewrite Hw, <- Hd. by apply prefix_app_r.
      + apply post_ret. simpl. split; [| by left]. unfold due in *. simpl. by rewrite Hw.
    - pose proof (wire_close_law _ _ _ _ Hs Hrs) as Hw. unfold due in *. rewrite (Hdone Hst), app_nil_r in Hd.
      destruct r as [[[]|e]|]; apply post_ret; simpl.
      + by rewrite Hw.
      + split; [by exists e | by rewrite Hw, Hd].
      + rewrite (Hdone Hst), app_nil_r, Hw. split; [done | by right]. }
  eapply post_mono; [apply post_wp; [by apply (closing_iter_ok W c n cx) | exact Hpost] |].
  intros [[[[]|e]|]|] [c' n'] [Hr Hx]; simpl in *; [done | done | |].
  - destruct Hr as [_ Hr]. split; [by exists W | done].
  - destruct Hr as [Hr _]. split; [by exists W | done].
Qed.

(** ** Draining *)

Lemma taken_from_app r tk tk' : taken_from r (tk ++ tk') = taken_from r tk ++ taken_from r tk'.
Proof. apply omap_app. Qed.

(** The channels before and after a step of the future; what has been taken is gone from their fronts. *)
Definition less (tk : Taken) (n0 n : Net) : Prop :=
  Forall (fun x => own x.1) tk /\ forall r, own r -> known r n /\ queue r n0 = taken_from r tk ++ queue r n.

Lemma less_step tk tk' n0 n n' : less tk n0 n -> less tk' n n' -> less (tk ++ tk') n0 n'.
Proof.
  intros [O1 Q1] [O2 Q2]. split; [by apply Forall_app |]. intros r Hr. destruct (Q1 r Hr) as [_ E1], (Q2 r Hr) as [K2 E2].
  split; [done |]. by rewrite taken_from_app, E1, E2, app_assoc.
Qed.

Lemma less_same n n' : (forall r, own r -> known r n' /\ queue r n' = queue r n) -> less [] n n'.
Proof. intros Hq. split; [done |]. intros r Hr. destruct (Hq r Hr) as [K E]. by rewrite E. Qed.

(** Closing the receivers takes nothing, and nothing comes in any more. *)
Lemma close_less rs n :
  closable rs n -> less [] n (close_receivers rs n) /\
  forall r, own r -> served rs (close_receivers rs n) r /\ dead r (close_receivers rs n).
Proof.
  intros [_ Hkn Hse]. unfold close_receivers.
  assert (Hk : forall r, known r n -> let n' := select_all_for_each (fun t n => receiver_close (ts_inner t) n) rs n in
    known r n' /\ queue r n' = queue r n /\ (live r n' = None \/ live r n' = live r n)).
  { apply (select_all_each_law _ _ _ (fun n' => forall r, known r n ->
      known r n' /\ queue r n' = queue r n /\ (live r n' = None \/ live r n' = live r n))); [| by auto].
    intros t n' Hn r Hr. destruct (Hn r Hr) as (K & Q & L), (closed_close_law (ts_inner t) n' r K) as (K' & Q' & L1 & L2).
    split; [done |]. split; [congruence |]. destruct (decide (r = ts_inner t)) as [E | E]; [left; auto |]. by rewrite (L2 E). }
  split; [apply less_same; intros r Hr; destruct (Hk r (Hkn r Hr)) as (K & Q & _); by split |].
  intros r Hr. destruct (Hk r (Hkn r Hr)) as (K & Q & L). destruct (Hse r Hr) as [[F1 F2] | (t & Ht & Hi & Hn)].
  - assert (Hd : dead r (select_all_for_each (fun t n => receiver_close (ts_inner t) n) rs n)).
    { intros k Hk'. destruct L as [E | E]; rewrite E in Hk'; [done | by apply F2]. }
    split; [left; split; [by rewrite Q | done] | done].
  - split; [right; by exists t |]. intros k Hk'.
    enough (live r (select_all_for_each (fun t n => receiver_close (ts_inner t) n) rs n) = None) by congruence.
    apply (in_each_law _ _ _ (known r) (fun n' => live r n' = None) t); [done | | | by apply Hkn].
    + intros t' n' Kn. destruct (closed_close_law (ts_inner t') n' _ Kn) as (K' & _ & L1 & L2). split; [done |]. intros L'.
      destruct (decide (r = ts_inner t')) as [E | E]; [by apply L1 | by rewrite L2].
    + intros n' Kn. destruct (closed_close_law (ts_inner t) n' _ Kn) as (_ & _ & L1 & _). by apply L1.
Qed.

Lemma drain_dead cx (rs : Receivers) n r :
  known r n -> dead r n -> let '(_, _, n') := select_all_poll_next (tagged_poll_next (receiver_poll cx)) rs n in dead r n'.
Proof.
  intros Hk Hd. pose proof (select_all_next_law _ _ _ (tagged_poll_next (K := Z) (receiver_poll cx)) (fun _ => True)
    (fun n => known r n /\ dead r n) (fun _ => True)) as Hlaw.
  assert (Hall : select_all_all (fun _ => True) rs) by (by apply in_all_law).
  specialize (Hlaw ltac:(clear; intros t n _ [Hk Hd]; unfold tagged_poll_next, receiver_poll; destruct (ts_reported_none t); [done |];
    pose proof (fifo_next_law (ts_inner t) cx n) as Hl; pose proof (channel_next_law (ts_inner t) cx n) as Hv;
    destruct (receiver_poll_next (ts_inner t) cx n) as [p n']; destruct Hl as [Hl _], Hv as [Hv _];
    assert (known r n' /\ dead r n') by (split; [by apply Hl | unfold dead; by rewrite Hv]);
    by destruct p as [[c|]|]) rs n Hall (conj Hk Hd)).
  destruct (select_all_poll_next _ _ _) as [[p rs'] n']. apply Hlaw.
Qed.

(** One poll of the receivers: a command more, or, when none is given, there are none left. *)
Lemma drain_less cx rs n :
  select_all_all (named own name) rs -> (forall r, own r -> known r n /\ served rs n r /\ dead r n) ->
  let '(p, rs', n') := select_all_poll_next (tagged_poll_next (receiver_poll cx)) rs n in
  (select_all_all (named own name) rs' /\ forall r, own r -> known r n' /\ served rs' n' r /\ dead r n') /\
  match p with
  | Ready (Some (id, Some c)) => exists q, id = name q /\ less [(q, c)] n n'
  | Ready (Some (_, None)) => less [] n n'
  | _ => less [] n n' /\ forall r, own r -> finished r n'
  end.
Proof.
  intros Hrs Hown. pose proof (receivers_taken own name cx rs n Hrs) as Ht.
  pose proof (fun r Hr => poll_served cx rs n r (proj1 (Hown r Hr)) (proj1 (proj2 (Hown r Hr)))) as Hs.
  pose proof (fun r Hr => drain_dead cx rs n r (proj1 (Hown r Hr)) (proj2 (proj2 (Hown r Hr)))) as Hd.
  pose proof (drain_law cx rs n) as Hdrain.
  destruct (select_all_poll_next _ _ _) as [[p rs'] n']. destruct Ht as [Hall [Hk Hp]].
  assert (Hk' : forall r, own r -> known r n') by (intros r Hr; by apply Hk, Hown).
  split; [split; [done |]; intros r Hr; split_and!; auto |].
  assert (Hend : (forall item, p <> Ready (Some item)) -> (forall r, known r n -> queue r n' = queue r n) ->
    less [] n n' /\ forall r, own r -> finished r n').
  { intros Hno Hq. split; [apply less_same; intros r Hr; split; [by apply Hk' | by apply Hq, Hown] |].
    intros r Hr. split; [| by apply Hd]. destruct (Hown r Hr) as (Kr & [[F _] | Ha] & _); [by rewrite Hq | by apply (Hdrain Hno)]. }
  destruct p as [[[id [c|]]|]|]; [| | by apply Hend..].
  - destruct Hp as (q & [Ho Hid] & Hq). exists q. split; [done |]. split; [by apply Forall_singleton |].
    intros r Hr. split; [by apply Hk' |]. rewrite (Hq r) by (by apply Hown). unfold taken_from. simpl. by case_decide.
  - destruct Hp as (q & _ & _ & Hq). apply less_same. intros r Hr. split; [by apply Hk' | by apply Hq, Hown].
Qed.

(** ** From the beginning *)

(** Before the last frame is in the queue. *)
Definition draining (F : list byte) (n0 : Net) (c : Closing) (n : Net) : Prop :=
  exists tk, less tk n0 n /\ due c = F ++ wires (taken_frames tk) /\
    match cl_state c with
    | ClosingStreamReceiver => closable (cl_receivers c) n
    | DrainingStreamReceiver => select_all_all (named own name) (cl_receivers c) /\
        forall r, own r -> known r n /\ served (cl_receivers c) n r /\ dead r n
    | _ => False
    end.

(** All commands have been taken, and they are due with all the rest. *)
Definition drained (F : list byte) (n0 : Net) (tk : Taken) (n : Net) : list byte -> Prop := fun F' =>
  F' = F ++ wires (taken_frames tk ++ [frame_erase frame_term]) /\ Forall (fun x => own x.1) tk /\
  forall r, own r -> taken_from r tk = queue r n0 /\ finished r n.

Definition closing_step (F : list byte) (n0 : Net) (c : Closing) (n : Net) : Prop :=
  draining F n0 c n \/ exists F' tk, drained F n0 tk n F' /\ owes F' c n.

Lemma due_push c c' f : cl_pending c' = cl_pending c ++ [f] -> cl_socket c' = cl_socket c -> due c' = due c ++ frame_wire f.
Proof. unfold due. intros -> ->. by rewrite wires_app, wires_one, app_assoc. Qed.

Lemma draining_iter F n0 cx W c n :
  closing_ok W c n -> draining F n0 c n ->
  post (closing_iter cx) (fun r s => r = None /\ closing_step F n0 s.1 s.2) (c, n).
Proof.
  intros Hok (tk & Hl & Hd & Hst). pose proof (closing_iter_ok W c n cx Hok) as Hwp.
  assert (Hpost : post (closing_iter cx) (fun r s => r = None /\ (draining F n0 s.1 s.2 \/
    exists F' tk', drained F n0 tk' s.2 F' /\ due s.1 = F' /\ cl_state s.1 = FlushingPendingFrames)) (c, n)).
  { unfold closing_iter. apply post_bind. unfold post at 1, cl, gets. simpl. destruct (cl_state c) eqn:Est; [| | done..].
    - do 2 (apply post_bind; unfold post at 1, modify, cl_upd). simpl. apply post_ret. split; [done |]. left.
      destruct (close_less _ _ Hst) as [Hless Hs]. exists tk. split; [| split; [done |]].
      + rewrite <- (app_nil_r tk). by eapply less_step.
      + simpl. split; [apply Hst |]. intros r Hr. split; [by apply Hless | by apply Hs].
    - destruct Hst as [Hrs Hown]. pose proof (drain_less cx _ _ Hrs Hown) as Hdr.
      apply post_bind. unfold post at 1, cl_poll_receivers. cbn [fst snd]. rewrite Est.
      destruct (select_all_poll_next _ _ _) as [[p rs] n1]. destruct Hdr as [Hrs' Hp].
      assert (Hend : less [] n n1 /\ (forall r, own r -> finished r n1) ->
        exists F' tk', drained F n0 tk' n1 F' /\
          due (mkClosing FlushingPendingFrames rs (cl_pending c ++ [frame_erase frame_term]) (cl_socket c)) = F').
      { intros [Hless Hfin]. eexists _, tk. split; [split_and!; [reflexivity | apply Hl |] |].
        - intros r Hr. split; [| by apply Hfin]. pose proof (less_step _ _ _ _ _ Hl Hless) as [_ Hq].
          destruct (Hq r Hr) as [_ E]. rewrite app_nil_r in E. rewrite E, (proj1 (Hfin r Hr)). by rewrite app_nil_r.
        - by rewrite (due_push c _ (frame_erase frame_term)), Hd, wires_app, wires_one, app_assoc by done. }
      destruct p as [[[id [cmd|]]|]|].
      + destruct Hp as (q & -> & Hless). apply post_bind. unfold post at 1, push_pending, cl_upd, modify. apply post_ret.
        split; [done |]. left. exists (tk ++ [(q, cmd)]). split; [by eapply less_step |]. split; [| done]. simpl.
        rewrite (due_push c _ (command_frame (name q) cmd)), Hd by done.
        unfold taken_frames. rewrite map_app. simpl. by rewrite wires_snoc, app_assoc.
      + apply post_ret. split; [done |]. left. exists tk. split; [| done]. rewrite <- (app_nil_r tk). by eapply less_step.
      + apply post_bind. unfold post at 1, push_pending, cl_upd, modify. apply post_bind. unfold post at 1, cl_upd, modify.
        apply post_ret. split; [done |]. right. destruct (Hend Hp) as (F' & tk' & ? & ?). by exists F', tk'.
      + apply post_bind. unfold post at 1, push_pending, cl_upd, modify. apply post_bind. unfold post at 1, cl_upd, modify.
        apply post_ret. split; [done |]. right. destruct (Hend Hp) as (F' & tk' & ? & ?). by exists F', tk'. }
  eapply post_mono; [apply post_wp; [exact Hwp | exact Hpost] |]. intros r [c' n'] [Hr [-> Hx]]. split; [done |].
  destruct Hx as [Hx | (F' & tk' & H1' & H2' & H3')]; [by left |]. right. exists F', tk'. split; [done |].
  split; [exists W; apply Hr |]. split; [done | by left].
Qed.

Lemma owes_poll F fuel cx c n :
  owes F c n -> post (closing_poll fuel cx) (fun r s => ends_with F r s.1 s.2) (c, n).
Proof.
  intros Ho. apply (post_loop _ (fun s => owes F s.1 s.2)); [| done]. intros [c1 n1] Ho1.
  eapply post_mono; [by apply owes_iter |]. by intros [r|] s.
Qed.

(** Flushing does not touch the channels. *)
Lemma owes_net F cx c n : owes F c n -> post (closing_iter cx) (fun _ s => s.2 = n) (c, n).
Proof.
  intros (_ & _ & Hst). unfold closing_iter. apply post_bind. unfold post at 1, cl, gets. simpl.
  destruct Hst as [-> | ->]; apply post_bind, post_cl_sock; intros r s _.
  - destruct r as [[[]|e]|]; [| by apply post_ret..]. apply post_bind. unfold post at 1, cl, gets. simpl.
    destruct (cl_pending c); apply post_bind; unfold post at 1, cl_upd, modify; [by apply post_ret |].
    apply post_bind, post_cl_sock. intros r s' _. destruct r; by apply post_ret.
  - destruct r as [[[]|e]|]; by apply post_ret.
Qed.

Lemma closing_step_iter F n0 cx W c n :
  closing_ok W c n -> closing_step F n0 c n ->
  post (closing_iter cx) (fun r s => match r with
    | None => closing_step F n0 s.1 s.2
    | Some r => exists F' tk, drained F n0 tk s.2 F' /\ ends_with F' r s.1 s.2
    end) (c, n).
Proof.
  intros Hok [Hd | (F' & tk & Hd & Ho)].
  - eapply post_mono; [by eapply draining_iter |]. by intros r s [-> Hs].
  - pose proof (owes_iter F' cx c n Ho) as Hi. pose proof (owes_net F' cx c n Ho) as Hn. unfold post in *.
    destruct (closing_iter cx (c, n)) as [[r [c' n']]| |]; [| done..]. simpl in *. subst n'.
    destruct r as [r|]; [by exists F', tk |]. right. by exists F', tk.
Qed.

Lemma closing_poll_exact F n0 W fuel cx c n :
  closing_ok W c n -> closing_step F n0 c n ->
  post (closing_poll fuel cx) (fun r s => exists F' tk, drained F n0 tk s.2 F' /\ ends_with F' r s.1 s.2) (c, n).
Proof.
  intros Hok Hs. apply (post_loop _ (fun s => closing_ok W s.1 s.2 /\ closing_step F n0 s.1 s.2)); [| done].
  intros [c1 n1] [Hok1 Hs1]. eapply post_mono; [apply post_wp; [by apply closing_iter_ok | by eapply closing_step_iter] |].
  intros [r|] [c2 n2] [Hr Hc2]; [done |]. split; [apply Hr | done].
Qed.
End closing_exact.

(** ** The property *)

(** C17: closing is graceful, and loses nothing. A close that has begun with the frames [pending] sends,
    after what the socket was given before, these frames, then the frames of a sequence of commands,
    and last one [GoAway]. Of each channel of the connection the sequence has exactly what the channel
    held when the close began, all of it and in order, under the identifier of its stream, and it has
    nothing else; the channels are empty then, and take no more. The first poll settles this: when it
    or a later one is done, exactly these bytes have been given to the socket, when it waits they are
    still due, and it fails only with an error of the socket, having sent a beginning of them. No poll
    panics, and each returns when the channels hold finitely many commands. ([closable]: the receivers
    are asked for commands, or are empty and have no sender left.) *)
Theorem closing_graceful `{Arch, Mpsc, SelectAllOps, FrameSocket, MapOrder}
    `{!MpscLaws, !SelectAllLaws, !FrameSocketLaws, !FrameSocketWire}
    `{!FifoLaws, !ChannelLaws, !ClosedChannels, !SelectAllTrace, !SelectAllMembers, !DrainLaws, EqDecision Receiver}
    own name rs pending socket n cx :
  net_ok n -> sock_ok socket -> select_all_all key_ok rs -> Forall frame_wf pending -> closable own name rs n ->
  runs finite_work (fun fuel => closing_poll fuel cx (closing_new rs pending socket, n)) (fun '(r, (c', n')) =>
    exists tk,
      Forall (fun x => own x.1) tk /\
      (forall r, own r -> taken_from r tk = queue r n /\ finished r n') /\
      ends_with (sock_wire socket ++ wires (pending ++ taken_frames name tk ++ [frame_erase frame_term])) r c' n') /\
  forall F c1 n1, owes F c1 n1 ->
    runs finite_work (fun fuel => closing_poll fuel cx (c1, n1)) (fun '(r, (c', n')) => ends_with F r c' n').
Proof.
  intros Hn Hs Hrs Hp Hc.
  assert (Hpost : forall W c n (Q : poll (result unit ConnectionError) -> CS -> Prop), closing_ok W c n ->
    (forall fuel, post (closing_poll fuel cx) Q (c, n)) ->
    runs finite_work (fun fuel => closing_poll fuel cx (c, n)) (fun '(r, s) => Q r s)).
  { clear. intros W c n Q Hok HQ. destruct (closing_poll_runs W c n cx Hok) as [R1 R2]. split; [| exact R2].
    intros fuel. specialize (R1 fuel). specialize (HQ fuel). unfold post in HQ.
    by destruct (closing_poll fuel cx (c, n)) as [[r s]| |]. }
  split.
  - pose proof (closing_new_ok rs pending socket n Hn Hs Hrs Hp) as Hok.
    assert (Hstep : closing_step own name (sock_wire socket ++ wires pending) n (closing_new rs pending socket) n).
    { left. exists []. split; [by apply less_same; intros r Hr; split; [apply (cb_known _ _ _ _ Hc) |] |].
      split; [| exact Hc]. unfold due, taken_frames. simpl. by rewrite app_nil_r. }
    eapply runs_mono; [eapply Hpost; [exact Hok | intros fuel; by apply closing_poll_exact with (1 := Hok)] |].
    intros [r [c' n']] (F' & tk & (-> & Ho & Hq) & He). exists tk. split_and!; [done | done |].
    by rewrite wires_app, app_assoc.
  - intros F c1 n1 Ho. pose proof Ho as ([W Hok] & _).
    eapply runs_mono; [eapply Hpost; [exact Hok | intros fuel; by apply owes_poll] |]. by intros [r [c' n']].
Qed.

(** ** A connection that is closed with a command in a channel *)

Definition cp_receivers : @Receivers fifo fair := ac_receivers (fst ex_one).
Definition cp_ping : list (Frame unit) := [frame_erase (frame_ping 1)].

Lemma cp_members : cp_receivers = [mkTagged 1 (1%positive : @Receiver fifo) false].
Proof. vm_compute. reflexivity. Qed.

Lemma cp_closable : closable fw_own fw_name cp_receivers (net fw_world).
Proof.
  split.
  - rewrite cp_members. by apply Forall_singleton.
  - intros r ->. vm_compute. reflexivity.
  - intros r ->. right. rewrite cp_members. exists (mkTagged 1 (1%positive : @Receiver fifo) false). by split; [left |].
Qed.

Lemma cp_keys : select_all_all key_ok cp_receivers.
Proof. rewrite cp_members. apply Forall_singleton. vm_compute. split; discriminate. Qed.

Lemma cp_ping_ok : Forall frame_wf cp_ping.
Proof. apply Forall_singleton, frame_wf_erase, frame_ping_wf. vm_compute. split; discriminate. Qed.

(** The close that waits in the channel is sent, between the ping and the [GoAway]. *)
Lemma closing_graceful_witness :
  exists fuel r c n, closing_poll fuel 7%positive (closing_new cp_receivers cp_ping ex_socket, net fw_world) = Ret (r, (c, n)) /\
    ends_with (wires (cp_ping ++ [command_frame 1 (CloseStream true)] ++ [frame_erase frame_term])) r c n.
Proof.
  destruct (closing_graceful fw_own fw_name cp_receivers cp_ping ex_socket (net fw_world) 7%positive
    (co_net _ _ _ _ fw_conn_ok) ex_socket_ok cp_keys cp_ping_ok cp_closable) as [[Hsafe Htot] _].
  destruct (Htot ex_finite) as (fuel & [r [c n]] & He). exists fuel, r, c, n. specialize (He fuel (le_n fuel)).
  split; [exact He |]. specialize (Hsafe fuel). rewrite He in Hsafe. destruct Hsafe as (tk & Ho & Hq & Hend).
  destruct (Hq (1%positive : @Receiver fifo) eq_refl) as [Htk _].
  assert (Hqueue : queue (1%positive : @Receiver fifo) (net fw_world) = [CloseStream true]) by (vm_compute; reflexivity).
  rewrite Hqueue in Htk. unfold taken_from in Htk.
  assert (Hf : taken_frames fw_name tk = map (command_frame 1) [CloseStream true]).
  { rewrite <- Htk. clear -Ho. induction Ho as [|[q cmd] tk Hx _ IH]; [done |]. unfold fw_own in Hx. simpl in *. subst q.
    rewrite decide_True by done. exact (f_equal (cons _) IH). }
  rewrite Hf in Hend. exact Hend.
Defined.
