(* ===== verification/Stranded.v ===== *)
(** * A writer that is left behind

    A run of two connections after which nothing is under way and a program waits for credit that
    nobody owes it: its remote has closed the stream and dropped the handle. *)
From Stdlib Require Import ZArith Lia Strings.Byte.
From stdpp Require Import base option list gmap relations numbers.
From S2P Require Import Prelude.
From S2P Require Import Header.
From S2P Require Import Frame.
From S2P Require Import Config.
From S2P Require Import Command.
From S2P Require Import ChunkList.
From S2P Require Import FlowControl.
From S2P Require Import Shared.
From S2P Require Import Heap.
From S2P Require Import Channel.
From S2P Require Import TaggedStream.
From S2P Require Import StreamHandle.
From S2P Require Import StreamSpec.
From S2P Require Import Link.
From S2P Require Import FrameIo.
From S2P Require Import FrameIoSpec.
From S2P Require Import FrameRoundTrip.
From S2P Require Import Connection.
From S2P Require Import ConnInvariant.
From S2P Require Import ConnLoop.
From S2P Require Import ConnectionState.
From S2P Require Import Forward.
From S2P Require Import FramedSocket.
From S2P Require Import Fifo.
From S2P Require Import System.
From S2P Require Import Example.
From S2P Require Import ForwardProps.
From S2P Require Import Joined.
From S2P Require Import Transport.
From S2P Require Import PeerStore.
From S2P Require Import PeerSteps.
From S2P Require Import Parting.
From S2P Require Import PeerMethods.
From S2P Require Import Peers.
From S2P Require Import PeersProps.

(** ** The run *)

(** One frame may carry the whole window. *)
Definition ps_cfg (m : Mode) : Config := set_split_send_size DEFAULT_CREDIT ex_cfg.

Lemma ps_cfg_ok m : config_ok (ps_cfg m).
Proof. destruct ex_cfg_ok as (H1 & H2 & H3 & H4). split_and!; try done; vm_compute; discriminate. Qed.

Definition ps_start (arrive : Mode -> list (list byte)) : Peers :=
  peers_new ps_cfg (fun m => framed_new (mkScript (arrive m) [] (Z.to_nat DEFAULT_CREDIT) [])) (fun _ => ex_clock) (fun _ => net_new).
Definition ps_run (arrive : Mode -> list (list byte)) (ts : list (Mode * Turn)) : Peers :=
  default (ps_start arrive) (peers_run ps_cfg 40 7%positive ts (ps_start arrive)).

(** The client opens a stream and writes five bytes. *)
Definition ps_opens : list (Mode * Turn) :=
  [(Client, TConn CNewOutbound); (Client, THandle 0 (HWrite ex_bytes)); (Client, TConn CNextInbound)].

(** The server accepts the stream, closes it, and then drops the handle. *)
Definition ps_drops : list (Mode * Turn) :=
  [(Server, TConn CNextInbound); (Server, THandle 0 HClose); (Server, TConn CNextInbound);
   (Server, TDrop 0); (Server, TConn CNextInbound)].

(** The client hears of the end of that half, and writes as much as it may. *)
Definition ps_writes : list (Mode * Turn) :=
  [(Client, TConn CNextInbound); (Client, THandle 0 (HWrite (replicate (Z.to_nat DEFAULT_CREDIT) x00)));
   (Client, TConn CNextInbound)].

(** All of this arrives, and both connections are polled once more. *)
Definition ps_reads : list (Mode * Turn) :=
  [(Server, TConn CNextInbound); (Client, TConn CNextInbound); (Server, TConn CNextInbound)].

(** What the sockets deliver is what the other side has sent. *)
Definition ps_out1 : list byte := pi_sent Client (ps_run (of_mode [[]; []] []) ps_opens).
Definition ps_out2 : list byte := pi_sent Server (ps_run (of_mode [[]; []] [ps_out1; []; []; []]) (ps_opens ++ ps_drops)).
Definition ps_out3 : list byte :=
  pi_sent Client (ps_run (of_mode [[]; ps_out2; []; []] [ps_out1; []; []; []]) (ps_opens ++ ps_drops ++ ps_writes)).
Definition ps_arrive : Mode -> list (list byte) :=
  of_mode [[]; ps_out2; []; []; []] [ps_out1; []; []; drop (length ps_out1) ps_out3; []; []].
Definition ps_turns : list (Mode * Turn) := ps_opens ++ ps_drops ++ ps_writes ++ ps_reads.

(** ** Where it ends *)

(** What is to be seen there, as a test. *)
Definition strands (p : Peers) : bool :=
  is_idle Client p && is_idle Server p &&
  match sy_handles (sd_sys (side Client p)), sy_handles (sd_sys (side Server p)), sy_state (sd_sys (side Server p)) with
  | [h], [], StActive b =>
      bool_decide (ac_streams b !! st_id h = None) &&
      match cells (mem (sy_world (sd_sys (side Client p)))) !! st_shared h with
      | Some c => can_write (sh_state (contents c)) && (send_window (contents c) =? 0)
      | None => false
      end &&
      match poll_write 7%positive [x00] (h, sy_world (sd_sys (side Client p))) with Ret (Pending, _) => true | _ => false end
  | _, _, _ => false
  end.

Lemma ps_ran :
  match peers_run ps_cfg 40 7%positive ps_turns (ps_start ps_arrive) with Some p => strands p | None => false end = true.
Proof. vm_compute. reflexivity. Qed.

Lemma strands_end : exists p, met ps_cfg p /\ strands p = true.
Proof.
  pose proof ps_ran as Hr. destruct (peers_run ps_cfg 40 7%positive ps_turns (ps_start ps_arrive)) as [p|] eqn:He; [| done].
  exists p. split; [| exact Hr].
  eexists _, _, _. split_and!; [intros m; apply ps_cfg_ok | intros m; apply ex_clock_ok | intros m; apply net_new_ok | |
    exact (peers_run_steps _ _ _ _ _ _ He)].
  intros m. by apply new_ready.
Qed.

(** C37: a half-closed stream can leave its writer behind. Two connections of this code can come to a state
    in which both are active and nothing is under way between them, in either direction; the client
    holds a stream that it may still write, without credit, and its [poll_write] is [Pending]; and the
    server, whose program has closed the stream and then dropped the handle, has neither a handle nor a
    record of it, and has not told the client. *)
Theorem half_closed_drop_strands_writer :
  exists p h b c s', met ps_cfg p /\ idle Client p /\ idle Server p /\
    sy_handles (sd_sys (side Client p)) = [h] /\
    cells (mem (sy_world (sd_sys (side Client p)))) !! st_shared h = Some c /\
    can_write (sh_state (contents c)) = true /\ send_window (contents c) = 0 /\
    poll_write 7%positive [x00] (h, sy_world (sd_sys (side Client p))) = Ret (Pending, s') /\
    sy_handles (sd_sys (side Server p)) = [] /\
    sy_state (sd_sys (side Server p)) = StActive b /\ ac_streams b !! st_id h = None.
Proof.
  destruct strands_end as (p & Hm & Hs). unfold strands in Hs.
  apply andb_true_iff in Hs as [[Hc%is_idle_ok Hv%is_idle_ok]%andb_true_iff Hs].
  destruct (sy_handles (sd_sys (side Client p))) as [|h [|]] eqn:Hh; [done | | done].
  destruct (sy_handles (sd_sys (side Server p))) eqn:Hh'; [| done].
  destruct (sy_state (sd_sys (side Server p))) as [b | | | |] eqn:Hb; try done.
  apply andb_true_iff in Hs as [[Hn%bool_decide_eq_true Hcell]%andb_true_iff Hp].
  destruct (cells (mem (sy_world (sd_sys (side Client p)))) !! st_shared h) as [c|] eqn:Hl; [| done].
  apply andb_true_iff in Hcell as [Hcw Hz%Z.eqb_eq].
  destruct (poll_write _ _ _) as [[[|] s']| |] eqn:Hw; try done. by exists p, h, b, c, s'.
Qed.
